(* ===== verification/_CoqProject ===== *)
-Q . S2P
Prelude.v
Memory.v
CList.v
Kbuf.v
Stat.v
ModuleThm.v
Fun.v
Device.v
DeviceInv.v
DeviceSafe.v
DeviceWake.v
DevicePolite.v
DeviceStat.v
DeviceRead.v
DeviceThm.v
Buffer.v
Pipeline.v
PipelineInv.v
PipelineMove.v
PipelineLive.v
PipelineDone.v
PipelineProgress.v
PipelineTerm.v
PipelineStart.v
PipelineItems.v
PipelineSig.v
PipelineClean.v
Writer.v
Reader.v
System.v
KExpr.v
KExprEq.v
KExprTrans.v
KExprDups.v
KExprThm.v
CString.v
Kallsyms.v
KallsymsStr.v
KallsymsInv.v
KallsymsThm.v
Sumversion.v
SumversionThm.v
Fixdep.v
FixdepInv.v
FixdepThm.v
Unifdef.v
UnifdefStep.v
UnifdefCpp.v
UnifdefEnds.v
UnifdefSafe.v
UnifdefThm.v
KSymbol.v
KSymbolEnds.v
KSymbolCheck.v
KSymbolTable.v
KSymbolRef.v
KSymbolCalc.v
KSymbolSet.v
KSymbolThm.v
KConf.v
KConfWrite.v
KConfLine.v
KConfText.v
KConfFixed.v
KConfMenus.v
KConfSave.v
KConfLoad.v
KConfAny.v
KConfRound.v
KConfThm.v
KConfSplit.v
KConfBuild.v
Rebuild.v
