(* ===== verification/Prelude.v ===== *)
(** * A kernel FIFO device, its writer and reader processes, and build tools

    ** The program

    The repository holds a Linux 2.6 kernel module (src/Module) with a misc
    device that stores strings in a FIFO buffer, a writer process (src/Writer)
    whose threads create words, turn them to lower case and write them to the
    device, a reader process (src/Reader) whose threads read strings, turn them
    to upper case and print them, and the kernel tree the module is built in
    (src/Vm/linux-2.6.19), with the build tools that configure the kernel and
    post-process its objects.

    ** What models what

    This file: faults and results of C code, the state and fault monad, machine
    integers, runs of a step relation.

    The module.
    - Memory, CList: heap of blocks, kmalloc and kfree, C strings, the linked
      list of kbuf.h.
    - Kbuf: kbuf.c.  Stat: stat.c.  ModuleThm: their theorems.
    - Device: main.c as a transition system.  The state [sys] has the static
      variables, the heap and the tasks; a task is a program counter in
      my_open, my_close, my_read, my_write, kt_stat or kt_realloc, and a step
      is what it does between two points where another task can run.
      wait_event_interruptible is unfolded (wait.h).
    - DeviceInv, DeviceSafe, DeviceWake, DevicePolite, DeviceStat, DeviceRead:
      invariants; DeviceThm: theorems and runs.

    The processes.
    - Fun: fun.c.  Buffer: both copies of buffer.c.
    - Pipeline: the threads of write.c and read.c over common steps, with
      mutexes, condition variables, joins and the signal handler; the stages
      of the two programs are an interface ([Class]) that Writer and Reader
      implement.
    - PipelineInv to PipelineSig: invariants, progress, the bound on steps, the
      accounting of strings, signals; PipelineClean: cleanup.
    - Writer, Reader: main, the instances and theorems.  System: both processes
      and the device together.

    The build tools.
    - KExpr: kconfig/expr.c, dependency expressions over three values.
      KExprEq, KExprTrans, KExprDups: lemmas; KExprThm: theorems.
    - KSymbol: kconfig/symbol.c, the symbols of the configuration in a hash
      table, whose values are computed on demand from prompts, defaults, reverse
      dependencies and ranges; the state [kst] has the structs by their
      addresses, the chains and the static variables.  KSymbolEnds: termination;
      KSymbolCheck: the search for recursive dependencies; KSymbolTable: the
      hash table; KSymbolRef: reference equations for the values, over the
      evaluator of KExpr; KSymbolCalc, KSymbolSet: the computed values solve
      them, before and after the user sets one; KSymbolThm: theorems.
    - KConf: the reading half of kconfig/confdata.c; KConfWrite: the writing
      half, with the functions of menu.c and util.c it calls.  The state [conf]
      has the symbols, the menus, the counters and a log of what was done to
      files; the file system is an argument.  KConfLine, KConfText: a line that
      was written is read back; KConfFixed: saved values solve the equations
      again; KConfMenus: the order of the menus; KConfSave: the text that is
      written; KConfLoad, KConfRound: reading it; KConfAny: reading any text;
      KConfThm: theorems.  KConfSplit: the files that are touched for changed
      symbols and the lines of auto.conf; KConfBuild: theorems on them.
    - Fixdep: basic/fixdep.c, the whole program.  FixdepInv: reference
      definitions, the buffer of names and the search; FixdepThm: theorems.
      Rebuild: confdata.c and fixdep.c together.
    - CString: functions of the C library on characters and numbers that the
      tools share.
    - Kallsyms: kallsyms.c.  KallsymsStr, KallsymsInv: lemmas; KallsymsThm:
      theorems.
    - Sumversion: mod/sumversion.c with two helpers of mod/modpost.c.
      SumversionThm: theorems.
    - Unifdef: unifdef.c, its line parser and its state machine, in a monad of
      its own.  UnifdefStep: what each entry of the transition table does;
      UnifdefCpp: a reference preprocessor and the relation between the groups
      open in input and output; UnifdefEnds, UnifdefSafe: ends of runs;
      UnifdefThm: theorems.

    ** What is shown

    The driver, for any number of processes, any schedule and any signals: it
    refines a bounded queue of strings; its mutex excludes; a sleeping reader is
    woken; with clients that keep the protocol a step faults exactly when
    kmalloc has no memory for a pushed string or for a snapshot, or at the
    division before the first sample; the statistics and the new maximum are
    computed as meant.  Runs show what goes wrong: overruns for
    unchecked lengths, a writer that sleeps although there is room, a division
    by zero, leaked memory.

    The processes: without SIGINT they terminate within a number of steps, are
    never stuck and account for every string; with signals they are memory safe
    and their mutexes exclude, cleanup runs once and destroys nothing that is in
    use, but the handler can block them for ever.
    Together with the device every printed string is a created word.

    Expressions: expr_eq, expr_transform, expr_eliminate_yn and
    expr_eliminate_dups return and keep values (the last one only without 'm',
    with a counterexample otherwise); normal forms and constant-free forms;
    comparison with constants; the symbols a value depends on.

    Symbols: computing values always ends; without choices and recursion the
    values solve the reference equations in whatever order they are computed,
    int values lie in their ranges, and a value that the user may set is the
    next value; the search for recursive dependencies reports exactly the
    cycles of what it follows (ranges are not followed, and then values depend
    on the order); the hash table is a map.

    Configurations: what conf_write puts into the file, in terms of the
    reference equations and the order of the menus; reading that file restores
    every value without a warning, provided that numbers are not empty and the
    lines can be read; reading any other text does not fail and leaves valid
    values.

    The build: conf_write_autoconf touches the files of the symbols that are out
    of date before it replaces auto.conf; it returns 0 exactly if every step
    worked, and otherwise the old auto.conf is still there; fixdep prints, for each object, a dependency on the files of the
    symbols that a search of its sources finds; so a change of a symbol touches
    what the objects that use it depend on.  fixdep misses names at the ends of
    files.

    Kallsyms: compressing and expanding is the identity on every valid symbol,
    the compression stays in its blocks, the pair counts are exact and the
    choice is a most frequent pair; with few symbols write_src does not end.

    Version sums: the digest in pieces is the digest of the whole by a
    reference, and a file counts by its text without comments and white space,
    as a character machine defines it; a revision keyword is cut down to its
    number, in memory and in the file.

    Unifdef: for every truth of the conditions it does not know, a preprocessor
    keeps the same lines of its output as of its input; it always ends, and it
    does not abort on text whose lines end with a newline of their own; inputs
    on which it aborts or reads outside an array.

    ** Bounds

    Step relations need no fuel.  Loops of the C code with a data-dependent
    bound have fuel and theorems that a stated amount is enough: three times
    the sizes for expr_eq, twice the height for expr_transform, fourteen times
    the size and one round more than the size for expr_eliminate_dups, a nesting
    of 257 for expand_symbol (one for each code), one more than the
    number of symbols without a value for sym_calc_value, one more than the
    number of symbols for sym_check_deps, twice the number of menus for
    conf_write, the length of the file for the version sums and for fixdep, 21
    doublings for its buffer (twenty lead from the first size to the largest),
    multiples of the length of the line and the number of lines for unifdef.
    Integers are [Z], wrapped at the width of the C type
    where the code can exceed it.

    ** Not modelled

    Scheduling and allocation in the kernel (parameters or arbitrary choices),
    the text of messages, the ids of the threads of the processes, the values of
    choices beyond termination and reading, symbols that auto.conf
    brings in with a quoted value (S_OTHER) in the theorems on the build, the
    construction of menus by the parser, the ELF side of modpost, user
    interfaces, generated parsers, and headers the module does not use. *)

From stdpp Require Import base numbers list option gmap.

(** ** Results of C code: a value or a fault *)

(** What the machine does when a C program leaves its contract.  A fault in
    the kernel module is an oops, one in a user process a signal. *)
Inductive fault :=
  | NullDeref      (* access through NULL *)
  | BadAccess      (* access to a block that was never allocated or is freed *)
  | OutOfBounds    (* index outside the block *)
  | UninitRead     (* use of a cell that was never written *)
  | TypeConfusion  (* an integer used as a pointer or the converse *)
  | BadFree        (* kfree/free of something that is no live block *)
  | DivError       (* #DE: division by zero or quotient overflow *)
  | NoFuel.        (* a loop did not end within the fuel of its model *)

Inductive res (A : Type) :=
  | Ok (a : A)
  | Err (f : fault).
Arguments Ok {A} _.
Arguments Err {A} _.

#[export] Instance fault_eq_dec : EqDecision fault.
Proof. solve_decision. Defined.
#[export] Instance res_eq_dec `{EqDecision A} : EqDecision (res A).
Proof. solve_decision. Defined.

Definition rbind {A B} (r : res A) (k : A → res B) : res B :=
  match r with Ok a => k a | Err f => Err f end.

(** ** The state and fault monad of the C functions *)

Definition M (S A : Type) : Type := S → res (A * S).

Definition ret {S A} (a : A) : M S A := λ s, Ok (a, s).

Definition bind {S A B} (m : M S A) (k : A → M S B) : M S B := λ s,
  match m s with
  | Ok (a, s') => k a s'
  | Err f => Err f
  end.

(** A pure computation that may fault. *)
Definition lift {S A} (r : res A) : M S A := λ s,
  match r with Ok a => Ok (a, s) | Err f => Err f end.

Declare Scope c_scope.
Delimit Scope c_scope with C.
Notation "x <- m ;; k" := (bind m (λ x, k))
  (at level 20, m at level 99, k at level 200) : c_scope.
Notation "' p <- m ;; k" := (bind m (λ x, match x with p => k end))
  (at level 20, p pattern, m at level 99, k at level 200) : c_scope.
Notation "m ;;; k" := (bind m (λ _, k))
  (at level 100, k at level 200, right associativity) : c_scope.

(** Running a sequence: the first command succeeds, the rest continues. *)
Lemma bind_ok {S A B} (m : M S A) (k : A → M S B) s a s' :
  m s = Ok (a, s') → bind m k s = k a s'.
Proof. unfold bind. by intros ->. Qed.

Lemma bind_err {S A B} (m : M S A) (k : A → M S B) s f :
  m s = Err f → bind m k s = Err f.
Proof. unfold bind. by intros ->. Qed.

Lemma bind_inv {S A B} (m : M S A) (k : A → M S B) s b s'' :
  bind m k s = Ok (b, s'') →
  ∃ a s', m s = Ok (a, s') ∧ k a s' = Ok (b, s'').
Proof. unfold bind. destruct (m s) as [[a s']|] eqn:E; [eauto|done]. Qed.

Lemma lift_ok {S A} (r : res A) a (s : S) : r = Ok a → lift r s = Ok (a, s).
Proof. by intros ->. Qed.

Lemma lift_err {S A} (r : res A) f (s : S) :
  r = Err f → lift (A := A) r s = Err f.
Proof. by intros ->. Qed.

Lemma ret_ok {S A} (a : A) (s : S) : ret a s = Ok (a, s).
Proof. done. Qed.

Create HintDb cmem.
#[export] Hint Resolve lift_ok ret_ok : cmem.

(** [mstep] runs the next command of a sequence on the left of an equation,
    with the lemmas of the hint database [cmem]; [mstep with H] gives the
    lemma. *)
Ltac mstep :=
  lazymatch goal with
  | |- bind _ _ _ = _ => erewrite bind_ok; [ | solve [eauto 4 with cmem] ]; cbn beta
  end.
Ltac mstep_with H :=
  lazymatch goal with
  | |- bind _ _ _ = _ => erewrite bind_ok; [ | apply H ]; cbn beta
  end.

(** ** Machine integers: i386, two's complement *)

(** An [int] result out of range wraps around. *)
Definition wrap32 (z : Z) : Z := (z + 2^31) mod 2^32 - 2^31.
(** Conversion to [char], which is signed on i386. *)
Definition wrap8 (z : Z) : Z := (z + 2^7) mod 2^8 - 2^7.
(** Conversion to [size_t], 32 bits. *)
Definition wrapu32 (z : Z) : Z := z mod 2^32.

Definition INT_MAX : Z := 2^31 - 1.
Definition INT_MIN : Z := - 2^31.

Definition int_range (z : Z) : Prop := (INT_MIN ≤ z ≤ INT_MAX)%Z.
Definition char_range (z : Z) : Prop := (-128 ≤ z < 128)%Z.

#[export] Instance int_range_dec z : Decision (int_range z).
Proof. unfold int_range. apply _. Defined.

Ltac unfold_ranges :=
  unfold int_range, char_range, INT_MAX, INT_MIN in *.

Lemma wrap32_id z : int_range z → wrap32 z = z.
Proof.
  unfold_ranges. intros H. unfold wrap32.
  rewrite Z.mod_small by lia. lia.
Qed.

Lemma wrap32_range z : int_range (wrap32 z).
Proof.
  unfold wrap32. unfold_ranges.
  pose proof (Z.mod_pos_bound (z + 2^31) (2^32) ltac:(lia)). lia.
Qed.

Lemma wrap8_id z : char_range z → wrap8 z = z.
Proof.
  unfold_ranges. intros H. unfold wrap8.
  rewrite Z.mod_small by lia. lia.
Qed.

Lemma wrap8_range z : char_range (wrap8 z).
Proof.
  unfold wrap8. unfold_ranges.
  pose proof (Z.mod_pos_bound (z + 2^7) (2^8) ltac:(lia)). lia.
Qed.

Lemma wrapu32_id z : (0 ≤ z < 2^32)%Z → wrapu32 z = z.
Proof. intros H. unfold wrapu32. by apply Z.mod_small. Qed.

(** A difference that vanishes modulo 2^32 does not change the wrapped value. *)
Lemma wrap32_add_wrap32 a b : wrap32 (wrap32 a + b) = wrap32 (a + b).
Proof.
  unfold wrap32. f_equal.
  replace ((a + 2 ^ 31) `mod` 2 ^ 32 - 2 ^ 31 + b + 2 ^ 31)%Z
    with ((a + 2 ^ 31) `mod` 2 ^ 32 + b)%Z by lia.
  rewrite Zplus_mod_idemp_l. f_equal. lia.
Qed.

#[export] Hint Resolve wrap32_range wrap8_range : cmem.

(** C's [/] and [%] truncate; the processor traps on a zero divisor and on a
    quotient that does not fit. *)
Definition cdiv (a b : Z) : res Z :=
  if bool_decide (b = 0)%Z then Err DivError
  else if bool_decide (a = INT_MIN ∧ b = -1)%Z then Err DivError
  else Ok (Z.quot a b).

Definition cmod (a b : Z) : res Z :=
  if bool_decide (b = 0)%Z then Err DivError
  else if bool_decide (a = INT_MIN ∧ b = -1)%Z then Err DivError
  else Ok (Z.rem a b).

Lemma cdiv_pos a b : (0 ≤ a)%Z → (0 < b)%Z → cdiv a b = Ok (a / b)%Z.
Proof.
  intros. unfold cdiv. rewrite !bool_decide_false by (unfold_ranges; lia).
  by rewrite Z.quot_div_nonneg by lia.
Qed.

Lemma cmod_pos a b : (0 ≤ a)%Z → (0 < b)%Z → cmod a b = Ok (a mod b)%Z.
Proof.
  intros. unfold cmod. rewrite !bool_decide_false by (unfold_ranges; lia).
  by rewrite Z.rem_mod_nonneg by lia.
Qed.

Lemma cmod_zero a : cmod a 0 = Err DivError.
Proof. done. Qed.

(** ** Reachability *)

Section closure.
Context {S L : Type} (step : S → L → S → Prop).

(** A run: the labels of the steps in order. *)
Inductive run : S → list L → S → Prop :=
  | run_nil s : run s [] s
  | run_snoc s t tr l u : run s tr t → step t l u → run s (tr ++ [l]) u.

Lemma run_invariant (I : S → list L → Prop) s0 :
  I s0 [] →
  (∀ s tr l t, I s tr → step s l t → I t (tr ++ [l])) →
  ∀ tr s, run s0 tr s → I s tr.
Proof. intros H0 Hs tr s Hr. remember s0 as z. induction Hr; subst; eauto. Qed.

Lemma run_one s l t : step s l t → run s [l] t.
Proof. intros H. apply (run_snoc s s [] l t); [constructor|done]. Qed.

Lemma run_trans s tr t tr' u : run s tr t → run t tr' u → run s (tr ++ tr') u.
Proof.
  intros H1 H2. induction H2 as [|t t1 tr' l u H2 IH Hst].
  - by rewrite app_nil_r.
  - rewrite app_assoc. eapply run_snoc; eauto.
Qed.
End closure.

(** ** Lists *)

Lemma last_cons_ne {A} (x : A) l : l ≠ [] → last (x :: l) = last l.
Proof. by destruct l. Qed.
