(* ===== verification/Memory.v ===== *)
(** * Memory of a C program

    A heap of blocks of cells, the kernel's and the processes' allocator as a
    parameter, and the C string functions the sources use ([strlen],
    [strcpy], [strcmp]; include/asm-i386/string.h in the kernel, libc in the
    processes), each with its result on every input, faults included. *)

From stdpp Require Import base numbers list option gmap.
From S2P Require Import Prelude.
Local Open Scope Z_scope.
Local Open Scope c_scope.

(** ** Heaps *)

Abbreviation loc := positive.
(** A pointer to the start of a block; [None] is NULL. *)
Abbreviation ptr := (option loc).

(** One cell: a [char], an [int] or a pointer field. *)
Inductive val :=
  | Undef
  | Int (z : Z)
  | Ptr (p : ptr).

#[export] Instance val_eq_dec : EqDecision val.
Proof. solve_decision. Defined.

Abbreviation block := (list val).
Abbreviation heap := (gmap loc block).
Abbreviation C := (M heap).

(** What the code relies on of kmalloc/malloc, whose source is not part of the
    repository: a request of [n] bytes yields NULL or a block that is not in
    use.  A request may fail at any time. *)
Class Allocator := {
  alloc : heap → Z → option loc;
  alloc_fresh h n l : alloc h n = Some l → h !! l = None }.

(** An allocator that never fails, for the theorems that need one. *)
Class TotalAllocator `{Allocator} := alloc_total h n : is_Some (alloc h n).

Section access.
Context `{Allocator}.

(** [malloc bytes cells]: [bytes] is the argument of the call, [cells] the
    number of cells a block of that size has (1 byte per [char], 4 per [int]
    or pointer).  The cells are not initialised. *)
Definition malloc (bytes cells : Z) : C ptr := λ h,
  match alloc h (wrapu32 bytes) with
  | Some l => Ok (Some l, <[l := replicate (Z.to_nat cells) Undef]> h)
  | None => Ok (None, h)
  end.

(** A block of characters. *)
Definition malloc_chars (n : Z) : C ptr := malloc n (wrapu32 n).

(** free/kfree: NULL is a no-op. *)
Definition free (p : ptr) : C unit := λ h,
  match p with
  | None => Ok (tt, h)
  | Some l => match h !! l with
              | Some _ => Ok (tt, delete l h)
              | None => Err BadFree
              end
  end.

Definition load_block (p : ptr) : C block := λ h,
  match p with
  | None => Err NullDeref
  | Some l => match h !! l with Some b => Ok (b, h) | None => Err BadAccess end
  end.

Definition store_block (p : ptr) (b : block) : C unit := λ h,
  match p with
  | None => Err NullDeref
  | Some l => match h !! l with Some _ => Ok (tt, <[l := b]> h) | None => Err BadAccess end
  end.

(** [p[i]] *)
Definition load (p : ptr) (i : Z) : C val :=
  b <- load_block p;;
  if bool_decide (i < 0) then lift (Err OutOfBounds)
  else match b !! Z.to_nat i with
       | Some v => ret v
       | None => lift (Err OutOfBounds)
       end.

(** [p[i] = v] *)
Definition store (p : ptr) (i : Z) (v : val) : C unit :=
  b <- load_block p;;
  if bool_decide (0 ≤ i < Z.of_nat (length b)) then store_block p (<[Z.to_nat i := v]> b)
  else lift (Err OutOfBounds).

Definition as_int (v : val) : res Z :=
  match v with Int z => Ok z | Undef => Err UninitRead | Ptr _ => Err TypeConfusion end.
Definition as_ptr (v : val) : res ptr :=
  match v with Ptr p => Ok p | Undef => Err UninitRead | Int _ => Err TypeConfusion end.

Definition load_int (p : ptr) (i : Z) : C Z := v <- load p i;; lift (as_int v).
Definition load_ptr (p : ptr) (i : Z) : C ptr := v <- load p i;; lift (as_ptr v).

(** ** C strings *)

(** [strlen] scans for the terminator. *)
Fixpoint strlen_cells (b : block) : res Z :=
  match b with
  | [] => Err OutOfBounds
  | Int c :: b' => if bool_decide (c = 0) then Ok 0
                   else rbind (strlen_cells b') (λ n, Ok (n + 1))
  | Undef :: _ => Err UninitRead
  | Ptr _ :: _ => Err TypeConfusion
  end.

Definition strlen (p : ptr) : C Z := b <- load_block p;; lift (strlen_cells b).

(** [strcpy] copies up to and with the terminator, with no bound on the
    destination but the block itself. *)
Fixpoint strcpy_cells (dst src : block) : res block :=
  match src, dst with
  | [], _ => Err OutOfBounds
  | Undef :: _, _ => Err UninitRead
  | Ptr _ :: _, _ => Err TypeConfusion
  | Int _ :: _, [] => Err OutOfBounds
  | Int c :: src', _ :: dst' =>
      if bool_decide (c = 0) then Ok (Int 0 :: dst')
      else rbind (strcpy_cells dst' src') (λ d, Ok (Int c :: d))
  end.

Definition strcpy (dst src : ptr) : C unit :=
  s <- load_block src;;
  d <- load_block dst;;
  r <- lift (strcpy_cells d s);;
  store_block dst r.

(** [strcmp]: the sign of the first difference, characters taken unsigned. *)
Fixpoint strcmp_cells (a b : block) : res Z :=
  match a, b with
  | Int c :: a', Int d :: b' =>
      let cu := c mod 256 in let du := d mod 256 in
      if bool_decide (cu < du) then Ok (-1)
      else if bool_decide (du < cu) then Ok 1
      else if bool_decide (c = 0) then Ok 0 else strcmp_cells a' b'
  | Undef :: _, _ | _, Undef :: _ => Err UninitRead
  | Ptr _ :: _, _ | _, Ptr _ :: _ => Err TypeConfusion
  | _, _ => Err OutOfBounds
  end.

End access.

(** ** Strings as values *)

(** The characters before the terminator: none is NUL. *)
Definition cstring (s : list Z) : Prop := Forall (λ c, c ≠ 0) s.
#[export] Instance char_range_dec z : Decision (char_range z).
Proof. unfold char_range. apply _. Defined.
#[export] Instance cstring_dec s : Decision (cstring s).
Proof. unfold cstring. apply _. Defined.

(** The block [malloc (strlen s + 1)] holds after [strcpy]. *)
Definition cells (s : list Z) : block := (Int <$> s) ++ [Int 0].

(** The string a block holds, as printf's %s shows it. *)
Fixpoint cstr_of (b : block) : list Z :=
  match b with
  | Int c :: b' => if bool_decide (c = 0) then [] else c :: cstr_of b'
  | _ => []
  end.

Definition block_at (h : heap) (p : ptr) : block :=
  match p with Some l => default [] (h !! l) | None => [] end.

Lemma length_cells s : length (cells s) = S (length s).
Proof. unfold cells. rewrite length_app, length_fmap. simpl. lia. Qed.

Lemma cells_inj s t : cells s = cells t → s = t.
Proof.
  unfold cells. intros E. apply app_inj_2 in E as [E _]; [|done].
  revert E. apply list_fmap_eq_inj. by intros ?? [= ->].
Qed.

Lemma cells_cons c s : cells (c :: s) = Int c :: cells s.
Proof. done. Qed.

Lemma cstr_of_cells s rest : cstring s → cstr_of (cells s ++ rest) = s.
Proof.
  induction 1 as [|c s Hc _ IH]; [done|]. rewrite cells_cons. simpl.
  rewrite bool_decide_false by done. by rewrite IH.
Qed.

Lemma strlen_cells_ok s rest :
  cstring s → strlen_cells (cells s ++ rest) = Ok (Z.of_nat (length s)).
Proof.
  induction 1 as [|c s Hc _ IH]; [done|].
  rewrite ?cells_cons. simpl. rewrite bool_decide_false by done.
  rewrite IH. simpl. f_equal. lia.
Qed.

(** A scan that ends has found a terminator. *)
Lemma strlen_cells_inv b n :
  strlen_cells b = Ok n →
  ∃ s rest, b = cells s ++ rest ∧ cstring s ∧ n = Z.of_nat (length s).
Proof.
  revert n. induction b as [|v b IH]; intros n E; [done|].
  destruct v as [|c|]; try done. simpl in E. case_bool_decide as Hc.
  - injection E as <-. subst c. exists [], b. split; [done|]. split; [constructor|done].
  - destruct (strlen_cells b) as [m|] eqn:Em; [|done]. injection E as <-.
    destruct (IH m eq_refl) as (s & rest & -> & Hs & ->).
    exists (c :: s), rest. split; [done|]. split; [by constructor|]. simpl. lia.
Qed.

Lemma strcpy_cells_ok s rest d :
  cstring s → (length s < length d)%nat →
  strcpy_cells d (cells s ++ rest) = Ok (cells s ++ drop (S (length s)) d).
Proof.
  intros Hs. revert d. induction Hs as [|c s Hc _ IH]; intros [|x d] Hl;
    simpl in Hl; try lia; [done|].
  rewrite ?cells_cons. simpl. rewrite bool_decide_false by done.
  rewrite IH by lia. done.
Qed.

(** The destination is too small: [strcpy] runs past its end. *)
Lemma strcpy_cells_overrun s rest d :
  cstring s → (length d ≤ length s)%nat →
  strcpy_cells d (cells s ++ rest) = Err OutOfBounds.
Proof.
  intros Hs. revert d. induction Hs as [|c s Hc _ IH]; intros [|x d] Hl;
    simpl in Hl; try lia; [done|done|].
  rewrite ?cells_cons. simpl. rewrite bool_decide_false by done.
  rewrite IH by lia. done.
Qed.

Lemma char_range_mod_inj c d :
  char_range c → char_range d → c mod 256 = d mod 256 → c = d.
Proof. unfold char_range. intros ?? E. Z.div_mod_to_equations. lia. Qed.

(** [strcmp] returns 0 exactly on equal strings. *)
Lemma strcmp_cells_eq s t r1 r2 :
  cstring s → cstring t → Forall char_range s → Forall char_range t →
  ∃ z, strcmp_cells (cells s ++ r1) (cells t ++ r2) = Ok z ∧ (z = 0 ↔ s = t).
Proof.
  intros Hs. revert t. induction Hs as [|c s Hc Hs IH]; intros t Ht Rs Rt.
  - destruct Ht as [|d t Hd Ht]; [by exists 0|]. apply Forall_cons in Rt as [Rd Rt].
    rewrite ?cells_cons. simpl.
    destruct (bool_decide_reflect (0 mod 256 < d mod 256)); [by exists (-1)|].
    destruct (bool_decide_reflect (d mod 256 < 0 mod 256)); [by exists 1|].
    destruct Hd. symmetry. apply char_range_mod_inj; [by unfold char_range|done|lia].
  - apply Forall_cons in Rs as [Rc Rs].
    destruct Ht as [|d t Hd Ht]; rewrite ?cells_cons; simpl.
    + destruct (bool_decide_reflect (c mod 256 < 0 mod 256)); [by exists (-1)|].
      destruct (bool_decide_reflect (0 mod 256 < c mod 256)); [by exists 1|].
      destruct Hc. apply char_range_mod_inj; [done|by unfold char_range|lia].
    + apply Forall_cons in Rt as [Rd Rt].
      destruct (bool_decide_reflect (c mod 256 < d mod 256)) as [|N1];
        [exists (-1); split; [done|]; split; [done|intros [= -> ->]; lia]|].
      destruct (bool_decide_reflect (d mod 256 < c mod 256)) as [|N2];
        [exists 1; split; [done|]; split; [done|intros [= -> ->]; lia]|].
      assert (c = d) as -> by (apply char_range_mod_inj; [done|done|lia]).
      rewrite bool_decide_false by done.
      destruct (IH t Ht Rs Rt) as (z & -> & Hz). exists z. split; [done|].
      rewrite Hz. split; [by intros ->|by intros [= ->]].
Qed.

(** ** Access lemmas *)

Section access_lemmas.
Context `{Allocator}.

Lemma malloc_ok h n c l :
  alloc h (wrapu32 n) = Some l →
  malloc n c h = Ok (Some l, <[l := replicate (Z.to_nat c) Undef]> h).
Proof. unfold malloc. by intros ->. Qed.

Lemma malloc_chars_ok h n l :
  0 ≤ n < 2^32 → alloc h n = Some l →
  malloc_chars n h = Ok (Some l, <[l := replicate (Z.to_nat n) Undef]> h).
Proof.
  intros Hn Hl. unfold malloc_chars. rewrite (malloc_ok _ _ _ l); rewrite !wrapu32_id; done.
Qed.

Lemma malloc_null h n c : alloc h (wrapu32 n) = None → malloc n c h = Ok (None, h).
Proof. unfold malloc. by intros ->. Qed.

Lemma free_ok h l b : h !! l = Some b → free (Some l) h = Ok (tt, delete l h).
Proof. unfold free. by intros ->. Qed.

Lemma free_null h : free None h = Ok (tt, h).
Proof. done. Qed.

Lemma load_block_ok h l b : h !! l = Some b → load_block (Some l) h = Ok (b, h).
Proof. unfold load_block. by intros ->. Qed.

Lemma store_block_ok h l b b' :
  h !! l = Some b → store_block (Some l) b' h = Ok (tt, <[l := b']> h).
Proof. unfold store_block. by intros ->. Qed.

Lemma load_ok h l b i v :
  h !! l = Some b → 0 ≤ i → b !! Z.to_nat i = Some v → load (Some l) i h = Ok (v, h).
Proof.
  intros Hl Hi Hv. unfold load. erewrite bind_ok by eauto using load_block_ok.
  rewrite bool_decide_false by lia. by rewrite Hv.
Qed.

Lemma load_ptr_ok h l b i p :
  h !! l = Some b → 0 ≤ i → b !! Z.to_nat i = Some (Ptr p) →
  load_ptr (Some l) i h = Ok (p, h).
Proof. intros. unfold load_ptr. by erewrite bind_ok by eauto using load_ok. Qed.

Lemma load_int_ok h l b i z :
  h !! l = Some b → 0 ≤ i → b !! Z.to_nat i = Some (Int z) →
  load_int (Some l) i h = Ok (z, h).
Proof. intros. unfold load_int. by erewrite bind_ok by eauto using load_ok. Qed.

Lemma store_ok h l b i v :
  h !! l = Some b → 0 ≤ i < Z.of_nat (length b) →
  store (Some l) i v h = Ok (tt, <[l := <[Z.to_nat i := v]> b]> h).
Proof.
  intros Hl Hi. unfold store. erewrite bind_ok by eauto using load_block_ok.
  rewrite bool_decide_true by done. eauto using store_block_ok.
Qed.

Lemma store_null i v h : store None i v h = Err NullDeref.
Proof. done. Qed.

Lemma strlen_ok h l s rest :
  h !! l = Some (cells s ++ rest) → cstring s →
  strlen (Some l) h = Ok (Z.of_nat (length s), h).
Proof.
  intros Hl Hs. unfold strlen. erewrite bind_ok by eauto using load_block_ok.
  by rewrite (lift_ok _ _ _ (strlen_cells_ok s rest Hs)).
Qed.

Lemma strcpy_ok h ld ls s rest d :
  h !! ls = Some (cells s ++ rest) → h !! ld = Some d →
  cstring s → (length s < length d)%nat →
  strcpy (Some ld) (Some ls) h
    = Ok (tt, <[ld := cells s ++ drop (S (length s)) d]> h).
Proof.
  intros Hl Hd Hs Hn. unfold strcpy.
  erewrite bind_ok by eauto using load_block_ok.
  erewrite bind_ok by eauto using load_block_ok.
  erewrite bind_ok by (apply lift_ok, strcpy_cells_ok; done).
  eauto using store_block_ok.
Qed.

Lemma strcpy_overrun h ld ls s rest d :
  h !! ls = Some (cells s ++ rest) → h !! ld = Some d →
  cstring s → (length d ≤ length s)%nat →
  strcpy (Some ld) (Some ls) h = Err OutOfBounds.
Proof.
  intros Hl Hd Hs Hn. unfold strcpy.
  erewrite bind_ok by eauto using load_block_ok.
  erewrite bind_ok by eauto using load_block_ok.
  by apply bind_err, lift_err, strcpy_cells_overrun.
Qed.

(** A copy that fits exactly leaves nothing behind the terminator. *)
Lemma strcpy_exact h ld ls s rest d :
  h !! ls = Some (cells s ++ rest) → h !! ld = Some d →
  cstring s → length d = S (length s) →
  strcpy (Some ld) (Some ls) h = Ok (tt, <[ld := cells s]> h).
Proof.
  intros Hl Hd Hs Hn. erewrite strcpy_ok by (eauto; lia).
  by rewrite drop_ge, app_nil_r by lia.
Qed.

Lemma alloc_total_some `{!TotalAllocator} h n :
  ∃ l, alloc h n = Some l ∧ h !! l = None.
Proof. destruct (alloc_total h n) as [l Hl]. eauto using alloc_fresh. Qed.

End access_lemmas.

#[export] Hint Resolve load_block_ok store_block_ok free_ok free_null : cmem.

(** ** Counting loops *)

(** [for (i = 0; i < n; i++) acc = body i acc], from [i]; [fuel] bounds the
    turns and [Z.to_nat n] is enough. *)
Fixpoint for_upto {A} (fuel : nat) (i n : Z) (acc : A) (body : Z → A → C A) : C A :=
  if bool_decide (i < n) then
    match fuel with
    | O => lift (Err NoFuel)
    | S fuel' => acc' <- body i acc;; for_upto fuel' (i + 1) n acc' body
    end
  else ret acc.

(** A loop whose body only reads the elements [zs] in turn is a fold. *)
Lemma for_upto_foldl {A B} (f : A → B → A) (body : Z → A → C A) (zs : list B) h :
  (∀ i z acc, zs !! i = Some z → body (Z.of_nat i) acc h = Ok (f acc z, h)) →
  ∀ acc, for_upto (length zs) 0 (Z.of_nat (length zs)) acc body h
         = Ok (foldl f acc zs, h).
Proof.
  intros Hb acc.
  cut (∀ post pre acc, zs = pre ++ post →
    for_upto (length post) (Z.of_nat (length pre)) (Z.of_nat (length zs)) acc body h
    = Ok (foldl f acc post, h)); [intros Hcut; by apply (Hcut zs [])|].
  clear acc. induction post as [|z post IH]; intros pre acc ->.
  - rewrite app_nil_r. simpl. by rewrite bool_decide_false by lia.
  - simpl. rewrite bool_decide_true by (rewrite length_app; simpl; lia).
    erewrite bind_ok
      by (apply Hb; by rewrite lookup_app_r, Nat.sub_diag by lia).
    specialize (IH (pre ++ [z]) (f acc z)). rewrite <- app_assoc in IH.
    rewrite <- IH by done. f_equal. rewrite length_app. simpl. lia.
Qed.

(** ** Two allocators *)

(** Takes the first unused address: never fails. *)
Definition first_fit : Allocator.
Proof.
  refine {| alloc h _ := Some (fresh (dom h)) |}.
  intros h _ l [= <-]. apply not_elem_of_dom, is_fresh.
Defined.

Lemma first_fit_total : @TotalAllocator first_fit.
Proof. intros h n. by eexists. Qed.

(** Refuses requests of more than [limit] bytes. *)
Definition limited (limit : Z) : Allocator.
Proof.
  refine {| alloc h n := if bool_decide (n ≤ limit) then Some (fresh (dom h)) else None |}.
  intros h n l. case_bool_decide; [|done]. intros [= <-].
  apply not_elem_of_dom, is_fresh.
Defined.
