(* ===== verification/CList.v ===== *)
(** * The linked FIFO the three programs share

    [struct kb_node] (Module/kbuf.h) and [struct wbe_struct] (Reader/buffer.h,
    Writer/buffer.h) have the same two fields, and all three queues keep a
    head and a tail pointer.  This file holds the representation of such a
    list in the heap and what one insertion at the tail and one removal at
    the head do to it; the components prove their own operations from it. *)

From stdpp Require Import base numbers list option gmap.
From S2P Require Import Prelude Memory.
Local Open Scope Z_scope.
Local Open Scope c_scope.

(** Field offsets of a node, in cells. *)
Abbreviation F_data := 0.
Abbreviation F_next := 1.
Abbreviation NODE_CELLS := 2.
(** [sizeof(struct kb_node)], [sizeof(wbe)] on i386. *)
Abbreviation SIZEOF_NODE := 8.

(** A node of the list: its address, the address of its string, the string. *)
Record node := Node { n_loc : loc; n_data : loc; n_str : list Z }.

Definition node_block (d : loc) (nx : ptr) : block := [Ptr (Some d); Ptr nx].

(** The heap holds the nodes [ns] linked from [p] to [q]. *)
Fixpoint lseg (h : heap) (p : ptr) (ns : list node) (q : ptr) : Prop :=
  match ns with
  | [] => p = q
  | n :: ns' =>
      p = Some (n_loc n) ∧ cstring (n_str n) ∧
      h !! n_data n = Some (cells (n_str n)) ∧
      ∃ nx, h !! n_loc n = Some (node_block (n_data n) nx) ∧ lseg h nx ns' q
  end.

(** The addresses the list occupies. *)
Definition fp (ns : list node) : list loc := ns ≫= (λ n, [n_loc n; n_data n]).

Definition strings (ns : list node) : list (list Z) := n_str <$> ns.

(** A queue with these head and tail pointers.  The tail of an empty queue is
    never read, so it may be anything. *)
Record fifo (h : heap) (head tail : ptr) (ns : list node) : Prop := {
  fifo_lseg : lseg h head ns None;
  fifo_nodup : NoDup (fp ns);
  fifo_tail : ns ≠ [] → tail = n_loc <$> last ns }.

Lemma fp_cons n ns : fp (n :: ns) = n_loc n :: n_data n :: fp ns.
Proof. done. Qed.

Lemma fp_app ns ms : fp (ns ++ ms) = fp ns ++ fp ms.
Proof. apply bind_app. Qed.

Lemma strings_app ns ms : strings (ns ++ ms) = strings ns ++ strings ms.
Proof. apply fmap_app. Qed.

Lemma length_strings ns : length (strings ns) = length ns.
Proof. apply length_fmap. Qed.

(** Heaps that agree on the footprint hold the same list. *)
Lemma lseg_frame h h' p ns q :
  (∀ l, l ∈ fp ns → h' !! l = h !! l) → lseg h p ns q → lseg h' p ns q.
Proof.
  revert p. induction ns as [|n ns IH]; intros p Hag; [done|].
  rewrite fp_cons in Hag. intros (-> & Hs & Hd & nx & Hl & Hseg).
  split; [done|]. split; [done|]. split; [rewrite Hag; set_solver|].
  exists nx. split; [rewrite Hag; set_solver|].
  apply IH; [|done]. intros l Hin. apply Hag. set_solver.
Qed.

Lemma lseg_live h p ns q l : lseg h p ns q → l ∈ fp ns → is_Some (h !! l).
Proof.
  revert p. induction ns as [|n ns IH]; intros p; [set_solver|].
  rewrite fp_cons. intros (_ & _ & Hd & nx & Hl & Hseg) Hin.
  apply elem_of_cons in Hin as [->|Hin]; [eauto|].
  apply elem_of_cons in Hin as [->|Hin]; eauto.
Qed.

Lemma lseg_app h p ns ms q :
  lseg h p (ns ++ ms) q ↔ ∃ r, lseg h p ns r ∧ lseg h r ms q.
Proof.
  revert p. induction ns as [|n ns IH]; intros p; simpl.
  - split; [eauto|by intros (r & -> & ?)].
  - setoid_rewrite IH. naive_solver.
Qed.

Lemma lseg_strings h p ns q : lseg h p ns q → Forall cstring (strings ns).
Proof.
  revert p. induction ns as [|n ns IH]; intros p; [constructor|].
  intros (_ & Hs & _ & nx & _ & Hseg). constructor; eauto.
Qed.

Lemma fifo_frame h h' hd tl ns :
  (∀ l, l ∈ fp ns → h' !! l = h !! l) → fifo h hd tl ns → fifo h' hd tl ns.
Proof. intros Hag [???]. split; eauto using lseg_frame. Qed.

Lemma fifo_fresh h hd tl ns l : fifo h hd tl ns → h !! l = None → l ∉ fp ns.
Proof. intros [Hseg _ _] Hl Hin. destruct (lseg_live _ _ _ _ _ Hseg Hin). naive_solver. Qed.

(** Blocks outside the footprint may change. *)
Lemma fifo_insert_ne h hd tl ns l b :
  l ∉ fp ns → fifo h hd tl ns → fifo (<[l := b]> h) hd tl ns.
Proof.
  intros Hl. apply fifo_frame. intros k Hk.
  rewrite lookup_insert_ne; [done|]. by intros ->.
Qed.

Lemma fifo_delete_ne h hd tl ns l :
  l ∉ fp ns → fifo h hd tl ns → fifo (delete l h) hd tl ns.
Proof.
  intros Hl. apply fifo_frame. intros k Hk.
  rewrite lookup_delete_ne; [done|]. by intros ->.
Qed.

Lemma fifo_nil h hd tl ns : fifo h hd tl ns → hd = None ↔ ns = [].
Proof.
  intros [Hseg _ _]. destruct ns as [|n ns]; simpl in Hseg; [done|].
  destruct Hseg as (-> & _). done.
Qed.

Lemma fifo_empty h tl : fifo h None tl [].
Proof. split; [done|constructor|done]. Qed.

(** The head node of a non-empty queue. *)
Lemma fifo_head h hd tl n ns :
  fifo h hd tl (n :: ns) →
  hd = Some (n_loc n) ∧ cstring (n_str n) ∧ n_loc n ≠ n_data n ∧
  h !! n_data n = Some (cells (n_str n)) ∧
  ∃ nx, h !! n_loc n = Some (node_block (n_data n) nx) ∧
        (nx = None ↔ ns = []) ∧
        fifo (delete (n_loc n) (delete (n_data n) h)) nx tl ns ∧
        fifo (delete (n_loc n) h) nx tl ns.
Proof.
  intros [(-> & Hs & Hd & nx & Hl & Hseg) Hnd Htl].
  rewrite fp_cons in Hnd. apply NoDup_cons in Hnd as [Hn1 Hnd].
  apply NoDup_cons in Hnd as [Hn2 Hnd].
  assert (fifo h nx tl ns) as Hf.
  { split; [done|done|]. intros Hne. rewrite Htl, last_cons_ne by done. done. }
  split; [done|]. split; [done|]. split; [set_solver|]. split; [done|].
  exists nx. split; [done|]. split; [by eapply fifo_nil|].
  split; repeat (apply fifo_delete_ne; [set_solver|]); done.
Qed.

(** The last node of a non-empty queue: redirecting its next pointer from NULL
    to a new node that is linked to NULL appends that node. *)
Lemma fifo_snoc h hd tl ns l d s :
  fifo h hd tl ns → ns ≠ [] → l ∉ fp ns → d ∉ fp ns → l ≠ d → cstring s →
  h !! l = Some (node_block d None) → h !! d = Some (cells s) →
  ∃ t dt, tl = Some t ∧ t ∈ fp ns ∧ h !! t = Some (node_block dt None) ∧
    fifo (<[t := node_block dt (Some l)]> h) hd (Some l) (ns ++ [Node l d s]).
Proof.
  intros Hf Hne Hl Hd Hld Hs Hhl Hhd. pose proof Hf as [Hseg Hnd Htl].
  destruct (exists_last Hne) as (ms & n & ->).
  apply lseg_app in Hseg as (r & Hseg & -> & Hs' & Hd' & nx & Hl' & Heq).
  simpl in Heq. subst nx.
  rewrite fp_app in Hnd, Hl, Hd. apply NoDup_app in Hnd as (Hnd1 & Hdis & Hnd2).
  rewrite fp_cons in Hl, Hd, Hdis, Hnd2.
  assert (n_loc n ≠ n_data n) by (inversion Hnd2; set_solver).
  assert (n_loc n ∉ fp ms ∧ n_data n ∉ fp ms) as [Hx1 Hx2].
  { split; intros Hin; apply (Hdis _ Hin); set_solver. }
  exists (n_loc n), (n_data n). split; [by rewrite Htl, last_snoc|].
  split; [rewrite fp_app; set_solver|]. split; [done|].
  split.
  - apply lseg_app. exists (Some l). split.
    + apply lseg_app. exists (Some (n_loc n)). split.
      * eapply lseg_frame; [|done]. intros k Hk.
        rewrite lookup_insert_ne; [done|]. by intros <-.
      * simpl. split; [done|]. split; [done|].
        split; [by rewrite lookup_insert_ne|].
        exists (Some l). by rewrite lookup_insert_eq.
    + simpl. split; [done|]. split; [done|].
      split; [rewrite lookup_insert_ne; [done|set_solver]|].
      exists None. split; [rewrite lookup_insert_ne; [done|set_solver]|done].
  - rewrite !fp_app, !fp_cons. apply NoDup_app. split; [|split].
    + apply NoDup_app. split; [done|]. split; [done|]. done.
    + intros k Hk. simpl. set_solver.
    + repeat constructor; set_solver.
  - intros _. by rewrite last_snoc.
Qed.

(** An acyclic list takes two blocks of the heap per node: the fuel [size h]
    is enough to walk it. *)
Lemma fifo_length_heap h hd tl ns : fifo h hd tl ns → (2 * length ns ≤ size h)%nat.
Proof.
  intros [Hseg Hnd _].
  assert (list_to_set (fp ns) ⊆@{gset loc} dom h) as Hsub.
  { intros l Hl%elem_of_list_to_set. apply elem_of_dom. eauto using lseg_live. }
  apply subseteq_size in Hsub. rewrite size_list_to_set in Hsub by done.
  rewrite size_dom in Hsub.
  assert (length (fp ns) = 2 * length ns)%nat as Hlen; [|lia].
  clear. induction ns as [|n ns IH]; [done|]. rewrite fp_cons. simpl. lia.
Qed.

(** A single node. *)
Lemma fifo_singleton h l d s tl :
  l ≠ d → cstring s → h !! l = Some (node_block d None) →
  h !! d = Some (cells s) → tl = Some l → fifo h (Some l) tl [Node l d s].
Proof.
  intros Hld Hs Hl Hd ->. split.
  - simpl. repeat split; [done..|]. by exists None.
  - rewrite fp_cons. repeat constructor; set_solver.
  - done.
Qed.

#[export] Hint Resolve fifo_frame fifo_insert_ne fifo_delete_ne : cmem.

(** ** A new node *)

(** Two blocks allocated in turn are new and distinct. *)
Lemma new_node_fresh `{Allocator} h p b l d m n :
  h !! p = Some b → alloc h m = Some l → alloc (<[l := [Undef; Undef]]> h) n = Some d →
  h !! l = None ∧ h !! d = None ∧ l ≠ d ∧ l ≠ p ∧ d ≠ p.
Proof.
  intros Hp Hl Hd.
  pose proof (alloc_fresh _ _ _ Hl) as Fl. pose proof (alloc_fresh _ _ _ Hd) as Fd.
  assert (l ≠ d) as Hld by (intros ->; by rewrite lookup_insert_eq in Fd).
  rewrite lookup_insert_ne in Fd by done. repeat split; congruence.
Qed.

(** How both insertions start: a node and a block of the string's size are
    allocated, the string is copied. *)
Lemma new_node_ok `{Allocator} {A} h p s rest l d (k : ptr → C A) :
  h !! p = Some (cells s ++ rest) → cstring s →
  Z.of_nat (length s) + 1 < 2^32 →
  alloc h SIZEOF_NODE = Some l →
  alloc (<[l := [Undef; Undef]]> h) (Z.of_nat (length s) + 1) = Some d →
  (node <- malloc SIZEOF_NODE NODE_CELLS;;
   n <- strlen (Some p);;
   buf <- malloc_chars (n + 1);;
   store node F_data (Ptr buf);;;
   d <- load_ptr node F_data;;
   strcpy d (Some p);;;
   k node) h
  = k (Some l) (<[l := [Ptr (Some d); Undef]]> (<[d := cells s]> h)).
Proof.
  intros Hp Hs Hlen Hl Hd.
  destruct (new_node_fresh _ _ _ _ _ _ _ Hp Hl Hd) as (Fl & Fd & Hld & Hlp & Hdp).
  erewrite bind_ok by (apply malloc_ok; done).
  change (Z.to_nat NODE_CELLS) with 2%nat. cbn [replicate].
  erewrite bind_ok
    by (eapply strlen_ok; [by rewrite lookup_insert_ne|done]).
  erewrite bind_ok by (apply malloc_chars_ok; [lia|done]).
  erewrite bind_ok by
    (apply store_ok with (b := [Undef; Undef]);
      [by rewrite lookup_insert_ne, lookup_insert_eq|simpl; lia]).
  change (<[Z.to_nat F_data:=Ptr (Some d)]> [Undef; Undef])
    with [Ptr (Some d); Undef].
  erewrite bind_ok by
    (eapply load_ptr_ok; [by rewrite lookup_insert_eq|lia|done]).
  erewrite bind_ok by
    (eapply strcpy_exact;
      [by rewrite !lookup_insert_ne
      |by rewrite lookup_insert_ne, lookup_insert_eq|done|
      rewrite length_replicate; lia]).
  f_equal. apply map_eq. intros i.
  destruct (decide (i = d)) as [->|].
  - by rewrite lookup_insert_eq, lookup_insert_ne, lookup_insert_eq by done.
  - rewrite (lookup_insert_ne _ d) by done.
    destruct (decide (i = l)) as [->|]; [by rewrite !lookup_insert_eq|].
    by rewrite !lookup_insert_ne by done.
Qed.

(** How both insertions end: the node becomes the head of an empty queue or
    the successor of the last node. *)
Lemma link_ok h hd tl ns l d s :
  fifo h hd tl ns → l ∉ fp ns → d ∉ fp ns → l ≠ d → cstring s →
  h !! l = Some (node_block d None) → h !! d = Some (cells s) →
  ∃ hd' h', (if bool_decide (hd = None) then ret (Some l)
             else store tl F_next (Ptr (Some l));;; ret hd) h = Ok (hd', h') ∧
    fifo h' hd' (Some l) (ns ++ [Node l d s]) ∧ (∀ i, i ∉ fp ns → h' !! i = h !! i).
Proof.
  intros Hf Nl Nd Hld Hs Hl Hd. pose proof (fifo_nil _ _ _ _ Hf) as Hnil.
  case_bool_decide as Hhd.
  - apply Hnil in Hhd as ->. eexists _, _. split; [done|].
    split; [by apply fifo_singleton|done].
  - destruct (fifo_snoc h _ _ _ l d s Hf ltac:(naive_solver) Nl Nd Hld Hs Hl Hd)
      as (t & dt & -> & Htin & Ht & Hf').
    eexists _, _. split.
    { erewrite bind_ok by (eapply store_ok; [done|simpl; lia]). done. }
    split; [done|]. intros i Hi. rewrite lookup_insert_ne; [done|]. by intros <-.
Qed.
