(* ===== verification/Kbuf.v ===== *)
(** * The kernel buffer (Module/kbuf.c, Module/kbuf.h)

    The FIFO of strings inside the device.  The operations are translated
    statement by statement on the heap; [kb_rep] says which sequence of
    strings a [struct kb] holds, and the theorems show that the operations
    implement a plain sequence: init gives the empty one, push appends, pop
    takes the first, scan lists the lengths. *)

From stdpp Require Import base numbers list option gmap.
From S2P Require Import Prelude Memory CList.
Local Open Scope Z_scope.
Local Open Scope c_scope.

(** ** Data and operations *)

(** [struct kb]; [struct kb_node] is a block of two cells, see CList. *)
Record kb := Kb { head : ptr; tail : ptr; count : Z }.

#[export] Instance kb_eq_dec : EqDecision kb.
Proof. solve_decision. Defined.

Definition kb_init (kbuf : kb) : Z * kb :=
  (0, {| head := None; tail := None; count := 0 |}).

Definition kb_isempty (kbuf : kb) : Z :=
  if bool_decide (head kbuf = None) then 1 else 0.

Definition kb_isfull (kbuf : kb) (max : Z) : Z :=
  if bool_decide (count kbuf < max) then 0 else 1.

Section operations.
Context `{Allocator}.

Definition kb_push (data : ptr) (kbuf : kb) : C (Z * kb) :=
  node <- malloc SIZEOF_NODE NODE_CELLS;;
  n <- strlen data;;
  buf <- malloc_chars (n + 1);;
  store node F_data (Ptr buf);;;
  d <- load_ptr node F_data;;
  strcpy d data;;;
  store node F_next (Ptr None);;;
  hd <- (if bool_decide (head kbuf = None) then ret node
         else store (tail kbuf) F_next (Ptr node);;; ret (head kbuf));;
  ret (0, {| head := hd; tail := node; count := wrap32 (count kbuf + 1) |}).

Definition kb_pop (data : ptr) (kbuf : kb) : C (Z * kb) :=
  if bool_decide (head kbuf = None) then ret (1, kbuf)
  else
    let node := head kbuf in
    nx <- load_ptr node F_next;;
    let tl := if bool_decide (nx = None) then None else tail kbuf in
    let cnt := wrap32 (count kbuf - 1) in
    d <- load_ptr node F_data;;
    strcpy data d;;;
    d' <- load_ptr node F_data;;
    free d';;;
    free node;;;
    ret (0, {| head := nx; tail := tl; count := cnt |}).

(** The body of the [while] loop, [fuel] bounds its turns. *)
Fixpoint kb_scan_loop (fuel : nat) (data p : ptr) (i : Z) : C unit :=
  if bool_decide (p = None) then ret tt
  else match fuel with
       | O => lift (Err NoFuel)
       | S fuel' =>
           d <- load_ptr p F_data;;
           n <- strlen d;;
           store data i (Int (wrap32 n));;;
           nx <- load_ptr p F_next;;
           kb_scan_loop fuel' data nx (wrap32 (i + 1))
       end.

Definition kb_scan (data : ptr) (kbuf : kb) : C unit := λ h,
  kb_scan_loop (size h) data (head kbuf) 0 h.

End operations.

(** ** Representation *)

(** The buffer holds the nodes [ns]: the list is linked from head to tail,
    [count] is its length (modulo the width of an [int]), and an empty buffer
    has a NULL tail. *)
Record kb_rep (h : heap) (kbuf : kb) (ns : list node) : Prop := {
  kb_fifo_rep : fifo h (head kbuf) (tail kbuf) ns;
  kb_tail_null : ns = [] → tail kbuf = None;
  kb_count : count kbuf = wrap32 (Z.of_nat (length ns)) }.

Lemma kb_rep_frame h h' k ns :
  (∀ l, l ∈ fp ns → h' !! l = h !! l) → kb_rep h k ns → kb_rep h' k ns.
Proof. intros Hag [???]. split; eauto using fifo_frame. Qed.

Lemma kb_rep_insert_ne h k ns l b :
  l ∉ fp ns → kb_rep h k ns → kb_rep (<[l := b]> h) k ns.
Proof. intros Hl [???]. split; eauto using fifo_insert_ne. Qed.

Lemma kb_rep_delete_ne h k ns l :
  l ∉ fp ns → kb_rep h k ns → kb_rep (delete l h) k ns.
Proof. intros Hl [???]. split; eauto using fifo_delete_ne. Qed.

Lemma kb_rep_fresh h k ns l : kb_rep h k ns → h !! l = None → l ∉ fp ns.
Proof. intros [Hf _ _]. eauto using fifo_fresh. Qed.

Lemma kb_rep_init h k : kb_rep h (snd (kb_init k)) [].
Proof. split; [apply fifo_empty|done|done]. Qed.

Lemma kb_isempty_rep h k ns :
  kb_rep h k ns → kb_isempty k = if decide (ns = []) then 1 else 0.
Proof.
  intros [Hf _ _]. pose proof (fifo_nil _ _ _ _ Hf) as E. unfold kb_isempty.
  case_bool_decide; case_decide; naive_solver.
Qed.

Lemma kb_count_small h k ns :
  kb_rep h k ns → Z.of_nat (length ns) ≤ INT_MAX → count k = Z.of_nat (length ns).
Proof. intros [_ _ ->] Hb. apply wrap32_id. unfold_ranges. lia. Qed.

#[export] Hint Resolve kb_rep_insert_ne kb_rep_delete_ne : cmem.

(** ** Functional behaviour *)

Section behaviour.
Context `{Allocator}.

(** The part of [kb_push] before the link: both blocks are allocated, the
    string is copied, the node ends the list. *)
Lemma push_new_node {A} h p s rest l d (k : ptr → C A) :
  h !! p = Some (cells s ++ rest) → cstring s →
  Z.of_nat (length s) + 1 < 2^32 →
  alloc h SIZEOF_NODE = Some l →
  alloc (<[l := [Undef; Undef]]> h) (Z.of_nat (length s) + 1) = Some d →
  (node <- malloc SIZEOF_NODE NODE_CELLS;;
   n <- strlen (Some p);;
   buf <- malloc_chars (n + 1);;
   store node F_data (Ptr buf);;;
   d <- load_ptr node F_data;;
   strcpy d (Some p);;;
   store node F_next (Ptr None);;;
   k node) h
  = k (Some l) (<[l := node_block d None]> (<[d := cells s]> h)).
Proof.
  intros Hp Hs Hlen Hl Hd.
  rewrite (new_node_ok h p s rest l d (λ node, store node F_next (Ptr None);;; k node)) by done.
  erewrite bind_ok by
    (apply store_ok with (b := [Ptr (Some d); Undef]);
      [by rewrite lookup_insert_eq|simpl; lia]).
  by rewrite insert_insert_eq.
Qed.

(** [kb_push] of a string: returns 0, appends the string, touches only the new
    blocks and the old last node. *)
Lemma kb_push_spec h k ns p s rest l d :
  kb_rep h k ns → h !! p = Some (cells s ++ rest) → cstring s →
  p ∉ fp ns → Z.of_nat (length s) + 1 < 2^32 →
  alloc h SIZEOF_NODE = Some l →
  alloc (<[l := [Undef; Undef]]> h) (Z.of_nat (length s) + 1) = Some d →
  ∃ k' h', kb_push (Some p) k h = Ok ((0, k'), h') ∧
    kb_rep h' k' (ns ++ [Node l d s]) ∧
    h !! l = None ∧ h !! d = None ∧ l ≠ d ∧
    (∀ i, i ∉ fp (ns ++ [Node l d s]) → h' !! i = h !! i).
Proof.
  intros Hk Hp Hs Hpn Hlen Hl Hd. unfold kb_push.
  pose proof (alloc_fresh _ _ _ Hl) as Fl. pose proof (alloc_fresh _ _ _ Hd) as Fd.
  assert (l ≠ d) as Hld by (intros ->; by rewrite lookup_insert_eq in Fd).
  rewrite lookup_insert_ne in Fd by done.
  erewrite push_new_node by done.
  set (h1 := <[l := node_block d None]> (<[d := cells s]> h)).
  assert (l ∉ fp ns ∧ d ∉ fp ns) as [Nl Nd] by eauto using kb_rep_fresh.
  assert (kb_rep h1 k ns) as [Hf Htn Hc] by (unfold h1; eauto using kb_rep_insert_ne).
  assert (wrap32 (count k + 1) = wrap32 (Z.of_nat (length (ns ++ [Node l d s])))) as Hcnt.
  { rewrite Hc, wrap32_add_wrap32, length_app. f_equal. simpl. lia. }
  assert (h1 !! l = Some (node_block d None)) as Hl1
    by (unfold h1; by rewrite lookup_insert_eq).
  assert (h1 !! d = Some (cells s)) as Hd1
    by (unfold h1; by rewrite lookup_insert_ne, lookup_insert_eq).
  assert (∀ i, i ≠ l → i ≠ d → h1 !! i = h !! i) as Hfr
    by (intros; unfold h1; by rewrite !lookup_insert_ne).
  destruct (link_ok h1 _ _ _ l d s Hf Nl Nd Hld Hs Hl1 Hd1) as (hd' & h' & El & Hf' & Hfr').
  rewrite (bind_ok _ _ _ _ _ El). eexists _, _. split; [done|].
  split; [|split; [done|split; [done|split; [done|]]]].
  - split; simpl; [done|by destruct ns|done].
  - intros i Hi. rewrite fp_app, fp_cons in Hi.
    rewrite Hfr' by set_solver. apply Hfr; set_solver.
Qed.

(** [kb_pop] of a non-empty buffer into a block that is large enough: returns
    0, delivers the first string, frees its two blocks. *)
Lemma kb_pop_spec h k n ns p b :
  kb_rep h k (n :: ns) → h !! p = Some b → p ∉ fp (n :: ns) →
  (length (n_str n) < length b)%nat →
  ∃ k' h', kb_pop (Some p) k h = Ok ((0, k'), h') ∧ kb_rep h' k' ns ∧
    h' !! p = Some (cells (n_str n) ++ drop (S (length (n_str n))) b) ∧
    h' !! n_loc n = None ∧ h' !! n_data n = None ∧
    (∀ i, i ≠ p → i ≠ n_loc n → i ≠ n_data n → h' !! i = h !! i).
Proof.
  intros [Hf Htn Hc] Hp Hpn Hb. unfold kb_pop.
  destruct (fifo_head _ _ _ _ _ Hf) as (Hhd & Hs & Hne & Hd & nx & Hl & Hnx & Hf' & _).
  rewrite fp_cons in Hpn. rewrite Hhd. cbn.
  assert (n_loc n ≠ p ∧ n_data n ≠ p) as [Hp1 Hp2] by (split; set_solver).
  erewrite bind_ok by (eapply load_ptr_ok; [done|lia|done]).
  erewrite bind_ok by (eapply load_ptr_ok; [done|lia|done]).
  erewrite bind_ok by (eapply strcpy_ok with (rest := []); rewrite ?app_nil_r; done).
  erewrite bind_ok by
    (eapply load_ptr_ok; [by rewrite lookup_insert_ne|lia|done]).
  erewrite bind_ok by (eapply free_ok; by rewrite lookup_insert_ne).
  erewrite bind_ok by
    (eapply free_ok; by rewrite lookup_delete_ne, lookup_insert_ne).
  eexists _, _. split; [done|].
  rewrite (delete_insert_ne _ (n_data n)), (delete_insert_ne _ (n_loc n)) by done.
  split; [|split; [by rewrite lookup_insert_eq|]].
  - split; simpl.
    + apply fifo_insert_ne; [set_solver|].
      case_bool_decide as E; [|done].
      apply Hnx in E as E'. subst. apply fifo_empty.
    + intros ->. rewrite bool_decide_true; naive_solver.
    + rewrite Hc. unfold Z.sub. rewrite wrap32_add_wrap32. f_equal. simpl. lia.
  - split; [by rewrite lookup_insert_ne, lookup_delete_eq|].
    split; [by rewrite lookup_insert_ne, lookup_delete_ne, lookup_delete_eq|].
    intros i Hi1 Hi2 Hi3.
    by rewrite lookup_insert_ne, !lookup_delete_ne.
Qed.

(** The destination is one byte short or worse: the copy leaves its block. *)
Lemma kb_pop_overrun h k n ns p b :
  kb_rep h k (n :: ns) → h !! p = Some b → (length b ≤ length (n_str n))%nat →
  kb_pop (Some p) k h = Err OutOfBounds.
Proof.
  intros [Hf Htn Hc] Hp Hb. unfold kb_pop.
  destruct (fifo_head _ _ _ _ _ Hf) as (Hhd & Hs & Hne & Hd & nx & Hl & _).
  rewrite Hhd. cbn.
  erewrite bind_ok by (eapply load_ptr_ok; [done|lia|done]).
  erewrite bind_ok by (eapply load_ptr_ok; [done|lia|done]).
  apply bind_err. eapply strcpy_overrun with (rest := []); rewrite ?app_nil_r; done.
Qed.

Lemma kb_pop_empty h k p : kb_rep h k [] → kb_pop p k h = Ok ((1, k), h).
Proof.
  intros [Hf _ _]. unfold kb_pop.
  rewrite bool_decide_true by (by eapply fifo_nil). done.
Qed.

(** No memory for the node: [kb_push] dereferences NULL. *)
Lemma kb_push_oom h k p s rest :
  h !! p = Some (cells s ++ rest) → cstring s → alloc h SIZEOF_NODE = None →
  kb_push (Some p) k h = Err NullDeref.
Proof.
  intros Hp Hs Ha. unfold kb_push.
  erewrite bind_ok by (by apply malloc_null).
  erewrite bind_ok by (by eapply strlen_ok).
  unfold bind at 1. unfold malloc_chars, malloc.
  destruct (alloc h (wrapu32 _)); [|done]. done.
Qed.

(** No memory for the string: the copy goes through NULL. *)
Lemma kb_push_oom_string h k p s rest l :
  h !! p = Some (cells s ++ rest) → cstring s → Z.of_nat (length s) + 1 < 2^32 →
  alloc h SIZEOF_NODE = Some l →
  alloc (<[l := [Undef; Undef]]> h) (Z.of_nat (length s) + 1) = None →
  kb_push (Some p) k h = Err NullDeref.
Proof.
  intros Hp Hs Hlen Hl Ha. unfold kb_push.
  assert (l ≠ p) as Hlp by (intros ->; apply alloc_fresh in Hl; congruence).
  erewrite bind_ok by (by apply malloc_ok).
  change (Z.to_nat NODE_CELLS) with 2%nat. cbn [replicate].
  erewrite bind_ok by (eapply strlen_ok; [by rewrite lookup_insert_ne|done]).
  erewrite bind_ok by (apply malloc_null; by rewrite wrapu32_id by lia).
  erewrite bind_ok by
    (eapply store_ok with (b := [Undef; Undef]);
      [by rewrite lookup_insert_eq|simpl; lia]).
  erewrite bind_ok by
    (eapply load_ptr_ok; [by rewrite lookup_insert_eq|lia|done]).
  apply bind_err. unfold strcpy.
  erewrite bind_ok
    by (eapply load_block_ok; rewrite !lookup_insert_ne by done; done).
  done.
Qed.

(** A [kb_push] that returns has pushed a string. *)
Lemma kb_push_inv h k ns p b r k' h' :
  kb_rep h k ns → h !! p = Some b → p ∉ fp ns → Z.of_nat (length b) < 2^32 →
  kb_push (Some p) k h = Ok ((r, k'), h') →
  ∃ s rest l d, b = cells s ++ rest ∧ cstring s ∧ r = 0 ∧
    kb_rep h' k' (ns ++ [Node l d s]) ∧
    h !! l = None ∧ h !! d = None ∧ l ≠ d ∧
    (∀ i, i ∉ fp (ns ++ [Node l d s]) → h' !! i = h !! i) ∧
    alloc (<[l := [Undef; Undef]]> h) (Z.of_nat (length s) + 1) = Some d.
Proof.
  intros Hk Hp Hpn Hb E.
  assert (∃ n, strlen_cells b = Ok n) as [n Hn].
  { destruct (strlen_cells b) eqn:Es; [eauto|]. exfalso. revert E. unfold kb_push.
    unfold bind at 1. unfold malloc at 1.
    destruct (alloc h (wrapu32 SIZEOF_NODE)) as [l|] eqn:Ea; cbn beta iota.
    - apply alloc_fresh in Ea. unfold bind at 1, strlen, bind, load_block.
      rewrite lookup_insert_ne, Hp by congruence. by rewrite Es.
    - unfold bind at 1, strlen, bind, load_block. rewrite Hp. by rewrite Es. }
  apply strlen_cells_inv in Hn as (s & rest & -> & Hs & _).
  assert (Z.of_nat (length s) + 1 < 2^32).
  { rewrite length_app, length_cells in Hb. lia. }
  destruct (alloc h SIZEOF_NODE) as [l|] eqn:Ea;
    [|by erewrite kb_push_oom in E by done].
  destruct (alloc (<[l := [Undef; Undef]]> h) (Z.of_nat (length s) + 1)) as [d|] eqn:Eb;
    [|by erewrite kb_push_oom_string in E by done].
  destruct (kb_push_spec h k ns p s rest l d) as (k2 & h2 & E2 & Hrep & F1 & F2 & Hne & Hfr);
    [done..|].
  rewrite E2 in E. simplify_eq. exists s, rest, l, d. eauto 12.
Qed.

(** A [kb_pop] from a non-empty buffer that returns has delivered its head. *)
Lemma kb_pop_inv h k n ns p b r k' h' :
  kb_rep h k (n :: ns) → h !! p = Some b → p ∉ fp (n :: ns) →
  kb_pop (Some p) k h = Ok ((r, k'), h') →
  r = 0 ∧ (length (n_str n) < length b)%nat ∧ kb_rep h' k' ns ∧
  h' !! p = Some (cells (n_str n) ++ drop (S (length (n_str n))) b) ∧
  h' !! n_loc n = None ∧ h' !! n_data n = None ∧
  (∀ i, i ≠ p → i ≠ n_loc n → i ≠ n_data n → h' !! i = h !! i).
Proof.
  intros Hk Hp Hpn E. destruct (decide (length (n_str n) < length b)%nat) as [Hl|Hl].
  - destruct (kb_pop_spec h k n ns p b) as (k2 & h2 & E2 & ?); [done..|].
    rewrite E2 in E. simplify_eq. done.
  - erewrite kb_pop_overrun in E by (done || lia). done.
Qed.

(** NULL as the destination of a [kb_pop] that has something to deliver. *)
Lemma kb_pop_null h k n ns : kb_rep h k (n :: ns) → kb_pop None k h = Err NullDeref.
Proof.
  intros [Hf _ _]. unfold kb_pop.
  destruct (fifo_head _ _ _ _ _ Hf) as (Hhd & Hs & Hne & Hd & nx & Hl & _).
  rewrite Hhd. cbn.
  erewrite bind_ok by (eapply load_ptr_ok; [done|lia|done]).
  erewrite bind_ok by (eapply load_ptr_ok; [done|lia|done]).
  apply bind_err. unfold strcpy. by erewrite bind_ok by (by eapply load_block_ok).
Qed.

Lemma kb_push_unterminated h k p b f :
  h !! p = Some b → strlen_cells b = Err f → kb_push (Some p) k h = Err f.
Proof.
  intros Hp Hs. unfold kb_push, bind at 1, malloc at 1.
  destruct (alloc h (wrapu32 SIZEOF_NODE)) as [l|] eqn:Ea; cbn beta iota;
    apply bind_err; unfold strlen.
  - erewrite bind_ok; [by apply lift_err|]. apply load_block_ok.
    rewrite lookup_insert_ne; [done|]. apply alloc_fresh in Ea. congruence.
  - erewrite bind_ok; [by apply lift_err|]. by apply load_block_ok.
Qed.

Lemma kb_push_null h k : kb_push None k h = Err NullDeref.
Proof.
  unfold kb_push, bind at 1, malloc at 1. by destruct (alloc h (wrapu32 SIZEOF_NODE)).
Qed.

End behaviour.

(** ** Scanning *)

Definition lengths (ns : list node) : list Z :=
  (λ s, wrap32 (Z.of_nat (length s))) <$> strings ns.

Section scan.
Context `{Allocator}.

Lemma kb_scan_loop_spec ns : ∀ fuel h data p i pre post,
  lseg h p ns None → data ∉ fp ns → (length ns ≤ fuel)%nat →
  h !! data = Some (pre ++ post) → length pre = Z.to_nat i → 0 ≤ i →
  i + Z.of_nat (length ns) ≤ INT_MAX → (length ns ≤ length post)%nat →
  kb_scan_loop fuel (Some data) p i h =
    Ok (tt, <[data := pre ++ (Int <$> lengths ns) ++ drop (length ns) post]> h).
Proof.
  induction ns as [|n ns IH]; intros fuel h data p i pre post Hseg Hdn Hfu Hdata Hpre Hi Hmax Hpost.
  - simpl in Hseg. subst p. destruct fuel; simpl;
      rewrite drop_0, insert_id by done; done.
  - destruct Hseg as (-> & Hs & Hd & nx & Hl & Hseg).
    destruct fuel as [|fuel]; [simpl in Hfu; lia|].
    destruct post as [|x post]; [simpl in Hpost; lia|].
    rewrite fp_cons in Hdn. cbn [kb_scan_loop].
    rewrite bool_decide_false by done.
    erewrite bind_ok by (eapply load_ptr_ok; [done|lia|done]).
    erewrite bind_ok by
      (eapply strlen_ok with (rest := []); rewrite ?app_nil_r; done).
    erewrite bind_ok by
      (eapply store_ok; [done|rewrite length_app; simpl; lia]).
    rewrite <- Hpre, <- (Nat.add_0_r (length pre)), insert_app_r. cbn [list_insert insert].
    set (v := Int (wrap32 (Z.of_nat (length (n_str n))))).
    erewrite bind_ok by
      (eapply load_ptr_ok; [rewrite lookup_insert_ne; [done|set_solver]|lia|done]).
    rewrite wrap32_id by (unfold_ranges; simpl in *; lia).
    rewrite (IH _ _ _ _ _ (pre ++ [v]) post).
    + rewrite insert_insert_eq. unfold lengths. by rewrite <- app_assoc.
    + eapply lseg_frame; [|done]. intros j Hj. rewrite lookup_insert_ne; [done|].
      intros <-. set_solver.
    + set_solver.
    + simpl in *; lia.
    + rewrite lookup_insert_eq. by rewrite <- app_assoc.
    + rewrite length_app. simpl. lia.
    + lia.
    + simpl in *. lia.
    + simpl in *. lia.
Qed.

(** [kb_scan] fills an array of the buffer's size with the string lengths, in
    order, and ends. *)
Lemma kb_scan_spec h k ns data b :
  kb_rep h k ns → data ∉ fp ns → h !! data = Some b → length b = length ns →
  Z.of_nat (length ns) ≤ INT_MAX →
  kb_scan (Some data) k h = Ok (tt, <[data := Int <$> lengths ns]> h).
Proof.
  intros [Hf _ _] Hdn Hd Hb Hm. unfold kb_scan.
  rewrite (kb_scan_loop_spec ns _ _ _ _ _ [] b);
    [|apply Hf|done|apply fifo_length_heap in Hf; lia|done|done|lia|lia|lia].
  simpl. by rewrite drop_ge, app_nil_r by lia.
Qed.

End scan.
