(* ===== verification/Stat.v ===== *)
(** * Statistics and the size of the buffer (Module/stat.c, Module/stat.h)

    The rounding division, the average, maximum and minimum over a snapshot of
    the string lengths, and the running average of the occupation from which
    the reallocator derives the buffer's maximal size. *)

From stdpp Require Import base numbers list option gmap.
From S2P Require Import Prelude Memory CList Kbuf.
Local Open Scope Z_scope.
Local Open Scope c_scope.

(** ** Data and operations *)

Definition KB_OCC : Z := 75.

Record ds := Ds {
  ds_dim : Z;
  ds_list : ptr;
  ds_kb_dim : Z;
  ds_kb_max : Z;
  ds_kb_sum : Z }.

#[export] Instance ds_eq_dec : EqDecision ds.
Proof. solve_decision. Defined.

Definition my_div (a b : Z) : res Z :=
  rbind (cmod a b) (λ rest,
  rbind (cdiv a b) (λ mod_,
  rbind (cdiv b 2) (λ half,
  Ok (if bool_decide (half ≤ rest) then wrap32 (mod_ + 1) else mod_)))).

Definition calculate_per (a b : Z) : res Z := my_div (wrap32 (a * 100)) b.

Definition ds_init_alloc (v : ds) (max : Z) : ds :=
  {| ds_dim := ds_dim v; ds_list := ds_list v;
     ds_kb_dim := 0; ds_kb_max := max; ds_kb_sum := 0 |}.

Definition ds_reset_alloc (v : ds) : ds :=
  {| ds_dim := ds_dim v; ds_list := ds_list v;
     ds_kb_dim := 0; ds_kb_max := ds_kb_max v; ds_kb_sum := 0 |}.

Definition ds_add_kb_value (v : ds) (value : Z) : ds :=
  {| ds_dim := ds_dim v; ds_list := ds_list v;
     ds_kb_dim := wrap32 (ds_kb_dim v + 1); ds_kb_max := ds_kb_max v;
     ds_kb_sum := wrap32 (ds_kb_sum v + value) |}.

Definition ds_get_kb_occupation (v : ds) : res Z :=
  rbind (my_div (ds_kb_sum v) (ds_kb_dim v)) (λ a,
  let b := ds_kb_max v in
  rbind (calculate_per a b) (λ r, Ok r)).

Definition ds_set_kb_occupation (v : ds) (value : Z) : res ds :=
  rbind (if bool_decide (value ≤ 1) then Ok 2
         else my_div (wrap32 (value * 100)) KB_OCC) (λ max,
  Ok {| ds_dim := ds_dim v; ds_list := ds_list v;
        ds_kb_dim := ds_kb_dim v; ds_kb_max := max; ds_kb_sum := ds_kb_sum v |}).

Section operations.
Context `{Allocator}.

Definition ds_init_stat (v : ds) (dim : Z) : C ds :=
  p <- malloc (4 * dim) (wrapu32 (4 * dim) / 4);;
  ret {| ds_dim := dim; ds_list := p;
         ds_kb_dim := ds_kb_dim v; ds_kb_max := ds_kb_max v;
         ds_kb_sum := ds_kb_sum v |}.

Definition ds_reset_stat (v : ds) : C ds :=
  free (ds_list v);;;
  ret {| ds_dim := 0; ds_list := ds_list v;
         ds_kb_dim := ds_kb_dim v; ds_kb_max := ds_kb_max v;
         ds_kb_sum := ds_kb_sum v |}.

Definition ds_populate (v : ds) (k : kb) : C (Z * ds) :=
  let len := count k in
  v' <- (if bool_decide (len ≠ 0) then
           v1 <- ds_init_stat v len;;
           kb_scan (ds_list v1) k;;;
           ret v1
         else ret v);;
  ret (len, v').

Definition ds_med (v : ds) : C Z :=
  tmp <- for_upto (Z.to_nat (ds_dim v)) 0 (ds_dim v) 0 (λ i tmp,
           x <- load_int (ds_list v) i;; ret (wrap32 (tmp + x)));;
  lift (cdiv tmp (ds_dim v)).

Definition ds_max (v : ds) : C Z :=
  for_upto (Z.to_nat (ds_dim v)) 0 (ds_dim v) 0 (λ i tmp,
    x <- load_int (ds_list v) i;;
    ret (if bool_decide (tmp < x) then x else tmp)).

Definition ds_min (v : ds) (max : Z) : C Z :=
  if bool_decide (max = 0) then ret 0
  else
    for_upto (Z.to_nat (ds_dim v)) 0 (ds_dim v) max (λ i tmp,
      x <- load_int (ds_list v) i;;
      ret (if bool_decide (x < tmp) then x else tmp)).

End operations.

(** ** The division *)

(** For a positive divisor the result is the quotient of [a + b - b/2]: the
    remainder is rounded up from [b/2] on. *)
Lemma my_div_eq a b :
  0 ≤ a → 0 < b → a / b < INT_MAX → my_div a b = Ok ((a + (b - b / 2)) / b).
Proof.
  intros Ha Hb Hmax. unfold my_div.
  rewrite cmod_pos, cdiv_pos, cdiv_pos by lia. simpl. f_equal.
  assert (0 ≤ a / b) by (apply Z.div_pos; lia).
  pose proof (Z.mod_pos_bound a b Hb). pose proof (Z.div_mod a b ltac:(lia)) as E.
  pose proof (Z.mod_pos_bound b 2 ltac:(lia)). pose proof (Z.div_mod b 2 ltac:(lia)).
  case_bool_decide.
  - rewrite wrap32_id by (unfold_ranges; lia).
    apply Z.div_unique with (a mod b - b / 2); lia.
  - apply Z.div_unique with (a mod b + (b - b / 2)); lia.
Qed.

Lemma my_div_zero a : my_div a 0 = Err DivError.
Proof. done. Qed.

(** The result times the divisor misses the dividend by at most half the
    divisor, rounded up. *)
Lemma my_div_error a b q :
  0 ≤ a → 0 < b → a / b < INT_MAX → my_div a b = Ok q →
  - (b / 2) < q * b - a + 1 ∧ q * b - a ≤ b - b / 2.
Proof.
  intros Ha Hb Hm E. rewrite my_div_eq in E by done. injection E as <-.
  set (c := b - b / 2).
  pose proof (Z.div_mod (a + c) b ltac:(lia)). pose proof (Z.mod_pos_bound (a + c) b Hb).
  lia.
Qed.

Lemma my_div_nonneg a b q :
  0 ≤ a → 0 < b → a / b < INT_MAX → my_div a b = Ok q → 0 ≤ q ≤ a + 1.
Proof.
  intros Ha Hb Hm E. rewrite my_div_eq in E by done. injection E as <-.
  pose proof (Z.div_mod b 2 ltac:(lia)). pose proof (Z.mod_pos_bound b 2 ltac:(lia)).
  split; [apply Z.div_pos; lia|].
  transitivity ((a * b + b) / b).
  - apply Z.div_le_mono; [lia|]. nia.
  - rewrite <- (Z.mul_1_l b) at 2. rewrite <- Z.mul_add_distr_r, Z.div_mul by lia. lia.
Qed.

(** ** The maximal size *)

(** With the average [value] of the occupation, the new maximum makes [value]
    75 per cent of it, up to the rounding; never less than 2. *)
Lemma ds_set_kb_occupation_spec v value :
  0 ≤ value → value * 100 ≤ INT_MAX →
  ∃ v', ds_set_kb_occupation v value = Ok v' ∧
    2 ≤ ds_kb_max v' ≤ INT_MAX ∧
    (2 ≤ value → Z.abs (KB_OCC * ds_kb_max v' - 100 * value) ≤ 38) ∧
    ds_kb_dim v' = ds_kb_dim v ∧ ds_kb_sum v' = ds_kb_sum v ∧
    ds_dim v' = ds_dim v ∧ ds_list v' = ds_list v.
Proof.
  intros H0 Hmax. unfold ds_set_kb_occupation, KB_OCC. case_bool_decide.
  - simpl. eexists. split; [done|]. simpl. unfold_ranges. repeat split; lia.
  - rewrite wrap32_id by (unfold_ranges; lia).
    assert (value * 100 / 75 < INT_MAX) by
      (unfold_ranges; Z.div_mod_to_equations; lia).
    rewrite my_div_eq by lia. simpl. eexists. split; [done|]. simpl.
    change (75 - 75 / 2) with 38.
    pose proof (Z.div_mod (value * 100 + 38) 75 ltac:(lia)).
    pose proof (Z.mod_pos_bound (value * 100 + 38) 75 ltac:(lia)).
    unfold_ranges. repeat split; lia.
Qed.

(** ** Snapshots *)

Definition zsum (zs : list Z) : Z := foldr Z.add 0 zs.
Definition zmaximum (zs : list Z) : Z := foldr Z.max 0 zs.

Lemma foldl_sum_wrap zs acc :
  Forall (λ z, 0 ≤ z) zs → 0 ≤ acc → acc + zsum zs ≤ INT_MAX →
  foldl (λ tmp x, wrap32 (tmp + x)) acc zs = acc + zsum zs.
Proof.
  intros Hz. revert acc. induction Hz as [|z zs Hz0 Hz IH]; intros acc Ha Hs.
  - unfold zsum. simpl. lia.
  - unfold zsum in *. simpl in *. fold (zsum zs) in *.
    assert (0 ≤ zsum zs) by (clear -Hz; induction Hz; unfold zsum in *; simpl in *; lia).
    rewrite wrap32_id by (unfold_ranges; lia). rewrite IH by lia. lia.
Qed.

Lemma foldl_max zs acc :
  foldl (λ tmp x, if bool_decide (tmp < x) then x else tmp) acc zs
  = foldl Z.max acc zs.
Proof.
  revert acc. induction zs as [|z zs IH]; intros acc; [done|]. simpl.
  rewrite IH. f_equal. case_bool_decide; lia.
Qed.

Lemma foldl_min zs acc :
  foldl (λ tmp x, if bool_decide (x < tmp) then x else tmp) acc zs
  = foldl Z.min acc zs.
Proof.
  revert acc. induction zs as [|z zs IH]; intros acc; [done|]. simpl.
  rewrite IH. f_equal. case_bool_decide; lia.
Qed.

Lemma foldl_max_spec zs acc :
  acc ≤ foldl Z.max acc zs ∧ Forall (λ z, z ≤ foldl Z.max acc zs) zs ∧
  (foldl Z.max acc zs = acc ∨ foldl Z.max acc zs ∈ zs).
Proof.
  revert acc. induction zs as [|z zs IH]; intros acc; simpl.
  - split; [lia|]. split; [constructor|by left].
  - destruct (IH (Z.max acc z)) as (H1 & H2 & H3).
    split; [lia|]. split; [constructor; [lia|done]|].
    destruct H3 as [->|H3]; [|by right; right].
    destruct (Z.max_spec acc z) as [[? ->]|[? ->]]; [right; left|by left].
Qed.

Lemma foldl_min_spec zs acc :
  foldl Z.min acc zs ≤ acc ∧ Forall (λ z, foldl Z.min acc zs ≤ z) zs ∧
  (foldl Z.min acc zs = acc ∨ foldl Z.min acc zs ∈ zs).
Proof.
  revert acc. induction zs as [|z zs IH]; intros acc; simpl.
  - split; [lia|]. split; [constructor|by left].
  - destruct (IH (Z.min acc z)) as (H1 & H2 & H3).
    split; [lia|]. split; [constructor; [lia|done]|].
    destruct H3 as [->|H3]; [|by right; right].
    destruct (Z.min_spec acc z) as [[? ->]|[? ->]]; [by left|right; left].
Qed.

Section snapshot.
Context `{Allocator}.

(** The state of [v] right after [ds_populate]: its list holds [zs]. *)
Definition snapshot (h : heap) (v : ds) (zs : list Z) : Prop :=
  ∃ l, ds_list v = Some l ∧ h !! l = Some (Int <$> zs) ∧
       ds_dim v = Z.of_nat (length zs).

Lemma snapshot_load h v zs i z :
  snapshot h v zs → zs !! i = Some z →
  load_int (ds_list v) (Z.of_nat i) h = Ok (z, h).
Proof.
  intros (l & -> & Hl & _) Hi. eapply load_int_ok; [done|lia|].
  rewrite Nat2Z.id, list_lookup_fmap, Hi. done.
Qed.

(** Every statistics loop over a snapshot is a fold over its elements. *)
Lemma snapshot_fold {A} h v zs (f : A → Z → A) acc :
  snapshot h v zs →
  for_upto (Z.to_nat (ds_dim v)) 0 (ds_dim v) acc
    (λ i tmp, x <- load_int (ds_list v) i;; ret (f tmp x)) h
  = Ok (foldl f acc zs, h).
Proof.
  intros Hs. pose proof Hs as (l & _ & _ & ->). rewrite Nat2Z.id.
  apply for_upto_foldl. intros i z a Hi.
  by erewrite bind_ok by (eapply snapshot_load; done).
Qed.

(** [ds_med] is the integer average. *)
Lemma ds_med_spec h v zs :
  snapshot h v zs → zs ≠ [] → Forall (λ z, 0 ≤ z) zs → zsum zs ≤ INT_MAX →
  ds_med v h = Ok (zsum zs / Z.of_nat (length zs), h).
Proof.
  intros Hs Hne Hz Hsum. unfold ds_med.
  rewrite (bind_ok _ _ _ _ _ (snapshot_fold _ _ _ _ _ Hs)).
  destruct Hs as (l & _ & _ & ->).
  rewrite foldl_sum_wrap by (done || lia). rewrite Z.add_0_l.
  apply lift_ok, cdiv_pos; [|destruct zs; simpl; [done|lia]].
  clear -Hz. induction Hz; unfold zsum in *; simpl in *; lia.
Qed.

(** [ds_max] is an element of the snapshot that bounds it. *)
Lemma ds_max_spec h v zs :
  snapshot h v zs → zs ≠ [] → Forall (λ z, 0 ≤ z) zs →
  ∃ m, ds_max v h = Ok (m, h) ∧ m ∈ zs ∧ Forall (λ z, z ≤ m) zs.
Proof.
  intros Hs Hne Hz. unfold ds_max. rewrite (snapshot_fold _ _ _ _ _ Hs), foldl_max.
  eexists. split; [done|]. destruct (foldl_max_spec zs 0) as (H0 & Hall & Hin).
  split; [|done]. destruct Hin as [E|]; [|done]. rewrite E in Hall |- *.
  destruct zs as [|z zs]; [done|]. inversion Hz; inversion Hall; subst.
  assert (z = 0) as -> by lia. left.
Qed.

(** [ds_min], given the maximum, is the least element. *)
Lemma ds_min_spec h v zs m :
  snapshot h v zs → Forall (λ z, 0 ≤ z ≤ m) zs → m ∈ zs →
  ∃ n, ds_min v m h = Ok (n, h) ∧ n ∈ zs ∧ Forall (λ z, n ≤ z) zs.
Proof.
  intros Hs Hz Hm. unfold ds_min. case_bool_decide as E.
  - subst m. exists 0. split; [done|]. split; [done|].
    eapply Forall_impl; [done|]. simpl. lia.
  - rewrite (snapshot_fold _ _ _ _ _ Hs), foldl_min. eexists. split; [done|].
    destruct (foldl_min_spec zs m) as (H0 & Hall & Hin).
    split; [|done]. destruct Hin as [->|]; done.
Qed.

(** [ds_populate] of a non-empty buffer takes a snapshot of the lengths. *)
Lemma ds_populate_spec h v k ns l :
  kb_rep h k ns → ns ≠ [] → Z.of_nat (length ns) * 4 < 2^31 →
  alloc h (4 * Z.of_nat (length ns)) = Some l →
  ∃ v', ds_populate v k h
      = Ok ((Z.of_nat (length ns), v'), <[l := Int <$> lengths ns]> h) ∧
    snapshot (<[l := Int <$> lengths ns]> h) v' (lengths ns) ∧ ds_list v' = Some l ∧
    ds_kb_dim v' = ds_kb_dim v ∧ ds_kb_max v' = ds_kb_max v ∧ ds_kb_sum v' = ds_kb_sum v.
Proof.
  intros Hk Hne Hlen Hl. unfold ds_populate.
  rewrite (kb_count_small _ _ _ Hk) by (unfold_ranges; lia).
  assert (Z.of_nat (length ns) ≠ 0) by (destruct ns; simpl; [done|lia]).
  rewrite bool_decide_true by done.
  assert (l ∉ fp ns) as Hln by eauto using kb_rep_fresh, alloc_fresh.
  unfold ds_init_stat.
  set (v' := {| ds_dim := Z.of_nat (length ns); ds_list := Some l; ds_kb_dim := ds_kb_dim v;
                 ds_kb_max := ds_kb_max v; ds_kb_sum := ds_kb_sum v |}).
  exists v'. split; [|repeat split; try done].
  - erewrite bind_ok.
    2: { erewrite bind_ok.
         2: { erewrite bind_ok by (apply malloc_ok; by rewrite wrapu32_id by lia).
              done. }
         erewrite bind_ok; [done|].
         eapply kb_scan_spec; [by eapply kb_rep_insert_ne|done|
           by rewrite lookup_insert_eq| |unfold_ranges; lia].
         rewrite length_replicate, wrapu32_id, Z.mul_comm, Z.div_mul by lia. lia. }
    by rewrite insert_insert_eq.
  - exists l. rewrite lookup_insert_eq. split; [done|]. split; [done|].
    unfold lengths. by rewrite length_fmap, length_strings.
Qed.

(** No memory for the snapshot: [kb_scan] writes through NULL. *)
Lemma ds_populate_oom h v k ns :
  kb_rep h k ns → ns ≠ [] → Z.of_nat (length ns) * 4 < 2^31 →
  alloc h (4 * Z.of_nat (length ns)) = None →
  ds_populate v k h = Err NullDeref.
Proof.
  intros Hk Hne Hlen Hl. unfold ds_populate.
  rewrite (kb_count_small _ _ _ Hk) by (unfold_ranges; lia).
  assert (Z.of_nat (length ns) ≠ 0) by (destruct ns; simpl; [done|lia]).
  rewrite bool_decide_true by done. apply bind_err.
  unfold ds_init_stat. erewrite bind_ok.
  2: { erewrite bind_ok by (apply malloc_null; by rewrite wrapu32_id by lia). done. }
  apply bind_err. simpl. unfold kb_scan.
  pose proof (kb_fifo_rep _ _ _ Hk) as Hf.
  pose proof (fifo_length_heap _ _ _ _ Hf) as Hsz.
  destruct ns as [|n ns]; [done|].
  destruct (fifo_head _ _ _ _ _ Hf) as (-> & Hs & _ & Hd & nx & Hn & _).
  destruct (size h) as [|fuel]; [simpl in Hsz; lia|]. cbn [kb_scan_loop].
  rewrite bool_decide_false by done.
  erewrite bind_ok by (eapply load_ptr_ok; [done|lia|done]).
  erewrite bind_ok by (eapply strlen_ok with (rest := []); rewrite ?app_nil_r; done).
  done.
Qed.

Lemma ds_populate_empty h v k : kb_rep h k [] → ds_populate v k h = Ok ((0, v), h).
Proof. intros [_ _ Hc]. unfold ds_populate. by rewrite Hc. Qed.

(** Giving the snapshot back. *)
Lemma ds_reset_stat_spec h v zs :
  snapshot h v zs → ∃ l v', ds_list v = Some l ∧
    ds_reset_stat v h = Ok (v', delete l h) ∧ ds_dim v' = 0 ∧
    ds_kb_dim v' = ds_kb_dim v ∧ ds_kb_max v' = ds_kb_max v ∧ ds_kb_sum v' = ds_kb_sum v.
Proof.
  intros (l & Hl & Hb & _). exists l. unfold ds_reset_stat. rewrite Hl.
  eexists. split; [done|]. erewrite bind_ok by (by eapply free_ok). done.
Qed.

End snapshot.
