(* ===== verification/ModuleThm.v ===== *)
(** * Theorems about the buffer and the statistics

    The behaviour of the operations of Module/kbuf.c and Module/stat.c on
    every branch, for any allocator. *)

From stdpp Require Import base numbers list option gmap.
From S2P Require Import Prelude Memory CList Kbuf Stat.
Local Open Scope Z_scope.

Section theorems.
Context {Al : Allocator}.

(** [kb_push] of a string, on every branch.  If both blocks can be
    allocated it returns 0, the buffer holds its old strings followed by the
    new one, in blocks that were free, and no other block changes; if either
    allocation fails it dereferences NULL, as it checks neither. *)
Theorem kb_push_behaviour h k ns p s rest :
  kb_rep h k ns → h !! p = Some (cells s ++ rest) → cstring s →
  p ∉ fp ns → Z.of_nat (length s) + 1 < 2^32 →
  match alloc h SIZEOF_NODE with
  | None => kb_push (Some p) k h = Err NullDeref
  | Some l =>
      match alloc (<[l := [Undef; Undef]]> h) (Z.of_nat (length s) + 1) with
      | None => kb_push (Some p) k h = Err NullDeref
      | Some d =>
          ∃ k' h', kb_push (Some p) k h = Ok ((0, k'), h') ∧
            kb_rep h' k' (ns ++ [Node l d s]) ∧ h !! l = None ∧ h !! d = None ∧
            (∀ i, i ∉ fp (ns ++ [Node l d s]) → h' !! i = h !! i)
      end
  end.
Proof.
  intros Hk Hp Hs Hn Hlen. destruct (alloc h SIZEOF_NODE) as [l|] eqn:El;
    [|by eapply kb_push_oom].
  destruct (alloc (<[l:=_]> h) _) as [d|] eqn:Ed; [|by eapply kb_push_oom_string].
  destruct (kb_push_spec h k ns p s rest l d) as (k' & h' & ? & ? & ? & ? & _ & ?); eauto 10.
Qed.

(** [kb_pop], on every branch.  An empty buffer gives 1 and nothing
    changes; with room for the first string it returns 0, the string is in the
    caller's block, its two blocks are freed, the buffer holds the rest and no
    other block changes; without room [strcpy] leaves the caller's block. *)
Theorem kb_pop_behaviour h k ns p b :
  kb_rep h k ns → h !! p = Some b → p ∉ fp ns →
  match ns with
  | [] => kb_pop (Some p) k h = Ok ((1, k), h)
  | n :: ns' =>
      if decide (length (n_str n) < length b)%nat then
        ∃ k' h', kb_pop (Some p) k h = Ok ((0, k'), h') ∧ kb_rep h' k' ns' ∧
          h' !! p = Some (cells (n_str n) ++ drop (S (length (n_str n))) b) ∧
          h' !! n_loc n = None ∧ h' !! n_data n = None ∧
          (∀ i, i ≠ p → i ≠ n_loc n → i ≠ n_data n → h' !! i = h !! i)
      else kb_pop (Some p) k h = Err OutOfBounds
  end.
Proof.
  intros Hk Hp Hn. destruct ns as [|n ns]; [by apply kb_pop_empty|].
  case_decide; [by apply kb_pop_spec|]. eapply kb_pop_overrun; [done|done|lia].
Qed.

(** [kb_scan] ends and fills an array of the buffer's size with the
    lengths of the strings, first string first. *)
Theorem kb_scan_lists_lengths h k ns data b :
  kb_rep h k ns → data ∉ fp ns → h !! data = Some b → length b = length ns →
  Z.of_nat (length ns) ≤ INT_MAX →
  kb_scan (Some data) k h = Ok (tt, <[data := Int <$> lengths ns]> h).
Proof. apply kb_scan_spec. Qed.

End theorems.

(** [my_div] rounds to the nearest integer, halves up, but for one case:
    with an odd divisor it rounds up already at the remainder [(b - 1) / 2],
    just below the half, so that a division by 1 always adds one. *)
Theorem my_div_rounding a b :
  0 ≤ a → 0 < b → a / b < INT_MAX →
  my_div a b = Ok ((2 * a + b) / (2 * b) +
    (if Z.odd b && bool_decide (a mod b = (b - 1) / 2) then 1 else 0)).
Proof.
  intros Ha Hb Hm. rewrite my_div_eq by done. f_equal.
  pose proof (Z.div_mod a b ltac:(lia)) as E. pose proof (Z.mod_pos_bound a b Hb) as Hr.
  set (q := a / b) in *. set (r := a mod b) in *.
  destruct (Z.odd b) eqn:Ho; cbn [andb].
  - apply Z.odd_spec in Ho as [c ->].
    replace ((2 * c + 1 - 1) / 2) with c by (Z.div_mod_to_equations; lia).
    replace ((2 * c + 1) / 2) with c by (Z.div_mod_to_equations; lia).
    assert ((a + (2 * c + 1 - c)) / (2 * c + 1) = q + (if bool_decide (c ≤ r) then 1 else 0)) as ->.
    { symmetry. case_bool_decide.
      - apply Z.div_unique with (r - c); [lia|]. rewrite E. ring.
      - apply Z.div_unique with (r + c + 1); [lia|]. rewrite E. ring. }
    assert ((2 * a + (2 * c + 1)) / (2 * (2 * c + 1)) = q + (if bool_decide (c < r) then 1 else 0)) as ->.
    { symmetry. case_bool_decide.
      - apply Z.div_unique with (2 * r - (2 * c + 1)); [lia|]. rewrite E. ring.
      - apply Z.div_unique with (2 * r + (2 * c + 1)); [lia|]. rewrite E. ring. }
    repeat case_bool_decide; lia.
  - assert (Z.even b = true) as [c ->]%Z.even_spec by (rewrite <- Z.negb_odd, Ho; done).
    replace (2 * c / 2) with c by (Z.div_mod_to_equations; lia). rewrite Z.add_0_r.
    replace (2 * a + 2 * c) with ((a + c) * 2) by ring.
    replace (2 * (2 * c)) with (2 * c * 2) by ring. rewrite Z.div_mul_cancel_r by lia.
    f_equal. lia.
Qed.

(** ** Witnesses *)

(** A buffer with "A", a value block with "BC", and a block of one [int]. *)
Definition demo_heap : heap :=
  {[ 1%positive := node_block 2 None; 2%positive := cells [65];
     3%positive := cells [66; 67]; 4%positive := [Undef] ]}.
Definition demo_kb : kb := Kb (Some 1%positive) (Some 1%positive) 1.
Definition demo_nodes : list node := [Node 1 2 [65]].

Lemma demo_rep : kb_rep demo_heap demo_kb demo_nodes.
Proof.
  split; [|done|done]. apply fifo_singleton; try done. by repeat constructor.
Qed.

Lemma demo_fp i : i ∈ [3; 4]%positive → i ∉ fp demo_nodes.
Proof. unfold fp, demo_nodes. simpl. set_solver. Qed.

Lemma kb_push_behaviour_witness :
  ∃ k' h', @kb_push first_fit (Some 3%positive) demo_kb demo_heap = Ok ((0, k'), h') ∧
    kb_rep h' k' (demo_nodes ++ [Node 5 6 [66; 67]]).
Proof.
  pose proof (@kb_push_behaviour first_fit demo_heap demo_kb demo_nodes 3%positive [66; 67] []
    demo_rep ltac:(reflexivity) ltac:(repeat constructor; lia)
    (demo_fp 3 ltac:(left)) ltac:(simpl; lia)) as H.
  assert (@alloc first_fit demo_heap SIZEOF_NODE = Some 5%positive) as E1
    by (vm_compute; reflexivity).
  rewrite E1 in H.
  assert (@alloc first_fit (<[5%positive := [Undef; Undef]]> demo_heap)
    (Z.of_nat (length [66; 67]) + 1) = Some 6%positive) as E2 by (vm_compute; reflexivity).
  rewrite E2 in H. destruct H as (k' & h' & H1 & H2 & _). exists k', h'. split; assumption.
Defined.

Lemma kb_pop_behaviour_witness :
  ∃ k' h', @kb_pop (Some 3%positive) demo_kb demo_heap = Ok ((0, k'), h') ∧
    kb_rep h' k' [] ∧ h' !! 3%positive = Some (cells [65] ++ [Int 0]).
Proof.
  destruct (kb_pop_behaviour demo_heap demo_kb demo_nodes 3%positive (cells [66; 67])
    demo_rep ltac:(reflexivity) (demo_fp 3 ltac:(left))) as (k' & h' & H1 & H2 & H3 & _).
  exists k', h'. split; [exact H1|]. split; [exact H2|exact H3].
Defined.

Lemma kb_scan_lists_lengths_witness :
  kb_scan (Some 4%positive) demo_kb demo_heap = Ok (tt, <[4%positive := [Int 1]]> demo_heap).
Proof.
  exact (kb_scan_lists_lengths demo_heap demo_kb demo_nodes 4%positive [Undef] demo_rep
    (demo_fp 4 ltac:(right; left)) ltac:(reflexivity) ltac:(reflexivity)
    ltac:(vm_compute; discriminate)).
Defined.

Lemma my_div_rounding_witness : my_div 10 4 = Ok 3 ∧ my_div 7 1 = Ok 8 ∧ my_div 7 3 = Ok 3.
Proof.
  split; [|split].
  - exact (my_div_rounding 10 4 ltac:(lia) ltac:(lia) ltac:(vm_compute; reflexivity)).
  - exact (my_div_rounding 7 1 ltac:(lia) ltac:(lia) ltac:(vm_compute; reflexivity)).
  - exact (my_div_rounding 7 3 ltac:(lia) ltac:(lia) ltac:(vm_compute; reflexivity)).
Defined.
