(* ===== verification/Fun.v ===== *)
(** * Words: generation and change of case (Writer/fun.c, Reader/fun.c)

    The two files hold the same three functions.  [rand] is libc's; the
    successive results of its calls are a parameter. *)

From stdpp Require Import base numbers list option gmap.
From S2P Require Import Prelude Memory.
Local Open Scope Z_scope.
Local Open Scope c_scope.

(** fun.h: the size of a word, terminator included; Reader/read.h: the number
    of bytes one read asks for. *)
Definition MAXL : Z := 40.
Definition READ_BYTE : Z := 40.

Section operations.
Context `{Allocator}.

(** [calloc(n, sizeof(char))]: a block of zeros. *)
Definition calloc_chars (n : Z) : C ptr := λ h,
  match alloc h (wrapu32 n) with
  | Some l => Ok (Some l, <[l := replicate (Z.to_nat (wrapu32 n)) (Int 0)]> h)
  | None => Ok (None, h)
  end.

(** [rnd k] is the result of the [k]-th call of [rand]. *)
Definition gen_data (rnd : nat → Z) : C ptr :=
  r <- lift (cmod (rnd 0%nat) (MAXL - 1));;
  let loop := wrap32 (r + 1) in
  data <- calloc_chars (wrap32 (loop + 1));;
  for_upto (Z.to_nat loop) 0 loop tt (λ i _,
    m <- lift (cmod (rnd (S (Z.to_nat i))) 25);;
    let tmp := wrap32 (m + 65) in
    store data i (Int (wrap8 tmp)));;;
  store data loop (Int 0);;;
  ret data.

(** The [while] loop of [to_lower] and [to_upper]. *)
Fixpoint shift_loop (fuel : nat) (delta : Z) (letters : ptr) (i : Z) : C unit :=
  c <- load_int letters i;;
  if bool_decide (c = 0) then ret tt
  else match fuel with
       | O => lift (Err NoFuel)
       | S fuel' =>
           let tmp := wrap32 (c + delta) in
           store letters i (Int (wrap8 tmp));;;
           shift_loop fuel' delta letters (wrap32 (i + 1))
       end.

Definition shift_letters (delta : Z) (letters : ptr) : C unit := λ h,
  match letters with
  | None => Err NullDeref
  | Some l => shift_loop (length (default [] (h !! l))) delta letters 0 h
  end.

Definition to_lower (letters : ptr) : C unit := shift_letters 32 letters.
Definition to_upper (letters : ptr) : C unit := shift_letters (-32) letters.

End operations.

(** ** What the functions do to strings *)

Definition shift_char (delta c : Z) : Z := wrap8 (wrap32 (c + delta)).
Definition shift_str (delta : Z) (s : list Z) : list Z := shift_char delta <$> s.
Definition lower (s : list Z) : list Z := shift_str 32 s.
Definition upper (s : list Z) : list Z := shift_str (-32) s.

Section behaviour.
Context `{Allocator}.

Lemma shift_loop_spec delta s : ∀ fuel h p i pre rest,
  cstring s → (length s ≤ fuel)%nat →
  h !! p = Some (pre ++ cells s ++ rest) → length pre = Z.to_nat i → 0 ≤ i →
  i + Z.of_nat (length s) ≤ INT_MAX →
  shift_loop fuel delta (Some p) i h
    = Ok (tt, <[p := pre ++ cells (shift_str delta s) ++ rest]> h).
Proof.
  induction s as [|c s IH]; intros fuel h p i pre rest Hs Hf Hp Hpre Hi Hmax.
  - destruct fuel; cbn [shift_loop];
      (erewrite bind_ok by
        (eapply load_int_ok; [done|lia|by rewrite lookup_app_r, <- Hpre, Nat.sub_diag by lia]));
      by rewrite insert_id.
  - apply Forall_cons in Hs as [Hc Hs].
    destruct fuel as [|fuel]; [simpl in Hf; lia|]. cbn [shift_loop].
    erewrite bind_ok by
      (eapply load_int_ok; [done|lia|by rewrite lookup_app_r, <- Hpre, Nat.sub_diag by lia]).
    rewrite bool_decide_false by done.
    erewrite bind_ok by (eapply store_ok; [done|rewrite !length_app, length_cells; simpl; lia]).
    rewrite <- Hpre, <- (Nat.add_0_r (length pre)), insert_app_r.
    rewrite cells_cons. cbn [app list_insert insert].
    rewrite wrap32_id by (unfold_ranges; simpl in Hmax; lia).
    rewrite (IH _ _ _ _ (pre ++ [Int (shift_char delta c)]) rest).
    + rewrite insert_insert_eq. by rewrite <- app_assoc.
    + done.
    + simpl in Hf. lia.
    + rewrite lookup_insert_eq. by rewrite <- app_assoc.
    + rewrite length_app. simpl. lia.
    + lia.
    + simpl in Hmax. lia.
Qed.

(** The loop reaches the terminator, shifts every character before it and
    keeps what follows. *)
Lemma shift_letters_spec delta h p s rest :
  h !! p = Some (cells s ++ rest) → cstring s → Z.of_nat (length s) ≤ INT_MAX →
  shift_letters delta (Some p) h
    = Ok (tt, <[p := cells (shift_str delta s) ++ rest]> h).
Proof.
  intros Hp Hs Hl. unfold shift_letters. rewrite Hp. simpl.
  apply (shift_loop_spec delta s _ h p 0 [] rest); try done.
  rewrite length_app, length_cells. lia.
Qed.

(** The word [gen_data] makes of the random numbers. *)
Definition word (rnd : nat → Z) : list Z :=
  (λ i, rnd (S i) mod 25 + 65) <$> seq 0 (Z.to_nat (rnd 0%nat mod 39 + 1)).

Lemma fill_loop rnd n : ∀ k h p b,
  (∀ i, 0 ≤ rnd i) → (k ≤ n)%nat → h !! p = Some b → (n ≤ length b)%nat →
  for_upto k (Z.of_nat (n - k)) (Z.of_nat n) tt (λ i _,
    m <- lift (cmod (rnd (S (Z.to_nat i))) 25);;
    let tmp := wrap32 (m + 65) in
    store (Some p) i (Int (wrap8 tmp))) h
  = Ok (tt, <[p := take (n - k) b ++ ((λ i, Int (rnd (S i) mod 25 + 65)) <$> seq (n - k) k)
                   ++ drop n b]> h).
Proof.
  induction k as [|k IH]; intros h p b Hr Hk Hp Hn.
  - simpl. rewrite bool_decide_false by lia. rewrite Nat.sub_0_r, take_drop.
    by rewrite insert_id.
  - cbn [for_upto]. rewrite bool_decide_true by lia.
    assert (0 ≤ rnd (S (n - S k)) mod 25 < 25) as Hm by (apply Z.mod_pos_bound; lia).
    erewrite bind_ok.
    2: { rewrite Nat2Z.id. erewrite bind_ok by (apply lift_ok, cmod_pos; [apply Hr|lia]).
         cbv zeta. rewrite wrap32_id by (unfold_ranges; lia).
         rewrite wrap8_id by (unfold_ranges; lia). eapply store_ok; [done|lia]. }
    replace (Z.of_nat (n - S k) + 1) with (Z.of_nat (n - k)) by lia.
    rewrite Nat2Z.id. erewrite IH; [|done|lia|by rewrite lookup_insert_eq|].
    2: { rewrite length_insert. lia. }
    rewrite insert_insert_eq. do 3 f_equal.
    replace (n - k)%nat with (S (n - S k)) by lia.
    rewrite drop_insert_lt by lia.
    erewrite take_S_r by (apply list_lookup_insert_eq; lia).
    rewrite take_insert_ge by lia. rewrite <- app_assoc. done.
Qed.

(** [gen_data] with memory available returns a fresh block that holds the
    word and its terminator. *)
Lemma gen_data_spec rnd h l :
  (∀ i, 0 ≤ rnd i) → alloc h (rnd 0%nat mod 39 + 2) = Some l →
  gen_data rnd h = Ok (Some l, <[l := cells (word rnd)]> h) ∧ h !! l = None.
Proof.
  intros Hr Hl. split; [|by eapply alloc_fresh]. unfold gen_data.
  assert (0 ≤ rnd 0%nat mod 39 < 39) as Hm by (apply Z.mod_pos_bound; lia).
  erewrite bind_ok by (apply lift_ok, cmod_pos; [apply Hr|done]).
  change (MAXL - 1) with 39. set (r := rnd 0%nat mod 39) in *. cbv zeta.
  rewrite (wrap32_id (r + 1)) by (unfold_ranges; lia).
  rewrite (wrap32_id (r + 1 + 1)) by (unfold_ranges; lia).
  set (n := Z.to_nat (r + 1)).
  assert (r + 1 = Z.of_nat n) as En by (unfold n; lia). rewrite En.
  assert (calloc_chars (Z.of_nat n + 1) h
    = Ok (Some l, <[l := replicate (S n) (Int 0)]> h)) as Ec.
  { unfold calloc_chars. rewrite wrapu32_id by lia.
    replace (Z.of_nat n + 1) with (r + 2) by lia. rewrite Hl. do 4 f_equal. lia. }
  rewrite (bind_ok _ _ _ _ _ Ec).
  pose proof (fill_loop rnd n n (<[l := replicate (S n) (Int 0)]> h) l (replicate (S n) (Int 0))
    Hr ltac:(lia) ltac:(by rewrite lookup_insert_eq) ltac:(rewrite length_replicate; lia)) as Ef.
  rewrite Nat.sub_diag in Ef. change (Z.of_nat 0) with 0 in Ef.
  rewrite (bind_ok _ _ _ _ _ Ef), insert_insert_eq.
  rewrite take_0, drop_replicate. cbn [app].
  replace (S n - n)%nat with 1%nat by lia.
  erewrite bind_ok.
  2: { eapply store_ok; [by rewrite lookup_insert_eq|].
       rewrite length_app, length_fmap, length_seq. simpl. lia. }
  rewrite insert_insert_eq, Nat2Z.id. unfold ret. do 3 f_equal.
  rewrite insert_app_r_alt by (rewrite length_fmap, length_seq; lia).
  rewrite length_fmap, length_seq, Nat.sub_diag. unfold cells, word. fold r. fold n.
  by rewrite <- list_fmap_compose.
Qed.

(** No memory: the first store goes through NULL. *)
Lemma gen_data_oom rnd h :
  (∀ i, 0 ≤ rnd i) → alloc h (rnd 0%nat mod 39 + 2) = None → gen_data rnd h = Err NullDeref.
Proof.
  intros Hr Hl. unfold gen_data.
  assert (0 ≤ rnd 0%nat mod 39 < 39) as Hm by (apply Z.mod_pos_bound; lia).
  erewrite bind_ok by (apply lift_ok, cmod_pos; [apply Hr|done]).
  change (MAXL - 1) with 39. set (r := rnd 0%nat mod 39) in *. cbv zeta.
  rewrite (wrap32_id (r + 1)) by (unfold_ranges; lia).
  rewrite (wrap32_id (r + 1 + 1)) by (unfold_ranges; lia).
  erewrite bind_ok.
  2: { unfold calloc_chars. rewrite wrapu32_id by lia.
       replace (r + 1 + 1) with (r + 2) by lia. by rewrite Hl. }
  replace (Z.to_nat (r + 1)) with (S (Z.to_nat r)) by lia. cbn [for_upto].
  rewrite bool_decide_true by lia. apply bind_err.
  erewrite bind_err; [done|].
  by erewrite bind_ok by (apply lift_ok, cmod_pos; [apply Hr|lia]).
Qed.

End behaviour.

(** ** Words *)

(** A word of the writer: 1 to 39 letters from A to Y. *)
Definition is_word (s : list Z) : Prop :=
  (1 ≤ length s ≤ 39)%nat ∧ Forall (λ c, 65 ≤ c ≤ 89) s.

Lemma word_is_word rnd : is_word (word rnd).
Proof.
  unfold is_word, word. rewrite length_fmap, length_seq.
  pose proof (Z.mod_pos_bound (rnd 0%nat) 39 ltac:(lia)). split; [lia|].
  apply Forall_fmap, Forall_true. intros i. simpl.
  pose proof (Z.mod_pos_bound (rnd (S i)) 25 ltac:(lia)). lia.
Qed.

Lemma is_word_cstring s : is_word s → cstring s.
Proof. intros [_ H]. eapply Forall_impl; [done|]. simpl. lia. Qed.

Lemma shift_char_small delta c :
  -128 ≤ c + delta < 128 → shift_char delta c = c + delta.
Proof.
  intros Hc. unfold shift_char. rewrite wrap32_id by (unfold_ranges; lia).
  apply wrap8_id. unfold_ranges. lia.
Qed.

Lemma length_lower s : length (lower s) = length s.
Proof. apply length_fmap. Qed.

(** Lower case of a word: letters from a to y. *)
Lemma lower_word s :
  is_word s → Forall (λ c, 97 ≤ c ≤ 121) (lower s) ∧ cstring (lower s).
Proof.
  intros [_ H]. assert (Forall (λ c, 97 ≤ c ≤ 121) (lower s)) as Hl.
  { apply Forall_fmap. eapply Forall_impl; [done|]. simpl. intros c Hc.
    rewrite shift_char_small; lia. }
  split; [done|]. eapply Forall_impl; [done|]. simpl. lia.
Qed.

(** The reader's [to_upper] undoes the writer's [to_lower]. *)
Lemma upper_lower s : Forall (λ c, -128 ≤ c < 96) s → upper (lower s) = s.
Proof.
  intros H. unfold upper, lower, shift_str. rewrite <- list_fmap_compose.
  rewrite <- (list_fmap_id s) at 2. apply list_fmap_ext. intros i c Hi. simpl.
  rewrite Forall_lookup in H. specialize (H _ _ Hi). simpl in H.
  rewrite !shift_char_small; rewrite ?shift_char_small; lia.
Qed.

(** ** Theorems *)

(** [gen_data] on every branch.  With memory it returns a new block with a
    word of 1 to 39 letters from A to Y and its terminator, and changes nothing
    else (the Z the comment promises never occurs, and 40, the "max size", is
    not reached); without memory it writes through NULL. *)
Theorem gen_data_behaviour `{Allocator} rnd h :
  (∀ i, 0 ≤ rnd i) →
  is_word (word rnd) ∧
  match alloc h (rnd 0%nat mod 39 + 2) with
  | Some l => gen_data rnd h = Ok (Some l, <[l := cells (word rnd)]> h) ∧ h !! l = None
  | None => gen_data rnd h = Err NullDeref
  end.
Proof.
  intros Hr. split; [apply word_is_word|].
  destruct (alloc h _) as [l|] eqn:E; [by apply gen_data_spec|by apply gen_data_oom].
Qed.

Lemma gen_data_behaviour_witness :
  is_word (word (λ k, Z.of_nat k)) ∧
  @gen_data first_fit (λ k, Z.of_nat k) ∅ = Ok (Some 1%positive, {[1%positive := cells [66]]}).
Proof.
  destruct (@gen_data_behaviour first_fit (λ k, Z.of_nat k) ∅ Nat2Z.is_nonneg) as [Hw Hg].
  split; [exact Hw|]. vm_compute. reflexivity.
Defined.

(** The reader's [to_upper] undoes the writer's [to_lower]: on a block with
    a terminated string of characters between -128 and 95 other than -32 the
    two calls succeed and leave the memory as it was.  (-32 is the character
    that [to_lower] turns into a terminator.) *)
Theorem case_round_trip h p s rest :
  h !! p = Some (cells s ++ rest) → cstring s →
  Forall (λ c, -128 ≤ c < 96 ∧ c ≠ -32) s → Z.of_nat (length s) ≤ INT_MAX →
  to_lower (Some p) h = Ok (tt, <[p := cells (lower s) ++ rest]> h) ∧
  to_upper (Some p) (<[p := cells (lower s) ++ rest]> h) = Ok (tt, h).
Proof.
  intros Hp Hs Hr Hl. split; [by apply shift_letters_spec|].
  unfold to_upper. rewrite (shift_letters_spec (-32) _ p (lower s) rest).
  - change (shift_str (-32) (lower s)) with (upper (lower s)). rewrite insert_insert_eq, (upper_lower s).
    + by rewrite insert_id.
    + eapply Forall_impl; [done|]. simpl. tauto.
  - by rewrite lookup_insert_eq.
  - apply Forall_fmap. eapply Forall_impl; [done|]. simpl. intros c [? ?].
    rewrite shift_char_small; lia.
  - by rewrite length_lower.
Qed.

Definition so2_heap : heap := {[1%positive := cells [83; 79; 50]]}.

Lemma case_round_trip_witness :
  let h := so2_heap in
  lower [83; 79; 50] = [115; 111; 82] ∧
  to_lower (Some 1%positive) h = Ok (tt, <[1%positive := cells (lower [83; 79; 50]) ++ []]> h) ∧
  to_upper (Some 1%positive) (<[1%positive := cells (lower [83; 79; 50]) ++ []]> h) = Ok (tt, h).
Proof.
  split; [vm_compute; reflexivity|].
  exact (case_round_trip so2_heap 1%positive [83; 79; 50] []
    ltac:(vm_compute; reflexivity) ltac:(repeat constructor; lia) ltac:(repeat constructor; lia)
    ltac:(vm_compute; discriminate)).
Defined.
