(* ===== verification/Device.v ===== *)
(** * The device driver (Module/main.c)

    The character device /dev/mydev: its static variables, the four file
    operations and the two kernel threads as programs of small steps, and the
    steps of the environment (a process enters a system call, a signal or a
    timer arrives).

    A task is at a program point ([pc]) of the function it executes.  One step
    runs the code from one program point to the next.  Everything between
    [mutex_lock] and [mutex_unlock] is executed by the owner of [dev_mutex];
    other tasks may run in between, and what they can do without the mutex is
    to evaluate the condition of [wait_event_interruptible], which the macro of
    include/linux/wait.h does outside the lock.

    What is not under src/ (the scheduler, the mutex, prepare_to_wait,
    finish_wait, wake_up, copy_to_user, copy_from_user, kmalloc) enters with
    its documented behaviour: a mutex has one owner; [schedule] does not return
    while the task's state is TASK_INTERRUPTIBLE; [wake_up_interruptible] makes
    every interruptible task on the queue runnable and takes it off the queue
    (the waiters of DEFINE_WAIT are not exclusive and use
    autoremove_wake_function); a copy from or to user memory returns the number
    of bytes that it could not copy, here a choice of the environment. *)

From stdpp Require Import base numbers list option gmap.
From S2P Require Import Prelude Memory CList Kbuf Stat.
Local Open Scope Z_scope.
Local Open Scope c_scope.

(** ** Tasks *)

Abbreviation tid := positive.

Inductive kthread := KStat | KRealloc.

(** [task_struct.state] *)
Inductive tstate := Running | Interruptible.

(** Program points inside [wait_event_interruptible]. *)
Inductive wepc :=
  | WeTest      (* if (!(condition)) *)
  | WePrepare   (* prepare_to_wait *)
  | WeCond      (* if (condition) break *)
  | WeSignal    (* if (!signal_pending(current)) *)
  | WeSched     (* schedule() *)
  | WeFinish.   (* finish_wait *)

(** The value pointer and the argument [dim] are the locals that live across a
    step; [buf] is what the user buffer of a write holds. *)
Inductive pc :=
  (* my_read *)
  | RLock (dim : Z)
  | RAlloc (dim : Z)
  | RTest (v : ptr) (dim : Z)
  | RWait (v : ptr) (dim : Z) (w : wepc)
  | RRelock (v : ptr) (dim : Z)
  | RPop (v : ptr) (dim : Z)
  | RCopy (v : ptr) (dim : Z)
  | RWake (v : ptr)
  | REnd (r : Z)
  (* my_write *)
  | WLock (buf : list Z) (dim : Z)
  | WAlloc (buf : list Z) (dim : Z)
  | WTest (v : ptr) (buf : list Z) (dim : Z)
  | WWait (v : ptr) (buf : list Z) (dim : Z) (w : wepc)
  | WRelock (v : ptr) (buf : list Z) (dim : Z)
  | WCopy (v : ptr) (buf : list Z) (dim : Z)
  | WPush (v : ptr)
  | WWake (v : ptr) (r : Z)
  | WEnd (v : ptr) (r : Z)
  (* my_open, my_close *)
  | OLock | OBody | OUnlock
  | CLock | CBody | CUnlock
  (* kt_stat, kt_realloc *)
  | KLoop (k : kthread)
  | KLock (k : kthread)
  | KBody (k : kthread)
  | KUnlock (k : kthread) (timeout : bool)
  | KSched (k : kthread) (timeout : bool)
  | KExit (k : kthread)
  (* the call has returned *)
  | Done (r : Z).

Record task := Task { t_pc : pc; t_state : tstate; t_sig : bool }.

#[export] Instance kthread_eq_dec : EqDecision kthread.
Proof. solve_decision. Defined.
#[export] Instance tstate_eq_dec : EqDecision tstate.
Proof. solve_decision. Defined.
#[export] Instance wepc_eq_dec : EqDecision wepc.
Proof. solve_decision. Defined.
#[export] Instance pc_eq_dec : EqDecision pc.
Proof. solve_decision. Defined.
#[export] Instance task_eq_dec : EqDecision task.
Proof. solve_decision. Defined.

(** ** The static variables of main.c *)

Definition START_KB_DIM : Z := 5.
Definition EFAULT : Z := 14.

Record sys := Sys {
  kb_fifo : kb;
  dev_stat : ds;
  dev_run : Z;
  dev_mutex : option tid;
  wait_r : list tid;
  wait_w : list tid;
  mem : heap;
  should_stop : list kthread;
  tasks : gmap tid task }.

Definition set_kb (k : kb) (s : sys) : sys :=
  Sys k (dev_stat s) (dev_run s) (dev_mutex s) (wait_r s) (wait_w s) (mem s) (should_stop s) (tasks s).
Definition set_stat (v : ds) (s : sys) : sys :=
  Sys (kb_fifo s) v (dev_run s) (dev_mutex s) (wait_r s) (wait_w s) (mem s) (should_stop s) (tasks s).
Definition set_run (n : Z) (s : sys) : sys :=
  Sys (kb_fifo s) (dev_stat s) n (dev_mutex s) (wait_r s) (wait_w s) (mem s) (should_stop s) (tasks s).
Definition set_mutex (o : option tid) (s : sys) : sys :=
  Sys (kb_fifo s) (dev_stat s) (dev_run s) o (wait_r s) (wait_w s) (mem s) (should_stop s) (tasks s).
Definition set_wait_r (q : list tid) (s : sys) : sys :=
  Sys (kb_fifo s) (dev_stat s) (dev_run s) (dev_mutex s) q (wait_w s) (mem s) (should_stop s) (tasks s).
Definition set_wait_w (q : list tid) (s : sys) : sys :=
  Sys (kb_fifo s) (dev_stat s) (dev_run s) (dev_mutex s) (wait_r s) q (mem s) (should_stop s) (tasks s).
Definition set_mem (h : heap) (s : sys) : sys :=
  Sys (kb_fifo s) (dev_stat s) (dev_run s) (dev_mutex s) (wait_r s) (wait_w s) h (should_stop s) (tasks s).
Definition set_stop (b : list kthread) (s : sys) : sys :=
  Sys (kb_fifo s) (dev_stat s) (dev_run s) (dev_mutex s) (wait_r s) (wait_w s) (mem s) b (tasks s).
Definition set_tasks (m : gmap tid task) (s : sys) : sys :=
  Sys (kb_fifo s) (dev_stat s) (dev_run s) (dev_mutex s) (wait_r s) (wait_w s) (mem s) (should_stop s) m.

(** Descriptors of the two kernel threads. *)
Definition kt_stat_desc : tid := 1%positive.
Definition kt_realloc_desc : tid := 2%positive.

(** ** What a step shows outside *)

(** The printk lines and the transfers with user space. *)
Inductive event :=
  | EPush (t : tid) (s : list Z)                    (* WRITE ... into fifo *)
  | EPop (t : tid) (s : list Z)                     (* kb_pop took the string *)
  | EDeliver (t : tid) (bytes : block)              (* copy_to_user succeeded *)
  | ESample (dim : Z) (r : option (Z * Z * Z))      (* [Statistics]: AVG/MAX/MIN *)
  | EResize (per : Z) (max : Z)                     (* [Reallocator]: new size *)
  | EKeep.                                          (* No reallocation needed *)

#[export] Instance event_eq_dec : EqDecision event.
Proof. solve_decision. Defined.

(** ** Steps *)

Abbreviation outcome := (option (res (sys * list event))).
Definition go (s : sys) (e : list event) : outcome := Some (Ok (s, e)).
(** The task cannot run now. *)
Definition blocked : outcome := None.

(** Continue at another program point. *)
Definition upd (t : tid) (f : task → task) (s : sys) : sys :=
  set_tasks (alter f t (tasks s)) s.
Definition jump (t : tid) (p : pc) (s : sys) : sys :=
  upd t (λ k, Task p (t_state k) (t_sig k)) s.
Definition set_state (t : tid) (st : tstate) (s : sys) : sys :=
  upd t (λ k, Task (t_pc k) st (t_sig k)) s.

(** Run code of the component files on the kernel heap. *)
Definition run_c {A} (m : C A) (s : sys) (k : A → sys → outcome) : outcome :=
  match m (mem s) with
  | Ok (a, h) => k a (set_mem h s)
  | Err f => Some (Err f)
  end.

Definition mutex_lock (t : tid) (next : pc) (s : sys) : outcome :=
  match dev_mutex s with
  | None => go (jump t next (set_mutex (Some t) s)) []
  | Some _ => blocked
  end.

Definition mutex_unlock (s : sys) : sys := set_mutex None s.

(** The state of a task that [wake_up] or [wake_up_process] finds. *)
Definition is_interruptible (s : sys) (t : tid) : bool :=
  match tasks s !! t with
  | Some k => bool_decide (t_state k = Interruptible)
  | None => false
  end.

Definition wake_all (q : list tid) (s : sys) : sys :=
  foldr (λ t s', set_state t Running s') s q.

Definition wake_up_interruptible_r (s : sys) : sys :=
  set_wait_r (filter (λ t, is_interruptible s t = false) (wait_r s))
    (wake_all (filter (λ t, is_interruptible s t = true) (wait_r s)) s).
Definition wake_up_interruptible_w (s : sys) : sys :=
  set_wait_w (filter (λ t, is_interruptible s t = false) (wait_w s))
    (wake_all (filter (λ t, is_interruptible s t = true) (wait_w s)) s).

Definition wake_up_process (t : tid) (s : sys) : sys := set_state t Running s.

(** [wait_event_interruptible(wq, condition)]: [at_] is the program point of
    the caller inside the macro, [exit] the one behind it.  The returned
    -ERESTARTSYS is ignored by both callers. *)
Definition wait_event_interruptible (t : tid) (k : task) (cond : bool)
    (queue : list tid) (set_queue : list tid → sys → sys)
    (at_ : wepc → pc) (exit : pc) (w : wepc) (s : sys) : outcome :=
  match w with
  | WeTest => if cond then go (jump t exit s) [] else go (jump t (at_ WePrepare) s) []
  | WePrepare =>
      let q := if bool_decide (t ∈ queue) then queue else t :: queue in
      go (jump t (at_ WeCond) (set_state t Interruptible (set_queue q s))) []
  | WeCond => if cond then go (jump t (at_ WeFinish) s) [] else go (jump t (at_ WeSignal) s) []
  | WeSignal => if t_sig k then go (jump t (at_ WeFinish) s) [] else go (jump t (at_ WeSched) s) []
  | WeSched =>
      match t_state k with
      | Running => go (jump t (at_ WePrepare) s) []
      | Interruptible => blocked
      end
  | WeFinish =>
      go (jump t exit (set_state t Running (set_queue (filter (.≠ t) queue) s))) []
  end.

Section steps.
Context `{Allocator}.

(** A copy of [dim] bytes leaves between 0 and [dim] bytes behind. *)
Definition bytes_left (uncopied dim : Z) : Z := Z.max 0 (Z.min uncopied dim).

(** copy_to_user(buf, value, dim) *)
Definition copy_to_user (uncopied : Z) (value : ptr) (dim : Z) : C (Z * block) :=
  b <- load_block value;;
  if bool_decide (Z.of_nat (length b) < dim) then lift (Err OutOfBounds)
  else if bool_decide (bytes_left uncopied dim = 0) then ret (0, take (Z.to_nat dim) b)
  else ret (bytes_left uncopied dim, []).

(** copy_from_user(value, buf, dim): what cannot be copied is filled with
    zeros.  A user buffer shorter than [dim] cannot be copied in full. *)
Definition copy_from_user (uncopied : Z) (value : ptr) (buf : list Z) (dim : Z) : C Z :=
  b <- load_block value;;
  let left_ := bytes_left (Z.max uncopied (dim - Z.of_nat (length buf))) dim in
  let src := take (Z.to_nat (dim - left_)) buf in
  if bool_decide (Z.of_nat (length b) < dim) then lift (Err OutOfBounds)
  else
    store_block value ((Int <$> src) ++ replicate (Z.to_nat dim - length src) (Int 0)
      ++ drop (Z.to_nat dim) b);;;
    ret left_.

(** [my_read]: [uncopied] is the result of copy_to_user, if the step calls it. *)
Definition my_read (t : tid) (k : task) (uncopied : Z) (s : sys) : outcome :=
  match t_pc k with
  | RLock dim => mutex_lock t (RAlloc dim) s
  | RAlloc dim =>
      run_c (malloc_chars dim) s (λ value s',
        if bool_decide (value = None) then go (jump t (REnd 1) s') []
        else go (jump t (RTest value dim) s') [])
  | RTest v dim =>
      if bool_decide (kb_isempty (kb_fifo s) ≠ 0)
      then go (jump t (RWait v dim WeTest) (mutex_unlock s)) []
      else go (jump t (RPop v dim) s) []
  | RWait v dim w =>
      wait_event_interruptible t k (bool_decide (kb_isempty (kb_fifo s) = 0))
        (wait_r s) set_wait_r (RWait v dim) (RRelock v dim) w s
  | RRelock v dim => mutex_lock t (RTest v dim) s
  | RPop v dim =>
      run_c (kb_pop v (kb_fifo s)) s (λ '(res, kb') s',
        let s2 := set_kb kb' s' in
        if bool_decide (res ≠ 0) then go (jump t (REnd res) s2) []
        else go (jump t (RCopy v dim) s2) [EPop t (cstr_of (block_at (mem s2) v))])
  | RCopy v dim =>
      run_c (copy_to_user uncopied v dim) s (λ '(res, bytes) s',
        if bool_decide (res ≠ 0) then go (jump t (REnd (- EFAULT)) s') []
        else go (jump t (RWake v) s') [EDeliver t bytes])
  | RWake v => go (jump t (REnd 0) (wake_up_interruptible_w s)) []
  | REnd res => go (jump t (Done res) (mutex_unlock s)) []
  | _ => blocked
  end.

(** [my_write]: [uncopied] is the result of copy_from_user, if the step calls it. *)
Definition my_write (t : tid) (k : task) (uncopied : Z) (s : sys) : outcome :=
  match t_pc k with
  | WLock buf dim => mutex_lock t (WAlloc buf dim) s
  | WAlloc buf dim =>
      run_c (malloc_chars dim) s (λ value s',
        if bool_decide (value = None) then go (jump t (WEnd None 1) s') []
        else go (jump t (WTest value buf dim) s') [])
  | WTest v buf dim =>
      if bool_decide (kb_isfull (kb_fifo s) (ds_kb_max (dev_stat s)) ≠ 0)
      then go (jump t (WWait v buf dim WeTest) (mutex_unlock s)) []
      else go (jump t (WCopy v buf dim) s) []
  | WWait v buf dim w =>
      wait_event_interruptible t k
        (bool_decide (kb_isfull (kb_fifo s) (ds_kb_max (dev_stat s)) = 0))
        (wait_w s) set_wait_w (WWait v buf dim) (WRelock v buf dim) w s
  | WRelock v buf dim => mutex_lock t (WTest v buf dim) s
  | WCopy v buf dim =>
      run_c (copy_from_user uncopied v buf dim) s (λ err s',
        if bool_decide (err ≠ 0) then go (jump t (WEnd v (- EFAULT)) s') []
        else go (jump t (WPush v) s') [])
  | WPush v =>
      run_c (kb_push v (kb_fifo s)) s (λ '(res, kb') s',
        go (jump t (WWake v res) (set_kb kb' s'))
           [EPush t (cstr_of (block_at (mem s) v))])
  | WWake v res => go (jump t (WEnd v res) (wake_up_interruptible_r s)) []
  | WEnd v res =>
      run_c (free v) s (λ _ s', go (jump t (Done res) (mutex_unlock s')) [])
  | _ => blocked
  end.

Definition my_open (t : tid) (k : task) (s : sys) : outcome :=
  match t_pc k with
  | OLock => mutex_lock t OBody s
  | OBody =>
      let s1 := set_run (wrap32 (dev_run s + 1)) s in
      let s2 := if bool_decide (dev_run s1 = 1)
                then wake_up_process kt_realloc_desc (wake_up_process kt_stat_desc s1)
                else s1 in
      go (jump t OUnlock s2) []
  | OUnlock => go (jump t (Done 0) (mutex_unlock s)) []
  | _ => blocked
  end.

Definition my_close (t : tid) (k : task) (s : sys) : outcome :=
  match t_pc k with
  | CLock => mutex_lock t CBody s
  | CBody => go (jump t CUnlock (set_run (wrap32 (dev_run s - 1)) s)) []
  | CUnlock => go (jump t (Done 0) (mutex_unlock s)) []
  | _ => blocked
  end.

(** The statistics part of [kt_stat], with the device in use. *)
Definition kt_stat_body (v : ds) (k : kb) : C (ds * event) :=
  '(dim, v1) <- ds_populate v k;;
  if bool_decide (dim ≠ 0) then
    med <- ds_med v1;;
    max <- ds_max v1;;
    min <- ds_min v1 max;;
    v2 <- ds_reset_stat v1;;
    ret (ds_add_kb_value v2 dim, ESample dim (Some (med, max, min)))
  else ret (ds_add_kb_value v1 dim, ESample dim None).

Definition kt_stat (t : tid) (k : task) (s : sys) : outcome :=
  match t_pc k with
  | KLoop KStat => go (jump t (if bool_decide (KStat ∈ should_stop s) then KExit KStat else KLock KStat) s) []
  | KLock KStat => mutex_lock t (KBody KStat) s
  | KBody KStat =>
      let s1 := set_state t Interruptible s in
      if bool_decide (dev_run s1 ≠ 0) then
        run_c (kt_stat_body (dev_stat s1) (kb_fifo s1)) s1 (λ '(v, e) s2,
          go (jump t (KUnlock KStat true) (set_stat v s2)) [e])
      else go (jump t (KUnlock KStat false) s1) []
  | KUnlock KStat tm => go (jump t (KSched KStat tm) (mutex_unlock s)) []
  | KSched KStat tm =>
      match t_state k with
      | Running => go (jump t (KLoop KStat) s) []
      | Interruptible => blocked
      end
  | _ => blocked
  end.

(** The reallocation part of [kt_realloc], with the device in use. *)
Definition kt_realloc_body (v : ds) : res (ds * event) :=
  rbind (ds_get_kb_occupation v) (λ per,
  rbind (my_div (ds_kb_sum v) (ds_kb_dim v)) (λ med_occ,
  if bool_decide (per ≠ KB_OCC) then
    rbind (ds_set_kb_occupation v med_occ) (λ v1,
    Ok (ds_reset_alloc v1, EResize per (ds_kb_max v1)))
  else Ok (ds_reset_alloc v, EKeep))).

Definition kt_realloc (t : tid) (k : task) (s : sys) : outcome :=
  match t_pc k with
  | KLoop KRealloc => go (jump t (if bool_decide (KRealloc ∈ should_stop s) then KExit KRealloc else KLock KRealloc) s) []
  | KLock KRealloc => mutex_lock t (KBody KRealloc) s
  | KBody KRealloc =>
      let s1 := set_state t Interruptible s in
      if bool_decide (dev_run s1 ≠ 0) then
        run_c (lift (kt_realloc_body (dev_stat s1))) s1 (λ '(v, e) s2,
          go (jump t (KUnlock KRealloc true) (set_stat v s2)) [e])
      else go (jump t (KUnlock KRealloc false) s1) []
  | KUnlock KRealloc tm => go (jump t (KSched KRealloc tm) (mutex_unlock s)) []
  | KSched KRealloc tm =>
      match t_state k with
      | Running => go (jump t (KLoop KRealloc) s) []
      | Interruptible => blocked
      end
  | _ => blocked
  end.

(** One step of task [t]. *)
Definition exec (t : tid) (uncopied : Z) (s : sys) : outcome :=
  match tasks s !! t with
  | None => blocked
  | Some k =>
      match t_pc k with
      | RLock _ | RAlloc _ | RTest _ _ | RWait _ _ _ | RRelock _ _ | RPop _ _
      | RCopy _ _ | RWake _ | REnd _ => my_read t k uncopied s
      | WLock _ _ | WAlloc _ _ | WTest _ _ _ | WWait _ _ _ _ | WRelock _ _ _
      | WCopy _ _ _ | WPush _ | WWake _ _ | WEnd _ _ => my_write t k uncopied s
      | OLock | OBody | OUnlock => my_open t k s
      | CLock | CBody | CUnlock => my_close t k s
      | KLoop KStat | KLock KStat | KBody KStat | KUnlock KStat _
      | KSched KStat _ | KExit KStat => kt_stat t k s
      | KLoop KRealloc | KLock KRealloc | KBody KRealloc | KUnlock KRealloc _
      | KSched KRealloc _ | KExit KRealloc => kt_realloc t k s
      | Done _ => blocked
      end
  end.

(** Program points at which a system call starts. *)
Definition is_entry (p : pc) : bool :=
  match p with
  | RLock _ | WLock _ _ | OLock | CLock => true
  | _ => false
  end.

(** The program points of the kernel threads, which block all signals. *)
Definition is_kthread (p : pc) : bool :=
  match p with
  | KLoop _ | KLock _ | KBody _ | KUnlock _ _ | KSched _ _ | KExit _ => true
  | _ => false
  end.

(** ** The transition system *)

Inductive label :=
  | LExec (t : tid) (uncopied : Z)         (* a task runs *)
  | LCall (t : tid) (p : pc)           (* a process enters a system call *)
  | LSignal (t : tid)                  (* a signal is sent to the task *)
  | LTimer (t : tid)                   (* schedule_timeout expires *)
  | LStop (k : kthread).               (* my_module_exit: kthread_stop *)

(** The successor of a state under a label: [None] when the label is not
    enabled.  [kthread_stop] waits for the thread to exit, so the second one
    starts when [kt_stat] has returned. *)
Definition next (l : label) (s : sys) : outcome :=
  match l with
  | LExec t uncopied => exec t uncopied s
  | LCall t p =>
      match tasks s !! t with
      | Some k => match t_pc k with
                  | Done _ => if is_entry p
                              then go (set_tasks (<[t := Task p Running (t_sig k)]> (tasks s)) s) []
                              else blocked
                  | _ => blocked
                  end
      | None => if is_entry p
                then go (set_tasks (<[t := Task p Running false]> (tasks s)) s) []
                else blocked
      end
  | LSignal t =>
      match tasks s !! t with
      | Some k => if is_kthread (t_pc k) then blocked
                  else go (upd t (λ k, Task (t_pc k) Running true) s) []
      | None => blocked
      end
  | LTimer t =>
      match tasks s !! t with
      | Some k => match t_pc k with
                  | KSched _ true => go (set_state t Running s) []
                  | _ => blocked
                  end
      | None => blocked
      end
  | LStop KStat => go (wake_up_process kt_stat_desc (set_stop [KStat] s)) []
  | LStop KRealloc =>
      if bool_decide (t_pc <$> tasks s !! kt_stat_desc = Some (KExit KStat))
      then go (wake_up_process kt_realloc_desc (set_stop [KStat; KRealloc] s)) []
      else blocked
  end.

(** A schedule: the labels in turn. *)
Fixpoint runs (ls : list label) (s : sys) : outcome :=
  match ls with
  | [] => go s []
  | l :: ls' =>
      match next l s with
      | Some (Ok (s', e)) =>
          match runs ls' s' with
          | Some (Ok (s'', e')) => Some (Ok (s'', e ++ e'))
          | o => o
          end
      | o => o
      end
  end.

(** Where a schedule ends and what it shows. *)
Definition final (ls : list label) (s : sys) : sys :=
  match runs ls s with Some (Ok (s', _)) => s' | _ => s end.
Definition shown (ls : list label) (s : sys) : list event :=
  match runs ls s with Some (Ok (_, e)) => e | _ => [] end.
Definition completes (ls : list label) (s : sys) : bool :=
  match runs ls s with Some (Ok _) => true | _ => false end.

(** A step and the events it shows. *)
Inductive step : sys → list event → sys → Prop :=
  | step_next l s e s' : next l s = Some (Ok (s', e)) → step s e s'.

(** A step that ends in a kernel fault. *)
Definition oops (s : sys) (l : label) (f : fault) : Prop := next l s = Some (Err f).

End steps.

(** ** Loading the module *)

(** [ds] and [kb] are static and start zeroed. *)
Definition zero_kb : kb := Kb None None 0.
Definition zero_ds : ds := Ds 0 None 0 0 0.

(** IS_ERR and PTR_ERR of include/linux/err.h on 32-bit pointers. *)
Definition IS_ERR (p : Z) : bool := bool_decide (2^32 - 4095 ≤ wrapu32 p).
Definition PTR_ERR (p : Z) : Z := wrap32 p.

(** What loading leaves behind: the statics, which threads run, and whether
    the device is registered. *)
Record loaded := Loaded {
  ld_registered : bool;
  ld_kb : kb;
  ld_ds : ds;
  ld_run : Z;
  ld_threads : list kthread }.

(** [my_module_init], with the results of [misc_register] and of the two calls
    of [kthread_run]. *)
Definition my_module_init (reg kt1 kt2 : Z) : Z * loaded :=
  if bool_decide (reg ≠ 0) then (reg, Loaded false zero_kb zero_ds 0 [])
  else
    let '(_, k) := kb_init zero_kb in
    if IS_ERR kt1 then (PTR_ERR kt1, Loaded true k zero_ds 0 [])
    else if IS_ERR kt2 then (PTR_ERR kt2, Loaded true k zero_ds 0 [KStat])
    else (0, Loaded true k (ds_init_alloc zero_ds START_KB_DIM) 0 [KStat; KRealloc]).

(** [my_module_exit]: [mutex_destroy] is empty, the threads are stopped, the
    device is removed; the strings still in the buffer stay allocated. *)
Definition my_module_exit (s : loaded) : loaded :=
  Loaded false (ld_kb s) (ld_ds s) (ld_run s) [].

Definition kt_task (k : kthread) : tid :=
  match k with KStat => kt_stat_desc | KRealloc => kt_realloc_desc end.

(** The transition system starts with the loaded module and an empty heap. *)
Definition boot (ld : loaded) : sys :=
  {| kb_fifo := ld_kb ld; dev_stat := ld_ds ld; dev_run := ld_run ld;
     dev_mutex := None; wait_r := []; wait_w := []; mem := ∅; should_stop := [];
     tasks := list_to_map
       ((λ k, (kt_task k, Task (KLoop k) Running false)) <$> ld_threads ld) |}.

Definition init_state : sys := boot (snd (my_module_init 0 1 1)).
