(* ===== verification/DeviceInv.v ===== *)
(** * Invariants of the device

    What holds in every reachable state of the transition system of Device,
    whatever the processes, the signals and the scheduler do: one owner of
    the mutex, a well-formed buffer whose contents are the strings pushed and
    not yet popped, private value blocks, no sleeping reader that missed a
    wake-up, statistics that sum the samples. *)

From stdpp Require Import base numbers list option gmap.
From S2P Require Import Prelude Memory CList Kbuf Stat Device.
Local Open Scope Z_scope.

(** The memory of the machine: launch.sh starts it with 128 MB and the smallest
    kmalloc cache has 32 bytes, so there are at most 2^22 blocks. *)
Definition MAX_BLOCKS : Z := 2^22.
Class SmallMemory `{Allocator} := alloc_small h n l :
  alloc h n = Some l → Z.of_nat (size h) < MAX_BLOCKS.

(** An allocator that satisfies both contracts. *)
Definition small_first_fit : Allocator.
Proof.
  refine {| alloc h _ := if bool_decide (Z.of_nat (size h) < MAX_BLOCKS)
                         then Some (fresh (dom h)) else None |}.
  intros h n l. case_bool_decide; [|done]. intros [= <-].
  apply not_elem_of_dom, is_fresh.
Defined.

Lemma small_first_fit_small : @SmallMemory small_first_fit.
Proof. intros h n l. simpl. by case_bool_decide. Qed.

(** ** Program points *)

(** The task owns [dev_mutex]. *)
Definition holds (p : pc) : bool :=
  match p with
  | RAlloc _ | RTest _ _ | RPop _ _ | RCopy _ _ | RWake _ | REnd _
  | WAlloc _ _ | WTest _ _ _ | WCopy _ _ _ | WPush _ | WWake _ _ | WEnd _ _
  | OBody | OUnlock | CBody | CUnlock | KBody _ | KUnlock _ _ => true
  | _ => false
  end.

(** The block behind the local [value], while the task will use it. *)
Definition owned (p : pc) : ptr :=
  match p with
  | RTest v _ | RWait v _ _ | RRelock v _ | RPop v _ | RCopy v _ | RWake v
  | WTest v _ _ | WWait v _ _ _ | WRelock v _ _ | WCopy v _ _ | WPush v
  | WWake v _ | WEnd v _ => v
  | _ => None
  end.

(** Points whose invariant does not speak about the buffer. *)
Definition plain (p : pc) : bool :=
  match p with RPop _ _ | RCopy _ _ | WCopy _ _ _ | WPush _ => false | _ => true end.

Definition pcs (s : sys) : gmap tid pc := t_pc <$> tasks s.

(** ** What the setters leave alone *)

Lemma pcs_upd t f p s :
  pcs s !! t = Some p → (∀ k, t_pc (f k) = p) → pcs (upd t f s) = pcs s.
Proof.
  unfold pcs, upd. simpl. intros Hp Hf. apply map_eq. intros i.
  rewrite !lookup_fmap, lookup_alter. case_decide; [subst|done].
  rewrite lookup_fmap in Hp. destruct (tasks s !! i); simpl in *; [|done].
  by rewrite Hf, Hp.
Qed.

Lemma pcs_jump t p p0 s :
  pcs s !! t = Some p0 → pcs (jump t p s) = <[t := p]> (pcs s).
Proof.
  unfold pcs, jump, upd. simpl. intros Hp. apply map_eq. intros i.
  rewrite lookup_fmap, lookup_alter, lookup_insert.
  case_decide; subst; [|by rewrite lookup_fmap].
  rewrite lookup_fmap in Hp. by destruct (tasks s !! i).
Qed.

Lemma pcs_jump_eq t p p' s : pcs (jump t p s) !! t = Some p' → p' = p.
Proof.
  unfold pcs, jump, upd. simpl. rewrite lookup_fmap, lookup_alter, decide_True by done.
  by destruct (tasks s !! t); intros [= <-].
Qed.

Lemma pcs_set_state t st s : pcs (set_state t st s) = pcs s.
Proof.
  unfold pcs, set_state, upd. simpl. apply map_eq. intros i.
  rewrite !lookup_fmap, lookup_alter. case_decide; [subst|done].
  by destruct (tasks s !! i).
Qed.

Lemma pcs_signal t s : pcs (upd t (λ k, Task (t_pc k) Running true) s) = pcs s.
Proof.
  unfold pcs, upd. simpl. apply map_eq. intros i.
  rewrite !lookup_fmap, lookup_alter. case_decide; [subst|done].
  by destruct (tasks s !! i).
Qed.

(** [wake_all] only changes task states. *)
Lemma wake_all_shape q s : ∃ m, wake_all q s = set_tasks m s ∧ t_pc <$> m = pcs s.
Proof.
  induction q as [|t q (m & IH & Hm)]; simpl.
  - exists (tasks s). by destruct s.
  - rewrite IH. eexists. split; [done|].
    transitivity (pcs (set_state t Running (set_tasks m s))); [done|].
    by rewrite pcs_set_state.
Qed.

Lemma wake_w_shape s : ∃ m q, wake_up_interruptible_w s = set_wait_w q (set_tasks m s) ∧
  t_pc <$> m = pcs s.
Proof.
  unfold wake_up_interruptible_w.
  destruct (wake_all_shape (filter (λ t, is_interruptible s t = true) (wait_w s)) s)
    as (m & -> & Hm).
  eauto.
Qed.

Lemma wake_r_shape s : ∃ m q, wake_up_interruptible_r s = set_wait_r q (set_tasks m s) ∧
  t_pc <$> m = pcs s.
Proof.
  unfold wake_up_interruptible_r.
  destruct (wake_all_shape (filter (λ t, is_interruptible s t = true) (wait_r s)) s)
    as (m & -> & Hm).
  eauto.
Qed.

(** ** Effects of a step

    Every step moves at most one task to another program point and does one
    of a few things to the shared state.  [effect t p p' s s' e]: task [t] goes
    from [p] to [p'].  The proofs of the invariants are case analyses over
    this relation instead of over the code. *)

Section effects.
Context `{Allocator}.

(** The shared state other than tasks and wait queues is unchanged. *)
Definition same_shared (s s' : sys) : Prop :=
  kb_fifo s' = kb_fifo s ∧ dev_stat s' = dev_stat s ∧ mem s' = mem s.

Inductive effect (t : tid) (p p' : pc) (s s' : sys) : list event → Prop :=
  (* nothing shared changes; mutex as before *)
  | eff_local :
      same_shared s s' → dev_mutex s' = dev_mutex s → holds p' = holds p →
      (owned p' = owned p ∨ owned p' = None) →
      plain p' = true → effect t p p' s s' []
  (* mutex_lock *)
  | eff_lock :
      same_shared s s' → dev_mutex s = None → dev_mutex s' = Some t →
      holds p = false → holds p' = true → owned p' = owned p →
      plain p' = true → effect t p p' s s' []
  (* mutex_unlock *)
  | eff_unlock :
      same_shared s s' → dev_mutex s' = None → holds p = true → holds p' = false →
      (owned p' = owned p ∨ owned p' = None) → effect t p p' s s' []
  (* kmalloc of the value *)
  | eff_alloc l dim :
      kb_fifo s' = kb_fifo s → dev_stat s' = dev_stat s → dev_mutex s' = dev_mutex s →
      holds p = true → holds p' = true →
      owned p = None → owned p' = Some l → alloc (mem s) (wrapu32 dim) = Some l →
      mem s' = <[l := replicate (Z.to_nat (wrapu32 dim)) Undef]> (mem s) →
      (p' = RTest (Some l) dim ∨ ∃ buf, p' = WTest (Some l) buf dim) →
      effect t p p' s s' []
  (* the buffer is not empty *)
  | eff_nonempty v dim :
      same_shared s s' → dev_mutex s' = dev_mutex s →
      p = RTest v dim → p' = RPop v dim → kb_isempty (kb_fifo s) = 0 →
      effect t p p' s s' []
  (* the buffer is not full *)
  | eff_notfull v buf dim :
      same_shared s s' → dev_mutex s' = dev_mutex s →
      p = WTest v buf dim → p' = WCopy v buf dim →
      kb_isfull (kb_fifo s) (ds_kb_max (dev_stat s)) = 0 → effect t p p' s s' []
  (* kb_pop *)
  | eff_pop v dim r h' k' :
      p = RPop v dim → kb_pop v (kb_fifo s) (mem s) = Ok ((r, k'), h') →
      kb_fifo s' = k' → dev_stat s' = dev_stat s → mem s' = h' →
      dev_mutex s' = dev_mutex s →
      p' = (if bool_decide (r ≠ 0) then REnd r else RCopy v dim) →
      effect t p p' s s'
        (if bool_decide (r ≠ 0) then [] else [EPop t (cstr_of (block_at h' v))])
  (* copy_to_user *)
  | eff_deliver v dim u bytes :
      p = RCopy v dim → p' = RWake v →
      copy_to_user u v dim (mem s) = Ok ((0, bytes), mem s) →
      same_shared s s' → dev_mutex s' = dev_mutex s → effect t p p' s s' [EDeliver t bytes]
  (* copy_from_user *)
  | eff_copy_from v buf dim u err h' :
      p = WCopy v buf dim → copy_from_user u v buf dim (mem s) = Ok (err, h') →
      kb_fifo s' = kb_fifo s → dev_stat s' = dev_stat s → mem s' = h' →
      dev_mutex s' = dev_mutex s →
      p' = (if bool_decide (err ≠ 0) then WEnd v (- EFAULT) else WPush v) →
      effect t p p' s s' []
  (* kb_push *)
  | eff_push v r h' k' :
      p = WPush v → p' = WWake v r →
      kb_push v (kb_fifo s) (mem s) = Ok ((r, k'), h') →
      kb_fifo s' = k' → dev_stat s' = dev_stat s → mem s' = h' →
      dev_mutex s' = dev_mutex s →
      effect t p p' s s' [EPush t (cstr_of (block_at (mem s) v))]
  (* kfree of the value and mutex_unlock *)
  | eff_free v r h' :
      p = WEnd v r → p' = Done r → free v (mem s) = Ok (tt, h') →
      kb_fifo s' = kb_fifo s → dev_stat s' = dev_stat s → mem s' = h' →
      dev_mutex s' = None → effect t p p' s s' []
  (* kt_stat *)
  | eff_sample v e h' :
      p = KBody KStat → p' = KUnlock KStat true →
      kt_stat_body (dev_stat s) (kb_fifo s) (mem s) = Ok ((v, e), h') →
      kb_fifo s' = kb_fifo s → dev_stat s' = v → mem s' = h' →
      dev_mutex s' = dev_mutex s → effect t p p' s s' [e]
  (* kt_realloc *)
  | eff_realloc v e :
      p = KBody KRealloc → p' = KUnlock KRealloc true →
      kt_realloc_body (dev_stat s) = Ok (v, e) →
      kb_fifo s' = kb_fifo s → dev_stat s' = v → mem s' = mem s →
      dev_mutex s' = dev_mutex s → effect t p p' s s' [e].

(** The other tasks keep their program points. *)
Definition moves (t : tid) (p p' : pc) (s s' : sys) : Prop :=
  pcs s !! t = Some p ∧ pcs s' = <[t := p']> (pcs s).

Lemma moves_jump t k p p' s s1 :
  tasks s !! t = Some k → t_pc k = p → pcs s1 = pcs s → moves t p p' s (jump t p' s1).
Proof.
  intros Hk <- E. assert (pcs s !! t = Some (t_pc k)) as Hp
    by (unfold pcs; by rewrite lookup_fmap, Hk).
  split; [done|]. rewrite <- E. apply pcs_jump with (t_pc k). by rewrite E.
Qed.

Ltac solve_pcs :=
  repeat first
    [ done
    | rewrite pcs_set_state
    | progress change (pcs (set_mutex ?o ?s)) with (pcs s)
    | progress change (pcs (mutex_unlock ?s)) with (pcs s)
    | progress change (pcs (set_mem ?o ?s)) with (pcs s)
    | progress change (pcs (set_kb ?o ?s)) with (pcs s)
    | progress change (pcs (set_stat ?o ?s)) with (pcs s)
    | progress change (pcs (set_run ?o ?s)) with (pcs s)
    | progress change (pcs (set_wait_r ?o ?s)) with (pcs s)
    | progress change (pcs (set_wait_w ?o ?s)) with (pcs s)
    | progress change (pcs (set_stop ?o ?s)) with (pcs s) ].

Lemma wait_event_effect t k cond q setq at_ exit w s s' e :
  tasks s !! t = Some k → t_pc k = at_ w →
  (∀ q' s0, pcs (setq q' s0) = pcs s0 ∧ same_shared s0 (setq q' s0) ∧
     dev_mutex (setq q' s0) = dev_mutex s0) →
  (∀ w', holds (at_ w') = false ∧ owned (at_ w') = owned exit ∧ plain (at_ w') = true) →
  holds exit = false → plain exit = true →
  wait_event_interruptible t k cond q setq at_ exit w s = Some (Ok (s', e)) →
  ∃ p', moves t (t_pc k) p' s s' ∧ effect t (t_pc k) p' s s' e ∧ (p' = exit ∨ ∃ w', p' = at_ w').
Proof.
  intros Hk Hpc Hq Hat He1 He2 Hw.
  assert (∀ p1 s1, (p1 = exit ∨ ∃ w', p1 = at_ w') → pcs s1 = pcs s →
    same_shared s s1 → dev_mutex s1 = dev_mutex s → s' = jump t p1 s1 → e = [] →
    ∃ p', moves t (t_pc k) p' s s' ∧ effect t (t_pc k) p' s s' e ∧
          (p' = exit ∨ ∃ w', p' = at_ w')) as Hgen.
  { intros p1 s1 Hp1 E1 (?&?&?) E3 -> ->. exists p1. split; [by eapply moves_jump|].
    split; [|done]. rewrite Hpc. destruct (Hat w) as (Hh & Ho & _).
    destruct Hp1 as [->|(w' & ->)].
    - apply eff_local; [done|done|congruence|by left|done].
    - destruct (Hat w') as (Hh' & Ho' & ?).
      apply eff_local; [done|done|congruence|left; congruence|done]. }
  unfold wait_event_interruptible in Hw.
  assert (same_shared s s) by done.
  destruct w; repeat case_match; unfold go, blocked in *; simplify_eq;
    match goal with
    | Hg : ∀ p1 s1, _ → _ → _ → _ → jump t ?p ?s0 = _ → _ |- _ =>
        apply (Hg p s0); [by eauto| | | |done|done]
    end; rewrite ?pcs_set_state; try (by apply Hq); try done.
  all: destruct (Hq (if bool_decide (t ∈ q) then q else t :: q) s) as (?&?&?).
  all: destruct (Hq (filter (.≠ t) q) s) as (?&?&?); done.
Qed.

Lemma mutex_lock_effect t k p next s s' e :
  tasks s !! t = Some k → t_pc k = p → holds p = false → holds next = true →
  owned next = owned p → plain next = true →
  mutex_lock t next s = Some (Ok (s', e)) →
  moves t p next s s' ∧ effect t p next s s' e.
Proof.
  intros Hk Hp Hh1 Hh2 Ho N1 E. unfold mutex_lock, go, blocked in E.
  destruct (dev_mutex s) eqn:Em; simplify_eq.
  split; [by eapply moves_jump|]. by apply eff_lock.
Qed.

(** The program point [p'] of a handler's successor state. *)
Definition stepped (t : tid) (k : task) (s s' : sys) (e : list event) : Prop :=
  ∃ p', moves t (t_pc k) p' s s' ∧ effect t (t_pc k) p' s s' e.

Ltac pc_facts := first [done | by left | by right | by intros; discriminate].

Lemma my_read_effect t k u s s' e :
  tasks s !! t = Some k → my_read t k u s = Some (Ok (s', e)) → stepped t k s s' e.
Proof.
  intros Hk E. unfold my_read in E. unfold stepped.
  assert (same_shared s s) by done.
  destruct (t_pc k) eqn:Hpc; try discriminate E.
  - eexists. refine (mutex_lock_effect _ _ _ _ _ _ _ Hk Hpc _ _ _ _ E); pc_facts.
  - unfold run_c, malloc_chars, malloc in E.
    destruct (alloc (mem s) (wrapu32 dim)) as [l|] eqn:Ea; simpl in E;
      unfold go in E; simplify_eq.
    + eexists. split; [by eapply moves_jump|]. 
      eapply eff_alloc; eauto.
    + eexists. split; [by eapply moves_jump|]. 
      eapply eff_local; pc_facts.
  - case_bool_decide as Ee; unfold go in E; simplify_eq;
      (eexists; split; [by eapply moves_jump|]).
    + eapply eff_unlock; pc_facts.
    + eapply eff_nonempty; pc_facts.
  - eapply wait_event_effect in E as (p' & Hm & He & _); [|done|done|..];
      [rewrite Hpc in *; eauto|intros; repeat split; pc_facts..].
  - eexists. refine (mutex_lock_effect _ _ _ _ _ _ _ Hk Hpc _ _ _ _ E); pc_facts.
  - unfold run_c in E. destruct (kb_pop v (kb_fifo s) (mem s)) as [[[r k'] h']|] eqn:Ep;
      [|done].
    exists (if bool_decide (r ≠ 0) then REnd r else RCopy v dim).
    case_bool_decide as Er; unfold go in E; simplify_eq; (split; [by eapply moves_jump|]).
    + pose proof (eff_pop t (RPop v dim) (REnd r) s (jump t (REnd r) (set_kb k' (set_mem h' s)))
        v dim r h' k') as X. rewrite bool_decide_true in X by done. by apply X.
    + pose proof (eff_pop t (RPop v dim) (RCopy v dim) s
        (jump t (RCopy v dim) (set_kb k' (set_mem h' s))) v dim 0 h' k') as X.
      rewrite bool_decide_false in X by (intros []; done). by apply X.
  - unfold run_c in E. destruct (copy_to_user u v dim (mem s)) as [[[r b] h']|] eqn:Ep;
      [|done].
    assert (h' = mem s) as ->.
    { unfold copy_to_user, bind, load_block, ret, lift in Ep. repeat case_match; by simplify_eq. }
    case_bool_decide as Er; unfold go in E; simplify_eq;
      (eexists; split; [by eapply moves_jump|]).
    + eapply eff_local; pc_facts.
    + eapply eff_deliver; pc_facts.
  - destruct (wake_w_shape s) as (m & q & Ew & Em). rewrite Ew in E. unfold go in E. simplify_eq.
    eexists; split; [by eapply moves_jump|]. eapply eff_local; pc_facts.
  - unfold go in E. simplify_eq.
    eexists; split; [by eapply moves_jump|]. eapply eff_unlock; pc_facts.
Qed.

Lemma my_write_effect t k u s s' e :
  tasks s !! t = Some k → my_write t k u s = Some (Ok (s', e)) → stepped t k s s' e.
Proof.
  intros Hk E. unfold my_write in E. unfold stepped.
  assert (same_shared s s) by done.
  destruct (t_pc k) eqn:Hpc; try discriminate E.
  - eexists. refine (mutex_lock_effect _ _ _ _ _ _ _ Hk Hpc _ _ _ _ E); pc_facts.
  - unfold run_c, malloc_chars, malloc in E.
    destruct (alloc (mem s) (wrapu32 dim)) as [l|] eqn:Ea; simpl in E;
      unfold go in E; simplify_eq.
    + eexists. split; [by eapply moves_jump|]. 
      eapply eff_alloc; eauto.
    + eexists. split; [by eapply moves_jump|]. 
      eapply eff_local; pc_facts.
  - case_bool_decide as Ee; unfold go in E; simplify_eq;
      (eexists; split; [by eapply moves_jump|]).
    + eapply eff_unlock; pc_facts.
    + eapply eff_notfull; pc_facts.
  - eapply wait_event_effect in E as (p' & Hm & He & _); [|done|done|..];
      [rewrite Hpc in *; eauto|intros; repeat split; pc_facts..].
  - eexists. refine (mutex_lock_effect _ _ _ _ _ _ _ Hk Hpc _ _ _ _ E); pc_facts.
  - unfold run_c in E.
    destruct (copy_from_user u v buf dim (mem s)) as [[err h']|] eqn:Ep; [|done].
    exists (if bool_decide (err ≠ 0) then WEnd v (- EFAULT) else WPush v).
    case_bool_decide as Er; unfold go in E; simplify_eq;
      (split; [by eapply moves_jump|]);
      eapply eff_copy_from; try done; by rewrite ?bool_decide_true, ?bool_decide_false.
  - unfold run_c in E. destruct (kb_push v (kb_fifo s) (mem s)) as [[[r k'] h']|] eqn:Ep;
      [|done].
    unfold go in E; simplify_eq. eexists. split; [by eapply moves_jump|].
    by eapply eff_push.
  - destruct (wake_r_shape s) as (m & q & Ew & Em). rewrite Ew in E. unfold go in E. simplify_eq.
    eexists; split; [by eapply moves_jump|]. eapply eff_local; pc_facts.
  - unfold run_c in E. destruct (free v (mem s)) as [[[] h']|] eqn:Ep; [|done].
    unfold go in E. simplify_eq.
    eexists; split; [by eapply moves_jump|]. by eapply eff_free.
Qed.

Lemma my_open_effect t k s s' e :
  tasks s !! t = Some k → my_open t k s = Some (Ok (s', e)) → stepped t k s s' e.
Proof.
  intros Hk E. unfold my_open in E. unfold stepped.
  assert (same_shared s s) by done.
  destruct (t_pc k) eqn:Hpc; try discriminate E.
  - eexists. refine (mutex_lock_effect _ _ _ _ _ _ _ Hk Hpc _ _ _ _ E); pc_facts.
  - unfold go in E. simplify_eq. eexists.
    split; [eapply moves_jump; [done|done|case_bool_decide; unfold wake_up_process; solve_pcs]|].
    eapply eff_local; try pc_facts; by case_bool_decide.
  - unfold go in E. simplify_eq.
    eexists; split; [by eapply moves_jump|]. eapply eff_unlock; pc_facts.
Qed.

Lemma my_close_effect t k s s' e :
  tasks s !! t = Some k → my_close t k s = Some (Ok (s', e)) → stepped t k s s' e.
Proof.
  intros Hk E. unfold my_close in E. unfold stepped.
  assert (same_shared s s) by done.
  destruct (t_pc k) eqn:Hpc; try discriminate E.
  - eexists. refine (mutex_lock_effect _ _ _ _ _ _ _ Hk Hpc _ _ _ _ E); pc_facts.
  - unfold go in E. simplify_eq.
    eexists; split; [by eapply moves_jump|]. eapply eff_local; pc_facts.
  - unfold go in E. simplify_eq.
    eexists; split; [by eapply moves_jump|]. eapply eff_unlock; pc_facts.
Qed.

Lemma kt_stat_effect t k s s' e :
  tasks s !! t = Some k → kt_stat t k s = Some (Ok (s', e)) → stepped t k s s' e.
Proof.
  intros Hk E. unfold kt_stat in E. unfold stepped.
  assert (same_shared s s) by done.
  destruct (t_pc k) as [| | | | | | | | | | | | | | | | | | | | | | | |kt|kt|kt|kt tm|kt tm|kt|] eqn:Hpc;
    try destruct kt; try discriminate E.
  - unfold go in E. simplify_eq. eexists; split; [by eapply moves_jump|]. 
    case_bool_decide; eapply eff_local; pc_facts.
  - eexists. refine (mutex_lock_effect _ _ _ _ _ _ _ Hk Hpc _ _ _ _ E); pc_facts.
  - case_bool_decide.
    + unfold run_c in E.
      destruct (kt_stat_body _ _ _) as [[[v ev] h']|] eqn:Eb; [|done].
      unfold go in E. simplify_eq.
      eexists; split; [eapply moves_jump; [done|done|solve_pcs]|]. by eapply eff_sample.
    + unfold go in E. simplify_eq.
      eexists; split; [eapply moves_jump; [done|done|solve_pcs]|]. 
      eapply eff_local; pc_facts.
  - unfold go in E. simplify_eq.
    eexists; split; [by eapply moves_jump|]. eapply eff_unlock; pc_facts.
  - case_match; unfold go, blocked in E; simplify_eq.
    eexists; split; [by eapply moves_jump|]. eapply eff_local; pc_facts.
Qed.

Lemma kt_realloc_effect t k s s' e :
  tasks s !! t = Some k → kt_realloc t k s = Some (Ok (s', e)) → stepped t k s s' e.
Proof.
  intros Hk E. unfold kt_realloc in E. unfold stepped.
  assert (same_shared s s) by done.
  destruct (t_pc k) as [| | | | | | | | | | | | | | | | | | | | | | | |kt|kt|kt|kt tm|kt tm|kt|] eqn:Hpc;
    try destruct kt; try discriminate E.
  - unfold go in E. simplify_eq. eexists; split; [by eapply moves_jump|]. 
    case_bool_decide; eapply eff_local; pc_facts.
  - eexists. refine (mutex_lock_effect _ _ _ _ _ _ _ Hk Hpc _ _ _ _ E); pc_facts.
  - case_bool_decide.
    + unfold run_c, lift in E. simpl in E.
      destruct (kt_realloc_body (dev_stat s)) as [[v ev]|] eqn:Eb; [|done].
      unfold go in E. simplify_eq.
      eexists; split; [eapply moves_jump; [done|done|solve_pcs]|]. by eapply eff_realloc.
    + unfold go in E. simplify_eq.
      eexists; split; [eapply moves_jump; [done|done|solve_pcs]|]. 
      eapply eff_local; pc_facts.
  - unfold go in E. simplify_eq.
    eexists; split; [by eapply moves_jump|]. eapply eff_unlock; pc_facts.
  - case_match; unfold go, blocked in E; simplify_eq.
    eexists; split; [by eapply moves_jump|]. eapply eff_local; pc_facts.
Qed.

Lemma exec_effect t u s s' e :
  exec t u s = Some (Ok (s', e)) →
  ∃ k, tasks s !! t = Some k ∧ stepped t k s s' e.
Proof.
  unfold exec. destruct (tasks s !! t) as [k|] eqn:Hk; [|done].
  intros E. exists k. split; [done|].
  destruct (t_pc k) as [| | | | | | | | | | | | | | | | | | | | | | | |kt|kt|kt|kt tm|kt tm|kt|] eqn:Hpc;
    try destruct kt; try done;
    eauto using my_read_effect, my_write_effect, my_open_effect, my_close_effect,
      kt_stat_effect, kt_realloc_effect.
Qed.

(** A step of the environment: nothing shared changes, at most a task enters a
    system call. *)
Definition env_step (s s' : sys) : Prop :=
  same_shared s s' ∧ dev_mutex s' = dev_mutex s ∧
  (pcs s' = pcs s ∨ ∃ t p, is_entry p = true ∧ pcs s' = <[t := p]> (pcs s) ∧
     (pcs s !! t = None ∨ ∃ r, pcs s !! t = Some (Done r))).

Lemma pcs_lookup s t k : tasks s !! t = Some k → pcs s !! t = Some (t_pc k).
Proof. intros Hk. unfold pcs. by rewrite lookup_fmap, Hk. Qed.

Lemma pcs_set_task s t k : pcs (set_tasks (<[t := k]> (tasks s)) s) = <[t := t_pc k]> (pcs s).
Proof. unfold pcs. simpl. by rewrite fmap_insert. Qed.

Definition is_exec (l : label) : bool := match l with LExec _ _ => true | _ => false end.

Lemma next_env l s s' e :
  is_exec l = false → next l s = Some (Ok (s', e)) → e = [] ∧ env_step s s'.
Proof.
  intros Hl E. destruct l as [t u|t p|t|t|kt]; simpl in E; [done|..].
  - destruct (tasks s !! t) as [k|] eqn:Hk.
    + destruct (t_pc k) eqn:Hpc; try done. destruct (is_entry p) eqn:He; [|done].
      unfold go in E. simplify_eq. split; [done|]. split; [done|]. split; [done|].
      right. exists t, p. split; [done|]. split; [by rewrite pcs_set_task|].
      right. eexists. apply pcs_lookup in Hk. by rewrite Hk, Hpc.
    + destruct (is_entry p) eqn:He; [|done]. unfold go in E. simplify_eq.
      split; [done|]. split; [done|]. split; [done|]. right. exists t, p.
      split; [done|]. split; [by rewrite pcs_set_task|]. left.
      unfold pcs. by rewrite lookup_fmap, Hk.
  - destruct (tasks s !! t) as [k|] eqn:Hk; [|done].
    destruct (is_kthread (t_pc k)); [done|]. unfold go in E. simplify_eq.
    split; [done|]. split; [done|]. split; [done|]. left. by rewrite pcs_signal.
  - destruct (tasks s !! t) as [k|] eqn:Hk; [|done].
    repeat case_match; try done. unfold go in E. simplify_eq.
    split; [done|]. split; [done|]. split; [done|]. left. by rewrite pcs_set_state.
  - destruct kt; repeat case_match; try done; unfold go in E; simplify_eq;
      split; try done; split; try done; split; try done; left;
      unfold wake_up_process; solve_pcs.
Qed.

Lemma next_env_call l s s' e :
  is_exec l = false → next l s = Some (Ok (s', e)) →
  pcs s' = pcs s ∨ ∃ t p, l = LCall t p ∧ is_entry p = true ∧ pcs s' = <[t := p]> (pcs s).
Proof.
  intros Hl E. destruct l as [t u|t p|t|t|kt]; simpl in E; [done|..].
  - right. exists t, p. repeat case_match; unfold go, blocked in E; simplify_eq;
      by rewrite pcs_set_task.
  - left. repeat case_match; unfold go, blocked in E; simplify_eq. by rewrite pcs_signal.
  - left. repeat case_match; unfold go, blocked in E; simplify_eq. by rewrite pcs_set_state.
  - left. repeat case_match; unfold go, blocked in E; simplify_eq; unfold wake_up_process; solve_pcs.
Qed.

(** Every step is one of these. *)
Lemma step_effect s e s' :
  step s e s' → (e = [] ∧ env_step s s') ∨
    ∃ t p p', moves t p p' s s' ∧ effect t p p' s s' e.
Proof.
  intros [l ? ? ? E]. destruct (is_exec l) eqn:Hl.
  - destruct l; try done. apply exec_effect in E as (k & Hk & p' & ? & ?). right; eauto.
  - left. by eapply next_env.
Qed.

End effects.
