(* ===== verification/DeviceSafe.v ===== *)
(** * The driver is a FIFO

    The invariant of the device and its preservation by every step, and from
    it: mutual exclusion, the refinement of the driver into an abstract
    bounded queue, the private value blocks and the sums behind the
    statistics. *)

From stdpp Require Import base numbers list option gmap.
From S2P Require Import Prelude Memory CList Kbuf Stat Device DeviceInv.
Local Open Scope Z_scope.

(** ** The abstract device *)

(** A queue of strings and the number of strings from which on it is full. *)
Record spec := Spec { sp_queue : list (list Z); sp_cap : Z }.

(** What each visible action of the driver means for the queue. *)
Inductive spec_step : spec → event → spec → Prop :=
  | spec_push t s q cap :
      Z.of_nat (length q) < cap →
      spec_step (Spec q cap) (EPush t s) (Spec (q ++ [s]) cap)
  | spec_pop t s q cap : spec_step (Spec (s :: q) cap) (EPop t s) (Spec q cap)
  | spec_deliver t b q cap : spec_step (Spec q cap) (EDeliver t b) (Spec q cap)
  | spec_sample r q cap :
      spec_step (Spec q cap) (ESample (Z.of_nat (length q)) r) (Spec q cap)
  | spec_resize per max q cap : spec_step (Spec q cap) (EResize per max) (Spec q max)
  | spec_keep q cap : spec_step (Spec q cap) EKeep (Spec q cap).

Inductive spec_steps : spec → list event → spec → Prop :=
  | spec_nil a : spec_steps a [] a
  | spec_cons a e b es c : spec_step a e b → spec_steps b es c → spec_steps a (e :: es) c.

Lemma spec_steps_app a es b es' c :
  spec_steps a es b → spec_steps b es' c → spec_steps a (es ++ es') c.
Proof. induction 1; simpl; [done|]. intros. econstructor; eauto. Qed.

Lemma spec_one a e b : spec_step a e b → spec_steps a [e] b.
Proof. intros. by repeat econstructor. Qed.

(** ** Reading a trace *)

Definition pushes (es : list event) : list (list Z) :=
  omap (λ e, match e with EPush _ s => Some s | _ => None end) es.
Definition pops (es : list event) : list (list Z) :=
  omap (λ e, match e with EPop _ s => Some s | _ => None end) es.

(** The samples since the reallocator last ran. *)
Definition add_sample (acc : list Z) (e : event) : list Z :=
  match e with
  | ESample d _ => acc ++ [d]
  | EResize _ _ | EKeep => []
  | _ => acc
  end.
Definition samples (es : list event) : list Z := foldl add_sample [] es.

(** The string task [t] popped last. *)
Definition add_pop (t : tid) (acc : option (list Z)) (e : event) : option (list Z) :=
  match e with
  | EPop t' s => if decide (t = t') then Some s else acc
  | _ => acc
  end.
Definition last_pop (t : tid) (es : list event) : option (list Z) := foldl (add_pop t) None es.

(** In the abstract device, what went in came out or is still there. *)
Lemma spec_conserves a es b :
  spec_steps a es b → sp_queue a ++ pushes es = pops es ++ sp_queue b.
Proof.
  induction 1 as [a|a e b es c Hs _ IH]; [by rewrite app_nil_r|].
  destruct Hs; simpl in *; rewrite <- ?app_assoc in IH; simpl in IH; try done.
  by rewrite IH.
Qed.

(** ** The invariant *)

Definition mutex_ok (m : option tid) (ps : gmap tid pc) : Prop :=
  (∀ t p, ps !! t = Some p → (holds p = true ↔ m = Some t)) ∧
  (∀ t, m = Some t → is_Some (ps !! t)).

Record own_ok (ns : list node) (h : heap) (ps : gmap tid pc) : Prop := {
  own_live t p l : ps !! t = Some p → owned p = Some l →
    l ∉ fp ns ∧ ∃ b, h !! l = Some b ∧ Z.of_nat (length b) < 2^32;
  own_inj t t' p p' l : ps !! t = Some p → ps !! t' = Some p' →
    owned p = Some l → owned p' = Some l → t = t' }.

(** The task has seen a buffer that is not full and still owns the mutex. *)
Definition pushing (p : pc) : Prop :=
  match p with WCopy _ _ _ | WPush _ => True | _ => False end.

Record inv (s : sys) (es : list event) (ns : list node) : Prop := {
  inv_mutex : mutex_ok (dev_mutex s) (pcs s);
  inv_kb : kb_rep (mem s) (kb_fifo s) ns;
  inv_own : own_ok ns (mem s) (pcs s);
  inv_small : Z.of_nat (size (mem s)) ≤ MAX_BLOCKS;
  inv_nonempty t v d : pcs s !! t = Some (RPop v d) → ns ≠ [];
  inv_notfull t p : pcs s !! t = Some p → pushing p →
    count (kb_fifo s) < ds_kb_max (dev_stat s);
  inv_copy t v d : pcs s !! t = Some (RCopy v d) →
    ∃ l str rest, v = Some l ∧ mem s !! l = Some (cells str ++ rest) ∧
      cstring str ∧ last_pop t es = Some str;
  inv_dim : ds_kb_dim (dev_stat s) = wrap32 (Z.of_nat (length (samples es)));
  inv_sum : ds_kb_sum (dev_stat s) = wrap32 (zsum (samples es)) }.

(** ** Mutual exclusion *)

Lemma mutex_excl m ps t t' p p' :
  mutex_ok m ps → ps !! t = Some p → ps !! t' = Some p' →
  holds p = true → holds p' = true → t = t'.
Proof.
  intros [Hm _] H1 H2 E1 E2. apply (Hm _ _ H1) in E1. apply (Hm _ _ H2) in E2. congruence.
Qed.

Lemma insert_is_Some {A} (m : gmap tid A) t t0 x :
  is_Some (m !! t0) → is_Some (<[t := x]> m !! t0).
Proof. rewrite lookup_insert. case_decide; eauto. Qed.

Lemma mutex_keep m ps t p p' :
  mutex_ok m ps → ps !! t = Some p → holds p' = holds p → mutex_ok m (<[t := p']> ps).
Proof.
  intros [Hm Ho] Hp E. split; [|eauto using insert_is_Some].
  intros t0 p0. rewrite lookup_insert. case_decide; [|apply Hm].
  subst. intros [= <-]. rewrite E. by apply Hm.
Qed.

Lemma mutex_acquire ps t p p' :
  mutex_ok None ps → ps !! t = Some p → holds p' = true → mutex_ok (Some t) (<[t := p']> ps).
Proof.
  intros [Hm Ho] Hp E. split.
  - intros t0 p0. rewrite lookup_insert. case_decide.
    + subst. intros [= <-]. by rewrite E.
    + intros H0. rewrite (Hm _ _ H0). split; [done|]. intros [= ->]. done.
  - intros t0 [= <-]. rewrite lookup_insert_eq. eauto.
Qed.

Lemma mutex_release m ps t p p' :
  mutex_ok m ps → ps !! t = Some p → holds p = true → holds p' = false →
  mutex_ok None (<[t := p']> ps).
Proof.
  intros Hm Hp E1 E2. split; [|done]. intros t0 p0. rewrite lookup_insert. case_decide.
  - subst. intros [= <-]. by rewrite E2.
  - intros H0. split; [|done]. intros E0.
    destruct (mutex_excl m ps t t0 p p0); done.
Qed.

Lemma mutex_entry m ps t p :
  mutex_ok m ps → (ps !! t = None ∨ ∃ r, ps !! t = Some (Done r)) → holds p = false →
  mutex_ok m (<[t := p]> ps).
Proof.
  intros [Hm Ho] Ht E. split; [|eauto using insert_is_Some].
  intros t0 p0. rewrite lookup_insert. case_decide; [subst|apply Hm].
  intros [= <-]. rewrite E. split; [done|]. intros Eo.
  destruct Ht as [Ht|(r & Ht)].
  - destruct (Ho _ Eo). congruence.
  - by apply (Hm _ _ Ht) in Eo.
Qed.

(** ** Private blocks *)

(** What a step of [t] has to show for the value blocks. *)
Lemma own_step ns h ps ns' h' t p p' :
  own_ok ns h ps → ps !! t = Some p →
  (∀ l, owned p' = Some l → owned p = Some l ∨ h !! l = None) →
  (∀ l, owned p' = Some l → l ∉ fp ns' ∧ ∃ b, h' !! l = Some b ∧ Z.of_nat (length b) < 2^32) →
  (∀ l b, h !! l = Some b → l ∉ fp ns → owned p ≠ Some l → l ∉ fp ns' ∧ h' !! l = Some b) →
  own_ok ns' h' (<[t := p']> ps).
Proof.
  intros [Hlive Hinj] Hp Hnew Hmine Hothers. split.
  - intros t0 p0 l. rewrite lookup_insert. case_decide.
    + subst. intros [= <-]. apply Hmine.
    + intros H0 Ho. destruct (Hlive _ _ _ H0 Ho) as (Hl & b & Hb & Hlen).
      destruct (Hothers l b) as [? ?]; [done..|intros Hpo; destruct (Hinj t t0 p p0 l); done|].
      eauto.
  - intros t1 t2 p1 p2 l. rewrite !lookup_insert. repeat case_decide; subst; try done.
    + intros [= <-] H2 Ho1 Ho2. destruct (Hnew _ Ho1) as [Ho|Hn]; [by eapply Hinj|].
      destruct (Hlive _ _ _ H2 Ho2) as (_ & b & Hb & _). congruence.
    + intros H1 [= <-] Ho1 Ho2. destruct (Hnew _ Ho2) as [Ho|Hn]; [by eapply Hinj|].
      destruct (Hlive _ _ _ H1 Ho1) as (_ & b & Hb & _). congruence.
    + apply Hinj.
Qed.

Lemma own_keep ns h ps t p p' :
  own_ok ns h ps → ps !! t = Some p → (owned p' = owned p ∨ owned p' = None) →
  own_ok ns h (<[t := p']> ps).
Proof.
  intros Ho Hp E. eapply own_step; [done|done| | |done].
  - intros l Hl. left. destruct E; congruence.
  - intros l Hl. eapply own_live; [done|done|]. destruct E; congruence.
Qed.

Lemma own_entry ns h ps t p :
  own_ok ns h ps → (ps !! t = None ∨ ∃ r, ps !! t = Some (Done r)) → is_entry p = true →
  own_ok ns h (<[t := p]> ps).
Proof.
  intros [Hlive Hinj] Ht He. assert (owned p = None) as Hp by by destruct p.
  split.
  - intros t0 p0 l. rewrite lookup_insert. case_decide; [|apply Hlive].
    intros [= <-]. by rewrite Hp.
  - intros t1 t2 p1 p2 l. rewrite !lookup_insert. repeat case_decide; subst; try done.
    + intros [= <-]. by rewrite Hp.
    + intros _ [= <-]. by rewrite Hp.
    + apply Hinj.
Qed.

(** ** The kernel threads *)

Section device.
Context {Al : Allocator} {Sm : SmallMemory}.

Lemma small_length h k ns :
  kb_rep h k ns → Z.of_nat (size h) ≤ MAX_BLOCKS → Z.of_nat (length ns) ≤ 2^21.
Proof.
  intros [Hf _ _] Hs. apply fifo_length_heap in Hf. unfold MAX_BLOCKS in Hs. lia.
Qed.

(** With memory for the snapshot, [kt_stat_body] returns, gives all memory
    back and adds the number of strings to the samples. *)
Lemma kt_stat_body_ok h v k ns :
  kb_rep h k ns → Z.of_nat (length ns) ≤ 2^21 →
  (ns ≠ [] → is_Some (alloc h (4 * Z.of_nat (length ns)))) →
  ∃ v' r, kt_stat_body v k h = Ok ((v', ESample (Z.of_nat (length ns)) r), h) ∧
    ds_kb_max v' = ds_kb_max v ∧
    ds_kb_dim v' = wrap32 (ds_kb_dim v + 1) ∧
    ds_kb_sum v' = wrap32 (ds_kb_sum v + Z.of_nat (length ns)).
Proof.
  intros Hk Hb Ha. unfold kt_stat_body.
  destruct (decide (ns = [])) as [->|Hne].
  { rewrite (bind_ok _ _ _ _ _ (ds_populate_empty _ _ _ Hk)). by eexists _, _. }
  destruct (Ha Hne) as [l Hl].
  destruct (ds_populate_spec h v k ns l) as (v1 & E & Hsn & Hl1 & E1 & E2 & E3);
    [done|done|lia|done|].
  rewrite (bind_ok _ _ _ _ _ E).
  assert (Z.of_nat (length ns) ≠ 0) by (destruct ns; simpl; [done|lia]).
  rewrite bool_decide_true by done.
  set (h1 := <[l := Int <$> lengths ns]> h) in *.
  assert (∃ med, ds_med v1 h1 = Ok (med, h1)) as [med Emed].
  { unfold ds_med. rewrite (bind_ok _ _ _ _ _ (snapshot_fold _ _ _ _ _ Hsn)).
    destruct Hsn as (? & _ & _ & ->). unfold cdiv, lengths.
    rewrite length_fmap, length_strings.
    rewrite !bool_decide_false by lia. by eexists. }
  rewrite (bind_ok _ _ _ _ _ Emed).
  pose proof (snapshot_fold h1 v1 _ (λ tmp x, if bool_decide (tmp < x) then x else tmp) 0 Hsn) as Emax.
  rewrite (bind_ok _ _ _ _ _ Emax).
  set (mx := foldl _ _ _).
  assert (∃ mn, ds_min v1 mx h1 = Ok (mn, h1)) as [mn Emin].
  { unfold ds_min. case_bool_decide; [by eexists|].
    rewrite (snapshot_fold _ _ _ _ _ Hsn). by eexists. }
  rewrite (bind_ok _ _ _ _ _ Emin).
  destruct (ds_reset_stat_spec h1 v1 _ Hsn) as (l' & v2 & Hl' & Er & _ & R1 & R2 & R3).
  rewrite (bind_ok _ _ _ _ _ Er). simplify_eq.
  eexists _, _. split.
  { unfold h1. rewrite delete_insert_id; [done|by eapply alloc_fresh]. }
  simpl. rewrite R1, R2, R3, E1, E2, E3. done.
Qed.

(** A [kt_stat_body] that returns. *)
Lemma kt_stat_body_inv h v k ns v' e h' :
  kb_rep h k ns → Z.of_nat (length ns) ≤ 2^21 →
  kt_stat_body v k h = Ok ((v', e), h') →
  h' = h ∧ (∃ r, e = ESample (Z.of_nat (length ns)) r) ∧
  ds_kb_max v' = ds_kb_max v ∧ ds_kb_dim v' = wrap32 (ds_kb_dim v + 1) ∧
  ds_kb_sum v' = wrap32 (ds_kb_sum v + Z.of_nat (length ns)).
Proof.
  intros Hk Hb E.
  destruct (decide (ns = [] ∨ is_Some (alloc h (4 * Z.of_nat (length ns))))) as [D|D].
  - destruct (kt_stat_body_ok h v k ns) as (v2 & r & E2 & ?); [done|done|naive_solver|].
    rewrite E2 in E. simplify_eq. eauto.
  - assert (ns ≠ [] ∧ alloc h (4 * Z.of_nat (length ns)) = None) as [Hne Ha].
    { rewrite eq_None_not_Some. naive_solver. }
    unfold kt_stat_body in E.
    by rewrite (bind_err _ _ _ _ (ds_populate_oom h v k ns Hk Hne ltac:(lia) Ha)) in E.
Qed.

Lemma kt_realloc_body_inv v v' e :
  kt_realloc_body v = Ok (v', e) →
  ds_kb_dim v' = 0 ∧ ds_kb_sum v' = 0 ∧
  ((e = EKeep ∧ ds_kb_max v' = ds_kb_max v) ∨ ∃ per, e = EResize per (ds_kb_max v')).
Proof.
  unfold kt_realloc_body. destruct (ds_get_kb_occupation v) as [per|]; [|done]. simpl.
  destruct (my_div _ _) as [med|]; [|done]. simpl. case_bool_decide.
  - destruct (ds_set_kb_occupation v med) as [v1|]; [|done]. simpl.
    intros [= <- <-]. simpl. eauto.
  - intros [= <- <-]. simpl. eauto.
Qed.

(** ** Preservation *)

Lemma samples_snoc es e : samples (es ++ [e]) = add_sample (samples es) e.
Proof. unfold samples. by rewrite foldl_app. Qed.

Lemma last_pop_snoc t es e : last_pop t (es ++ [e]) = add_pop t (last_pop t es) e.
Proof. unfold last_pop. by rewrite foldl_app. Qed.

Lemma zsum_snoc zs z : zsum (zs ++ [z]) = zsum zs + z.
Proof. unfold zsum. induction zs; simpl in *; lia. Qed.

(** Steps that leave buffer, statistics and memory alone. *)
Lemma inv_same s s' es ns t p p' :
  inv s es ns → same_shared s s' → moves t p p' s s' → mutex_ok (dev_mutex s') (pcs s') →
  (owned p' = owned p ∨ owned p' = None) →
  (∀ v d, p' = RPop v d → ns ≠ []) →
  (pushing p' → count (kb_fifo s) < ds_kb_max (dev_stat s)) →
  (∀ v d, p' ≠ RCopy v d) → inv s' es ns.
Proof.
  intros Hi (E1 & E2 & E3) [Hp Hps] Hm Ho Hr Hw Hc. destruct Hi.
  split; rewrite ?E1, ?E2, ?E3; try done.
  - rewrite Hps. by eapply own_keep.
  - intros t0 v d. rewrite Hps, lookup_insert. case_decide; [|naive_solver].
    intros [= ->]. eauto.
  - intros t0 p0. rewrite Hps, lookup_insert. case_decide; [|naive_solver].
    intros [= ->]. eauto.
  - intros t0 v d. rewrite Hps, lookup_insert. case_decide; [|naive_solver].
    intros [= ->]. naive_solver.
Qed.

Lemma inv_env s s' es ns : inv s es ns → env_step s s' → inv s' es ns.
Proof.
  intros Hi ((E1 & E2 & E3) & Em & [Hps|(t & p & He & Hps & Ht)]); destruct Hi.
  - split; rewrite ?E1, ?E2, ?E3, ?Em, ?Hps; done.
  - assert (holds p = false ∧ ¬ pushing p ∧ (∀ v d, p ≠ RPop v d) ∧ ∀ v d, p ≠ RCopy v d)
      as (Hh & Hp1 & Hp2 & Hp3) by (destruct p; repeat split; by try intros ?).
    split; rewrite ?E1, ?E2, ?E3, ?Em, ?Hps; try done.
    + by apply mutex_entry.
    + by apply own_entry.
    + intros t0 v d. rewrite lookup_insert. case_decide; naive_solver.
    + intros t0 p0. rewrite lookup_insert. case_decide; naive_solver.
    + intros t0 v d. rewrite lookup_insert. case_decide; naive_solver.
Qed.

(** ** Sizes of the heap *)

Lemma size_le_dom (h h' : heap) :
  (∀ i, is_Some (h' !! i) → is_Some (h !! i)) → (size h' ≤ size h)%nat.
Proof.
  intros Hs. rewrite <- !size_dom. apply subseteq_size. intros i.
  rewrite !elem_of_dom. apply Hs.
Qed.

Lemma size_insert_le (h : heap) l b : (size (<[l := b]> h) ≤ S (size h))%nat.
Proof. rewrite map_size_insert. case_match; simpl; lia. Qed.

Lemma alloc_small_insert h n l b :
  alloc h n = Some l → Z.of_nat (size (<[l := b]> h)) ≤ MAX_BLOCKS.
Proof. intros Ha. apply alloc_small in Ha. pose proof (size_insert_le h l b). lia. Qed.

Lemma copy_from_user_inv u v buf dim h err h' :
  copy_from_user u v buf dim h = Ok (err, h') →
  ∃ l b b', v = Some l ∧ h !! l = Some b ∧ h' = <[l := b']> h ∧ length b' = length b ∧
    (err = 0 → 0 ≤ dim → dim = Z.of_nat (length b) → b' = Int <$> take (Z.to_nat dim) buf).
Proof.
  unfold copy_from_user, bind, load_block, store_block, lift, ret.
  destruct v as [l|]; [|done]. destruct (h !! l) as [b|] eqn:Hb; [|done].
  set (lf := bytes_left _ _).
  case_bool_decide as Hl; [done|]. rewrite Hb. intros [= <- <-].
  exists l, b. eexists. split; [done|]. split; [done|]. split; [done|]. split.
  - rewrite !length_app, length_fmap, length_replicate, length_drop, length_take.
    unfold lf, bytes_left. lia.
  - intros E0 Hd Hlen. rewrite (drop_ge b), app_nil_r by lia.
    assert (dim ≤ Z.of_nat (length buf)) by (unfold lf, bytes_left in E0; lia).
    rewrite E0, Z.sub_0_r, length_take_le, Nat.sub_diag by lia. simpl.
    by rewrite app_nil_r.
Qed.

(** ** Every step preserves the invariant and refines the abstract device *)

Definition abs (s : sys) (ns : list node) : spec :=
  Spec (strings ns) (ds_kb_max (dev_stat s)).

Definition step_ok (s s' : sys) (es e : list event) (ns : list node) : Prop :=
  ∃ ns', inv s' (es ++ e) ns' ∧ spec_steps (abs s ns) e (abs s' ns').

Lemma step_ok_quiet s s' es ns :
  inv s' es ns → ds_kb_max (dev_stat s') = ds_kb_max (dev_stat s) → step_ok s s' es [] ns.
Proof.
  intros Hi E. exists ns. rewrite app_nil_r. split; [done|]. unfold abs. rewrite E. constructor.
Qed.

(** Another task that relies on the mutex does not exist while [t] holds it. *)
Lemma holder_alone s es ns t p t0 p0 :
  inv s es ns → pcs s !! t = Some p → holds p = true → t ≠ t0 →
  pcs s !! t0 = Some p0 → holds p0 = true → False.
Proof. intros Hi Hp Hh Hne Hp0 Hh0. apply Hne. by eapply mutex_excl; [apply Hi|..]. Qed.

Ltac not_holder t t0 :=
  match goal with
  | Hi : inv ?s _ _, Hp : pcs ?s !! t = Some ?p, H0 : pcs ?s !! t0 = Some ?p0 |- _ =>
      exfalso; eapply (holder_alone s _ _ t p t0 p0 Hi Hp); done
  end.

(** One lemma per kind of step that touches the buffer, the statistics or the
    memory; [t] holds the mutex in all of them. *)
Lemma step_ok_alloc s s' es ns t p p' l dim :
  inv s es ns → moves t p p' s s' → kb_fifo s' = kb_fifo s → dev_stat s' = dev_stat s →
  dev_mutex s' = dev_mutex s → holds p = true → holds p' = true →
  owned p' = Some l → alloc (mem s) (wrapu32 dim) = Some l →
  mem s' = <[l := replicate (Z.to_nat (wrapu32 dim)) Undef]> (mem s) →
  (p' = RTest (Some l) dim ∨ ∃ buf, p' = WTest (Some l) buf dim) →
  step_ok s s' es [] ns.
Proof.
  intros Hi [Hp Hps] E1 E2 E3 Hh Hh' Ho Ha Em Hp'.
  pose proof (alloc_fresh _ _ _ Ha) as Hf.
  apply step_ok_quiet; [|by rewrite E2]. pose proof Hi as [].
  assert (l ∉ fp ns) as Hlf by by eapply kb_rep_fresh.
  split; rewrite ?E1, ?E2, ?E3, ?Em, ?Hps; try done.
  - eapply mutex_keep; [done|done|congruence].
  - by apply kb_rep_insert_ne.
  - eapply own_step; [done|done| | |].
    + intros l' Hl'. right. congruence.
    + intros l' Hl'. rewrite Ho in Hl'. injection Hl' as <-. split; [done|].
      eexists. rewrite lookup_insert_eq. split; [done|].
      rewrite length_replicate. unfold wrapu32.
      pose proof (Z.mod_pos_bound dim (2^32) ltac:(lia)). lia.
    + intros l' b' Hl' Hn _. split; [done|]. rewrite lookup_insert_ne; [done|congruence].
  - by eapply alloc_small_insert.
  - intros t0 v d. rewrite lookup_insert. case_decide; [naive_solver|]. eauto.
  - intros t0 p0. rewrite lookup_insert. case_decide; [|naive_solver].
    intros [= <-]. destruct Hp' as [->|(buf & ->)]; done.
  - intros t0 v d. rewrite lookup_insert. case_decide; [naive_solver|].
    intros Ht0. not_holder t t0.
Qed.

Lemma step_ok_pop s s' es ns t v dim p' r h' k' :
  inv s es ns → moves t (RPop v dim) p' s s' →
  kb_pop v (kb_fifo s) (mem s) = Ok ((r, k'), h') →
  kb_fifo s' = k' → dev_stat s' = dev_stat s → mem s' = h' → dev_mutex s' = dev_mutex s →
  p' = (if bool_decide (r ≠ 0) then REnd r else RCopy v dim) →
  step_ok s s' es (if bool_decide (r ≠ 0) then [] else [EPop t (cstr_of (block_at h' v))]) ns.
Proof.
  intros Hi [Hp Hps] Epop E1 E2 Em E3 ->. pose proof Hi as [].
  pose proof (inv_nonempty0 _ _ _ Hp) as Hne. destruct ns as [|n ns]; [done|].
  destruct v as [l|]; [|by erewrite kb_pop_null in Epop by done].
  destruct (own_live _ _ _ inv_own0 t _ l Hp eq_refl) as (Hln & b & Hb & Hlen).
  destruct (kb_pop_inv _ _ _ _ _ _ _ _ _ inv_kb0 Hb Hln Epop)
    as (-> & Hlb & Hrep & Hl' & Hn1 & Hn2 & Hfr).
  rewrite bool_decide_false in * by (intros []; done).
  pose proof (kb_fifo_rep _ _ _ inv_kb0) as Hf.
  destruct (fifo_head _ _ _ _ _ Hf) as (_ & Hs & _ & Hd & nx & Hnl & _).
  assert (cstr_of (block_at h' (Some l)) = n_str n) as ->
    by (unfold block_at; simpl; rewrite Hl'; by apply cstr_of_cells).
  rewrite fp_cons in Hln.
  exists ns. split; [|unfold abs; rewrite E2; apply spec_one, spec_pop].
  split; rewrite ?E1, ?E2, ?E3, ?Em, ?Hps; try done.
  - by eapply mutex_keep.
  - eapply own_step; [done|done|by left| |].
    + intros l0 [= <-]. split; [set_solver|]. eexists. split; [done|].
      rewrite length_app, length_cells, length_drop. lia.
    + rewrite fp_cons. intros l0 b0 H0 Hn0 Ho0. split; [set_solver|].
      rewrite Hfr; [done|simpl in Ho0; congruence|set_solver|set_solver].
  - etransitivity; [|exact inv_small0]. apply inj_le, size_le_dom.
    intros i [x Hx]. destruct (decide (i = l)) as [->|]; [eauto|].
    rewrite Hfr in Hx; [eauto|done|congruence|congruence].
  - intros t0 v d. rewrite lookup_insert. case_decide; [done|]. intros Ht0. not_holder t t0.
  - intros t0 p0. rewrite lookup_insert. case_decide; [intros [= <-]; done|].
    intros Ht0 Hpu. destruct p0; try done; not_holder t t0.
  - intros t0 v d. rewrite lookup_insert. case_decide.
    + subst. intros [= <- <-]. eexists l, (n_str n), _. split; [done|]. split; [done|].
      split; [done|]. rewrite last_pop_snoc. simpl. by rewrite decide_True.
    + intros Ht0. not_holder t t0.
  - by rewrite samples_snoc.
  - by rewrite samples_snoc.
Qed.

Lemma step_ok_push s s' es ns t v r h' k' :
  inv s es ns → moves t (WPush v) (WWake v r) s s' →
  kb_push v (kb_fifo s) (mem s) = Ok ((r, k'), h') →
  kb_fifo s' = k' → dev_stat s' = dev_stat s → mem s' = h' → dev_mutex s' = dev_mutex s →
  step_ok s s' es [EPush t (cstr_of (block_at (mem s) v))] ns.
Proof.
  intros Hi [Hp Hps] Epush E1 E2 Em E3. pose proof Hi as [].
  destruct v as [l0|]; [|by rewrite kb_push_null in Epush].
  destruct (own_live _ _ _ inv_own0 t _ l0 Hp eq_refl) as (Hln & b & Hb & Hlen).
  destruct (kb_push_inv _ _ _ _ _ _ _ _ inv_kb0 Hb Hln Hlen Epush)
    as (str & rest & l & d & -> & Hs & -> & Hrep & F1 & F2 & Hld & Hfr & Ha).
  assert (cstr_of (block_at (mem s) (Some l0)) = str) as ->
    by (unfold block_at; rewrite Hb; by apply cstr_of_cells).
  assert (∀ i b, mem s !! i = Some b → i ∉ fp ns → i ∉ fp (ns ++ [Node l d str]) ∧ h' !! i = Some b)
    as Hold.
  { intros i b Hi0 Hn0. assert (i ∉ fp (ns ++ [Node l d str])).
    { rewrite fp_app, fp_cons. simpl. apply not_elem_of_app. split; [done|]. set_solver. }
    split; [done|]. by rewrite Hfr. }
  pose proof (inv_notfull0 _ _ Hp I) as Hroom.
  assert (count (kb_fifo s) = Z.of_nat (length ns)) as Hc.
  { eapply kb_count_small; [done|]. pose proof (small_length _ _ _ inv_kb0 inv_small0).
    unfold_ranges. lia. }
  exists (ns ++ [Node l d str]). split.
  2: { unfold abs. rewrite E2, strings_app. apply spec_one, spec_push.
       rewrite length_strings. lia. }
  split; rewrite ?E1, ?E2, ?E3, ?Em, ?Hps; try done.
  - by eapply mutex_keep.
  - eapply own_step; [done|done|by left| |].
    + intros l1 [= <-]. destruct (Hold l0 _ Hb Hln). eauto.
    + intros l1 b1 H1 Hn1 _. by apply Hold.
  - assert (size h' ≤ size (<[d := []]> (<[l := [Undef; Undef]]> (mem s))))%nat as Hsz.
    { apply size_le_dom. intros i Hi0. rewrite !lookup_insert. repeat case_decide; eauto.
      destruct (decide (i ∈ fp ns)) as [Hin|Hin].
      - eapply lseg_live; [apply (kb_fifo_rep _ _ _ inv_kb0)|done].
      - rewrite <- Hfr; [done|]. rewrite fp_app, fp_cons. set_solver. }
    pose proof (alloc_small_insert _ _ _ [] Ha). lia.
  - intros t0 v d0. rewrite lookup_insert. case_decide; [done|]. intros Ht0. not_holder t t0.
  - intros t0 p0. rewrite lookup_insert. case_decide; [intros [= <-]; done|].
    intros Ht0 Hpu. destruct p0; try done; not_holder t t0.
  - intros t0 v d0. rewrite lookup_insert. case_decide; [done|]. intros Ht0. not_holder t t0.
  - by rewrite samples_snoc.
  - by rewrite samples_snoc.
Qed.

(** Rewriting one private block, or giving it back. *)
Lemma step_ok_copy_from s s' es ns t v buf dim p' u err h' :
  inv s es ns → moves t (WCopy v buf dim) p' s s' →
  copy_from_user u v buf dim (mem s) = Ok (err, h') →
  kb_fifo s' = kb_fifo s → dev_stat s' = dev_stat s → mem s' = h' →
  dev_mutex s' = dev_mutex s →
  p' = (if bool_decide (err ≠ 0) then WEnd v (- EFAULT) else WPush v) →
  step_ok s s' es [] ns.
Proof.
  intros Hi [Hp Hps] Ec E1 E2 Em E3 Hp'. pose proof Hi as [].
  destruct (copy_from_user_inv _ _ _ _ _ _ _ Ec) as (l & b & b' & -> & Hb & -> & Hbb & _).
  destruct (own_live _ _ _ inv_own0 t _ l Hp eq_refl) as (Hln & b0 & Hb0 & Hlen).
  rewrite Hb in Hb0. injection Hb0 as <-.
  assert (holds p' = true ∧ owned p' = Some l ∧ (∀ v d, p' ≠ RPop v d) ∧ ∀ v d, p' ≠ RCopy v d)
    as (Hh & Ho & N1 & N2) by (subst p'; by case_bool_decide).
  clear Ec Hp'.
  apply step_ok_quiet; [|by rewrite E2].
  split; rewrite ?E1, ?E2, ?E3, ?Em, ?Hps; try done.
  - by eapply mutex_keep.
  - by apply kb_rep_insert_ne.
  - eapply own_step; [done|done| | |].
    + intros l0 Hl0. left. simpl. congruence.
    + intros l0 Hl0. rewrite Ho in Hl0. injection Hl0 as <-. split; [done|].
      eexists. rewrite lookup_insert_eq. split; [done|]. lia.
    + intros l0 b1 H1 Hn1 Hne. simpl in Hne. split; [done|].
      rewrite lookup_insert_ne; [done|congruence].
  - rewrite map_size_insert, Hb. simpl. done.
  - intros t0 v d. rewrite lookup_insert. case_decide; [intros [= E]; by destruct (N1 v d)|]. eauto.
  - intros t0 p0. rewrite lookup_insert. case_decide; [|eauto].
    intros _ _. by apply (inv_notfull0 t (WCopy (Some l) buf dim)).
  - intros t0 v d. rewrite lookup_insert. case_decide; [intros [= E]; by destruct (N2 v d)|].
    intros Ht0. not_holder t t0.
Qed.

Lemma step_ok_free s s' es ns t v r h' :
  inv s es ns → moves t (WEnd v r) (Done r) s s' → free v (mem s) = Ok (tt, h') →
  kb_fifo s' = kb_fifo s → dev_stat s' = dev_stat s → mem s' = h' →
  dev_mutex s' = None → step_ok s s' es [] ns.
Proof.
  intros Hi [Hp Hps] Ef E1 E2 Em E3. pose proof Hi as [].
  apply step_ok_quiet; [|by rewrite E2].
  assert (∀ l b, mem s !! l = Some b → v ≠ Some l → h' !! l = Some b) as Hfr.
  { intros l b Hb Hne. unfold free in Ef. destruct v as [l0|]; [|congruence].
    destruct (mem s !! l0); [|done]. injection Ef as <-. rewrite lookup_delete_ne; congruence. }
  assert (∀ i, is_Some (h' !! i) → is_Some (mem s !! i)) as Hdom.
  { intros i. unfold free in Ef. destruct v as [l0|]; [|congruence].
    destruct (mem s !! l0); [|done]. injection Ef as <-. rewrite lookup_delete.
    case_decide; [by intros []|done]. }
  split; rewrite ?E1, ?E2, ?E3, ?Em, ?Hps; try done.
  - by eapply mutex_release.
  - eapply kb_rep_frame; [|done]. intros l Hl.
    destruct (lseg_live _ _ _ _ _ (fifo_lseg _ _ _ _ (kb_fifo_rep _ _ _ inv_kb0)) Hl) as [b Hb].
    rewrite Hb. apply Hfr; [done|]. intros ->.
    by destruct (own_live _ _ _ inv_own0 t _ l Hp eq_refl).
  - eapply own_step; [done|done|done|done|]. intros l b Hb Hn Ho. simpl in Ho. eauto.
  - etransitivity; [|exact inv_small0]. by apply inj_le, size_le_dom.
  - intros t0 v0 d. rewrite lookup_insert. case_decide; [naive_solver|]. eauto.
  - intros t0 p0. rewrite lookup_insert. case_decide; [naive_solver|]. eauto.
  - intros t0 v0 d. rewrite lookup_insert. case_decide; [naive_solver|]. intros Ht0. not_holder t t0.
Qed.

(** The kernel threads change the statistics only. *)
Lemma step_ok_stat s s' es ns t p p' e v :
  inv s es ns → moves t p p' s s' → kb_fifo s' = kb_fifo s → dev_stat s' = v →
  mem s' = mem s → dev_mutex s' = dev_mutex s → holds p = true → holds p' = true →
  (∃ k b, p' = KUnlock k b) →
  ds_kb_dim v = wrap32 (Z.of_nat (length (samples (es ++ [e])))) →
  ds_kb_sum v = wrap32 (zsum (samples (es ++ [e]))) →
  (∀ t0, last_pop t0 (es ++ [e]) = last_pop t0 es) →
  spec_step (abs s ns) e (Spec (strings ns) (ds_kb_max v)) →
  step_ok s s' es [e] ns.
Proof.
  intros Hi [Hp Hps] E1 E2 Em E3 Hh Hh' (k & b & ->) D1 D2 HL Hsp. pose proof Hi as [].
  exists ns. split; [|unfold abs; rewrite E2; by apply spec_one].
  split; rewrite ?E1, ?E2, ?E3, ?Em, ?Hps; try done.
  - eapply mutex_keep; [done|done|congruence].
  - eapply own_keep; [done|done|by right].
  - intros t0 v0 d. rewrite lookup_insert. case_decide; [done|]. eauto.
  - intros t0 p0. rewrite lookup_insert. case_decide; [intros [= <-]; done|].
    intros Ht0 Hpu. destruct p0; try done; not_holder t t0.
  - intros t0 v0 d. rewrite lookup_insert. case_decide; [done|]. rewrite HL. eauto.
Qed.

Lemma inv_deliver s es ns t b : inv s es ns → inv s (es ++ [EDeliver t b]) ns.
Proof.
  intros []. split; rewrite ?samples_snoc; try done.
  intros t0 v d Ht0. rewrite last_pop_snoc. eauto.
Qed.

Lemma inv_step s e s' es ns :
  inv s es ns → step s e s' → step_ok s s' es e ns.
Proof.
  intros Hi Hst. apply step_effect in Hst as [[-> Henv]|(t & p & p' & Hmv & Heff)].
  { pose proof Henv as ((_ & E & _) & _). apply step_ok_quiet; [by eapply inv_env|].
    by rewrite E. }
  pose proof Hi as []. pose proof Hmv as [Hp Hps].
  destruct Heff as
    [Hsh Hm Hh Ho Hpl|Hsh Hm0 Hm Hh Hh' Ho Hpl|Hsh Hm Hh Hh' Ho
    |l dim E1 E2 E3 Hh Hh' Ho Ho' Ha Em Hp'|v dim Hsh Hm -> -> Hne|v buf dim Hsh Hm -> -> Hnf
    |v dim r h' k' -> Epop E1 E2 Em E3 Hp'|v dim u bytes -> -> Ecp Hsh Hm
    |v buf dim u err h' -> Ec E1 E2 Em E3 Hp'|v r h' k' -> -> Epush E1 E2 Em E3
    |v r h' -> -> Ef E1 E2 Em E3|v ev h' -> -> Eb E1 E2 Em E3|v ev -> -> Eb E1 E2 Em E3].
  - pose proof Hsh as (_ & E2 & _). apply step_ok_quiet; [|by rewrite E2].
    eapply inv_same; try done; try by destruct p'.
    rewrite Hm, Hps. by eapply mutex_keep.
  - pose proof Hsh as (_ & E2 & _). apply step_ok_quiet; [|by rewrite E2].
    eapply inv_same; try done; try (by destruct p'); [|by left].
    rewrite Hm, Hps. rewrite Hm0 in *. by eapply mutex_acquire.
  - pose proof Hsh as (_ & E2 & _). apply step_ok_quiet; [|by rewrite E2].
    eapply inv_same; try done; try by destruct p'.
    rewrite Hm, Hps. by eapply mutex_release.
  - by eapply step_ok_alloc.
  - pose proof Hsh as (_ & E2 & _). apply step_ok_quiet; [|by rewrite E2].
    eapply inv_same; try done; [|by left|].
    + rewrite Hm, Hps. by eapply mutex_keep.
    + intros _ _ _ ->. by rewrite (kb_isempty_rep _ _ _ inv_kb0) in Hne.
  - pose proof Hsh as (_ & E2 & _). apply step_ok_quiet; [|by rewrite E2].
    eapply inv_same; try done; [|by left|].
    + rewrite Hm, Hps. by eapply mutex_keep.
    + intros _. unfold kb_isfull in Hnf. by case_bool_decide.
  - by eapply step_ok_pop.
  - pose proof Hsh as (_ & E2 & _). exists ns. split.
    + apply inv_deliver. eapply inv_same; try done; [|by left].
      rewrite Hm, Hps. by eapply mutex_keep.
    + unfold abs. rewrite E2. apply spec_one, spec_deliver.
  - by eapply step_ok_copy_from.
  - by eapply step_ok_push.
  - by eapply step_ok_free.
  - pose proof (small_length _ _ _ inv_kb0 inv_small0) as Hsm.
    destruct (kt_stat_body_inv _ _ _ _ _ _ _ inv_kb0 Hsm Eb) as (-> & (r & ->) & D1 & D2 & D3).
    eapply step_ok_stat; try done; [by eauto|..].
    + rewrite samples_snoc, D2, inv_dim0, wrap32_add_wrap32. f_equal. simpl.
      rewrite length_app. simpl. lia.
    + rewrite samples_snoc. cbn [add_sample].
      by rewrite D3, inv_sum0, wrap32_add_wrap32, zsum_snoc.
    + intros t0. by rewrite last_pop_snoc.
    + rewrite D1. unfold abs. rewrite <- length_strings. constructor.
  - destruct (kt_realloc_body_inv _ _ _ Eb) as (D1 & D2 & D3).
    assert (add_sample (samples es) ev = []) as Hs0 by (destruct D3 as [[-> _]|(per & ->)]; done).
    eapply step_ok_stat; try done; [by eauto|..].
    + by rewrite samples_snoc, Hs0, D1.
    + by rewrite samples_snoc, Hs0, D2.
    + intros t0. rewrite last_pop_snoc. by destruct D3 as [[-> _]|(per & ->)].
    + unfold abs. destruct D3 as [[-> ->]|(per & ->)]; constructor.
Qed.

(** ** Reachable states *)

(** The events of a run, in order. *)
Definition reachable (tr : list (list event)) (s : sys) : Prop := run step init_state tr s.

(** A schedule that completes is a run. *)
Lemma runs_run ls s s' es :
  runs ls s = Some (Ok (s', es)) → ∃ tr, run step s tr s' ∧ concat tr = es.
Proof.
  revert s es. induction ls as [|l ls IH]; intros s es E; simpl in E.
  - unfold go in E. simplify_eq. exists []. split; [constructor|done].
  - destruct (next l s) as [[[s1 e1]|]|] eqn:E1; try done.
    destruct (runs ls s1) as [[[s2 e2]|]|] eqn:E2; try done. simplify_eq.
    destruct (IH _ _ E2) as (tr & Hr & <-). exists ([e1] ++ tr). split; [|done].
    eapply run_trans; [|done]. apply run_one. by apply (step_next l).
Qed.

Lemma completes_reachable ls :
  completes ls init_state = true →
  ∃ tr, reachable tr (final ls init_state) ∧ concat tr = shown ls init_state.
Proof.
  unfold completes, final, shown. destruct (runs ls init_state) as [[[s es]|]|] eqn:E; try done.
  intros _. by apply (runs_run ls).
Qed.

Lemma init_pcs t p : pcs init_state !! t = Some p → ∃ k, p = KLoop k.
Proof.
  assert (pcs init_state = <[1%positive := KLoop KStat]> (<[2%positive := KLoop KRealloc]> ∅))
    as -> by (by vm_compute).
  rewrite !lookup_insert. repeat case_decide; intros [= <-]; eauto.
Qed.

Lemma inv_init : inv init_state [] [].
Proof.
  split; try done.
  - split; [|done]. intros t p Hp. by destruct (init_pcs _ _ Hp) as (k & ->).
  - apply kb_rep_init with (k := zero_kb).
  - split; intros t; intros; by destruct (init_pcs t _ ltac:(eassumption)) as (k & ->).
  - intros t v d Hp. by destruct (init_pcs _ _ Hp) as (k & E).
  - intros t v d Hp. by destruct (init_pcs _ _ Hp) as (k & E).
Qed.

Lemma reachable_inv tr s :
  reachable tr s → ∃ ns, inv s (concat tr) ns ∧
    spec_steps (Spec [] START_KB_DIM) (concat tr) (abs s ns).
Proof.
  apply (run_invariant step (λ s tr, ∃ ns, inv s (concat tr) ns ∧
    spec_steps (Spec [] START_KB_DIM) (concat tr) (abs s ns))).
  - exists []. split; [apply inv_init|constructor].
  - intros s0 tr0 e s1 (ns & Hi & Hsp) Hst.
    destruct (inv_step _ _ _ _ _ Hi Hst) as (ns' & Hi' & Hsp').
    exists ns'. rewrite concat_app. simpl. rewrite app_nil_r.
    eauto using spec_steps_app.
Qed.

(** The strings the buffer holds, first out first. *)
Definition queue_of (s : sys) (q : list (list Z)) : Prop :=
  ∃ ns, kb_rep (mem s) (kb_fifo s) ns ∧ strings ns = q.

End device.
