(* ===== verification/DeviceWake.v ===== *)
(** * Sleeping readers are woken

    A reader that sleeps in [wait_event_interruptible] has been put on
    [wait_r] before it looked at the buffer for the last time.  So when it
    sleeps, either the buffer is empty or a writer that has just pushed a
    string is about to call [wake_up_interruptible]: no wake-up is lost,
    although the condition is read without the mutex. *)

From stdpp Require Import base numbers list option gmap.
From S2P Require Import Prelude Memory CList Kbuf Stat Device DeviceInv DeviceSafe.
Local Open Scope Z_scope.

(** ** Steps of other tasks *)

(** A step of [t] does not move another task, does not put it to sleep, and
    takes it off [wait_r] only if it also wakes it. *)
Definition frame (t : tid) (s s' : sys) : Prop :=
  ∀ t0 k', t0 ≠ t → tasks s' !! t0 = Some k' →
  ∃ k, tasks s !! t0 = Some k ∧ t_pc k' = t_pc k ∧
    (t_state k' = Interruptible →
       t_state k = Interruptible ∧ (t0 ∈ wait_r s → t0 ∈ wait_r s')).

Lemma frame_trans t s s1 s2 : frame t s s1 → frame t s1 s2 → frame t s s2.
Proof.
  intros H1 H2 t0 k2 Hne Hk2. destruct (H2 _ _ Hne Hk2) as (k1 & Hk1 & E1 & I1).
  destruct (H1 _ _ Hne Hk1) as (k & Hk & E & I). exists k.
  split; [done|]. split; [congruence|]. intros Hi. destruct (I1 Hi) as [Hi1 Hq1].
  destruct (I Hi1). auto.
Qed.

Lemma frame_refl t s s' : tasks s' = tasks s → wait_r s' = wait_r s → frame t s s'.
Proof. intros E1 E2 t0 k' _. rewrite E1, E2. eauto. Qed.

Lemma frame_upd t t1 f s :
  (t1 ≠ t → ∀ k, t_pc (f k) = t_pc k ∧ t_state (f k) = Running) → frame t s (upd t1 f s).
Proof.
  intros Hf t0 k' Hne. unfold upd. simpl. rewrite lookup_alter. case_decide; [subst|eauto].
  destruct (tasks s !! t0) as [k|]; [|done]. intros [= <-].
  destruct (Hf Hne k) as [E1 E2]. exists k. rewrite E1, E2. split; [done|]. done.
Qed.

Lemma frame_jump t p s : frame t s (jump t p s).
Proof. by apply frame_upd. Qed.
Lemma frame_set_state t st s : frame t s (set_state t st s).
Proof. by apply frame_upd. Qed.
Lemma frame_wake_process t t1 s : frame t s (wake_up_process t1 s).
Proof. by apply frame_upd. Qed.

Lemma frame_wait_r t q s : (∀ t0, t0 ≠ t → t0 ∈ wait_r s → t0 ∈ q) → frame t s (set_wait_r q s).
Proof. intros Hq t0 k' Hne Hk'. simpl. eauto 6. Qed.

Lemma wake_all_inv q s t0 k' :
  tasks (wake_all q s) !! t0 = Some k' →
  ∃ k, tasks s !! t0 = Some k ∧ t_pc k' = t_pc k ∧
    (t_state k' = Interruptible → t_state k = Interruptible).
Proof.
  revert k'. induction q as [|t1 q IH]; simpl; [eauto|]. intros k'.
  rewrite lookup_alter. case_decide; [subst|apply IH].
  destruct (tasks (wake_all q s) !! t0) as [k1|] eqn:E1; [|done]. intros [= <-].
  destruct (IH k1 eq_refl) as (k & Hk & E & _). by exists k.
Qed.

Lemma wake_all_wait_r q s : wait_r (wake_all q s) = wait_r s.
Proof. destruct (wake_all_shape q s) as (m & -> & _). done. Qed.

Lemma frame_wake_all t q s : frame t s (wake_all q s).
Proof.
  intros t0 k' _ Hk'. destruct (wake_all_inv _ _ _ _ Hk') as (k & Hk & E & HI).
  exists k. split; [done|]. split; [done|]. intros Hi. by rewrite wake_all_wait_r; auto.
Qed.

Lemma wake_all_running q s t k :
  t ∈ q → tasks (wake_all q s) !! t = Some k → t_state k = Running.
Proof.
  induction q as [|t1 q IH]; simpl; [set_solver|].
  intros Hin. rewrite lookup_alter. case_decide.
  - destruct (tasks (wake_all q s) !! t1); [|done]. by intros [= <-].
  - apply IH. set_solver.
Qed.

Lemma frame_wake_w t s : frame t s (wake_up_interruptible_w s).
Proof.
  eapply frame_trans; [apply frame_wake_all|]. by apply frame_refl.
Qed.

(** A task that is interruptible before the wake-up and on the queue runs
    after it. *)
Lemma wake_r_wakes s t k :
  t ∈ wait_r s → tasks (wake_up_interruptible_r s) !! t = Some k → t_state k = Running.
Proof.
  intros Hin Hk. simpl in Hk.
  destruct (is_interruptible s t) eqn:Ei.
  - eapply wake_all_running; [|done]. by apply list_elem_of_filter.
  - destruct (t_state k) eqn:Es; [done|]. exfalso.
    destruct (wake_all_inv _ _ _ _ Hk) as (k0 & Hk0 & _ & HI).
    unfold is_interruptible in Ei. rewrite Hk0 in Ei.
    by rewrite bool_decide_true in Ei by auto.
Qed.

Lemma frame_wake_r t s : frame t s (wake_up_interruptible_r s).
Proof.
  intros t0 k' Hne Hk'. pose proof Hk' as Hk2. simpl in Hk2.
  destruct (wake_all_inv _ _ _ _ Hk2) as (k & Hk & E & HI).
  exists k. split; [done|]. split; [done|]. intros Hi. split; [auto|].
  intros Hin. by rewrite (wake_r_wakes s t0 k') in Hi.
Qed.

(** Any step of [t] is framed. *)
Section steps.
Context {Al : Allocator}.

Lemma frame_same t s s' : tasks s' = tasks s → wait_r s' = wait_r s → frame t s s'.
Proof. apply frame_refl. Qed.

Ltac solve_frame :=
  repeat first
    [ apply frame_jump | apply frame_set_state | apply frame_wake_process
    | apply frame_wake_r | apply frame_wake_w
    | by apply frame_same
    | eapply frame_trans; [|apply frame_jump]
    | eapply frame_trans; [|apply frame_set_state]
    | eapply frame_trans; [|apply frame_wake_process]
    | eapply frame_trans; [|apply frame_wake_r]
    | eapply frame_trans; [|apply frame_wake_w] ].

Lemma frame_wait_event t k cond q setq at_ exit w s s' e :
  frame t s (setq (if bool_decide (t ∈ q) then q else t :: q) s) →
  frame t s (setq (filter (.≠ t) q) s) →
  wait_event_interruptible t k cond q setq at_ exit w s = Some (Ok (s', e)) → frame t s s'.
Proof.
  intros H1 H2 E. unfold wait_event_interruptible in E.
  destruct w; repeat case_match; unfold go, blocked in E; simplify_eq; solve_frame; done.
Qed.

Lemma exec_frame t u s s' e : exec t u s = Some (Ok (s', e)) → frame t s s'.
Proof.
  unfold exec. destruct (tasks s !! t) as [k|]; [|done].
  unfold my_read, my_write, my_open, my_close, kt_stat, kt_realloc, mutex_lock, run_c.
  assert (frame t s (set_wait_r (if bool_decide (t ∈ wait_r s) then wait_r s else t :: wait_r s) s)).
  { apply frame_wait_r. intros t0 Hne Hin. case_bool_decide; set_solver. }
  assert (frame t s (set_wait_r (filter (.≠ t) (wait_r s)) s)).
  { apply frame_wait_r. intros t0 Hne Hin. by apply list_elem_of_filter. }
  intros E. destruct (t_pc k) eqn:Hpc;
    try (eapply frame_wait_event; [| |exact E]; done || (by apply frame_refl));
    repeat case_match; unfold go, blocked in E; simplify_eq; solve_frame.
Qed.

(** ** The invariant *)

(** Task [t] is in the waiting loop of [my_read], behind prepare_to_wait. *)
Definition waiting (p : pc) : option bool :=
  match p with
  | RWait _ _ WeCond => Some false             (* before it looks at the buffer *)
  | RWait _ _ WeSignal | RWait _ _ WeSched => Some true  (* after *)
  | _ => None
  end.

Definition about_to_wake (s : sys) : Prop :=
  ∃ t v r, pcs s !! t = Some (WWake v r).

Definition no_lost_wakeup (s : sys) : Prop :=
  ∀ t k seen, tasks s !! t = Some k → waiting (t_pc k) = Some seen →
  t_state k = Interruptible →
  t ∈ wait_r s ∧ (seen = true → kb_isempty (kb_fifo s) ≠ 0 ∨ about_to_wake s).

Lemma jump_lookup t p s k' :
  tasks (jump t p s) !! t = Some k' →
  t_pc k' = p ∧ ∃ k, tasks s !! t = Some k ∧ t_state k' = t_state k.
Proof.
  unfold jump, upd. simpl. rewrite lookup_alter, decide_True by done.
  destruct (tasks s !! t); [|done]. intros [= <-]. eauto.
Qed.

(** Only the loop of [my_read] leads into the loop of [my_read]. *)
Lemma exec_not_waiting t u s s' e k k' :
  tasks s !! t = Some k → exec t u s = Some (Ok (s', e)) → tasks s' !! t = Some k' →
  (∀ v d w, t_pc k ≠ RWait v d w) → waiting (t_pc k') = None.
Proof.
  intros Hk E Hk' Hne. unfold exec in E. rewrite Hk in E.
  unfold my_read, my_write, my_open, my_close, kt_stat, kt_realloc, mutex_lock, run_c,
    wait_event_interruptible in E.
  destruct (t_pc k) as [| | |v dim w| | | | | | | | | | | | | | | | | | | | |kt|kt|kt|kt tm|kt tm|kt|] eqn:Hpc;
    try destruct kt; try (by destruct (Hne v dim w));
    repeat case_match; unfold go, blocked in E; simplify_eq;
    apply jump_lookup in Hk' as [-> _]; repeat case_match; done.
Qed.

(** What the task itself does in the loop. *)
Lemma exec_waiting t u s s' e k' seen :
  exec t u s = Some (Ok (s', e)) → tasks s' !! t = Some k' →
  waiting (t_pc k') = Some seen → t_state k' = Interruptible →
  kb_fifo s' = kb_fifo s ∧
  ((seen = false ∧ t ∈ wait_r s') ∨
   (seen = true ∧ wait_r s' = wait_r s ∧
    ∃ k, tasks s !! t = Some k ∧ t_state k = Interruptible ∧
      ((waiting (t_pc k) = Some false ∧ kb_isempty (kb_fifo s) ≠ 0) ∨
       waiting (t_pc k) = Some true))).
Proof.
  intros E Hk' Hw Hi. pose proof E as E0. unfold exec in E.
  destruct (tasks s !! t) as [k|] eqn:Hk; [|done].
  destruct (t_pc k) as [| | |v dim w| | | | | | | | | | | | | | | | | | | | |kt|kt|kt|kt tm|kt tm|kt|] eqn:Hpc;
    try by rewrite (exec_not_waiting _ _ _ _ _ _ _ Hk E0 Hk') in Hw by (by rewrite Hpc).
  unfold my_read in E. rewrite Hpc in E. unfold wait_event_interruptible in E.
  destruct w; repeat case_match; unfold go, blocked in E; simplify_eq;
    apply jump_lookup in Hk' as (Hp & k1 & Hk1 & Es); rewrite Hp in Hw; simpl in Hw;
    simplify_eq; (split; [done|]).
  - left. split; [done|]. by case_bool_decide.
  - left. split; [done|]. simpl. set_solver.
  - right. split; [done|]. split; [done|]. eexists. split; [done|]. split; [congruence|].
    left. rewrite Hpc. split; [done|]. by case_bool_decide.
  - right. split; [done|]. split; [done|]. eexists. split; [done|]. split; [congruence|].
    right. by rewrite Hpc.
Qed.

Lemma kb_isempty_nonempty k : kb_isempty k ≠ 0 ↔ head k = None.
Proof. unfold kb_isempty. case_bool_decide; naive_solver. Qed.

(** Tasks that were at a point stay there when another task moves. *)
Lemma about_to_wake_moves s s' t p p' :
  moves t p p' s s' → (∀ v r, p ≠ WWake v r) → about_to_wake s → about_to_wake s'.
Proof.
  intros [Hp Hps] Hne (t0 & v & r & H0). exists t0, v, r.
  rewrite Hps, lookup_insert_ne; [done|]. intros <-. rewrite Hp in H0. injection H0 as ->.
  by destruct (Hne v r).
Qed.

(** An empty buffer becomes non-empty only by a push, whose task is then about
    to wake the readers. *)
Lemma exec_empty t p p' s s' e es ns :
  inv s es ns → moves t p p' s s' → effect t p p' s s' e →
  kb_isempty (kb_fifo s) ≠ 0 → kb_isempty (kb_fifo s') ≠ 0 ∨ about_to_wake s'.
Proof.
  intros Hi Hm He Hem. pose proof Hm as [Hp Hps].
  destruct He as [(Ek&_)|(Ek&_)|(Ek&_)|? ? Ek|? ? (Ek&_)|? ? ? (Ek&_)
    |v dim r h' k' -> ? ? ? ? ? ?|? ? ? ? ? ? ? (Ek&_)|? ? ? ? ? ? ? ? Ek|v r h' k' ? ->
    |? ? ? ? ? ? Ek|? ? ? ? ? ? Ek|? ? ? ? ? Ek]; try (left; by rewrite Ek).
  - exfalso. apply (inv_nonempty _ _ _ Hi _ _ _ Hp).
    rewrite (kb_isempty_rep _ _ _ (inv_kb _ _ _ Hi)) in Hem. by case_decide.
  - right. exists t, v, r. by rewrite Hps, lookup_insert_eq.
Qed.
End steps.

Section device.
Context {Al : Allocator} {Sm : SmallMemory}.

(** A step of task [t] keeps the property for the tasks it finds asleep. *)
Lemma wakeup_other t u s s' e es ns :
  inv s es ns → no_lost_wakeup s → exec t u s = Some (Ok (s', e)) →
  ∀ t0 k' , t0 ≠ t → tasks s' !! t0 = Some k' → ∀ seen, waiting (t_pc k') = Some seen →
  t_state k' = Interruptible →
  t0 ∈ wait_r s' ∧ (seen = true → kb_isempty (kb_fifo s') ≠ 0 ∨ about_to_wake s').
Proof.
  intros Hi Hw E t0 k' Hne Hk' seen Hwt Hst.
  destruct (exec_frame _ _ _ _ _ E t0 k' Hne Hk') as (k & Hk & Epc & HI).
  destruct (HI Hst) as [Hst0 Hq]. rewrite Epc in Hwt.
  destruct (Hw t0 k seen Hk Hwt Hst0) as [Hin Hseen]. split; [auto|]. intros Hs.
  destruct (exec_effect _ _ _ _ _ E) as (kt & Hkt & p' & Hm & Heff).
  destruct (Hseen Hs) as [Hem|Hab]; [by eapply exec_empty|].
  destruct (t_pc kt) as [| | | | | | | | | | | | | | | |v r| | | | | | | | | | | | | |] eqn:Hpc;
    try (right; eapply about_to_wake_moves; [done|naive_solver|done]).
  exfalso. unfold exec in E. rewrite Hkt, Hpc in E. unfold my_write in E. rewrite Hpc in E.
  unfold go in E. injection E as <- _.
  assert (tasks (wake_up_interruptible_r s) !! t0 = Some k') as Hk2.
  { revert Hk'. unfold jump, upd. simpl. rewrite lookup_alter_ne by done. done. }
  by rewrite (wake_r_wakes s t0 k' Hin Hk2) in Hst.
Qed.

(** A step of the environment that at most wakes tasks or starts a call. *)
Lemma wakeup_env s s' :
  env_step s s' → wait_r s' = wait_r s →
  (∀ t k', tasks s' !! t = Some k' → waiting (t_pc k') = None ∨
     ∃ k, tasks s !! t = Some k ∧ t_pc k' = t_pc k ∧
       (t_state k' = Interruptible → t_state k = Interruptible)) →
  no_lost_wakeup s → no_lost_wakeup s'.
Proof.
  intros ((Ek & _) & _ & Hps) Ewr Hold Hw t k' seen Hk' Hwt Hst. rewrite Ewr, Ek.
  destruct (Hold t k' Hk') as [Hn|(k & Hk & Epc & HI)]; [congruence|].
  rewrite Epc in Hwt. destruct (Hw t k seen Hk Hwt (HI Hst)) as [? Hs].
  split; [done|]. intros Hseen. destruct (Hs Hseen) as [|(t0 & v & r & H0)]; [by left|right].
  exists t0, v, r. destruct Hps as [->|(t1 & p & _ & -> & [Hn|(r1 & Hn)])]; [done|..].
  all: rewrite lookup_insert_ne; [done|intros <-; congruence].
Qed.

Lemma env_tasks l s s' e :
  is_exec l = false → next l s = Some (Ok (s', e)) →
  wait_r s' = wait_r s ∧
  ∀ t k', tasks s' !! t = Some k' → waiting (t_pc k') = None ∨
     ∃ k, tasks s !! t = Some k ∧ t_pc k' = t_pc k ∧
       (t_state k' = Interruptible → t_state k = Interruptible).
Proof.
  intros Hl E. destruct l as [t u|t p|t|t|kt]; simpl in E; [done|..].
  - assert (is_entry p = true ∧ ∃ b, s' = set_tasks (<[t := Task p Running b]> (tasks s)) s)
      as [He (b & ->)] by (repeat case_match; unfold go, blocked in E; simplify_eq; eauto).
    split; [done|]. intros t0 k'. simpl. rewrite lookup_insert. case_decide; [|eauto].
    intros [= <-]. left. by destruct p.
  - destruct (tasks s !! t) as [k|] eqn:Hk; [|done].
    destruct (is_kthread (t_pc k)); [done|]. unfold go in E; simplify_eq. split; [done|].
    intros t1 k' Hk'. right. unfold upd in Hk'. simpl in Hk'. rewrite lookup_alter in Hk'.
    case_decide; [subst t1|by eauto]. rewrite Hk in Hk'. simplify_eq/=. by exists k.
  - repeat case_match; unfold go, blocked in E; simplify_eq. split; [done|].
    intros t1 k' Hk'. right. eapply (wake_all_inv [t]). done.
  - destruct kt; repeat case_match; unfold go, blocked in E; simplify_eq;
      (split; [done|]); intros t0 k' Hk'; right.
    + by eapply (wake_all_inv [kt_stat_desc] (set_stop [KStat] s)).
    + by eapply (wake_all_inv [kt_realloc_desc] (set_stop [KStat; KRealloc] s)).
Qed.

Lemma no_lost_wakeup_step s e s' es ns :
  inv s es ns → no_lost_wakeup s → step s e s' → no_lost_wakeup s'.
Proof.
  intros Hi Hw Hst. destruct Hst as [l s e s' E]. destruct (is_exec l) eqn:Hl.
  - destruct l as [t u| | | |]; try done. simpl in E. intros t0 k' seen Hk' Hwt Hs. destruct (decide (t0 = t)) as [->|Hne];
      [|by eapply (wakeup_other t u s s' e)].
    destruct (exec_waiting _ _ _ _ _ _ _ E Hk' Hwt Hs) as
      (Ek & [[-> Hin]|(-> & Eq & k & Hk & Hks & Hcase)]); [done|].
    rewrite Ek, Eq. destruct Hcase as [[Hf Hem]|Ht].
    + destruct (Hw t k false Hk Hf Hks) as [? _]. auto.
    + destruct (Hw t k true Hk Ht Hks) as [Hin Hseen]. split; [done|]. intros _.
      destruct (Hseen eq_refl) as [Hem|Hab]; [by left|right].
      destruct (exec_effect _ _ _ _ _ E) as (k0 & Hk0 & p' & Hm & _).
      eapply about_to_wake_moves; [done| |done].
      intros v r Hpc. simplify_eq. by rewrite Hpc in Ht.
  - destruct (next_env _ _ _ _ Hl E) as [_ Henv].
    destruct (env_tasks _ _ _ _ Hl E). by eapply wakeup_env.
Qed.

Lemma reachable_no_lost_wakeup tr s : reachable tr s → no_lost_wakeup s.
Proof.
  intros Hr. cut ((∃ ns, inv s (concat tr) ns) ∧ no_lost_wakeup s); [by intros []|].
  revert tr s Hr. apply (run_invariant step (λ s tr, (∃ ns, inv s (concat tr) ns) ∧ no_lost_wakeup s)).
  - split; [eexists; apply inv_init|]. intros t k seen Hk Hw.
    apply pcs_lookup in Hk. apply init_pcs in Hk as (kt & Ek). by rewrite Ek in Hw.
  - intros s tr e s' [(ns & Hi) Hw] Hst. split; [|by eapply no_lost_wakeup_step].
    destruct (inv_step _ _ _ _ _ Hi Hst) as (ns' & Hi' & _). exists ns'.
    rewrite concat_app. simpl. by rewrite app_nil_r.
Qed.

End device.
