(* ===== verification/DevicePolite.v ===== *)
(** * Well-behaved clients and the reallocator

    Which faults of the kernel remain when every process uses the device the
    way Reader/read.c and Writer/write.c do, and what the reallocator makes of
    the samples. *)

From stdpp Require Import base numbers list option gmap.
From S2P Require Import Prelude Memory CList Kbuf Stat Fun Device DeviceInv DeviceSafe.
Local Open Scope Z_scope.

(** ** The reallocator *)

(** One sample per second and a reallocation every three: a thousand samples
    without a reallocation is a very starved thread. *)
Definition MAX_SAMPLES : nat := 1000.

Definition bounded (es : list event) : Prop :=
  ∀ pre, pre `prefix_of` es → (length (samples pre) ≤ MAX_SAMPLES)%nat.

Lemma bounded_app es es' : bounded (es ++ es') → bounded es.
Proof. intros Hb pre Hp. apply Hb. by apply prefix_app_r. Qed.

Lemma bounded_last es : bounded es → (length (samples es) ≤ MAX_SAMPLES)%nat.
Proof. intros Hb. by apply Hb. Qed.

Definition small_sample (d : Z) : Prop := 0 ≤ d ≤ 2^21.

Lemma zsum_bounds zs :
  Forall small_sample zs → 0 ≤ zsum zs ≤ 2^21 * Z.of_nat (length zs).
Proof.
  induction 1 as [|z zs Hz _ IH]; unfold zsum, small_sample in *; simpl in *; lia.
Qed.

(** The reallocator on a non-empty set of samples: it computes their average
    [a] and the occupation [per] = a per cent of the maximum, keeps the
    maximum at 75 per cent and otherwise sets it so that [a] is 75 per cent of
    it.  It does not fault and leaves a maximum of at least 2. *)
Lemma kt_realloc_body_spec v zs :
  ds_kb_dim v = Z.of_nat (length zs) → ds_kb_sum v = zsum zs → zs ≠ [] →
  (length zs ≤ MAX_SAMPLES)%nat → Forall small_sample zs → 2 ≤ ds_kb_max v ≤ INT_MAX →
  ∃ v' e a per, kt_realloc_body v = Ok (v', e) ∧
    my_div (zsum zs) (Z.of_nat (length zs)) = Ok a ∧ 0 ≤ a ≤ 2^21 + 1 ∧
    my_div (a * 100) (ds_kb_max v) = Ok per ∧
    (per = KB_OCC → e = EKeep ∧ ds_kb_max v' = ds_kb_max v) ∧
    (per ≠ KB_OCC → e = EResize per (ds_kb_max v') ∧
       (a ≤ 1 → ds_kb_max v' = 2) ∧
       (2 ≤ a → Z.abs (KB_OCC * ds_kb_max v' - 100 * a) ≤ 38)) ∧
    2 ≤ ds_kb_max v' ≤ INT_MAX.
Proof.
  intros Ed Es Hne Hlen Hz Hmax.
  pose proof (zsum_bounds _ Hz) as Hs.
  assert (0 < Z.of_nat (length zs)) by (destruct zs; simpl; [done|lia]).
  unfold MAX_SAMPLES in Hlen.
  assert (zsum zs / Z.of_nat (length zs) ≤ 2^21).
  { apply Z.div_le_upper_bound; lia. }
  assert (zsum zs / Z.of_nat (length zs) < INT_MAX) by (unfold_ranges; lia).
  destruct (my_div (zsum zs) (Z.of_nat (length zs))) as [a|] eqn:Ea;
    [|by rewrite my_div_eq in Ea by lia].
  assert (0 ≤ a ≤ 2^21 + 1) as Ha.
  { rewrite my_div_eq in Ea by lia. injection Ea as <-.
    set (n := Z.of_nat (length zs)) in *.
    pose proof (Z.div_mod n 2 ltac:(lia)). pose proof (Z.mod_pos_bound n 2 ltac:(lia)).
    split; [apply Z.div_pos; lia|].
    apply Z.div_le_upper_bound; lia. }
  assert (a * 100 / ds_kb_max v < INT_MAX) as Hq.
  { apply Z.div_lt_upper_bound; unfold_ranges; lia. }
  destruct (my_div (a * 100) (ds_kb_max v)) as [per|] eqn:Eper;
    [|by rewrite my_div_eq in Eper by lia].
  destruct (ds_set_kb_occupation_spec v a) as (v1 & E1 & Hb1 & Hocc & _);
    [lia|unfold_ranges; lia|].
  assert (kt_realloc_body v = if bool_decide (per ≠ KB_OCC)
    then Ok (ds_reset_alloc v1, EResize per (ds_kb_max v1))
    else Ok (ds_reset_alloc v, EKeep)) as E.
  { unfold kt_realloc_body, ds_get_kb_occupation, calculate_per.
    rewrite Ed, Es, Ea. cbn [rbind]. rewrite wrap32_id by (unfold_ranges; lia).
    rewrite Eper. cbn [rbind]. case_bool_decide; [|done]. by rewrite E1. }
  rewrite E. case_bool_decide as Hper.
  - eexists _, _, a, per. split; [done|]. split; [done|]. split; [done|]. split; [done|].
    split; [done|]. split; [|done]. intros _. split; [done|]. split; [|done].
    intros Ha1. simpl. unfold ds_set_kb_occupation in E1.
    rewrite bool_decide_true in E1 by done. simpl in E1. by injection E1 as <-.
  - assert (per = KB_OCC) by (destruct (decide (per = KB_OCC)); [done|by destruct Hper]).
    eexists _, _, a, per. split; [done|]. split; [done|]. split; [done|]. split; [done|].
    split; [done|]. split; [done|]. simpl. lia.
Qed.

(** Without a sample it divides by zero. *)
Lemma kt_realloc_body_no_sample v : ds_kb_dim v = 0 → kt_realloc_body v = Err DivError.
Proof. intros E. unfold kt_realloc_body, ds_get_kb_occupation. by rewrite E. Qed.

Section device.
Context {Al : Allocator} {Sm : SmallMemory}.

(** What the samples and the maximum look like on a bounded run. *)
Record sized (s : sys) (es : list event) : Prop := {
  sized_samples : Forall small_sample (samples es);
  sized_max : 2 ≤ ds_kb_max (dev_stat s) ≤ INT_MAX }.

Lemma unwrapped s es ns :
  inv s es ns → sized s es → bounded es →
  ds_kb_dim (dev_stat s) = Z.of_nat (length (samples es)) ∧
  ds_kb_sum (dev_stat s) = zsum (samples es).
Proof.
  intros Hi [Hsm _] Hb%bounded_last. pose proof (zsum_bounds _ Hsm). unfold MAX_SAMPLES in Hb.
  rewrite (inv_dim _ _ _ Hi), (inv_sum _ _ _ Hi), !wrap32_id; unfold_ranges; lia.
Qed.

Lemma sized_step s e s' es ns :
  inv s es ns → sized s es → bounded es → step s e s' → sized s' (es ++ e).
Proof.
  intros Hi Hz Hb Hst. pose proof Hz as [Hsm Hmx].
  apply step_effect in Hst as [[-> ((_ & Ed & _) & _)]|(t & p & p' & Hmv & Heff)].
  { rewrite app_nil_r. split; [done|by rewrite Ed]. }
  assert (∀ ev, add_sample (samples es) ev = samples es → dev_stat s' = dev_stat s →
    sized s' (es ++ [ev])) as Hkeep.
  { intros ev Ea Ed. split; [by rewrite samples_snoc, Ea|by rewrite Ed]. }
  assert (dev_stat s' = dev_stat s → sized s' (es ++ [])) as Hnil.
  { intros Ed. rewrite app_nil_r. split; [done|by rewrite Ed]. }
  destruct Heff as
    [(_&Ed&_)|(_&Ed&_)|(_&Ed&_)|? ? _ Ed|? ? (_&Ed&_)|? ? ? (_&Ed&_)
    |v dim r h' k' _ _ _ Ed|? ? ? ? _ _ _ (_&Ed&_)|? ? ? ? ? ? _ _ _ Ed|v r h' k' _ _ _ _ Ed
    |? ? ? _ _ _ _ Ed|v ev h' -> -> Eb E1 E2 _ _|v ev -> -> Eb E1 E2 _ _]; auto.
  - case_bool_decide; auto.
  - pose proof (inv_kb _ _ _ Hi) as Hk.
    pose proof (small_length _ _ _ Hk (inv_small _ _ _ Hi)) as Hl.
    destruct (kt_stat_body_inv _ _ _ _ _ _ _ Hk Hl Eb) as (_ & (r & ->) & D1 & _).
    split; [|by rewrite E2, D1]. rewrite samples_snoc. cbn [add_sample].
    apply Forall_app. split; [done|]. repeat constructor; unfold small_sample; lia.
  - destruct (unwrapped _ _ _ Hi Hz Hb) as [Udim Usum].
    destruct (decide (samples es = [])) as [E0|Hne].
    { rewrite E0 in Udim. by rewrite kt_realloc_body_no_sample in Eb. }
    destruct (kt_realloc_body_spec _ _ Udim Usum Hne (bounded_last _ Hb) Hsm Hmx)
      as (v1 & e1 & a & per & Eb' & _ & _ & _ & Hk & Hr & Hm).
    rewrite Eb' in Eb. injection Eb as <- <-. split; [|by rewrite E2].
    rewrite samples_snoc. destruct (decide (per = KB_OCC)) as [->|Hper].
    + destruct (Hk eq_refl) as [-> _]. constructor.
    + destruct (Hr Hper) as [-> _]. constructor.
Qed.

Lemma reachable_sized tr s :
  reachable tr s → bounded (concat tr) → ∃ ns, inv s (concat tr) ns ∧ sized s (concat tr).
Proof.
  apply (run_invariant step (λ s tr, bounded (concat tr) →
    ∃ ns, inv s (concat tr) ns ∧ sized s (concat tr))).
  - intros _. exists []. split; [apply inv_init|]. split; [constructor|done].
  - intros s0 tr0 e s1 IH Hst. rewrite concat_app. simpl. rewrite app_nil_r. intros Hb.
    apply bounded_app in Hb as Hb0. destruct (IH Hb0) as (ns & Hi & Hz).
    destruct (inv_step _ _ _ _ _ Hi Hst) as (ns' & Hi' & _).
    exists ns'. split; [done|]. by eapply sized_step.
Qed.


(** ** Private blocks do not change behind a task's back *)

Lemma private_stable s s' es ns t p p' e t0 p0 l :
  inv s es ns → moves t p p' s s' → effect t p p' s s' e →
  t0 ≠ t → pcs s !! t0 = Some p0 → owned p0 = Some l → mem s' !! l = mem s !! l.
Proof.
  intros Hi [Hp _] Heff Hne Hp0 Ho.
  pose proof (inv_own _ _ _ Hi) as Hown. pose proof (inv_kb _ _ _ Hi) as Hk.
  destruct (own_live _ _ _ Hown _ _ _ Hp0 Ho) as (Hln & b & Hb & _).
  assert (owned p ≠ Some l) as Hop.
  { intros Hop. apply Hne. symmetry. by eapply (own_inj _ _ _ Hown t t0). }
  destruct Heff as
    [(_&_&Em)|(_&_&Em)|(_&_&Em)|l1 dim _ _ _ _ _ _ _ Ha Em|? ? (_&_&Em)|? ? ? (_&_&Em)
    |v dim r h' k' -> Epop _ _ Em _ _|? ? ? ? _ _ _ (_&_&Em)|v buf dim u err h' -> Ec _ _ Em
    |v r h' k' -> -> Epush _ _ Em|v r h' -> _ Ef _ _ Em|v ev h' -> -> Eb _ _ Em|v ev -> -> Eb _ _ Em];
    try (by rewrite Em).
  - rewrite Em, lookup_insert_ne; [done|]. intros ->. apply alloc_fresh in Ha. congruence.
  - rewrite Em. pose proof (inv_nonempty _ _ _ Hi _ _ _ Hp) as Hnn.
    destruct ns as [|n ns]; [done|].
    destruct v as [l1|]; [|by erewrite kb_pop_null in Epop by done].
    destruct (own_live _ _ _ Hown t _ l1 Hp eq_refl) as (Hln1 & b1 & Hb1 & _).
    destruct (kb_pop_inv _ _ _ _ _ _ _ _ _ Hk Hb1 Hln1 Epop) as (_ & _ & _ & _ & _ & _ & Hfr).
    rewrite fp_cons in Hln. apply Hfr; [simpl in Hop; congruence|set_solver|set_solver].
  - rewrite Em. destruct (copy_from_user_inv _ _ _ _ _ _ _ Ec) as (l1 & ? & ? & -> & _ & -> & _).
    rewrite lookup_insert_ne; [done|]. simpl in Hop. congruence.
  - rewrite Em. destruct v as [l1|]; [|by rewrite kb_push_null in Epush].
    destruct (own_live _ _ _ Hown t _ l1 Hp eq_refl) as (Hln1 & b1 & Hb1 & Hlen1).
    destruct (kb_push_inv _ _ _ _ _ _ _ _ Hk Hb1 Hln1 Hlen1 Epush)
      as (? & ? & l2 & d2 & _ & _ & _ & _ & F1 & F2 & _ & Hfr & _).
    apply Hfr. rewrite fp_app, fp_cons. simpl.
    apply not_elem_of_app. split; [done|]. set_solver.
  - rewrite Em. simpl in Hop. unfold free in Ef. destruct v as [l1|]; [|congruence].
    destruct (mem s !! l1); [|done]. injection Ef as <-. rewrite lookup_delete_ne; congruence.
  - pose proof (small_length _ _ _ Hk (inv_small _ _ _ Hi)) as Hl.
    destruct (kt_stat_body_inv _ _ _ _ _ _ _ Hk Hl Eb) as (-> & _). by rewrite Em.
Qed.

(** ** Clients that follow the protocol of the two programs *)

(** A read asks for at least [READ_BYTE] bytes. *)
Definition polite_dim (dim : Z) : Prop := READ_BYTE ≤ dim < 2^32.
(** A write passes a string of less than [MAXL] characters and its terminator. *)
Definition polite_str (s : list Z) : Prop := cstring s ∧ Z.of_nat (length s) < MAXL.
Definition polite_buf (buf : list Z) (dim : Z) : Prop :=
  ∃ s, polite_str s ∧ buf = s ++ [0] ∧ dim = Z.of_nat (length s) + 1.

Definition polite_call (p : pc) : Prop :=
  match p with
  | RLock dim => polite_dim dim
  | WLock buf dim => polite_buf buf dim
  | _ => True
  end.
Definition polite (l : label) : Prop :=
  match l with LCall _ p => polite_call p | _ => True end.

Definition polite_step (s : sys) (e : list event) (s' : sys) : Prop :=
  ∃ l, polite l ∧ next l s = Some (Ok (s', e)).
Definition polite_reachable (tr : list (list event)) (s : sys) : Prop :=
  run polite_step init_state tr s.

Lemma polite_step_step s e s' : polite_step s e s' → step s e s'.
Proof. intros (l & _ & E). by apply (step_next l). Qed.

Lemma polite_reachable_reachable tr s : polite_reachable tr s → reachable tr s.
Proof.
  apply (run_invariant polite_step (λ s tr, reachable tr s)); [constructor|].
  intros s0 tr0 e s1 IH Hst. eapply run_snoc; [exact IH|]. by apply polite_step_step.
Qed.

(** A completing schedule whose calls keep the protocol. *)
Lemma completes_polite ls :
  Forall polite ls → completes ls init_state = true →
  ∃ tr, polite_reachable tr (final ls init_state) ∧ concat tr = shown ls init_state.
Proof.
  unfold completes, final, shown. intros Hpol.
  destruct (runs ls init_state) as [[[s es]|]|] eqn:E; try done. intros _.
  unfold polite_reachable. revert E. generalize init_state at 1 2. revert es.
  induction Hpol as [|l ls Hl _ IH]; intros es s0 E; simpl in E.
  - unfold go in E. simplify_eq. exists []. split; [constructor|done].
  - destruct (next l s0) as [[[s1 e1]|]|] eqn:E1; try done.
    destruct (runs ls s1) as [[[s2 e2]|]|] eqn:E2; try done. simplify_eq.
    destruct (IH _ _ E2) as (tr & Hr & <-). exists ([e1] ++ tr). split; [|done].
    eapply run_trans; [|done]. apply run_one. by exists l.
Qed.

(** The value block has the size the call asked for. *)
Definition sized_value (h : heap) (v : ptr) (dim : Z) : Prop :=
  ∃ l b, v = Some l ∧ h !! l = Some b ∧ Z.of_nat (length b) = dim.

Definition polite_pc (h : heap) (p : pc) : Prop :=
  match p with
  | RLock dim | RAlloc dim => polite_dim dim
  | RTest v dim | RWait v dim _ | RRelock v dim | RPop v dim | RCopy v dim =>
      polite_dim dim ∧ sized_value h v dim
  | WLock buf dim | WAlloc buf dim => polite_buf buf dim
  | WTest v buf dim | WWait v buf dim _ | WRelock v buf dim | WCopy v buf dim =>
      polite_buf buf dim ∧ sized_value h v dim
  | WPush v => ∃ l s, v = Some l ∧ h !! l = Some (cells s) ∧ polite_str s
  | _ => True
  end.

Record polite_inv (s : sys) (ns : list node) : Prop := {
  pol_pcs t p : pcs s !! t = Some p → polite_pc (mem s) p;
  pol_strs : Forall polite_str (strings ns) }.

(** The property of a program point only reads the task's own block. *)
Lemma polite_pc_frame h h' p :
  (∀ l, owned p = Some l → h' !! l = h !! l) → polite_pc h p → polite_pc h' p.
Proof.
  intros Hag. destruct p; simpl in *; unfold sized_value; try done.
  all: try (intros [Hd (l & b & -> & Hb & Hl)]; split; [done|]; exists l, b; by rewrite Hag).
  intros (l & s & -> & Hb & Hs). exists l, s. by rewrite Hag.
Qed.


(** The task that steps stays polite. *)
Lemma exec_polite t u s s' e es ns k p' :
  inv s es ns → tasks s !! t = Some k → polite_pc (mem s) (t_pc k) →
  exec t u s = Some (Ok (s', e)) → pcs s' !! t = Some p' → polite_pc (mem s') p'.
Proof.
  intros Hi Hk Hpol E Hp'. unfold exec in E. rewrite Hk in E.
  apply pcs_lookup in Hk as Hp.
  destruct (t_pc k) as [dim|dim|v dim|v dim w|v dim|v dim|v dim|v|r
    |buf dim|buf dim|v buf dim|v buf dim w|v buf dim|v buf dim|v|v r|v r
    | | | | | | |kt|kt|kt|kt tm|kt tm|kt|r] eqn:Hpc;
    unfold my_read, my_write, my_open, my_close, kt_stat, kt_realloc, mutex_lock in E;
    rewrite ?Hpc in E.
  (* every point but the ones that touch memory *)
  all: try (unfold wait_event_interruptible in E; repeat case_match; unfold go, blocked in E;
    simplify_eq; apply pcs_jump_eq in Hp' as ->; simpl in *; done).
  all: unfold run_c in E.
  - unfold malloc_chars, malloc in E. simpl in Hpol.
    destruct (alloc (mem s) (wrapu32 dim)) as [l|]; simpl in E; unfold go in E; simplify_eq;
      apply pcs_jump_eq in Hp' as ->; [|done].
    split; [done|]. eexists l, _. split; [done|]. simpl. rewrite lookup_insert_eq.
    split; [done|]. unfold polite_dim, READ_BYTE in Hpol.
    rewrite length_replicate, wrapu32_id; lia.
  - pose proof (inv_nonempty _ _ _ Hi _ _ _ Hp) as Hnn. destruct ns as [|n ns]; [done|].
    destruct (kb_pop v (kb_fifo s) (mem s)) as [[[r k'] h']|] eqn:Epop; [|done].
    destruct Hpol as [Hd (l & b & -> & Hb & Hlen)].
    destruct (own_live _ _ _ (inv_own _ _ _ Hi) t _ l Hp eq_refl) as (Hln & _).
    destruct (kb_pop_inv _ _ _ _ _ _ _ _ _ (inv_kb _ _ _ Hi) Hb Hln Epop)
      as (-> & Hlb & _ & Hl' & _).
    rewrite bool_decide_false in E by (intros []; done). unfold go in E. simplify_eq.
    apply pcs_jump_eq in Hp' as ->. split; [done|]. eexists l, _. split; [done|].
    simpl. split; [done|]. rewrite length_app, length_cells, length_drop. lia.
  - repeat case_match; unfold go in E; simplify_eq; apply pcs_jump_eq in Hp' as ->; done.
  - unfold malloc_chars, malloc in E. simpl in Hpol.
    destruct (alloc (mem s) (wrapu32 dim)) as [l|]; simpl in E; unfold go in E; simplify_eq;
      apply pcs_jump_eq in Hp' as ->; [|done].
    split; [done|]. eexists l, _. split; [done|]. simpl. rewrite lookup_insert_eq.
    split; [done|]. destruct Hpol as (str & [_ Hl] & _ & ->). unfold MAXL in Hl.
    rewrite length_replicate, wrapu32_id; lia.
  - destruct Hpol as [(str & [Hs Hl] & -> & ->) (l & b & -> & Hb & Hlen)].
    destruct (copy_from_user _ _ _ _ _) as [[err h']|] eqn:Ec; [|done].
    destruct (copy_from_user_inv _ _ _ _ _ _ _ Ec) as (l1 & b1 & b' & [= <-] & Hb1 & -> & _ & Hok).
    simplify_eq. case_bool_decide as Herr; unfold go in E; simplify_eq;
      apply pcs_jump_eq in Hp' as ->; [done|].
    exists l, str. split; [done|]. split; [|done]. simpl. rewrite lookup_insert_eq.
    rewrite Hok by (done || lia). f_equal. unfold cells.
    rewrite take_ge by (rewrite length_app; simpl; lia). by rewrite fmap_app.
  - repeat case_match; unfold go in E; simplify_eq; apply pcs_jump_eq in Hp' as ->; done.
  - repeat case_match; unfold go in E; simplify_eq; apply pcs_jump_eq in Hp' as ->; done.
  - repeat case_match; unfold go, blocked in E; simplify_eq; apply pcs_jump_eq in Hp' as ->; done.
Qed.

(** Polite strings go in, so polite strings are in. *)
Lemma spec_steps_polite a e b :
  spec_steps a e b → Forall polite_str (sp_queue a) →
  (∀ t s, EPush t s ∈ e → polite_str s) → Forall polite_str (sp_queue b).
Proof.
  induction 1 as [|a e b es c Hs _ IH]; [done|]. intros Ha He.
  apply IH; [|set_solver]. destruct Hs; simpl in *; try done.
  - apply Forall_app. split; [done|]. constructor; [|done]. by eapply (He t); left.
  - by apply Forall_cons in Ha as [_ ?].
Qed.

Lemma exec_push_polite t k p' s s' e :
  effect t (t_pc k) p' s s' e → polite_pc (mem s) (t_pc k) →
  ∀ t0 str, EPush t0 str ∈ e → polite_str str.
Proof.
  intros Heff Hpol t0 str Hin.
  destruct Heff as [| | | | | |? ? ? ? ? ? ? ? ? ? ? ?| | |v r h' k' Hpc| |? ? ? ? ? Hb|? ? ? ? Hb];
    try set_solver.
  - case_bool_decide; set_solver.
  - rewrite Hpc in Hpol. destruct Hpol as (l & s0 & -> & Hb & Hs).
    apply list_elem_of_singleton in Hin. injection Hin as -> ->.
    simpl. rewrite Hb. simpl. rewrite <- (app_nil_r (cells s0)).
    rewrite cstr_of_cells; [done|apply Hs].
  - apply list_elem_of_singleton in Hin as <-. unfold kt_stat_body in Hb.
    apply bind_inv in Hb as ([dim v1] & h1 & _ & Hb). case_bool_decide; [|done].
    repeat (apply bind_inv in Hb as (? & ? & _ & Hb)). done.
  - apply list_elem_of_singleton in Hin as <-.
    by destruct (kt_realloc_body_inv _ _ _ Hb) as (_ & _ & [[? _]|(? & ?)]).
Qed.

(** Environment steps and steps of others. *)
Lemma polite_inv_step s e s' es ns ns' :
  inv s es ns → polite_inv s ns → polite_step s e s' →
  spec_steps (abs s ns) e (abs s' ns') → polite_inv s' ns'.
Proof.
  intros Hi [Hpcs Hstrs] (l & Hpl & E) Hsp. destruct (is_exec l) eqn:Hl.
  - destruct l as [t u| | | |]; try done. simpl in E.
    destruct (exec_effect _ _ _ _ _ E) as (k & Hk & p1 & Hmv & Heff).
    pose proof Hmv as [Hp Hps]. split.
    + intros t0 p0 Hp0. destruct (decide (t0 = t)) as [->|Hne]; [by eapply exec_polite; eauto|].
      assert (pcs s !! t0 = Some p0) as Hp0' by by rewrite Hps, lookup_insert_ne in Hp0.
      eapply polite_pc_frame; [|by eapply Hpcs].
      intros l Ho. by eapply private_stable.
    + change (Forall polite_str (sp_queue (abs s' ns'))).
      eapply spec_steps_polite; [done|done|]. eapply exec_push_polite; eauto.
  - destruct (next_env _ _ _ _ Hl E) as [-> ((_ & _ & Em) & _ & _)]. split.
    + intros t0 p0. rewrite Em.
      destruct (next_env_call _ _ _ _ Hl E) as [->|(t1 & p1 & -> & He & ->)]; [eauto|].
      rewrite lookup_insert. case_decide; [|eauto]. intros [= <-]. by destruct p1.
    + change (Forall polite_str (sp_queue (abs s' ns'))).
      eapply spec_steps_polite; [done|done|set_solver].
Qed.

Lemma polite_reachable_inv tr s :
  polite_reachable tr s → ∃ ns, inv s (concat tr) ns ∧ polite_inv s ns.
Proof.
  apply (run_invariant polite_step (λ s tr, ∃ ns, inv s (concat tr) ns ∧ polite_inv s ns)).
  - exists []. split; [apply inv_init|]. split; [|constructor].
    intros t p Hp. by apply init_pcs in Hp as (k & ->).
  - intros s0 tr0 e s1 (ns & Hi & Hp) Hst.
    destruct (inv_step _ _ _ _ _ Hi (polite_step_step _ _ _ Hst)) as (ns' & Hi' & Hsp).
    exists ns'. rewrite concat_app. simpl. rewrite app_nil_r.
    eauto using polite_inv_step.
Qed.

(** ** Which faults are left *)

(** kmalloc has no memory for the node, or none for the string after the node. *)
Definition no_room (h : heap) (str : list Z) : Prop :=
  alloc h SIZEOF_NODE = None ∨
  ∃ n, alloc h SIZEOF_NODE = Some n ∧
    alloc (<[n := [Undef; Undef]]> h) (Z.of_nat (length str) + 1) = None.

(** Where a step of the well-behaved system faults: kmalloc returns NULL for a
    string that is pushed, it returns NULL for the snapshot of a buffer that
    holds strings, or the reallocator runs without a sample. *)
Inductive residual (s : sys) (es : list event) : label → fault → Prop :=
  | residual_push t u l str :
      pcs s !! t = Some (WPush (Some l)) → mem s !! l = Some (cells str) → polite_str str →
      no_room (mem s) str → residual s es (LExec t u) NullDeref
  | residual_stat t u q :
      pcs s !! t = Some (KBody KStat) → dev_run s ≠ 0 → queue_of s q → q ≠ [] →
      alloc (mem s) (4 * Z.of_nat (length q)) = None → residual s es (LExec t u) NullDeref
  | residual_realloc t u :
      pcs s !! t = Some (KBody KRealloc) → dev_run s ≠ 0 → samples es = [] →
      residual s es (LExec t u) DivError.

Lemma exec_faults t u s es ns f :
  inv s es ns → polite_inv s ns → sized s es → bounded es →
  exec t u s = Some (Err f) → residual s es (LExec t u) f.
Proof.
  intros Hi [Hpcs Hstrs] Hz Hb E. unfold exec in E.
  destruct (tasks s !! t) as [k|] eqn:Hk; [|done]. apply pcs_lookup in Hk as Hp.
  pose proof (Hpcs _ _ Hp) as Hpol. pose proof (inv_kb _ _ _ Hi) as Hkb.
  pose proof (inv_own _ _ _ Hi) as Hown.
  pose proof (small_length _ _ _ Hkb (inv_small _ _ _ Hi)) as Hsm.
  destruct (t_pc k) as [dim|dim|v dim|v dim w|v dim|v dim|v dim|v|r
    |buf dim|buf dim|v buf dim|v buf dim w|v buf dim|v buf dim|v|v r|v r
    | | | | | | |kt|kt|kt|kt tm|kt tm|kt|r] eqn:Hpc;
    unfold my_read, my_write, my_open, my_close, kt_stat, kt_realloc, mutex_lock in E;
    rewrite ?Hpc in E.
  all: try (exfalso; unfold wait_event_interruptible in E; repeat case_match;
    unfold go, blocked in E; discriminate).
  all: unfold run_c in E.
  - exfalso. unfold malloc_chars, malloc in E. repeat case_match; unfold go in E; simplify_eq.
  - exfalso. pose proof (inv_nonempty _ _ _ Hi _ _ _ Hp) as Hnn. destruct ns as [|n ns]; [done|].
    destruct Hpol as [[Hd _] (l & b & -> & Hbl & Hlen)].
    apply Forall_cons in Hstrs as [[_ Hstr] _]. unfold READ_BYTE, MAXL in *.
    destruct (own_live _ _ _ Hown t _ l Hp eq_refl) as (Hln & _).
    destruct (kb_pop_spec _ _ n ns l b Hkb Hbl Hln) as (k' & h' & Ep & _); [lia|].
    rewrite Ep in E. by rewrite bool_decide_false in E by (intros []; done).
  - exfalso. destruct Hpol as [Hd (l & b & -> & Hbl & Hlen)].
    unfold copy_to_user, bind, load_block, ret in E. rewrite Hbl in E.
    rewrite bool_decide_false in E by lia. repeat case_match; unfold go in E; simplify_eq.
  - exfalso. unfold malloc_chars, malloc in E. repeat case_match; unfold go in E; simplify_eq.
  - exfalso. destruct Hpol as [Hd (l & b & -> & Hbl & Hlen)].
    unfold copy_from_user, bind, load_block, store_block, ret in E. rewrite Hbl in E.
    rewrite bool_decide_false in E by lia. repeat case_match; unfold go in E; simplify_eq.
  - destruct Hpol as (l & str & -> & Hbl' & Hs & Hlen). pose proof Hbl' as Hbl. unfold MAXL in Hlen.
    rewrite <- (app_nil_r (cells str)) in Hbl.
    destruct (own_live _ _ _ Hown t _ l Hp eq_refl) as (Hln & _).
    assert (f = NullDeref ∧ no_room (mem s) str) as [-> Hno]; [|by eapply residual_push].
    destruct (alloc (mem s) SIZEOF_NODE) as [ln|] eqn:Ea;
      [|erewrite kb_push_oom in E by done; simplify_eq; split; [done|by left]].
    destruct (alloc (<[ln := [Undef; Undef]]> (mem s)) (Z.of_nat (length str) + 1)) as [d|] eqn:Eb.
    + destruct (kb_push_spec _ _ _ _ _ _ _ _ Hkb Hbl Hs Hln ltac:(lia) Ea Eb)
        as (k' & h' & Ep & _). rewrite Ep in E. unfold go in E. simplify_eq.
    + erewrite kb_push_oom_string in E by (done || lia). simplify_eq. split; [done|]. right. by exists ln.
  - exfalso. unfold free in E. destruct v as [l|]; [|unfold go in E; simplify_eq].
    destruct (own_live _ _ _ Hown t _ l Hp eq_refl) as (_ & b & Hbl & _).
    rewrite Hbl in E. unfold go in E. simplify_eq.
  - destruct kt; (case_bool_decide as Hrun; [|done]); simpl in E.
    + destruct (kt_stat_body _ _ _) as [[[v e] h']|f'] eqn:Eb; [done|]. simplify_eq.
      destruct (decide (ns = [] ∨ is_Some (alloc (mem s) (4 * Z.of_nat (length ns))))) as [D|D].
      * destruct (kt_stat_body_ok _ (dev_stat s) _ _ Hkb Hsm) as (v2 & r & E2 & _);
          [naive_solver|congruence].
      * assert (ns ≠ [] ∧ alloc (mem s) (4 * Z.of_nat (length ns)) = None) as [Hne Ha].
        { rewrite eq_None_not_Some. naive_solver. }
        unfold kt_stat_body in Eb.
        rewrite (bind_err _ _ _ _ (ds_populate_oom _ (dev_stat s) _ _ Hkb Hne ltac:(lia) Ha)) in Eb.
        simplify_eq. eapply residual_stat; [done|done|by exists ns|by destruct ns|]. by rewrite length_strings.
    + unfold lift in E. destruct (kt_realloc_body (dev_stat s)) as [[v e]|f'] eqn:Eb; [done|].
      simplify_eq. destruct (unwrapped _ _ _ Hi Hz Hb) as [Udim Usum]. destruct Hz as [Hss Hmx].
      destruct (decide (samples es = [])) as [E0|Hne].
      * rewrite E0 in Udim. rewrite kt_realloc_body_no_sample in Eb by done. simplify_eq.
        by econstructor.
      * destruct (kt_realloc_body_spec _ _ Udim Usum Hne (bounded_last _ Hb) Hss Hmx)
          as (v1 & e1 & a & per & Eb' & _). congruence.
Qed.

(** What faults in these places. *)
Lemma residual_faults l s es ns f :
  inv s es ns → sized s es → bounded es → residual s es l f → next l s = Some (Err f).
Proof.
  intros Hi Hz Hb Hr. destruct Hr as [t u l str Hp Hbl [Hs Hlen] Hno|t u q Hp Hrun (ns' & Hk & <-) Hne Ha|t u Hp Hrun He];
    unfold pcs in Hp; rewrite lookup_fmap in Hp; apply fmap_Some in Hp as (k & Ek & Ep);
    simpl; unfold exec; rewrite Ek, <- Ep.
  - unfold my_write, run_c. rewrite <- Ep. rewrite <- (app_nil_r (cells str)) in Hbl. unfold MAXL in Hlen.
    destruct Hno as [Ha|(ln & Ea & Ha)].
    + by erewrite kb_push_oom.
    + by erewrite kb_push_oom_string by (done || lia).
  - unfold kt_stat, run_c. rewrite <- Ep. rewrite bool_decide_true by done. cbn [mem set_state upd set_tasks kb_fifo dev_stat].
    pose proof (small_length _ _ _ Hk (inv_small _ _ _ Hi)) as Hl. rewrite length_strings in Ha.
    unfold kt_stat_body. erewrite bind_err; [done|]. eapply ds_populate_oom; [exact Hk|by intros ->|lia|done].
  - unfold kt_realloc, run_c, lift. rewrite <- Ep. rewrite bool_decide_true by done. cbn [dev_stat set_state upd set_tasks].
    destruct (unwrapped _ _ _ Hi Hz Hb) as [Udim _]. rewrite He in Udim. by rewrite kt_realloc_body_no_sample.
Qed.

(** Steps of the environment never fault. *)
Lemma next_faults l s es ns f :
  inv s es ns → polite_inv s ns → sized s es → bounded es →
  next l s = Some (Err f) → residual s es l f.
Proof.
  intros Hi Hp Hz Hb E. destruct l as [t u| | | |]; [by eapply exec_faults|..];
    exfalso; simpl in E; repeat case_match; unfold go, blocked in E; simplify_eq.
Qed.

End device.
