(* ===== verification/DeviceStat.v ===== *)
(** * What the kernel threads report

    The statistics line is computed from the strings stored at that moment,
    the reallocation from the samples since the last one. *)

From stdpp Require Import base numbers list option gmap.
From S2P Require Import Prelude Memory CList Kbuf Stat Fun Device DeviceInv DeviceSafe DevicePolite.
Local Open Scope Z_scope.
Local Open Scope c_scope.

(** ** Lengths of strings *)

Definition str_lengths (q : list (list Z)) : list Z := (λ s, Z.of_nat (length s)) <$> q.

(** A value is the largest (least) of a list. *)
Definition is_max (m : Z) (zs : list Z) : Prop := m ∈ zs ∧ Forall (λ z, z ≤ m) zs.
Definition is_min (m : Z) (zs : list Z) : Prop := m ∈ zs ∧ Forall (λ z, m ≤ z) zs.

(** The report for the strings [q]: nothing when there are none, otherwise the
    integer average, the maximum and the minimum of the lengths. *)
Definition report_ok (q : list (list Z)) (r : option (Z * Z * Z)) : Prop :=
  match r with
  | None => q = []
  | Some (avg, mx, mn) =>
      q ≠ [] ∧ avg = zsum (str_lengths q) / Z.of_nat (length q) ∧
      is_max mx (str_lengths q) ∧ is_min mn (str_lengths q)
  end.

Lemma str_lengths_nonneg q : Forall (λ z, 0 ≤ z) (str_lengths q).
Proof. apply Forall_fmap, Forall_true. intros s. simpl. lia. Qed.

Lemma zsum_member zs z : Forall (λ z, 0 ≤ z) zs → z ∈ zs → z ≤ zsum zs.
Proof.
  intros Hz. revert z. induction Hz as [|y zs Hy Hz IH]; intros z Hin; [by inversion Hin|].
  assert (0 ≤ zsum zs) by (clear -Hz; induction Hz; unfold zsum in *; simpl in *; lia).
  unfold zsum in *. simpl. apply elem_of_cons in Hin as [->|Hin]; [lia|].
  specialize (IH _ Hin). lia.
Qed.

(** The widths do not matter as long as the total length is an [int]. *)
Lemma lengths_eq ns :
  zsum (str_lengths (strings ns)) ≤ INT_MAX → lengths ns = str_lengths (strings ns).
Proof.
  intros Hs. unfold lengths, str_lengths. apply list_fmap_ext. intros i s Hi.
  apply wrap32_id. apply list_elem_of_lookup_2 in Hi.
  assert (Z.of_nat (length s) ∈ str_lengths (strings ns)) as Hin by
    (apply list_elem_of_fmap; eauto).
  pose proof (zsum_member _ _ (str_lengths_nonneg (strings ns)) Hin).
  unfold_ranges. lia.
Qed.

Lemma polite_total q :
  Forall polite_str q → Z.of_nat (length q) ≤ 2^21 → zsum (str_lengths q) ≤ INT_MAX.
Proof.
  intros Hq Hl. transitivity (40 * Z.of_nat (length q)); [|unfold_ranges; lia].
  clear Hl. induction Hq as [|s q [_ Hs] _ IH]; unfold zsum, MAXL in *; simpl in *; lia.
Qed.

Section reports.
Context {Al : Allocator} {Sm : SmallMemory}.

(** [kt_stat_body] on a buffer with memory for the snapshot. *)
Lemma kt_stat_body_report h v k ns v' d r h' :
  kb_rep h k ns → Z.of_nat (length ns) ≤ 2^21 → zsum (str_lengths (strings ns)) ≤ INT_MAX →
  kt_stat_body v k h = Ok ((v', ESample d r), h') →
  d = Z.of_nat (length ns) ∧ report_ok (strings ns) r.
Proof.
  intros Hk Hb Hsum E. unfold kt_stat_body in E.
  destruct (decide (ns = [])) as [->|Hne].
  { rewrite (bind_ok _ _ _ _ _ (ds_populate_empty _ _ _ Hk)) in E. simpl in E.
    unfold ret in E. injection E as <- <- <- <-. done. }
  destruct (alloc h (4 * Z.of_nat (length ns))) as [l|] eqn:Hl.
  2: { by rewrite (bind_err _ _ _ _ (ds_populate_oom h v k ns Hk Hne ltac:(lia) Hl)) in E. }
  destruct (ds_populate_spec h v k ns l) as (v1 & Ep & Hsn & _); [done|done|lia|done|].
  rewrite (bind_ok _ _ _ _ _ Ep) in E.
  rewrite bool_decide_true in E by (destruct ns; simpl; [done|lia]).
  rewrite (lengths_eq _ Hsum) in *. set (zs := str_lengths (strings ns)) in *.
  assert (zs ≠ []) as Hzne by (by destruct ns).
  pose proof (str_lengths_nonneg (strings ns)) as Hnn. fold zs in Hnn.
  rewrite (bind_ok _ _ _ _ _ (ds_med_spec _ _ _ Hsn Hzne Hnn Hsum)) in E.
  destruct (ds_max_spec _ _ _ Hsn Hzne Hnn) as (mx & Emx & Hin & Hle).
  rewrite (bind_ok _ _ _ _ _ Emx) in E.
  destruct (ds_min_spec _ _ _ mx Hsn) as (mn & Emn & Hin' & Hge); [|done|].
  { apply Forall_and. split; done. }
  rewrite (bind_ok _ _ _ _ _ Emn) in E.
  destruct (ds_reset_stat_spec _ v1 _ Hsn) as (l' & v2 & _ & Er & _).
  rewrite (bind_ok _ _ _ _ _ Er) in E. unfold ret in E.
  injection E as _ <- <- _. split; [done|]. simpl.
  split; [by destruct ns|]. split; [|done]. f_equal. unfold zs, str_lengths. by rewrite length_fmap.
Qed.

(** Where the events of the kernel threads come from. *)
Lemma step_sample s e s' es ns d r :
  inv s es ns → step s e s' → ESample d r ∈ e →
  ∃ h', kt_stat_body (dev_stat s) (kb_fifo s) (mem s) = Ok ((dev_stat s', ESample d r), h').
Proof.
  intros Hi Hst Hin.
  apply step_effect in Hst as [[-> _]|(t0 & p & p' & _ & Heff)]; [set_solver|].
  destruct Heff as [| | | | | |v dim r' h' k'|?|?|? ? ? ?|?|v ev h' _ _ Hb _ <- _ _|v ev _ _ Hb _ _ _ _];
    try set_solver.
  - case_bool_decide; set_solver.
  - apply list_elem_of_singleton in Hin as <-.
    by destruct (kt_realloc_body_inv _ _ _ Hb) as (_ & _ & [[? _]|(? & ?)]).
Qed.

Definition is_realloc (e : event) : Prop :=
  match e with EResize _ _ | EKeep => True | _ => False end.

Lemma step_realloc s e s' es ns ev :
  inv s es ns → step s e s' → ev ∈ e → is_realloc ev →
  kt_realloc_body (dev_stat s) = Ok (dev_stat s', ev).
Proof.
  intros Hi Hst Hin Hev.
  apply step_effect in Hst as [[-> _]|(t0 & p & p' & _ & Heff)]; [set_solver|].
  destruct Heff as [| | | | | |v dim r' h' k'|?|?|? ? ? ?|?|v e0 h' _ _ Hb _ _ _ _|v e0 _ _ Hb _ <- _ _];
    try (by set_solver); try (by apply list_elem_of_singleton in Hin as ->).
  - case_bool_decide; [set_solver|]. by apply list_elem_of_singleton in Hin as ->.
  - apply list_elem_of_singleton in Hin as <-. pose proof (inv_kb _ _ _ Hi) as Hk.
    by destruct (kt_stat_body_inv _ _ _ _ _ _ _ Hk (small_length _ _ _ Hk (inv_small _ _ _ Hi)) Hb)
      as (_ & (r & ->) & _).
Qed.

End reports.
