(* ===== verification/DeviceRead.v ===== *)
(** * What readers get

    With clients that keep the protocol, the strings copied to user space are,
    in order, among the strings taken from the buffer. *)

From stdpp Require Import base numbers list option gmap.
From S2P Require Import Prelude Memory CList Kbuf Stat Fun Device DeviceInv DeviceSafe DeviceWake DevicePolite.
Local Open Scope Z_scope.

(** The strings the users received. *)
Definition deliveries (es : list event) : list (list Z) :=
  omap (λ e, match e with EDeliver _ b => Some (cstr_of b) | _ => None end) es.

Lemma deliveries_app es es' : deliveries (es ++ es') = deliveries es ++ deliveries es'.
Proof. apply omap_app. Qed.
Lemma pops_app es es' : pops (es ++ es') = pops es ++ pops es'.
Proof. apply omap_app. Qed.

(** A task about to copy has the last popped string, which was not delivered
    yet. *)
Definition copying (s : sys) (es : list event) : Prop :=
  ∀ t v d, pcs s !! t = Some (RCopy v d) →
    ∃ pre str, pops es = pre ++ [str] ∧ last_pop t es = Some str ∧ sublist (deliveries es) pre.

Definition reads_ok (s : sys) (es : list event) : Prop :=
  sublist (deliveries es) (pops es) ∧ copying s es.

(** An event that is neither a pop nor a delivery. *)
Definition silent (e : event) : Prop :=
  match e with EPop _ _ | EDeliver _ _ => False | _ => True end.

Lemma reads_ok_silent s s' es e :
  reads_ok s es → Forall silent e →
  (∀ t v d, pcs s' !! t = Some (RCopy v d) → pcs s !! t = Some (RCopy v d)) →
  reads_ok s' (es ++ e).
Proof.
  intros [Hd Hc] He Hp.
  assert (pops e = [] ∧ deliveries e = [] ∧ ∀ t, last_pop t (es ++ e) = last_pop t es) as (E1 & E2 & E3).
  { clear -He. revert es. induction He as [|x e Hx _ IH]; intros es.
    - split; [done|]. split; [done|]. intros t. by rewrite app_nil_r.
    - destruct (IH (es ++ [x])) as (H1 & H2 & H3). split; [by destruct x|]. split; [by destruct x|].
      intros t. specialize (H3 t). rewrite <- app_assoc in H3. simpl in H3. rewrite H3, last_pop_snoc.
      by destruct x. }
  unfold reads_ok, copying. rewrite pops_app, deliveries_app, E1, E2, !app_nil_r. split; [done|].
  intros t v d Ht. rewrite E3. eauto.
Qed.

Section reads.
Context {Al : Allocator} {Sm : SmallMemory}.

(** The bytes a reader gets are its string and its terminator. *)
Lemma deliver_bytes s es ns t v dim u bytes :
  inv s es ns → polite_inv s ns → pcs s !! t = Some (RCopy v dim) →
  copy_to_user u v dim (mem s) = Ok ((0, bytes), mem s) →
  ∃ str rest, last_pop t es = Some str ∧ bytes = cells str ++ rest ∧ cstring str.
Proof.
  intros Hi Hpol Hp Ecp. pose proof (pol_pcs _ _ Hpol _ _ Hp) as Hpp.
  destruct (inv_copy _ _ _ Hi _ _ _ Hp) as (l & str & rest & -> & Hl & Hs & Hlp).
  destruct Hpp as [_ (l1 & b1 & [= <-] & Hb1 & Hlen)]. rewrite Hl in Hb1. injection Hb1 as <-.
  exists str, rest. split; [done|]. split; [|done].
  unfold copy_to_user, bind, load_block, ret, lift in Ecp. rewrite Hl in Ecp.
  rewrite bool_decide_false in Ecp by lia.
  case_bool_decide; simplify_eq. by rewrite take_ge by lia.
Qed.

Lemma entry_not_copy p v d : is_entry p = true → p ≠ RCopy v d.
Proof. by destruct p. Qed.

Lemma reads_step s es ns e s' :
  inv s es ns → polite_inv s ns → step s e s' → reads_ok s es → reads_ok s' (es ++ e).
Proof.
  intros Hi Hpol Hst Hro. pose proof Hro as [Hd Hc].
  apply step_effect in Hst as [[-> (_ & _ & Hpcs)]|(t & p & p' & [Hp Hp'] & Heff)].
  { apply (reads_ok_silent s); [done|constructor|]. intros t v d.
    destruct Hpcs as [->|(t0 & p0 & He & -> & _)]; [done|].
    intros [[<- ->]|[_ ?]]%lookup_insert_Some; [by destruct (entry_not_copy _ v d He)|done]. }
  assert (∀ e', Forall silent e' → (∀ v d, p' ≠ RCopy v d) → reads_ok s' (es ++ e')) as Hquiet.
  { intros e' He Hne. apply (reads_ok_silent s); [done|done|]. intros t0 v d. rewrite Hp'.
    intros [[<- ->]|[_ ?]]%lookup_insert_Some; [by destruct (Hne v d)|done]. }
  assert (holds p = true → ∀ t0 v d, pcs s !! t0 = Some (RCopy v d) → t0 = t) as Hexcl.
  { intros Hh t0 v d Ht0. by eapply (mutex_excl _ _ _ _ _ _ (inv_mutex _ _ _ Hi) Ht0 Hp). }
  destruct Heff as [_ _ _ _ Hpl|_ _ _ _ _ _ Hpl|_ _ _ Hh _|l dim _ _ _ _ _ _ _ _ _ Hor|v dim _ _ _ -> _
    |v buf dim _ _ _ -> _|v dim r h' k' -> _ _ _ _ _ ->|v dim u bytes -> -> Ecp _ _|v buf dim u err h' -> _ _ _ _ _ ->
    |v r h' k' -> -> _ _ _ _ _|v r h' -> -> _ _ _ _ _|v e h' -> -> Hb _ _ _ _|v e -> -> Hb _ _ _ _].
  - apply Hquiet; [done|by intros v d ->].
  - apply Hquiet; [done|by intros v d ->].
  - apply Hquiet; [done|by intros v d ->].
  - apply Hquiet; [done|]. intros v d ->. destruct Hor as [?|(? & ?)]; done.
  - by apply Hquiet.
  - by apply Hquiet.
  - case_bool_decide; [by apply Hquiet|].
    split; [rewrite deliveries_app, pops_app; simpl; rewrite app_nil_r; by apply sublist_inserts_r|].
    intros t0 v0 d0. rewrite Hp'. intros [[<- [= <- <-]]|[Hne Ht0]]%lookup_insert_Some.
    + exists (pops es). eexists. split; [by rewrite pops_app|]. split; [rewrite last_pop_snoc; simpl; by rewrite decide_True|].
      rewrite deliveries_app. simpl. by rewrite app_nil_r.
    + by destruct Hne; rewrite (Hexcl eq_refl _ _ _ Ht0).
  - destruct (deliver_bytes _ _ _ _ _ _ _ _ Hi Hpol Hp Ecp) as (str & rest & Hl & -> & Hs).
    destruct (Hc _ _ _ Hp) as (pre & str' & Epop & Hl' & Hsub). rewrite Hl in Hl'. injection Hl' as <-.
    split.
    + rewrite deliveries_app, pops_app. simpl. rewrite cstr_of_cells by done. rewrite app_nil_r, Epop.
      by apply sublist_app.
    + intros t0 v0 d0. rewrite Hp'. intros [[<- ?]|[Hne Ht0]]%lookup_insert_Some; [done|].
      by destruct Hne; rewrite (Hexcl eq_refl _ _ _ Ht0).
  - apply Hquiet; [done|]. case_bool_decide; done.
  - apply Hquiet; [by repeat constructor|done].
  - by apply Hquiet.
  - pose proof (inv_kb _ _ _ Hi) as Hk.
    destruct (kt_stat_body_inv _ _ _ _ _ _ _ Hk (small_length _ _ _ Hk (inv_small _ _ _ Hi)) Hb)
      as (_ & (r & ->) & _).
    apply Hquiet; [by repeat constructor|done].
  - destruct (kt_realloc_body_inv _ _ _ Hb) as (_ & _ & [[-> _]|(? & ->)]);
      (apply Hquiet; [by repeat constructor|done]).
Qed.

Lemma reachable_reads tr s : polite_reachable tr s → reads_ok s (concat tr).
Proof.
  intros Hr. enough (∃ ns, (inv s (concat tr) ns ∧ polite_inv s ns) ∧ reads_ok s (concat tr)) by naive_solver.
  revert Hr. apply (run_invariant polite_step
    (λ s tr, ∃ ns, (inv s (concat tr) ns ∧ polite_inv s ns) ∧ reads_ok s (concat tr))).
  - exists []. split; [split; [apply inv_init|split; [|constructor]]|split; [constructor|]].
    + intros t p Hp. by apply init_pcs in Hp as (k & ->).
    + intros t v d Hp. by apply init_pcs in Hp as (k & ?).
  - intros s0 tr0 e s1 (ns & [Hi Hp] & Hro) Hst.
    destruct (inv_step _ _ _ _ _ Hi (polite_step_step _ _ _ Hst)) as (ns' & Hi' & Hsp).
    exists ns'. rewrite concat_app. simpl. rewrite app_nil_r.
    split; [eauto using polite_inv_step|]. eapply reads_step; eauto using polite_step_step.
Qed.

End reads.
