(* ===== verification/DeviceThm.v ===== *)
(** * Theorems about the device

    The properties of the kernel module as a whole, each with a run that
    satisfies its hypotheses. *)

From stdpp Require Import base numbers list option gmap.
From S2P Require Import Prelude Memory CList Kbuf Stat Fun Device DeviceInv DeviceSafe DeviceWake DevicePolite DeviceStat DeviceRead.
Local Open Scope Z_scope.

(** ** Schedules used below *)

(** A task runs [n] steps. *)
Definition steps (n : nat) (t : tid) : list label := replicate n (LExec t 0).

(** A process opens the device; one that writes the string [s] without having
    to wait; one that reads without having to wait. *)
Definition do_open (t : tid) : list label := LCall t OLock :: steps 3 t.
Definition do_write (t : tid) (s : list Z) : list label :=
  LCall t (WLock (s ++ [0]) (Z.of_nat (length s) + 1)) :: steps 7 t.
Definition do_read (t : tid) (dim : Z) : list label := LCall t (RLock dim) :: steps 7 t.

(** "AB" and "C" are written, one string is read. *)
Definition write_write_read : list label :=
  do_open 3 ++ do_write 4 [65; 66] ++ do_write 4 [67] ++ do_read 5 40.

(** Five writes fill the buffer, a sixth writer goes to sleep, then both
    kernel threads run once. *)
Definition stuck_writer : list label :=
  do_open 3 ++ do_write 4 [65] ++ do_write 4 [66] ++ do_write 4 [67] ++ do_write 4 [68] ++
  do_write 4 [69] ++ (LCall 6 (WLock [70; 0] 2) :: steps 7 6) ++ steps 4 1 ++ steps 4 2.

(** A task asleep in the wait of [my_write]. *)
Definition sleeping_writer (t : tid) (s : sys) : bool :=
  match tasks s !! t with
  | Some k => match t_pc k with
              | WWait _ _ _ WeSched => bool_decide (t_state k = Interruptible)
              | _ => false
              end
  | None => false
  end.

Lemma sleeping_writer_spec t s :
  sleeping_writer t s = true →
  ∃ k v b d, tasks s !! t = Some k ∧ t_pc k = WWait v b d WeSched ∧ t_state k = Interruptible.
Proof.
  unfold sleeping_writer. destruct (tasks s !! t) as [k|]; [|done].
  destruct (t_pc k) as [ | | | | | | | | | | | |v b d []| | | | | | | | | | | | | | | | | |] eqn:E;
    try done.
  intros Hw%bool_decide_eq_true. eauto 10.
Qed.

Section theorems.
Context {Al : Allocator} {Sm : SmallMemory}.

(** C1: The driver refines the abstract bounded queue.  Whatever processes,
    signals and the scheduler do, the events of a run are a run of the
    abstract device from the empty queue: a string is pushed at the end and
    only while fewer strings than the current maximum are stored, a popped
    string is the first one, a statistics sample is the number of stored
    strings; and the buffer in the kernel's memory holds the resulting queue. *)
Theorem device_refines_queue tr s :
  reachable tr s →
  ∃ q, queue_of s q ∧
    spec_steps (Spec [] START_KB_DIM) (concat tr) (Spec q (ds_kb_max (dev_stat s))).
Proof.
  intros (ns & Hi & Hsp)%reachable_inv. exists (strings ns).
  split; [|done]. exists ns. split; [apply Hi|done].
Qed.

(** The strings of a reachable buffer. *)
Lemma reachable_queue tr s :
  reachable tr s → ∃ q, queue_of s q ∧ pushes (concat tr) = pops (concat tr) ++ q.
Proof.
  intros (ns & Hi & Hsp)%reachable_inv. exists (strings ns).
  split; [exists ns; split; [apply Hi|done]|]. apply (spec_conserves _ _ _ Hsp).
Qed.

(** Strings leave the device in the order in which they entered it; none is
    lost, duplicated or altered: the pushed strings are the popped ones
    followed by the ones still stored. *)
Theorem fifo_order tr s :
  reachable tr s →
  ∃ q, queue_of s q ∧ pushes (concat tr) = pops (concat tr) ++ q.
Proof. apply reachable_queue. Qed.

(** C3: Mutual exclusion: at most one task is between [mutex_lock] and
    [mutex_unlock], and it is the recorded owner. *)
Theorem mutual_exclusion tr s t t' p p' :
  reachable tr s → pcs s !! t = Some p → pcs s !! t' = Some p' →
  holds p = true → holds p' = true → t = t' ∧ dev_mutex s = Some t.
Proof.
  intros (ns & Hi & _)%reachable_inv Hp Hp' Hh Hh'. pose proof (inv_mutex _ _ _ Hi) as Hm.
  split; [by eapply mutex_excl|]. by apply (proj1 Hm _ _ Hp).
Qed.

(** C4: No reader sleeps through a write.  If a task sleeps in the
    [wait_event_interruptible] of [my_read], then the buffer is empty or some
    writer has pushed and is about to call [wake_up_interruptible(&wait_r)],
    and the task is on that queue. *)
Theorem sleeping_reader_is_woken tr s t k v dim :
  reachable tr s → tasks s !! t = Some k → t_pc k = RWait v dim WeSched →
  t_state k = Interruptible →
  t ∈ wait_r s ∧ (queue_of s [] ∨ ∃ t' v' r, pcs s !! t' = Some (WWake v' r)).
Proof.
  intros Hr Hk Hpc Hst.
  destruct (reachable_inv _ _ Hr) as (ns & Hi & _).
  destruct (reachable_no_lost_wakeup _ _ Hr t k true Hk ltac:(by rewrite Hpc) Hst) as [Hin Hs].
  split; [done|]. destruct (Hs eq_refl) as [Hem|Hab]; [left|by right].
  rewrite (kb_isempty_rep _ _ _ (inv_kb _ _ _ Hi)) in Hem. case_decide; [|done]. subst ns.
  exists []. split; [apply Hi|done].
Qed.

(** C5: With clients that read at least [READ_BYTE] bytes and write terminated
    strings shorter than [MAXL], as Reader/read.c and Writer/write.c do, and a
    reallocator that runs at least once per thousand samples, a step of the
    kernel faults exactly in three cases: kmalloc returns NULL for the node or
    for the string of [kb_push], it returns NULL for the snapshot of the
    statistics while the buffer holds strings, or the reallocator runs before
    any sample was taken and divides by zero. *)
Theorem polite_clients_faults tr s l f :
  polite_reachable tr s → bounded (concat tr) →
  next l s = Some (Err f) ↔ residual s (concat tr) l f.
Proof.
  intros Hr Hb. destruct (polite_reachable_inv _ _ Hr) as (ns & Hi & Hp).
  destruct (reachable_sized _ _ (polite_reachable_reachable _ _ Hr) Hb) as (ns' & _ & Hz).
  split; intros H; [by eapply next_faults|by eapply residual_faults].
Qed.

(** C6: With well-behaved clients, what the readers receive are strings taken
    from the buffer, each at most once and in the order in which they were
    written: the delivered strings are a subsequence of the popped ones, and
    so of the pushed ones. *)
Theorem deliveries_in_order tr s :
  polite_reachable tr s →
  sublist (deliveries (concat tr)) (pops (concat tr)) ∧
  sublist (deliveries (concat tr)) (pushes (concat tr)).
Proof.
  intros Hr. destruct (reachable_reads _ _ Hr) as [Hs _]. split; [done|].
  destruct (reachable_queue _ _ (polite_reachable_reachable _ _ Hr)) as (q & _ & ->).
  by apply sublist_inserts_r.
Qed.

(** C17: The buffer's maximum never drops below 2 (the comment of
    [ds_set_kb_occupation]), as long as the reallocator runs at least once per
    thousand samples; so an empty buffer always accepts a write. *)
Theorem max_at_least_two tr s :
  reachable tr s → bounded (concat tr) →
  2 ≤ ds_kb_max (dev_stat s) ≤ INT_MAX ∧
  (queue_of s [] → kb_isfull (kb_fifo s) (ds_kb_max (dev_stat s)) = 0).
Proof.
  intros Hr Hb. destruct (reachable_sized _ _ Hr Hb) as (ns & Hi & [_ Hm]). split; [done|].
  intros (ns' & Hk & E). destruct ns'; [|done]. unfold kb_isfull.
  rewrite (kb_count _ _ _ Hk). change (wrap32 (Z.of_nat (length (@nil node)))) with 0.
  by rewrite bool_decide_true by lia.
Qed.

(** C15: The statistics line is right: with well-behaved clients the reported
    number is the number of stored strings, and the reported average, maximum
    and minimum are those of their lengths (nothing is reported for an empty
    device). *)
Theorem statistics_report tr s e s' d r :
  polite_reachable tr s → polite_step s e s' → ESample d r ∈ e →
  ∃ q, queue_of s q ∧ d = Z.of_nat (length q) ∧ report_ok q r.
Proof.
  intros (ns & Hi & Hpol)%polite_reachable_inv Hst%polite_step_step Hin.
  destruct (step_sample _ _ _ _ _ _ _ Hi Hst Hin) as (h' & E).
  pose proof (inv_kb _ _ _ Hi) as Hk.
  pose proof (small_length _ _ _ Hk (inv_small _ _ _ Hi)) as Hl.
  assert (zsum (str_lengths (strings ns)) ≤ INT_MAX) as Hs.
  { apply polite_total; [apply Hpol|by rewrite length_strings]. }
  destruct (kt_stat_body_report _ _ _ _ _ _ _ _ Hk Hl Hs E) as [-> Hr].
  exists (strings ns). rewrite length_strings. split; [by exists ns|done].
Qed.

(** C16: A reallocation moves the maximum so that the average of the samples
    since the last one is 75 per cent of it: with the average [a] (as rounded
    by [my_div]) and the occupation [per] of the old maximum, the new maximum
    is 2 if [a] is at most 1, and otherwise differs from [100 a / 75] by less
    than one; it is not touched when [per] is 75 already. *)
Theorem reallocation_targets_75 tr s e s' ev :
  reachable tr s → bounded (concat tr) → step s e s' → ev ∈ e → is_realloc ev →
  let zs := samples (concat tr) in
  zs ≠ [] ∧ ∃ a per,
    a = (zsum zs + (Z.of_nat (length zs) - Z.of_nat (length zs) / 2)) / Z.of_nat (length zs) ∧
    my_div (a * 100) (ds_kb_max (dev_stat s)) = Ok per ∧
    (per = KB_OCC → ev = EKeep ∧ ds_kb_max (dev_stat s') = ds_kb_max (dev_stat s)) ∧
    (per ≠ KB_OCC → ev = EResize per (ds_kb_max (dev_stat s')) ∧
       (a ≤ 1 → ds_kb_max (dev_stat s') = 2) ∧
       (2 ≤ a → Z.abs (KB_OCC * ds_kb_max (dev_stat s') - 100 * a) ≤ 38)).
Proof.
  intros Hr Hb Hst Hin Hev zs.
  destruct (reachable_sized _ _ Hr Hb) as (ns & Hi & Hz).
  pose proof (step_realloc _ _ _ _ _ _ Hi Hst Hin Hev) as E.
  destruct (unwrapped _ _ _ Hi Hz Hb) as [Udim Usum]. fold zs in Udim, Usum.
  destruct (decide (zs = [])) as [E0|Hne].
  { rewrite E0 in Udim. by rewrite kt_realloc_body_no_sample in E. }
  split; [done|].
  destruct (kt_realloc_body_spec _ _ Udim Usum Hne (bounded_last _ Hb) (sized_samples _ _ Hz)
    (sized_max _ _ Hz)) as (v1 & e1 & a & per & E' & Ea & Har & Eper & Hk & Hrz & _).
  rewrite E' in E. injection E as -> ->. exists a, per. split; [|done].
  pose proof (zsum_bounds _ (sized_samples _ _ Hz)) as Hs. fold zs in Hs.
  assert (0 < Z.of_nat (length zs)) by (destruct zs; simpl; [done|lia]).
  rewrite my_div_eq in Ea; [congruence|lia|lia|].
  apply Z.div_lt_upper_bound; [lia|]. pose proof (bounded_last _ Hb) as Hl. fold zs in Hl.
  unfold MAX_SAMPLES in Hl. unfold_ranges. nia.
Qed.

(** A read with a buffer that is too small for the string at the head of
    the queue writes past the end of the kernel's value block. *)
Lemma short_read_overruns tr s t l dim str q u :
  reachable tr s → queue_of s (str :: q) →
  pcs s !! t = Some (RPop (Some l) dim) →
  (length (block_at (mem s) (Some l)) ≤ length str)%nat →
  next (LExec t u) s = Some (Err OutOfBounds).
Proof.
  intros (ns0 & Hi & _)%reachable_inv ([|n ns] & Hk & E) Hp Hlen; [done|].
  simpl in E. injection E as <- _.
  destruct (own_live _ _ _ (inv_own _ _ _ Hi) t _ l Hp eq_refl) as (_ & b & Hb & _).
  simpl in Hlen. rewrite Hb in Hlen. simpl in Hlen.
  unfold pcs in Hp. rewrite lookup_fmap in Hp. simpl. unfold exec.
  destruct (tasks s !! t) as [k|] eqn:Htk; [|done]. simpl in Hp. injection Hp as Hpc.
  rewrite Hpc. unfold my_read. rewrite Hpc. unfold run_c.
  by erewrite kb_pop_overrun by done.
Qed.

(** A write of bytes without a terminator makes [kb_push] read past the end
    of the value block. *)
Lemma unterminated_write_overruns tr s t l u :
  reachable tr s → pcs s !! t = Some (WPush (Some l)) →
  Forall (λ c, ∃ z, c = Int z ∧ z ≠ 0) (block_at (mem s) (Some l)) →
  next (LExec t u) s = Some (Err OutOfBounds).
Proof.
  intros (ns & Hi & _)%reachable_inv Hp Hall.
  destruct (own_live _ _ _ (inv_own _ _ _ Hi) t _ l Hp eq_refl) as (Hln & b & Hb & _).
  simpl in Hall. rewrite Hb in Hall. simpl in Hall.
  assert (strlen_cells b = Err OutOfBounds) as Hs.
  { clear Hb. induction Hall as [|c b (z & -> & Hz) _ IH]; [done|]. simpl.
    rewrite bool_decide_false by done. by rewrite IH. }
  unfold pcs in Hp. rewrite lookup_fmap in Hp. simpl. unfold exec.
  destruct (tasks s !! t) as [k|] eqn:Htk; [|done]. simpl in Hp. injection Hp as Hpc.
  rewrite Hpc. unfold my_write. rewrite Hpc. unfold run_c.
  by erewrite kb_push_unterminated by done.
Qed.

(** The driver does not check lengths: a read whose buffer is too small
    for the string at the head of the queue writes past the end of the
    kernel's value block, and a write of bytes without a terminator makes
    [kb_push] read past the end of the value block. *)
Theorem unchecked_lengths_overrun tr s t l u :
  reachable tr s →
  (∀ dim str q, queue_of s (str :: q) → pcs s !! t = Some (RPop (Some l) dim) →
    (length (block_at (mem s) (Some l)) ≤ length str)%nat →
    next (LExec t u) s = Some (Err OutOfBounds)) ∧
  (pcs s !! t = Some (WPush (Some l)) →
    Forall (λ c, ∃ z, c = Int z ∧ z ≠ 0) (block_at (mem s) (Some l)) →
    next (LExec t u) s = Some (Err OutOfBounds)).
Proof.
  intros Hr. split.
  - intros dim str q Hq Hp Hl. by eapply short_read_overruns.
  - intros Hp Hall. by eapply unterminated_write_overruns.
Qed.

End theorems.

(** ** Runs that show defects *)

(** A writer can sleep although the buffer has room, with no wake-up on
    its way: the reallocator raises the maximum and does not wake [wait_w].
    After five writes a sixth writer sleeps; one sample and one reallocation
    later the maximum is 7 (or more), five strings are stored, the mutex is
    free and no task is about to wake the writer. *)
Theorem writer_sleeps_with_room :
  let s := @final small_first_fit stuck_writer init_state in
  (∃ tr, @reachable small_first_fit tr s) ∧
  kb_isfull (kb_fifo s) (ds_kb_max (dev_stat s)) = 0 ∧ dev_mutex s = None ∧
  (∃ k v b d, tasks s !! 6%positive = Some k ∧ t_pc k = WWait v b d WeSched ∧
     t_state k = Interruptible) ∧
  @next small_first_fit (LExec 6 0) s = None ∧
  map_Forall (λ _ p, ∀ v, p ≠ RWake v) (pcs s).
Proof.
  assert (@completes small_first_fit stuck_writer init_state = true) as Hc by (by vm_compute).
  destruct (@completes_reachable small_first_fit _ Hc) as (tr & Hr & _).
  intros s. split; [by exists tr|].
  split; [by vm_compute|]. split; [by vm_compute|]. split.
  { apply sleeping_writer_spec. by vm_compute. }
  split; [by vm_compute|].
  apply (map_Forall_impl (λ _ p, match p with RWake _ => false | _ => true end = true)).
  - refine (bool_decide_unpack _ _). by vm_compute.
  - intros t p Hp v ->. done.
Qed.

(** The reallocator divides by zero when it runs before the statistics
    thread has taken a sample: one open, then the reallocator alone. *)
Theorem realloc_divides_by_zero :
  @runs small_first_fit (do_open 3 ++ steps 3 2) init_state = Some (Err DivError).
Proof. by vm_compute. Qed.

(** [my_read] never frees its value, and it copies the whole block to the
    user: after "AB" and "C" were written and both were read (40 bytes each)
    the buffer is empty, no call is active, and two blocks of 40 bytes are
    still allocated; the first read delivered the string "AB" followed by 37
    bytes of the block that the kernel never initialised. *)
Theorem reads_leak_memory :
  let ls := write_write_read ++ do_read 5 40 in
  let s := @final small_first_fit ls init_state in
  @completes small_first_fit ls init_state = true ∧
  kb_isempty (kb_fifo s) = 1 ∧
  map_Forall (λ _ p, owned p = None) (pcs s) ∧
  length <$> (map_to_list (mem s)).*2 = [40%nat; 40%nat] ∧
  EDeliver 5 (cells [65; 66] ++ replicate 37 Undef) ∈ @shown small_first_fit ls init_state.
Proof.
  intros ls s. split; [by vm_compute|]. split; [by vm_compute|].
  split; [refine (bool_decide_unpack _ _); by vm_compute|]. split; [by vm_compute|].
  refine (bool_decide_unpack _ _). by vm_compute.
Qed.

(** ** Witnesses *)

(** The run "AB" written, "C" written, "AB" read. *)
Lemma wwr_polite : Forall polite write_write_read.
Proof.
  repeat constructor; simpl; unfold polite_dim, READ_BYTE; try lia.
  - exists [65; 66]. repeat split; try done. repeat constructor; lia.
  - exists [67]. repeat split; try done. repeat constructor; lia.
Qed.

Lemma wwr_completes : @completes small_first_fit write_write_read init_state = true.
Proof. by vm_compute. Qed.

Lemma device_refines_queue_witness :
  ∃ tr q, let s := @final small_first_fit write_write_read init_state in
    @reachable small_first_fit tr s ∧ queue_of s q ∧
    spec_steps (Spec [] START_KB_DIM) (concat tr) (Spec q (ds_kb_max (dev_stat s))).
Proof.
  destruct (@completes_reachable small_first_fit _ wwr_completes) as (tr & Hr & _).
  destruct (@device_refines_queue small_first_fit small_first_fit_small _ _ Hr) as (q & H).
  exists tr, q. exact (conj Hr H).
Defined.

Lemma fifo_order_witness :
  ∃ tr q, let s := @final small_first_fit write_write_read init_state in
    @reachable small_first_fit tr s ∧ queue_of s q ∧
    pushes (concat tr) = [[65; 66]; [67]] ∧ pushes (concat tr) = pops (concat tr) ++ q.
Proof.
  destruct (@completes_reachable small_first_fit _ wwr_completes) as (tr & Hr & Htr).
  destruct (@fifo_order small_first_fit small_first_fit_small _ _ Hr) as (q & Hq & Hp).
  exists tr, q. split; [exact Hr|]. split; [exact Hq|]. split; [|exact Hp].
  rewrite Htr. vm_compute. reflexivity.
Defined.

(** A writer has just locked the mutex. *)
Definition writer_locked : list label := do_open 3 ++ [LCall 4 (WLock [65; 0] 2); LExec 4 0].

Lemma mutual_exclusion_witness :
  let s := @final small_first_fit writer_locked init_state in
  pcs s !! 4%positive = Some (WAlloc [65; 0] 2) ∧ dev_mutex s = Some 4%positive.
Proof.
  assert (@completes small_first_fit writer_locked init_state = true) as Hc
    by (vm_compute; reflexivity).
  destruct (@completes_reachable small_first_fit _ Hc) as (tr & Hr & _).
  split; [vm_compute; reflexivity|].
  refine (proj2 (@mutual_exclusion small_first_fit small_first_fit_small tr _ 4%positive 4%positive
    (WAlloc [65; 0] 2) (WAlloc [65; 0] 2) Hr _ _ _ _)); vm_compute; reflexivity.
Defined.

(** A reader sleeps on the empty device. *)
Definition reader_sleeps : list label := do_open 3 ++ LCall 5 (RLock 40) :: steps 7 5.

Lemma sleeping_reader_is_woken_witness :
  let s := @final small_first_fit reader_sleeps init_state in
  5%positive ∈ wait_r s ∧
  (queue_of s [] ∨ ∃ t' v' r, pcs s !! t' = Some (WWake v' r)).
Proof.
  assert (@completes small_first_fit reader_sleeps init_state = true) as Hc
    by (vm_compute; reflexivity).
  destruct (@completes_reachable small_first_fit _ Hc) as (tr & Hr & _).
  refine (@sleeping_reader_is_woken small_first_fit small_first_fit_small tr _ 5%positive
    (Task (RWait (Some 1%positive) 40 WeSched) Interruptible false) (Some 1%positive) 40
    Hr _ _ _); vm_compute; reflexivity.
Defined.

(** An open, then the reallocator up to its division. *)
Definition realloc_first : list label := do_open 3 ++ steps 2 2.

Lemma realloc_first_polite : Forall polite realloc_first.
Proof. repeat constructor. Qed.

Lemma bounded_short es : (length es ≤ MAX_SAMPLES)%nat → bounded es.
Proof.
  intros Hl pre Hp%prefix_length. transitivity (length pre); [|lia]. clear.
  induction pre as [|e pre IH] using rev_ind; [done|].
  rewrite samples_snoc, !length_app. destruct e; simpl; rewrite ?length_app; simpl; lia.
Qed.

Lemma polite_clients_faults_witness :
  ∃ tr, let s := @final small_first_fit realloc_first init_state in
    @polite_reachable small_first_fit tr s ∧ @next small_first_fit (LExec 2 0) s = Some (Err DivError) ∧
    @residual small_first_fit s (concat tr) (LExec 2 0) DivError.
Proof.
  assert (@completes small_first_fit realloc_first init_state = true) as Hc
    by (vm_compute; reflexivity).
  destruct (@completes_polite small_first_fit _ realloc_first_polite Hc) as (tr & Hr & Htr).
  assert (@next small_first_fit (LExec 2 0) (@final small_first_fit realloc_first init_state)
    = Some (Err DivError)) as Hn by (vm_compute; reflexivity).
  exists tr. split; [exact Hr|]. split; [exact Hn|].
  refine (proj1 (@polite_clients_faults small_first_fit small_first_fit_small tr _ (LExec 2 0) DivError Hr _) Hn).
  rewrite Htr. apply bounded_short. vm_compute. lia.
Defined.

(** A schedule of one label. *)
Lemma completes_next `{Allocator} l s :
  completes [l] s = true → next l s = Some (Ok (final [l] s, shown [l] s)).
Proof.
  unfold completes, final, shown. simpl. destruct (next l s) as [[[s' e]|]|]; try done.
  simpl. by rewrite app_nil_r.
Qed.

Lemma deliveries_in_order_witness :
  ∃ tr, let s := @final small_first_fit write_write_read init_state in
    @polite_reachable small_first_fit tr s ∧
    deliveries (concat tr) = [[65; 66]] ∧ pops (concat tr) = [[65; 66]] ∧
    sublist (deliveries (concat tr)) (pops (concat tr)).
Proof.
  destruct (@completes_polite small_first_fit _ wwr_polite wwr_completes) as (tr & Hr & Htr).
  exists tr. split; [exact Hr|].
  split; [rewrite Htr; vm_compute; reflexivity|]. split; [rewrite Htr; vm_compute; reflexivity|].
  exact (proj1 (@deliveries_in_order small_first_fit small_first_fit_small _ _ Hr)).
Defined.

Lemma max_at_least_two_witness :
  ∃ tr, let s := @final small_first_fit write_write_read init_state in
    @reachable small_first_fit tr s ∧
    2 ≤ ds_kb_max (dev_stat s) ≤ INT_MAX ∧
    (queue_of s [] → kb_isfull (kb_fifo s) (ds_kb_max (dev_stat s)) = 0).
Proof.
  destruct (@completes_reachable small_first_fit _ wwr_completes) as (tr & Hr & Htr).
  exists tr. split; [exact Hr|].
  refine (@max_at_least_two small_first_fit small_first_fit_small tr _ Hr _).
  rewrite Htr. apply bounded_short. vm_compute. lia.
Defined.

(** "AB" was written and a reader with room for two bytes is about to pop. *)
Definition short_reader : list label :=
  do_open 3 ++ do_write 4 [65; 66] ++ LCall 5 (RLock 2) :: steps 3 5.

Lemma unchecked_lengths_overrun_witness :
  let s := @final small_first_fit short_reader init_state in
  queue_of s [[65; 66]] ∧ @next small_first_fit (LExec 5 0) s = Some (Err OutOfBounds).
Proof.
  assert (@completes small_first_fit short_reader init_state = true) as Hc
    by (vm_compute; reflexivity).
  destruct (@completes_reachable small_first_fit _ Hc) as (tr & Hr & Htr).
  destruct (@reachable_queue small_first_fit small_first_fit_small _ _ Hr) as (q & Hq & E).
  rewrite Htr in E. vm_compute in E. rewrite <- E in Hq. split; [exact Hq|].
  assert (pcs (@final small_first_fit short_reader init_state) !! 5%positive
    = Some (RPop (Some 4%positive) 2)) as Hp by (vm_compute; reflexivity).
  refine (proj1 (@unchecked_lengths_overrun small_first_fit small_first_fit_small tr _ 5%positive 4%positive
    0 Hr) 2 [65; 66] [] Hq Hp _).
  vm_compute. lia.
Defined.

(** Two strings are stored, one was read, and the statistics thread holds the
    mutex; later the reallocator does. *)
Definition before_sample : list label := write_write_read ++ steps 2 1.
Definition before_resize : list label := write_write_read ++ steps 4 1 ++ steps 2 2.

Lemma before_sample_polite : Forall polite before_sample.
Proof. apply Forall_app. split; [apply wwr_polite|repeat constructor]. Qed.

Lemma statistics_report_witness :
  let s := @final small_first_fit before_sample init_state in
  @shown small_first_fit [LExec 1 0] s = [ESample 1 (Some (1, 1, 1))] ∧
  ∃ q, queue_of s q ∧ 1 = Z.of_nat (length q) ∧ report_ok q (Some (1, 1, 1)).
Proof.
  assert (@completes small_first_fit before_sample init_state = true) as Hc
    by (vm_compute; reflexivity).
  destruct (@completes_polite small_first_fit _ before_sample_polite Hc) as (tr & Hr & _).
  set (s := @final small_first_fit before_sample init_state) in *.
  assert (@completes small_first_fit [LExec 1 0] s = true) as Hn%completes_next
    by (vm_compute; reflexivity).
  assert (@shown small_first_fit [LExec 1 0] s = [ESample 1 (Some (1, 1, 1))]) as Hsh
    by (vm_compute; reflexivity).
  split; [exact Hsh|].
  refine (@statistics_report small_first_fit small_first_fit_small tr s _ _ _ _ Hr
    (ex_intro _ (LExec 1 0) (conj I Hn)) _).
  rewrite Hsh. left.
Defined.

Lemma reallocation_targets_75_witness :
  let s := @final small_first_fit before_resize init_state in
  let s' := @final small_first_fit [LExec 2 0] s in
  ∃ tr, @reachable small_first_fit tr s ∧ samples (concat tr) ≠ [] ∧
    ds_kb_max (dev_stat s') = 3.
Proof.
  assert (@completes small_first_fit before_resize init_state = true) as Hc
    by (vm_compute; reflexivity).
  destruct (@completes_reachable small_first_fit _ Hc) as (tr & Hr & Htr).
  set (s := @final small_first_fit before_resize init_state) in *.
  assert (@completes small_first_fit [LExec 2 0] s = true) as Hn%completes_next
    by (vm_compute; reflexivity).
  assert (@shown small_first_fit [LExec 2 0] s = [EResize 40 3]) as Hsh
    by (vm_compute; reflexivity).
  exists tr. split; [exact Hr|]. split; [|vm_compute; reflexivity].
  refine (proj1 (@reallocation_targets_75 small_first_fit small_first_fit_small tr s _ _
    (EResize 40 3) Hr _ (step_next _ _ _ _ Hn) _ I)).
  - rewrite Htr. apply bounded_short. vm_compute. lia.
  - rewrite Hsh. left.
Defined.
