(* ===== verification/Buffer.v ===== *)
(** * The string queue of the processes (Writer/buffer.c, Reader/buffer.c)

    The two files are the same but for two statements: the writer's
    [wbuf_ins] frees the string it was given and its [wbuf_ext] frees the
    stored copy.  The operations take that difference as a parameter; the
    class [Buffer] states what both promise to the threads that use them. *)

From stdpp Require Import base numbers list option gmap.
From S2P Require Import Prelude Memory CList.
Local Open Scope Z_scope.
Local Open Scope c_scope.

(** ** Data and operations *)

(** [struct wbuf_struct]; [struct wbe_struct] is a node of CList. *)
Record wbuf := Wbuf { w_head : ptr; w_tail : ptr; w_count : Z; w_done : Z }.

#[export] Instance wbuf_eq_dec : EqDecision wbuf.
Proof. solve_decision. Defined.

Definition wbuf_init (mybuffer : wbuf) : wbuf :=
  {| w_head := None; w_tail := None; w_count := 0; w_done := 0 |}.

Definition wbuf_count (mybuffer : wbuf) : Z := w_count mybuffer.

Section operations.
Context `{Allocator}.

(** [frees]: the source has the [free] that the reader's copy lacks. *)
Definition wbuf_ins_gen (frees : bool) (value : ptr) (mybuffer : wbuf) : C wbuf :=
  new_wbe <- malloc SIZEOF_NODE NODE_CELLS;;
  n <- strlen value;;
  buf <- malloc_chars (n + 1);;
  store new_wbe F_data (Ptr buf);;;
  d <- load_ptr new_wbe F_data;;
  strcpy d value;;;
  (if frees then free value else ret tt);;;
  store new_wbe F_next (Ptr None);;;
  hd <- (if bool_decide (w_head mybuffer = None) then ret new_wbe
         else store (w_tail mybuffer) F_next (Ptr new_wbe);;; ret (w_head mybuffer));;
  ret {| w_head := hd; w_tail := new_wbe; w_count := wrap32 (w_count mybuffer + 1);
         w_done := w_done mybuffer |}.

Definition wbuf_ext_gen (frees : bool) (mybuffer : wbuf) : C (ptr * wbuf) :=
  let ext_wbe := w_head mybuffer in
  nx <- load_ptr ext_wbe F_next;;
  let tl := if bool_decide (nx = None) then None else w_tail mybuffer in
  let cnt := wrap32 (w_count mybuffer - 1) in
  d <- load_ptr ext_wbe F_data;;
  n <- strlen d;;
  ret_value <- malloc_chars (n + 1);;
  d1 <- load_ptr ext_wbe F_data;;
  strcpy ret_value d1;;;
  (if frees then d2 <- load_ptr ext_wbe F_data;; free d2 else ret tt);;;
  free ext_wbe;;;
  ret (ret_value, {| w_head := nx; w_tail := tl; w_count := cnt; w_done := w_done mybuffer |}).

End operations.

(** Writer/buffer.c *)
Module WriterBuffer.
Definition wbuf_init := wbuf_init.
Definition wbuf_ins `{Allocator} := wbuf_ins_gen true.
Definition wbuf_ext `{Allocator} := wbuf_ext_gen true.
Definition wbuf_count := wbuf_count.
End WriterBuffer.

(** Reader/buffer.c *)
Module ReaderBuffer.
Definition wbuf_init := wbuf_init.
Definition wbuf_ins `{Allocator} := wbuf_ins_gen false.
Definition wbuf_ext `{Allocator} := wbuf_ext_gen false.
Definition wbuf_count := wbuf_count.
End ReaderBuffer.

(** ** Representation *)

(** The tail of an empty queue may dangle: the signal handlers reset only the
    head and the counter. *)
Record wbuf_rep (h : heap) (b : wbuf) (ns : list node) : Prop := {
  wb_fifo : fifo h (w_head b) (w_tail b) ns;
  wb_count : w_count b = wrap32 (Z.of_nat (length ns)) }.

Lemma wbuf_rep_frame h h' b ns :
  (∀ l, l ∈ fp ns → h' !! l = h !! l) → wbuf_rep h b ns → wbuf_rep h' b ns.
Proof. intros Hag [??]. split; eauto using fifo_frame. Qed.

Lemma wbuf_rep_init h b : wbuf_rep h (wbuf_init b) [].
Proof. split; [apply fifo_empty|done]. Qed.

Lemma wbuf_rep_nil h b ns : wbuf_rep h b ns → w_head b = None ↔ ns = [].
Proof. intros [Hf _]. by eapply fifo_nil. Qed.

(** Two buffers that differ in [done] only. *)
Lemma wbuf_rep_done h b ns d :
  wbuf_rep h b ns → wbuf_rep h {| w_head := w_head b; w_tail := w_tail b;
                                  w_count := w_count b; w_done := d |} ns.
Proof. intros [??]. by split. Qed.

(** ** The promise to the threads *)

(** With memory available, an insertion appends the string and an extraction
    hands the first one out in a fresh block.  Blocks of others stay as they
    are; [frees] tells what becomes of the inserted block and of the stored
    copy. *)
Class Buffer `{TotalAllocator} (frees : bool)
    (ins : ptr → wbuf → C wbuf) (ext : wbuf → C (ptr * wbuf)) := {
  buffer_ins h b ns p s rest :
    wbuf_rep h b ns → h !! p = Some (cells s ++ rest) → cstring s → p ∉ fp ns →
    Z.of_nat (length s) + 1 < 2^32 →
    ∃ b' h' l d, ins (Some p) b h = Ok (b', h') ∧
      wbuf_rep h' b' (ns ++ [Node l d s]) ∧ w_done b' = w_done b ∧
      h !! l = None ∧ h !! d = None ∧
      (∀ i, i ∉ fp (ns ++ [Node l d s]) → i ≠ p → h' !! i = h !! i) ∧
      h' !! p = if frees then None else h !! p;
  buffer_ext h b n ns :
    wbuf_rep h b (n :: ns) → Z.of_nat (length (n_str n)) + 1 < 2^32 →
    ∃ p b' h', ext b h = Ok ((Some p, b'), h') ∧
      wbuf_rep h' b' ns ∧ w_done b' = w_done b ∧
      h !! p = None ∧ h' !! p = Some (cells (n_str n)) ∧ h' !! n_loc n = None ∧
      h' !! n_data n = (if frees then None else Some (cells (n_str n))) ∧
      (∀ i, i ∉ fp (n :: ns) → i ≠ p → h' !! i = h !! i);
  buffer_ins_done p b h b' h' : ins p b h = Ok (b', h') → w_done b' = w_done b;
  buffer_ext_done b h p b' h' : ext b h = Ok ((p, b'), h') → w_done b' = w_done b }.

Section implementation.
Context {Al : Allocator} {Tot : TotalAllocator} (frees : bool).

Lemma wbuf_ins_ok h b ns p s rest :
  wbuf_rep h b ns → h !! p = Some (cells s ++ rest) → cstring s → p ∉ fp ns →
  Z.of_nat (length s) + 1 < 2^32 →
  ∃ b' h' l d, wbuf_ins_gen frees (Some p) b h = Ok (b', h') ∧
    wbuf_rep h' b' (ns ++ [Node l d s]) ∧ w_done b' = w_done b ∧
    h !! l = None ∧ h !! d = None ∧
    (∀ i, i ∉ fp (ns ++ [Node l d s]) → i ≠ p → h' !! i = h !! i) ∧
    h' !! p = if frees then None else h !! p.
Proof.
  intros [Hf Hc] Hp Hs Hpn Hlen. unfold wbuf_ins_gen.
  destruct (alloc_total_some h SIZEOF_NODE) as (l & Hl & _).
  destruct (alloc_total_some (<[l := [Undef; Undef]]> h) (Z.of_nat (length s) + 1)) as (d & Hd & _).
  destruct (new_node_fresh _ _ _ _ _ _ _ Hp Hl Hd) as (Fl & Fd & Hld & Hlp & Hdp).
  erewrite new_node_ok by done. assert (l ∉ fp ns ∧ d ∉ fp ns) as [Nl Nd] by eauto using fifo_fresh.
  set (h0 := <[l := [Ptr (Some d); Undef]]> (<[d := cells s]> h)).
  assert (h0 !! p = Some (cells s ++ rest)) as Hp0 by (unfold h0; by rewrite !lookup_insert_ne).
  set (h1 := if frees then delete p h0 else h0).
  rewrite (bind_ok _ _ _ tt h1).
  2: { unfold h1. destruct frees; [by eapply free_ok|done]. }
  assert (∀ i, i ≠ p → h1 !! i = h0 !! i) as Hfr1.
  { intros i Hi. unfold h1. destruct frees; [by rewrite lookup_delete_ne|done]. }
  assert (h1 !! p = if frees then None else h !! p) as Hp1.
  { unfold h1. destruct frees; [by rewrite lookup_delete_eq|by rewrite Hp0]. }
  erewrite bind_ok.
  2: { eapply store_ok with (b := [Ptr (Some d); Undef]); [|simpl; lia].
       rewrite Hfr1 by done. unfold h0. by rewrite lookup_insert_eq. }
  change (<[Z.to_nat F_next:=Ptr None]> [Ptr (Some d); Undef]) with (node_block d None).
  set (h2 := <[l := node_block d None]> h1).
  assert (∀ i, i ≠ p → i ≠ l → i ≠ d → h2 !! i = h !! i) as Hfr2.
  { intros i H1 H2 H3. unfold h2. rewrite lookup_insert_ne, Hfr1 by done.
    unfold h0. by rewrite !lookup_insert_ne by done. }
  destruct (link_ok h2 (w_head b) (w_tail b) ns l d s) as (hd' & h' & El & Hf' & Hfr').
  - eapply fifo_frame; [|done]. intros i Hi. apply Hfr2; by intros ->.
  - done.
  - done.
  - done.
  - done.
  - unfold h2. by rewrite lookup_insert_eq.
  - unfold h2. rewrite lookup_insert_ne, Hfr1 by done. unfold h0.
    by rewrite lookup_insert_ne, lookup_insert_eq by done.
  - rewrite (bind_ok _ _ _ _ _ El). eexists _, _, l, d. split; [done|].
    split; [|split; [done|split; [done|split; [done|split]]]].
    + split; simpl; [done|]. rewrite Hc, wrap32_add_wrap32, length_app. f_equal. simpl. lia.
    + intros i Hi Hip. rewrite fp_app, fp_cons in Hi. rewrite Hfr' by set_solver.
      apply Hfr2; set_solver.
    + rewrite Hfr' by done. unfold h2. by rewrite lookup_insert_ne.
Qed.

Lemma wbuf_ext_ok h b n ns :
  wbuf_rep h b (n :: ns) → Z.of_nat (length (n_str n)) + 1 < 2^32 →
  ∃ p b' h', wbuf_ext_gen frees b h = Ok ((Some p, b'), h') ∧
    wbuf_rep h' b' ns ∧ w_done b' = w_done b ∧
    h !! p = None ∧ h' !! p = Some (cells (n_str n)) ∧ h' !! n_loc n = None ∧
    h' !! n_data n = (if frees then None else Some (cells (n_str n))) ∧
    (∀ i, i ∉ fp (n :: ns) → i ≠ p → h' !! i = h !! i).
Proof.
  intros [Hf Hc] Hlen. unfold wbuf_ext_gen.
  destruct (fifo_head _ _ _ _ _ Hf) as (Hhd & Hs & Hne & Hd & nx & Hl & Hnx & Hf1 & Hf2).
  destruct (alloc_total_some h (Z.of_nat (length (n_str n)) + 1)) as (p & Hp & Fp).
  assert (p ∉ fp (n :: ns)) as Hpn by eauto using fifo_fresh. rewrite fp_cons in Hpn.
  assert (n_loc n ≠ p ∧ n_data n ≠ p) as [Hp1 Hp2] by (split; set_solver).
  rewrite Hhd.
  erewrite bind_ok by (eapply load_ptr_ok; [done|lia|done]).
  erewrite bind_ok by (eapply load_ptr_ok; [done|lia|done]).
  erewrite bind_ok by (eapply strlen_ok with (rest := []); rewrite ?app_nil_r; done).
  erewrite bind_ok by (apply malloc_chars_ok; [lia|done]).
  erewrite bind_ok by (eapply load_ptr_ok; [by rewrite lookup_insert_ne|lia|done]).
  erewrite bind_ok by
    (eapply strcpy_exact with (rest := []);
      [rewrite app_nil_r; by rewrite lookup_insert_ne|by rewrite lookup_insert_eq|done|
       rewrite length_replicate; lia]).
  rewrite insert_insert_eq. set (h1 := <[p := cells (n_str n)]> h).
  set (h2 := if frees then delete (n_data n) h1 else h1).
  rewrite (bind_ok _ _ _ tt h2).
  2: { unfold h2. destruct frees; [|done].
       erewrite bind_ok by
         (eapply load_ptr_ok; [unfold h1; by rewrite lookup_insert_ne|lia|done]).
       eapply free_ok. unfold h1. by rewrite lookup_insert_ne. }
  assert (h2 !! n_loc n = Some (node_block (n_data n) nx)) as Hl2.
  { unfold h2, h1. destruct frees; rewrite ?lookup_delete_ne, lookup_insert_ne by done; done. }
  erewrite bind_ok by (by eapply free_ok).
  eexists p, _, _. split; [done|].
  assert (∀ i, i ≠ n_loc n → i ≠ n_data n → i ≠ p → delete (n_loc n) h2 !! i = h !! i) as Hfr.
  { intros i H1 H2 H3. rewrite lookup_delete_ne by done. unfold h2, h1.
    destruct frees; rewrite ?lookup_delete_ne, lookup_insert_ne by done; done. }
  assert (p ∉ fp ns) as Hpns by set_solver.
  pose proof (fifo_nodup _ _ _ _ Hf) as Hnd. rewrite fp_cons in Hnd.
  apply NoDup_cons in Hnd as [Hnd1 Hnd]. apply NoDup_cons in Hnd as [Hnd2 _].
  split.
  { split; simpl.
    - destruct (decide (ns = [])) as [->|Hn].
      + rewrite (proj2 Hnx eq_refl). apply fifo_empty.
      + rewrite bool_decide_false by naive_solver.
        eapply fifo_frame; [|exact Hf2]. intros i Hi.
        rewrite Hfr, lookup_delete_ne; [done|set_solver..|by intros ->].
    - rewrite Hc. unfold Z.sub. rewrite wrap32_add_wrap32. f_equal. simpl. lia. }
  split; [done|]. split; [done|]. split.
  { rewrite lookup_delete_ne by done. unfold h2, h1.
    destruct frees; rewrite ?lookup_delete_ne, lookup_insert_eq by done; done. }
  split; [by rewrite lookup_delete_eq|]. split.
  { rewrite lookup_delete_ne by done. unfold h2, h1.
    destruct frees; [by rewrite lookup_delete_eq|]. by rewrite lookup_insert_ne. }
  intros i Hi Hip. rewrite fp_cons in Hi. apply Hfr; set_solver.
Qed.

(** Neither operation touches [done]. *)
Lemma wbuf_ins_done p b h b' h' :
  wbuf_ins_gen frees p b h = Ok (b', h') → w_done b' = w_done b.
Proof.
  unfold wbuf_ins_gen. intros E. repeat (apply bind_inv in E as (? & ? & _ & E)).
  unfold ret in E. by simplify_eq.
Qed.

Lemma wbuf_ext_done b h p b' h' :
  wbuf_ext_gen frees b h = Ok ((p, b'), h') → w_done b' = w_done b.
Proof.
  unfold wbuf_ext_gen. intros E. repeat (apply bind_inv in E as (? & ? & _ & E)).
  unfold ret in E. by simplify_eq.
Qed.

End implementation.

#[export] Instance writer_buffer `{TotalAllocator} :
  Buffer true WriterBuffer.wbuf_ins WriterBuffer.wbuf_ext.
Proof.
  split; [apply wbuf_ins_ok|apply wbuf_ext_ok|apply wbuf_ins_done|apply wbuf_ext_done].
Qed.

#[export] Instance reader_buffer `{TotalAllocator} :
  Buffer false ReaderBuffer.wbuf_ins ReaderBuffer.wbuf_ext.
Proof.
  split; [apply wbuf_ins_ok|apply wbuf_ext_ok|apply wbuf_ins_done|apply wbuf_ext_done].
Qed.

(** ** Theorems *)

(** Insert the blocks [ps] one after the other; extract [n] times. *)
Fixpoint ins_all (ins : ptr → wbuf → C wbuf) (ps : list loc) (b : wbuf) : C wbuf :=
  match ps with
  | [] => ret b
  | p :: ps' => b' <- ins (Some p) b;; ins_all ins ps' b'
  end.
Fixpoint ext_all (ext : wbuf → C (ptr * wbuf)) (n : nat) (b : wbuf) : C (list ptr * wbuf) :=
  match n with
  | O => ret ([], b)
  | S n' => '(p, b') <- ext b;; '(ps, b'') <- ext_all ext n' b';; ret (p :: ps, b'')
  end.

Definition holds_string (h : heap) (p : loc) (s : list Z) : Prop :=
  h !! p = Some (cells s) ∧ cstring s ∧ Z.of_nat (length s) + 1 < 2^32.

Section sequences.
Context {Al : Allocator} {Tot : TotalAllocator} (frees : bool) (ins : ptr → wbuf → C wbuf)
  (ext : wbuf → C (ptr * wbuf)) {Buf : Buffer frees ins ext}.

Lemma ins_all_ok ps : ∀ ss h b ns,
  wbuf_rep h b ns → Forall2 (holds_string h) ps ss → NoDup ps → (∀ p, p ∈ ps → p ∉ fp ns) →
  ∃ b' h' ns', ins_all ins ps b h = Ok (b', h') ∧ wbuf_rep h' b' (ns ++ ns') ∧
    strings ns' = ss ∧ w_done b' = w_done b.
Proof.
  induction ps as [|p ps IH]; intros ss h b ns Hb Hps Hnd Hfr.
  - apply Forall2_nil_inv_l in Hps as ->. exists b, h, []. by rewrite app_nil_r.
  - apply Forall2_cons_inv_l in Hps as (s & ss' & (Hp & Hs & Hl) & Hps & ->).
    apply NoDup_cons in Hnd as [Hp1 Hnd].
    destruct (buffer_ins h b ns p s [] Hb ltac:(by rewrite app_nil_r) Hs ltac:(apply Hfr; set_solver) Hl)
      as (b1 & h1 & l & d & E1 & Hb1 & Hd1 & Fl & Fd & Hfr1 & _).
    assert (∀ q, q ∈ ps → q ∉ fp (ns ++ [Node l d s])) as Hq.
    { intros q Hin. rewrite fp_app, fp_cons, not_elem_of_app. split; [apply Hfr; set_solver|].
      apply list_elem_of_lookup in Hin as [i Hi].
      destruct (Forall2_lookup_l _ _ _ _ _ Hps Hi) as (s' & _ & Hq & _).
      simpl. rewrite !not_elem_of_cons. split; [congruence|]. split; [congruence|set_solver]. }
    destruct (IH ss' h1 b1 _ Hb1) as (b2 & h2 & ns' & E2 & Hb2 & <- & Hd2); [|done|done|].
    + apply Forall2_same_length_lookup_2; [by eapply Forall2_length|].
      intros i q s' Hqi Hsi. destruct (Forall2_lookup_lr _ _ _ _ _ _ Hps Hqi Hsi) as (H1 & H2 & H3).
      split; [|done]. rewrite Hfr1; [done|apply Hq; by eapply list_elem_of_lookup_2|].
      intros ->. apply Hp1. by eapply list_elem_of_lookup_2.
    + exists b2, h2, (Node l d s :: ns'). simpl. rewrite (bind_ok _ _ _ _ _ E1), E2.
      rewrite <- app_assoc in Hb2. split; [done|]. split; [done|]. split; [done|congruence].
Qed.

Lemma ext_all_ok ns : ∀ h b,
  wbuf_rep h b ns → Forall (λ s, Z.of_nat (length s) + 1 < 2^32) (strings ns) →
  ∃ qs b' h', ext_all ext (length ns) b h = Ok ((Some <$> qs, b'), h') ∧ wbuf_rep h' b' [] ∧
    Forall2 (λ q s, h' !! q = Some (cells s)) qs (strings ns) ∧ w_done b' = w_done b ∧
    (∀ i, i ∉ fp ns → is_Some (h !! i) → h' !! i = h !! i).
Proof.
  induction ns as [|n ns IH]; intros h b Hb Hl.
  - exists [], b, h. split; [done|]. split; [done|]. split; [constructor|done].
  - apply Forall_cons in Hl as [Hn Hl].
    destruct (buffer_ext h b n ns Hb Hn) as (p & b1 & h1 & E1 & Hb1 & Hd1 & Fp & Hp & _ & _ & Hfr1).
    destruct (IH h1 b1 Hb1 Hl) as (qs & b2 & h2 & E2 & Hb2 & Hqs & Hd2 & Hfr2).
    assert (p ∉ fp (n :: ns)) as Hpn by (eapply fifo_fresh; [apply Hb|done]). rewrite fp_cons in Hpn.
    exists (p :: qs), b2, h2. cbn [ext_all length]. rewrite (bind_ok _ _ _ _ _ E1), (bind_ok _ _ _ _ _ E2).
    split; [done|]. split; [done|]. split; [|split; [congruence|]].
    + constructor; [|done]. rewrite Hfr2; [done|set_solver|]. rewrite Hp. eauto.
    + intros i Hi [x Hx]. pose proof Hi as Hi0. rewrite fp_cons in Hi.
      assert (h1 !! i = h !! i) as E by (apply Hfr1; [done|intros ->; congruence]).
      rewrite Hfr2; [done|set_solver|]. rewrite E. eauto.
Qed.

End sequences.

(** C40: The buffers of both processes are queues: strings inserted one after
    the other into an empty buffer come out of as many extractions in the same
    order, each in a block of its own, and leave the buffer empty.  [frees] is
    true for Writer/buffer.c and false for Reader/buffer.c. *)
Theorem wbuf_round_trip `{TotalAllocator} (frees : bool) h b ps ss :
  Forall2 (holds_string h) ps ss → NoDup ps →
  ∃ b1 h1 qs b2 h2,
    ins_all (wbuf_ins_gen frees) ps (wbuf_init b) h = Ok (b1, h1) ∧
    wbuf_count b1 = wrap32 (Z.of_nat (length ss)) ∧
    ext_all (wbuf_ext_gen frees) (length ss) b1 h1 = Ok ((Some <$> qs, b2), h2) ∧
    Forall2 (λ q s, h2 !! q = Some (cells s)) qs ss ∧ wbuf_rep h2 b2 [].
Proof.
  intros Hps Hnd.
  assert (Buffer frees (wbuf_ins_gen frees) (wbuf_ext_gen frees)) as Hb
    by (destruct frees; [apply writer_buffer|apply reader_buffer]).
  destruct (ins_all_ok frees _ _ ps ss h (wbuf_init b) [] (wbuf_rep_init _ _) Hps Hnd
    ltac:(set_solver)) as (b1 & h1 & ns & E1 & Hb1 & Es & _). simpl in Hb1.
  destruct (ext_all_ok frees _ _ ns h1 b1 Hb1) as (qs & b2 & h2 & E2 & Hb2 & Hqs & _).
  { rewrite Es. apply Forall_lookup. intros i s Hi.
    destruct (Forall2_lookup_r _ _ _ _ _ Hps Hi) as (p & _ & _ & _ & ?). done. }
  exists b1, h1, qs, b2, h2. rewrite <- Es, length_strings.
  split; [done|]. split; [apply (wb_count _ _ _ Hb1)|]. done.
Qed.

Definition two_strings : heap := {[1%positive := cells [65; 66]; 2%positive := cells [67]]}.

Lemma wbuf_round_trip_witness :
  ∃ b1 h1 qs b2 h2,
    @ins_all (@wbuf_ins_gen first_fit true) [1%positive; 2%positive] (wbuf_init (Wbuf None None 0 0))
      two_strings = Ok (b1, h1) ∧ wbuf_count b1 = wrap32 2 ∧
    ext_all (@wbuf_ext_gen first_fit true) 2 b1 h1 = Ok ((Some <$> qs, b2), h2) ∧
    Forall2 (λ q s, h2 !! q = Some (cells s)) qs [[65; 66]; [67]] ∧ wbuf_rep h2 b2 [].
Proof.
  refine (@wbuf_round_trip first_fit first_fit_total true two_strings (Wbuf None None 0 0)
    [1%positive; 2%positive] [[65; 66]; [67]] _ _).
  - repeat constructor; simpl; lia.
  - refine (bool_decide_unpack _ _). vm_compute. exact I.
Defined.
