(* ===== verification/Pipeline.v ===== *)
(** * The three-stage process (Writer/write.c, Reader/read.c)

    Both programs are the same machine: source threads fill [rbuffer],
    elaborate threads move strings from [rbuffer] to [ebuffer] with a change
    of case, sink threads empty [ebuffer], and the main thread joins one stage
    after the other and closes the buffer behind it.  The state is that of the
    static variables of the two files, the process heap and the program point
    of every thread; a step is the code of one thread up to the next point
    where another thread can observe or stop it: acquiring a mutex, sleeping
    on a condition variable, or a system call.  A critical section is run in
    one step together with the unlock that ends it, unless it contains a
    system call.

    What differs between the programs is the class [Ops] (the copies of
    buffer.c, the conversion, the final command to the device) and the code of
    the source and sink threads. *)

From stdpp Require Import base numbers list option gmap.
From S2P Require Import Prelude Memory CList Fun Buffer.
Local Open Scope Z_scope.
Local Open Scope c_scope.

(** ** Program points *)

Inductive ppc :=
  (* create_data *)
  | CrLock
  | CrBody
  (* read_dev *)
  | RdInit
  | RdLock (tmp : ptr)
  | RdBody (tmp : ptr)
  (* elaborate_data *)
  | ElLock
  | ElCheck
  | ElWait
  | ElWake
  | ElConv (data : ptr)
  | ElLockE (data : ptr)
  | ElIns (data : ptr)
  (* write_dev *)
  | WrLock
  | WrCheck
  | WrWait
  | WrWake
  | WrTry (data : ptr) (i : Z)
  | WrEnd (data : ptr) (i : Z)
  (* print_data *)
  | PrLock
  | PrCheck
  | PrWait
  | PrWake
  (* the thread function has returned *)
  | Exit
  (* main: wait_for, release_t, dev_done, dev_close *)
  | JoinT (stage i : nat)
  | RelLock (stage : nat)
  | RelSet (stage : nat)
  | SendDone (i : Z)
  | Closing
  | Finished (status : Z).

(** Inside catcher_SIGINT. *)
Inductive hpc := HLockR | HLockE.

#[export] Instance ppc_eq_dec : EqDecision ppc.
Proof. solve_decision. Defined.
#[export] Instance hpc_eq_dec : EqDecision hpc.
Proof. solve_decision. Defined.

(** ** State *)

(** [loop] is write_loop or read_loop.  Thread 0 is main; then come the
    source, the elaborate and the sink threads, [sizes] of each. *)
Record proc := Proc {
  rbuffer : wbuf;
  ebuffer : wbuf;
  rmutex : option nat;
  emutex : option nat;
  loop : Z;
  todo : Z;
  control : Z;
  pheap : heap;
  threads : list ppc;
  handler : option (nat * hpc);
  sizes : nat * nat * nat }.

Definition set_r (b : wbuf) (p : proc) : proc :=
  Proc b (ebuffer p) (rmutex p) (emutex p) (loop p) (todo p) (control p) (pheap p) (threads p) (handler p) (sizes p).
Definition set_e (b : wbuf) (p : proc) : proc :=
  Proc (rbuffer p) b (rmutex p) (emutex p) (loop p) (todo p) (control p) (pheap p) (threads p) (handler p) (sizes p).
Definition set_rmutex (m : option nat) (p : proc) : proc :=
  Proc (rbuffer p) (ebuffer p) m (emutex p) (loop p) (todo p) (control p) (pheap p) (threads p) (handler p) (sizes p).
Definition set_emutex (m : option nat) (p : proc) : proc :=
  Proc (rbuffer p) (ebuffer p) (rmutex p) m (loop p) (todo p) (control p) (pheap p) (threads p) (handler p) (sizes p).
Definition set_loop (z : Z) (p : proc) : proc :=
  Proc (rbuffer p) (ebuffer p) (rmutex p) (emutex p) z (todo p) (control p) (pheap p) (threads p) (handler p) (sizes p).
Definition set_todo (z : Z) (p : proc) : proc :=
  Proc (rbuffer p) (ebuffer p) (rmutex p) (emutex p) (loop p) z (control p) (pheap p) (threads p) (handler p) (sizes p).
Definition set_control (z : Z) (p : proc) : proc :=
  Proc (rbuffer p) (ebuffer p) (rmutex p) (emutex p) (loop p) (todo p) z (pheap p) (threads p) (handler p) (sizes p).
Definition set_heap (h : heap) (p : proc) : proc :=
  Proc (rbuffer p) (ebuffer p) (rmutex p) (emutex p) (loop p) (todo p) (control p) h (threads p) (handler p) (sizes p).
Definition set_threads (ts : list ppc) (p : proc) : proc :=
  Proc (rbuffer p) (ebuffer p) (rmutex p) (emutex p) (loop p) (todo p) (control p) (pheap p) ts (handler p) (sizes p).
Definition set_handler (o : option (nat * hpc)) (p : proc) : proc :=
  Proc (rbuffer p) (ebuffer p) (rmutex p) (emutex p) (loop p) (todo p) (control p) (pheap p) (threads p) o (sizes p).

Definition set_done (z : Z) (b : wbuf) : wbuf := Wbuf (w_head b) (w_tail b) (w_count b) z.

(** ** What a step shows *)

Inductive pevent :=
  | PIn (s : list Z)         (* CREATE / READ: inserted into rbuffer *)
  | PElab (s : list Z)       (* ELABORATE: taken from rbuffer *)
  | POut (s : list Z)        (* written to the device / printed *)
  | PLost (s : list Z)       (* FAIL writing on device, data lost *)
  | PReadFail                (* Read from device failed *)
  | PLast                    (* Last Read *)
  | PDoneSent (res : Z)      (* the result of dev_done *)
  | PClean (unused : bool).  (* cleanup, and whether what it destroys is unused *)

#[export] Instance pevent_eq_dec : EqDecision pevent.
Proof. solve_decision. Defined.

(** What a step takes from outside: the results of rand, the result of a
    system call, the bytes a read delivers, and the thread a
    pthread_cond_signal chooses. *)
Record input := Input {
  in_rand : nat → Z;
  in_res : Z;
  in_bytes : block;
  in_wake : nat }.

Abbreviation poutcome := (option (res (proc * list pevent))).
Definition pgo (p : proc) (e : list pevent) : poutcome := Some (Ok (p, e)).
Definition pblocked : poutcome := None.

Definition goto (t : nat) (c : ppc) (p : proc) : proc := set_threads (<[t := c]> (threads p)) p.

Definition run_p {A} (m : C A) (p : proc) (k : A → proc → poutcome) : poutcome :=
  match m (pheap p) with
  | Ok (a, h) => k a (set_heap h p)
  | Err f => Some (Err f)
  end.

Definition lock_r (t : nat) (c : ppc) (p : proc) : poutcome :=
  match rmutex p with
  | None => pgo (goto t c (set_rmutex (Some t) p)) []
  | Some _ => pblocked
  end.
Definition lock_e (t : nat) (c : ppc) (p : proc) : poutcome :=
  match emutex p with
  | None => pgo (goto t c (set_emutex (Some t) p)) []
  | Some _ => pblocked
  end.

(** ** Condition variables *)

(** The threads asleep on rcv and on ecv, and where they continue. *)
Definition wake_r (c : ppc) : option ppc :=
  match c with ElWait => Some ElWake | _ => None end.
Definition wake_e (c : ppc) : option ppc :=
  match c with WrWait => Some WrWake | PrWait => Some PrWake | _ => None end.

Fixpoint wake_first (wk : ppc → option ppc) (ts : list ppc) : list ppc :=
  match ts with
  | [] => []
  | c :: ts' => match wk c with Some c' => c' :: ts' | None => c :: wake_first wk ts' end
  end.

(** pthread_cond_signal wakes one sleeper, if there is one; which one is not
    specified. *)
Definition cond_signal (wk : ppc → option ppc) (w : nat) (ts : list ppc) : list ppc :=
  match ts !! w with
  | Some c => match wk c with Some c' => <[w := c']> ts | None => wake_first wk ts end
  | None => wake_first wk ts
  end.

Definition cond_broadcast (wk : ppc → option ppc) (ts : list ppc) : list ppc :=
  (λ c, default c (wk c)) <$> ts.

(** ** The thread functions *)

(** What the two programs supply: their copies of buffer.c and of the case
    conversion, and whether main sends the final command. *)
Class Ops := {
  op_ins : ptr → wbuf → C wbuf;
  op_ext : wbuf → C (ptr * wbuf);
  op_conv : ptr → C unit;
  op_sends_done : bool }.

Definition MAX_RETRY : Z := 5.

Section steps.
Context `{Allocator} {ops : Ops}.

(** [create_data], the writer's source. *)
Definition create_data (t : nat) (c : ppc) (i : input) (p : proc) : poutcome :=
  match c with
  | CrLock => lock_r t CrBody p
  | CrBody =>
      let '(tmp_todo, p1) := if bool_decide (loop p ≠ 0) then (1, p)
                             else (todo p, set_todo (wrap32 (todo p - 1)) p) in
      if bool_decide (tmp_todo ≤ 0) then pgo (goto t Exit (set_rmutex None p1)) []
      else
        run_p (gen_data (in_rand i)) p1 (λ data p2,
        let s := cstr_of (block_at (pheap p2) data) in
        run_p (op_ins data (rbuffer p2)) p2 (λ b p3,
        let p4 := set_r b p3 in
        let p5 := set_threads (cond_signal wake_r (in_wake i) (threads p4)) p4 in
        pgo (goto t CrLock (set_rmutex None p5)) [PIn s]))
  | _ => pblocked
  end.

(** The string "00" that ends a transmission. *)
Definition done_cmd : list Z := [48; 48].

(** read(fd, tmp, READ_BYTE): a NULL buffer makes the call fail. *)
Definition read_fd (i : input) (tmp : ptr) : C Z :=
  match tmp with
  | None => ret (-1)
  | Some _ =>
      b <- load_block tmp;;
      let got := take (Z.to_nat READ_BYTE) (in_bytes i) in
      store_block tmp (got ++ drop (length got) b);;;
      ret (in_res i)
  end.

Definition strcmp_done (tmp : ptr) : C Z :=
  b <- load_block tmp;;
  lift (strcmp_cells b (cells done_cmd ++ [Int 0])).

(** [read_dev], the reader's source. *)
Definition read_dev (t : nat) (c : ppc) (i : input) (p : proc) : poutcome :=
  match c with
  | RdInit => run_p (malloc_chars READ_BYTE) p (λ tmp p1, pgo (goto t (RdLock tmp) p1) [])
  | RdLock tmp => lock_r t (RdBody tmp) p
  | RdBody tmp =>
      let '(tmp_todo, p1) := if bool_decide (loop p ≠ 0) then (1, p)
                             else (todo p, set_todo (wrap32 (todo p - 1)) p) in
      if bool_decide (tmp_todo ≤ 0) then pgo (goto t Exit (set_rmutex None p1)) []
      else
        let finish (c' : ppc) (p' : proc) (e : pevent) :=
          let ts := cond_signal wake_r (in_wake i) (threads p') in
          pgo (goto t c' (set_rmutex None (set_threads ts p'))) [e] in
        run_p (read_fd i tmp) p1 (λ r p2,
        if bool_decide (r ≠ 0) then finish (RdLock tmp) p2 PReadFail
        else
          run_p (strcmp_done tmp) p2 (λ d p3,
          if bool_decide (d = 0) then finish Exit (set_loop 0 p3) PLast
          else
            let s := cstr_of (block_at (pheap p3) tmp) in
            run_p (op_ins tmp (rbuffer p3)) p3 (λ b p4,
            finish (RdLock tmp) (set_r b p4) (PIn s))))
  | _ => pblocked
  end.

(** The guards of the waiting loops. *)
Definition must_wait (b : wbuf) : bool :=
  bool_decide (w_head b = None) && bool_decide (w_done b = 0).
Definition must_stop (b : wbuf) : bool :=
  bool_decide (w_done b ≠ 0) && bool_decide (w_head b = None).

(** [elaborate_data] of both programs. *)
Definition elaborate_data (t : nat) (c : ppc) (i : input) (p : proc) : poutcome :=
  match c with
  | ElLock | ElWake => lock_r t ElCheck p
  | ElCheck =>
      if must_wait (rbuffer p) then pgo (goto t ElWait (set_rmutex None p)) []
      else if must_stop (rbuffer p) then pgo (goto t Exit (set_rmutex None p)) []
      else
        run_p (op_ext (rbuffer p)) p (λ '(data, b) p1,
        pgo (goto t (ElConv data) (set_rmutex None (set_r b p1)))
          [PElab (cstr_of (block_at (pheap p1) data))])
  | ElConv data => run_p (op_conv data) p (λ _ p1, pgo (goto t (ElLockE data) p1) [])
  | ElLockE data => lock_e t (ElIns data) p
  | ElIns data =>
      run_p (op_ins data (ebuffer p)) p (λ b p1,
      let p2 := set_e b p1 in
      let p3 := set_threads (cond_signal wake_e (in_wake i) (threads p2)) p2 in
      pgo (goto t ElLock (set_emutex None p3)) [])
  | _ => pblocked
  end.

(** [write_dev], the writer's sink: write(fd, data, strlen(data) + 1) gives
    [in_res]; it is called with the mutex held. *)
Definition write_dev (t : nat) (c : ppc) (i : input) (p : proc) : poutcome :=
  match c with
  | WrLock | WrWake => lock_e t WrCheck p
  | WrCheck =>
      if must_wait (ebuffer p) then pgo (goto t WrWait (set_emutex None p)) []
      else if must_stop (ebuffer p) then pgo (goto t Exit (set_emutex None p)) []
      else
        run_p (op_ext (ebuffer p)) p (λ '(data, b) p1,
        pgo (goto t (WrTry data 0) (set_e b p1)) [])
  | WrTry data n =>
      if bool_decide (n < MAX_RETRY) then
        run_p (strlen data) p (λ _ p1,
        if bool_decide (in_res i ≠ 0) then pgo (goto t (WrTry data (n + 1)) p1) []
        else pgo (goto t (WrEnd data n) p1) [POut (cstr_of (block_at (pheap p1) data))])
      else pgo (goto t (WrEnd data n) p) []
  | WrEnd data n =>
      pgo (goto t WrLock (set_emutex None p))
        (if bool_decide (n = 5) then [PLost (cstr_of (block_at (pheap p) data))] else [])
  | _ => pblocked
  end.

(** [print_data], the reader's sink. *)
Definition print_data (t : nat) (c : ppc) (p : proc) : poutcome :=
  match c with
  | PrLock | PrWake => lock_e t PrCheck p
  | PrCheck =>
      if must_wait (ebuffer p) then pgo (goto t PrWait (set_emutex None p)) []
      else if must_stop (ebuffer p) then pgo (goto t Exit (set_emutex None p)) []
      else
        run_p (op_ext (ebuffer p)) p (λ '(data, b) p1,
        pgo (goto t PrLock (set_emutex None (set_e b p1)))
          [POut (cstr_of (block_at (pheap p1) data))])
  | _ => pblocked
  end.

(** ** Main *)

Definition stage_size (k : nat) (p : proc) : nat :=
  let '(a, b, c) := sizes p in match k with 0%nat => a | 1%nat => b | _ => c end.
(** The index of the first thread of a stage. *)
Definition stage_base (k : nat) (p : proc) : nat :=
  let '(a, b, c) := sizes p in
  match k with 0%nat => 1%nat | 1%nat => (1 + a)%nat | _ => (1 + a + b)%nat end.

(** [wait_for(t_array, t_num)]: [i] threads of the stage are joined. *)
Definition wait_for (t k i : nat) (after : ppc) (p : proc) : poutcome :=
  if bool_decide (i < stage_size k p)%nat then
    if bool_decide (threads p !! (stage_base k p + i)%nat = Some Exit)
    then pgo (goto t (JoinT k (S i)) p) []
    else pblocked
  else pgo (goto t after p) [].

(** [release_t(mut, wb, cv)] on the buffer behind stage [k]. *)
Definition release_t (t k : nat) (c : ppc) (p : proc) : poutcome :=
  match c with
  | RelLock _ => if bool_decide (k = 0%nat) then lock_r t (RelSet k) p else lock_e t (RelSet k) p
  | _ =>
      if bool_decide (k = 0%nat) then
        let p1 := set_r (set_done 1 (rbuffer p)) p in
        let p2 := set_threads (cond_broadcast wake_r (threads p1)) p1 in
        pgo (goto t (JoinT (S k) 0) (set_rmutex None p2)) []
      else
        let p1 := set_e (set_done 1 (ebuffer p)) p in
        let p2 := set_threads (cond_broadcast wake_e (threads p1)) p1 in
        pgo (goto t (JoinT (S k) 0) (set_emutex None p2)) []
  end.

(** [dev_done]: one turn of the loop, or its exit. *)
Definition dev_done (t : nat) (n : Z) (i : input) (p : proc) : poutcome :=
  if bool_decide (n ≤ MAX_RETRY) && bool_decide (in_res i ≠ 0)
  then pgo (goto t (SendDone (n + 1)) p) []
  else pgo (goto t Closing p) [PDoneSent (if bool_decide (n = MAX_RETRY) then 1 else 0)].

(** [cleanup] destroys the mutexes and the condition variables, which must not
    be locked or waited for, and frees the arrays of threads, which are not in
    the state. *)
Definition cleanup (p : proc) : list pevent :=
  [PClean (bool_decide (rmutex p = None) && bool_decide (emutex p = None) &&
           forallb (λ c, match wake_r c ∪ wake_e c with Some _ => false | None => true end) (threads p))].

(** [dev_close], which also cleans up when it fails, then [cleanup] and the
    exit status. *)
Definition dev_close (t : nat) (i : input) (p : proc) : poutcome :=
  pgo (goto t (Finished (if bool_decide (in_res i = -1) then 1 else 0)) p) (cleanup p).

(** The closing part of [main]. *)
Definition main_closing (t : nat) (c : ppc) (i : input) (p : proc) : poutcome :=
  match c with
  | JoinT k n =>
      wait_for t k n
        (if bool_decide (k < 2)%nat then RelLock k
         else if op_sends_done then SendDone 0 else Closing) p
  | RelLock k | RelSet k => release_t t k c p
  | SendDone n => dev_done t n i p
  | Closing => dev_close t i p
  | _ => pblocked
  end.

(** One step of thread [t]. *)
Definition pexec (t : nat) (i : input) (p : proc) : poutcome :=
  match threads p !! t with
  | None => pblocked
  | Some c =>
      match c with
      | CrLock | CrBody => create_data t c i p
      | RdInit | RdLock _ | RdBody _ => read_dev t c i p
      | ElLock | ElCheck | ElWait | ElWake | ElConv _ | ElLockE _ | ElIns _ =>
          elaborate_data t c i p
      | WrLock | WrCheck | WrWait | WrWake | WrTry _ _ | WrEnd _ _ => write_dev t c i p
      | PrLock | PrCheck | PrWait | PrWake => print_data t c p
      | JoinT _ _ | RelLock _ | RelSet _ | SendDone _ | Closing => main_closing t c i p
      | Exit | Finished _ => pblocked
      end
  end.

(** ** Signals *)

(** [catcher_SIGINT] starts on thread [t], which stops until it returns. *)
Definition catcher_SIGINT (t : nat) (p : proc) : poutcome :=
  match threads p !! t with
  | None | Some Exit | Some (Finished _) => pblocked
  | Some _ =>
      let p1 := set_control (wrap32 (control p + 1)) p in
      if bool_decide (control p1 > 1) then pgo p1 []
      else pgo (set_handler (Some (t, HLockR)) p1) []
  end.

(** The rest of the handler. *)
Definition catcher_body (p : proc) : poutcome :=
  match handler p with
  | Some (t, HLockR) =>
      match rmutex p with
      | None =>
          let b := rbuffer p in
          let p1 := set_loop 0 (set_todo 0 (set_rmutex (Some t) p)) in
          pgo (set_handler (Some (t, HLockE)) (set_r (Wbuf None (w_tail b) 0 1) p1)) []
      | Some _ => pblocked
      end
  | Some (t, HLockE) =>
      match emutex p with
      | None =>
          let b := ebuffer p in
          pgo (set_handler None (set_e (Wbuf None (w_tail b) 0 1) (set_rmutex None p))) []
      | Some _ => pblocked
      end
  | None => pblocked
  end.

(** ** The transition system *)

Inductive plabel :=
  | PExec (t : nat) (i : input)
  | PSpurious (t : nat)               (* a wake-up without signal *)
  | PSigint (t : nat)
  | PHandler.

Definition spurious (t : nat) (p : proc) : poutcome :=
  match threads p !! t with
  | Some c => match wake_r c ∪ wake_e c with
              | Some c' => pgo (goto t c' p) []
              | None => pblocked
              end
  | None => pblocked
  end.

(** The thread that runs the handler does nothing else. *)
Definition in_handler (t : nat) (p : proc) : bool :=
  match handler p with Some (t', _) => bool_decide (t' = t) | None => false end.

Definition pnext (l : plabel) (p : proc) : poutcome :=
  match l with
  | PExec t i => if in_handler t p then pblocked else pexec t i p
  | PSpurious t => if in_handler t p then pblocked else spurious t p
  | PSigint t => if in_handler t p then pblocked else catcher_SIGINT t p
  | PHandler => catcher_body p
  end.

Inductive pstep : proc → plabel * list pevent → proc → Prop :=
  | pstep_next l p e p' : pnext l p = Some (Ok (p', e)) → pstep p (l, e) p'.

Fixpoint pruns (ls : list plabel) (p : proc) : poutcome :=
  match ls with
  | [] => pgo p []
  | l :: ls' =>
      match pnext l p with
      | Some (Ok (p', e)) =>
          match pruns ls' p' with
          | Some (Ok (p'', e')) => Some (Ok (p'', e ++ e'))
          | o => o
          end
      | o => o
      end
  end.

End steps.

(** ** Starting *)

(** The number of threads of a stage: [tmp = todo / step + 1], at most [max];
    a non-positive number starts none. *)
Definition nthreads (looping : bool) (todo step max : Z) : Z :=
  if looping then max
  else let tmp := wrap32 (Z.quot todo step + 1) in if bool_decide (tmp < max) then tmp else max.

(** The state after the creation loops. *)
Definition start (src el snk : ppc) (n : Z * Z * Z) (todo loop : Z) : proc :=
  let '(a, b, c) := n in
  {| rbuffer := wbuf_init (Wbuf None None 0 0); ebuffer := wbuf_init (Wbuf None None 0 0);
     rmutex := None; emutex := None; loop := loop; todo := todo; control := 0; pheap := ∅;
     threads := JoinT 0 0 :: replicate (Z.to_nat a) src ++ replicate (Z.to_nat b) el
                  ++ replicate (Z.to_nat c) snk;
     handler := None; sizes := (Z.to_nat a, Z.to_nat b, Z.to_nat c) |}.
