(* ===== verification/PipelineInv.v ===== *)
(** * Memory and conservation in the processes

    The invariant of a process: both buffers are well formed, every thread
    owns the string it works on, nothing is shared; and no string is lost:
    what went into [rbuffer] is, converted, in a buffer, in the hands of a
    thread, or out.  Everything is proved against the interface of the
    buffers, for both programs at once. *)

From stdpp Require Import base numbers list option gmap.
From S2P Require Import Prelude Memory CList Fun Buffer Pipeline.
Local Open Scope Z_scope.
Local Open Scope c_scope.

(** ** What the threads rely on *)

(** The strings of [rbuffer] satisfy [raw_ok], those of [ebuffer] [el_ok];
    the conversion maps one to the other.  The writer's words are raw strings
    of both programs. *)
Class OpsSpec `{TotalAllocator} (ops : Ops) := {
  ops_frees : bool;
  ops_buffer :: Buffer ops_frees op_ins op_ext;
  conv_str : list Z → list Z;
  raw_ok : list Z → Prop;
  el_ok : list Z → Prop;
  raw_string s : raw_ok s → cstring s ∧ (length s ≤ 39)%nat;
  el_string s : el_ok s → cstring s ∧ (length s ≤ 39)%nat;
  raw_word s : is_word s → raw_ok s;
  raw_chars s : raw_ok s → Forall char_range s;
  conv_el s : raw_ok s → el_ok (conv_str s);
  conv_spec h p s :
    raw_ok s → h !! p = Some (cells s) →
    op_conv (Some p) h = Ok (tt, <[p := cells (conv_str s)]> h) }.

(** ** Ownership *)

(** The block a thread owns. *)
Definition priv (c : ppc) : ptr :=
  match c with
  | RdLock tmp | RdBody tmp => tmp
  | ElConv d | ElLockE d | ElIns d | WrTry d _ | WrEnd d _ => d
  | _ => None
  end.

Section invariant.
Context {Al : Allocator} {Tot : TotalAllocator} {ops : Ops} {spec : OpsSpec ops}.

Definition holds_str (P : list Z → Prop) (h : heap) (d : ptr) : Prop :=
  ∃ l s, d = Some l ∧ h !! l = Some (cells s) ∧ P s.

(** What the block of a thread holds.  The reader's source keeps one block for
    all its reads, so its buffer must not free it. *)
Definition pc_ok (h : heap) (c : ppc) : Prop :=
  match c with
  | RdInit => ops_frees = false
  | RdLock tmp | RdBody tmp =>
      ops_frees = false ∧ ∃ l b, tmp = Some l ∧ h !! l = Some b ∧ length b = 40%nat
  | ElConv d => holds_str raw_ok h d
  | ElLockE d | ElIns d | WrEnd d _ => holds_str el_ok h d
  | WrTry d n => holds_str el_ok h d ∧ n ≤ MAX_RETRY
  | _ => True
  end.

Record sep (h : heap) (rb : wbuf) (rns : list node) (eb : wbuf) (ens : list node)
    (ts : list ppc) : Prop := {
  sep_r : wbuf_rep h rb rns;
  sep_e : wbuf_rep h eb ens;
  sep_disj l : l ∈ fp rns → l ∉ fp ens;
  sep_pc t c : ts !! t = Some c → pc_ok h c;
  sep_priv t c l : ts !! t = Some c → priv c = Some l → l ∉ fp rns ∧ l ∉ fp ens;
  sep_inj t t' c c' l : ts !! t = Some c → ts !! t' = Some c' →
    priv c = Some l → priv c' = Some l → t = t';
  sep_raw : Forall raw_ok (strings rns);
  sep_el : Forall el_ok (strings ens) }.

Lemma holds_str_frame P h h' d :
  (∀ l, d = Some l → h' !! l = h !! l) → holds_str P h d → holds_str P h' d.
Proof. intros Hag (l & s & -> & Hl & Hs). exists l, s. by rewrite Hag. Qed.

Lemma pc_ok_frame h h' c :
  (∀ l, priv c = Some l → h' !! l = h !! l) → pc_ok h c → pc_ok h' c.
Proof.
  destruct c; simpl; try done; try apply holds_str_frame.
  - intros Hag [Hf (l & b & -> & Hl & Hb)]. split; [done|]. exists l, b. by rewrite Hag.
  - intros Hag [Hf (l & b & -> & Hl & Hb)]. split; [done|]. exists l, b. by rewrite Hag.
  - intros Hag [Hs Hn]. split; [|done]. by eapply holds_str_frame.
Qed.

Lemma pc_ok_live h c l : pc_ok h c → priv c = Some l → is_Some (h !! l).
Proof.
  destruct c; simpl; try done;
    try (by intros (l' & s & -> & Hl & _) [= <-]);
    try (by intros [(l' & s & -> & Hl & _) _] [= <-]);
    intros [_ (l' & b & -> & Hl & _)] [= <-]; eauto.
Qed.

Lemma bind_ext_lookup {A B} (f g : A → list B) l :
  (∀ i x, l !! i = Some x → f x = g x) → l ≫= f = l ≫= g.
Proof.
  induction l as [|x l IH]; intros Hfg; [done|]. rewrite !bind_cons.
  rewrite (Hfg 0%nat x eq_refl), IH; [done|]. intros i y Hi. by apply (Hfg (S i)).
Qed.

(** The strings on their way to the output in the hands of a thread. *)
Definition pend (h : heap) (c : ppc) : list (list Z) :=
  match c with
  | ElConv d => [conv_str (cstr_of (block_at h d))]
  | ElLockE d | ElIns d | WrTry d _ => [cstr_of (block_at h d)]
  | WrEnd d i => if bool_decide (i = 5) then [cstr_of (block_at h d)] else []
  | _ => []
  end.

Definition inflight (h : heap) (ts : list ppc) : list (list Z) := ts ≫= pend h.

Lemma block_at_frame (h h' : heap) d :
  (∀ l, d = Some l → h' !! l = h !! l) → block_at h' d = block_at h d.
Proof. intros Hag. destruct d as [l|]; [|done]. simpl. by rewrite Hag. Qed.

Lemma pend_frame h h' c :
  (∀ l, priv c = Some l → h' !! l = h !! l) → pend h' c = pend h c.
Proof. destruct c; intros Hag%block_at_frame; simpl in *; by rewrite ?Hag. Qed.

(** ** The general step *)

(** What thread [t] may touch: the buffers, its block and fresh blocks. *)
Definition mine (h : heap) (rns ens : list node) (c : ppc) (l : loc) : Prop :=
  l ∈ fp rns ∨ l ∈ fp ens ∨ priv c = Some l ∨ h !! l = None.

Lemma sep_others h rb rns eb ens ts t c t0 c0 l :
  sep h rb rns eb ens ts → ts !! t = Some c → ts !! t0 = Some c0 → t0 ≠ t →
  priv c0 = Some l → ¬ mine h rns ens c l.
Proof.
  intros Hs Ht Ht0 Hne Hl. destruct (sep_priv _ _ _ _ _ _ Hs _ _ _ Ht0 Hl) as [Nr Ne].
  intros [H|[H|[H|H]]]; [done|done| |].
  - by apply Hne, (sep_inj _ _ _ _ _ _ Hs _ _ _ _ _ Ht0 Ht Hl H).
  - destruct (pc_ok_live _ _ _ (sep_pc _ _ _ _ _ _ Hs _ _ Ht0) Hl). congruence.
Qed.

Lemma sep_step h rb rns eb ens ts t c h' rb' rns' eb' ens' c' :
  sep h rb rns eb ens ts → ts !! t = Some c →
  (∀ l, ¬ mine h rns ens c l → h' !! l = h !! l) →
  (∀ l, l ∈ fp rns' ∨ l ∈ fp ens' ∨ priv c' = Some l → mine h rns ens c l) →
  wbuf_rep h' rb' rns' → wbuf_rep h' eb' ens' → (∀ l, l ∈ fp rns' → l ∉ fp ens') →
  Forall raw_ok (strings rns') → Forall el_ok (strings ens') →
  pc_ok h' c' → (∀ l, priv c' = Some l → l ∉ fp rns' ∧ l ∉ fp ens') →
  sep h' rb' rns' eb' ens' (<[t := c']> ts) ∧
  inflight h' (<[t := c']> ts) ++ pend h c ≡ₚ inflight h ts ++ pend h' c'.
Proof.
  intros Hs Ht Hfr Hown Hr He Hdis Hraw Hel Hok Hpriv.
  assert (∀ t0 c0, <[t := c']> ts !! t0 = Some c0 →
    (t0 = t ∧ c0 = c') ∨ (t0 ≠ t ∧ ts !! t0 = Some c0)) as Hcases.
  { intros t0 c0 [(-> & -> & _)|[Hne H0]]%list_lookup_insert_Some; [by left|]. by right. }
  assert (∀ t0 c0 l, t0 ≠ t → ts !! t0 = Some c0 → priv c0 = Some l → h' !! l = h !! l) as Hag.
  { intros t0 c0 l Hne Ht0 Hl. apply Hfr. by eapply sep_others. }
  split.
  - split; try done.
    + intros t0 c0 [[-> ->]|[Hne Ht0]]%Hcases; [done|].
      eapply pc_ok_frame; [|by eapply sep_pc]. intros l. by eapply Hag.
    + intros t0 c0 l [[-> ->]|[Hne Ht0]]%Hcases Hl; [by apply Hpriv|].
      pose proof (sep_others _ _ _ _ _ _ _ _ _ _ _ Hs Ht Ht0 Hne Hl).
      split; intros Hin; eauto.
    + intros t0 t1 c0 c1 l [[-> ->]|[Hn0 Ht0]]%Hcases [[-> ->]|[Hn1 Ht1]]%Hcases Hl0 Hl1; [done| | |].
      * destruct (sep_others _ _ _ _ _ _ _ _ _ _ _ Hs Ht Ht1 Hn1 Hl1); eauto.
      * destruct (sep_others _ _ _ _ _ _ _ _ _ _ _ Hs Ht Ht0 Hn0 Hl0); eauto.
      * by eapply (sep_inj _ _ _ _ _ _ Hs).
  - assert (inflight h' (<[t := c']> ts) = inflight h (take t ts) ++ pend h' c' ++ inflight h (drop (S t) ts)) as ->.
    { unfold inflight. rewrite (insert_take_drop _ _ _ (lookup_lt_Some _ _ _ Ht)).
      rewrite bind_app, bind_cons. f_equal; [|f_equal].
      - apply bind_ext_lookup. intros i c0 Hi. apply lookup_take_Some in Hi as [Hi Hlt].
        apply pend_frame. intros l. apply (Hag i); [lia|done].
      - apply bind_ext_lookup. intros i c0 Hi. rewrite lookup_drop in Hi.
        apply pend_frame. intros l. apply (Hag (S t + i)%nat); [lia|done]. }
    rewrite <- (take_drop_middle ts t c Ht) at 3. unfold inflight.
    rewrite bind_app, bind_cons. solve_Permutation.
Qed.

(** ** Waking *)

(** Some sleepers were woken. *)
Definition woken (ts ts' : list ppc) : Prop :=
  Forall2 (λ c c', c' = c ∨ wake_r c = Some c' ∨ wake_e c = Some c') ts ts'.

Lemma woken_refl ts : woken ts ts.
Proof. apply Forall_Forall2_diag, Forall_true. by left. Qed.

Lemma wake_first_woken wk ts :
  (∀ c c', wk c = Some c' → wake_r c = Some c' ∨ wake_e c = Some c') → woken ts (wake_first wk ts).
Proof.
  intros Hwk. induction ts as [|c ts IH]; simpl; [constructor|].
  destruct (wk c) as [c'|] eqn:E; constructor; auto. apply woken_refl.
Qed.

Lemma cond_signal_woken wk w ts :
  (∀ c c', wk c = Some c' → wake_r c = Some c' ∨ wake_e c = Some c') →
  woken ts (cond_signal wk w ts).
Proof.
  intros Hwk. unfold cond_signal. destruct (ts !! w) as [c|] eqn:Hw; [|by apply wake_first_woken].
  destruct (wk c) as [c'|] eqn:E; [|by apply wake_first_woken].
  rewrite <- (list_insert_id ts w c Hw) at 1.
  apply Forall2_insert; [apply woken_refl|auto].
Qed.

Lemma cond_broadcast_woken wk ts :
  (∀ c c', wk c = Some c' → wake_r c = Some c' ∨ wake_e c = Some c') →
  woken ts (cond_broadcast wk ts).
Proof.
  intros Hwk. unfold cond_broadcast. apply Forall2_fmap_r, Forall_Forall2_diag, Forall_true.
  intros c. simpl. destruct (wk c) as [c'|] eqn:E; [|by left]. right. by apply Hwk.
Qed.

(** A sleeper has no block and no string. *)
Lemma wake_plain c c' :
  wake_r c = Some c' ∨ wake_e c = Some c' →
  priv c = None ∧ priv c' = None ∧ (∀ h, pc_ok h c') ∧ (∀ h, pend h c = []) ∧ (∀ h, pend h c' = []).
Proof. destruct c; simpl; intros [|]; simplify_eq; done. Qed.

Lemma woken_lookup ts ts' t c :
  woken ts ts' → ts !! t = Some c → wake_r c = None → wake_e c = None → ts' !! t = Some c.
Proof.
  intros Hw Ht Hr He. destruct (Forall2_lookup_l _ _ _ _ _ Hw Ht) as (c' & Ht' & [->|[E|E]]);
    congruence.
Qed.

Lemma sep_woken h rb rns eb ens ts ts' :
  sep h rb rns eb ens ts → woken ts ts' →
  sep h rb rns eb ens ts' ∧ inflight h ts' = inflight h ts.
Proof.
  intros Hs Hw.
  assert (∀ t c', ts' !! t = Some c' →
    ts !! t = Some c' ∨ priv c' = None ∧ ∀ h, pc_ok h c') as Hcases.
  { intros t c' Ht'. destruct (Forall2_lookup_r _ _ _ _ _ Hw Ht') as (c & Ht & [->|E]); [by left|].
    right. by destruct (wake_plain _ _ E) as (_ & ? & ? & _). }
  split.
  - split; try apply Hs.
    + intros t c [Ht|[_ ?]]%Hcases; [by eapply sep_pc|done].
    + intros t c l [Ht|[E _]]%Hcases Hl; [by eapply sep_priv|congruence].
    + intros t t' c c' l [Ht|[E _]]%Hcases [Ht'|[E' _]]%Hcases Hl Hl'; try congruence.
      by eapply sep_inj.
  - clear -Hw. induction Hw as [|c c' ts ts' Hc _ IH]; [done|].
    unfold inflight in *. rewrite !bind_cons, IH. f_equal.
    destruct Hc as [->|E]; [done|]. by destruct (wake_plain _ _ E) as (_ & _ & _ & -> & ->).
Qed.

(** ** Preservation, step by step *)

Definition ins_of (e : list pevent) : list (list Z) :=
  omap (λ x, match x with PIn s => Some s | _ => None end) e.
Definition outs_of (e : list pevent) : list (list Z) :=
  omap (λ x, match x with POut s | PLost s => Some s | _ => None end) e.

Definition elabs_of (e : list pevent) : list (list Z) :=
  omap (λ x, match x with PElab s => Some s | _ => None end) e.

Definition pinv (p : proc) (rns ens : list node) : Prop :=
  sep (pheap p) (rbuffer p) rns (ebuffer p) ens (threads p).

(** The strings in the process, converted. *)
Definition stock (p : proc) (rns ens : list node) : list (list Z) :=
  (conv_str <$> strings rns) ++ inflight (pheap p) (threads p) ++ strings ens.

(** The events of a step tell how many strings [rbuffer] gains and loses, and
    only proper strings come in. *)
Definition counted (rns rns' : list node) (e : list pevent) : Prop :=
  (length rns' + length (elabs_of e) = length rns + length (ins_of e))%nat ∧
  Forall raw_ok (ins_of e).

(** The result of a step: no fault, the invariant, and nothing lost. *)
Definition fine (p : proc) (rns ens : list node) (o : poutcome) : Prop :=
  match o with
  | None => True
  | Some (Err _) => False
  | Some (Ok (p', e)) => ∃ rns' ens', pinv p' rns' ens' ∧ counted rns rns' e ∧
      (conv_str <$> ins_of e) ++ stock p rns ens ≡ₚ stock p' rns' ens' ++ outs_of e
  end.

(** What the processes get from outside: non-negative random numbers, and from
    a successful read a terminated string the program can convert. *)
Definition polite_input (p : proc) (t : nat) (i : input) : Prop :=
  (∀ k, 0 ≤ in_rand i k) ∧
  (∀ tmp, threads p !! t = Some (RdBody tmp) → in_res i = 0 →
    ∃ s rest, in_bytes i = cells s ++ rest ∧ raw_ok s).

Lemma balance {A} (N R R' I I' P P' E E' O : list A) :
  I' ++ P ≡ₚ I ++ P' → N ++ R ++ P ++ E ≡ₚ R' ++ P' ++ E' ++ O →
  N ++ R ++ I ++ E ≡ₚ (R' ++ I' ++ E') ++ O.
Proof.
  intros HI HL. apply (Permutation_app_inv_r P).
  transitivity ((N ++ R ++ P ++ E) ++ I); [solve_Permutation|]. rewrite HL.
  transitivity ((I ++ P') ++ R' ++ E' ++ O); [solve_Permutation|]. rewrite <- HI.
  solve_Permutation.
Qed.

(** A step of thread [t], with some sleepers woken before. *)
Lemma fine_step p p' t c c' rns ens rns' ens' ts e :
  pinv p rns ens → woken (threads p) ts → ts !! t = Some c → threads p' = <[t := c']> ts →
  (∀ l, ¬ mine (pheap p) rns ens c l → pheap p' !! l = pheap p !! l) →
  (∀ l, l ∈ fp rns' ∨ l ∈ fp ens' ∨ priv c' = Some l → mine (pheap p) rns ens c l) →
  wbuf_rep (pheap p') (rbuffer p') rns' → wbuf_rep (pheap p') (ebuffer p') ens' →
  (∀ l, l ∈ fp rns' → l ∉ fp ens') →
  Forall raw_ok (strings rns') → Forall el_ok (strings ens') →
  pc_ok (pheap p') c' → (∀ l, priv c' = Some l → l ∉ fp rns' ∧ l ∉ fp ens') →
  counted rns rns' e →
  (conv_str <$> ins_of e) ++ (conv_str <$> strings rns) ++ pend (pheap p) c ++ strings ens ≡ₚ
    (conv_str <$> strings rns') ++ pend (pheap p') c' ++ strings ens' ++ outs_of e →
  fine p rns ens (pgo p' e).
Proof.
  intros Hi Hw Ht Ets Hfr Hown Hr He Hdis Hraw Hel Hok Hpr Hcnt Hbal.
  destruct (sep_woken _ _ _ _ _ _ _ Hi Hw) as [Hi' Einf].
  destruct (sep_step _ _ _ _ _ _ t c (pheap p') (rbuffer p') rns' (ebuffer p') ens' c' Hi' Ht)
    as [Hs Hperm]; try done.
  exists rns', ens'. unfold pinv, stock. rewrite Ets. split; [done|]. split; [done|].
  rewrite Einf in Hperm. by eapply balance.
Qed.

(** A step that leaves the heap and the stored strings alone. *)
Lemma fine_quiet p p' t c c' rns ens ts e :
  pinv p rns ens → woken (threads p) ts → ts !! t = Some c →
  threads p' = <[t := c']> ts → pheap p' = pheap p →
  wbuf_rep (pheap p) (rbuffer p') rns → wbuf_rep (pheap p) (ebuffer p') ens →
  pc_ok (pheap p) c' → (∀ l, priv c' = Some l → priv c = Some l) →
  pend (pheap p) c = pend (pheap p) c' ++ outs_of e → ins_of e = [] → elabs_of e = [] →
  fine p rns ens (pgo p' e).
Proof.
  intros Hi Hw Ht Ets Eh Hr He Hok Hpr Hpend Hins Hels.
  eapply fine_step; rewrite ?Eh; try done; try apply Hi.
  - intros l [?|[?|?]]; unfold mine; auto.
  - intros l Hl%Hpr. destruct (sep_woken _ _ _ _ _ _ _ Hi Hw) as [Hi' _]. by eapply sep_priv.
  - unfold counted. rewrite Hins, Hels. by split.
  - rewrite Hins, Hpend. simpl. solve_Permutation.
Qed.

(** ** The buffer operations next to the other buffer *)

Lemma live_frame h h' b ns :
  wbuf_rep h b ns → (∀ i, i ∈ fp ns → is_Some (h !! i) → h' !! i = h !! i) → wbuf_rep h' b ns.
Proof.
  intros Hr Hfr. eapply wbuf_rep_frame; [|done]. intros l Hl. apply Hfr; [done|].
  eapply lseg_live; [|done]. apply Hr.
Qed.

Lemma ins_beside h b ns b2 ns2 q s rest :
  wbuf_rep h b ns → wbuf_rep h b2 ns2 → (∀ l, l ∈ fp ns → l ∉ fp ns2) →
  h !! q = Some (cells s ++ rest) → q ∉ fp ns → q ∉ fp ns2 → cstring s → (length s ≤ 39)%nat →
  ∃ b' h' l d, op_ins (Some q) b h = Ok (b', h') ∧
    wbuf_rep h' b' (ns ++ [Node l d s]) ∧ wbuf_rep h' b2 ns2 ∧
    h !! l = None ∧ h !! d = None ∧ w_done b' = w_done b ∧
    (∀ i, i ∈ fp (ns ++ [Node l d s]) → i ∉ fp ns2) ∧
    (∀ i, i ∈ fp (ns ++ [Node l d s]) → i ∈ fp ns ∨ h !! i = None) ∧
    (∀ i, i ∉ fp ns → i ≠ q → is_Some (h !! i) → h' !! i = h !! i) ∧
    h' !! q = if ops_frees then None else h !! q.
Proof.
  intros Hr Hr2 Hdis Hq Hqn Hqn2 Hs Hlen.
  destruct (buffer_ins h b ns q s rest Hr Hq Hs Hqn ltac:(lia))
    as (b' & h' & l & d & E & Hr' & Hd & Hl & Hd' & Hfr & Hq').
  assert (∀ i, i ∈ fp (ns ++ [Node l d s]) → i ∈ fp ns ∨ h !! i = None) as Hnew.
  { intros i. rewrite fp_app, fp_cons. simpl. rewrite elem_of_app.
    intros [?|[->|[->|?]%elem_of_cons]%elem_of_cons]; [by left|by right..|set_solver]. }
  assert (∀ i, i ∉ fp ns → i ≠ q → is_Some (h !! i) → h' !! i = h !! i) as Hfr2.
  { intros i Hi Hiq [x Hx]. apply Hfr; [|done]. intros [?|?]%Hnew; [done|congruence]. }
  assert (∀ i, i ∈ fp (ns ++ [Node l d s]) → i ∉ fp ns2) as Hdis'.
  { intros i [Hi|Hi]%Hnew Hi2; [by eapply Hdis|].
    destruct (lseg_live _ _ _ _ _ (fifo_lseg _ _ _ _ (wb_fifo _ _ _ Hr2)) Hi2). congruence. }
  exists b', h', l, d. repeat (split; [done|]). split; [|by eauto 10].
  eapply live_frame; [done|]. intros i Hi Hli. apply Hfr2; [|by intros ->|done].
  intros Hi'. by eapply Hdis.
Qed.

Lemma ext_beside h b n ns b2 ns2 :
  wbuf_rep h b (n :: ns) → wbuf_rep h b2 ns2 → (∀ l, l ∈ fp (n :: ns) → l ∉ fp ns2) →
  (length (n_str n) ≤ 39)%nat →
  ∃ q b' h', op_ext b h = Ok ((Some q, b'), h') ∧
    wbuf_rep h' b' ns ∧ wbuf_rep h' b2 ns2 ∧ w_done b' = w_done b ∧
    h !! q = None ∧ h' !! q = Some (cells (n_str n)) ∧ q ∉ fp (n :: ns) ∧ q ∉ fp ns2 ∧
    (∀ i, i ∉ fp (n :: ns) → is_Some (h !! i) → h' !! i = h !! i).
Proof.
  intros Hr Hr2 Hdis Hlen.
  destruct (buffer_ext h b n ns Hr ltac:(lia))
    as (q & b' & h' & E & Hr' & Hd & Hq & Hq' & _ & _ & Hfr).
  assert (q ∉ fp (n :: ns) ∧ q ∉ fp ns2) as [Hqn Hqn2].
  { split; intros Hin;
      [eapply fifo_fresh; [apply Hr|done|done]|eapply fifo_fresh; [apply Hr2|done|done]]. }
  assert (∀ i, i ∉ fp (n :: ns) → is_Some (h !! i) → h' !! i = h !! i) as Hfr2.
  { intros i Hi [x Hx]. apply Hfr; [done|]. intros ->. congruence. }
  exists q, b', h'. repeat (split; [done|]). split; [|by eauto 10].
  eapply live_frame; [done|]. intros i Hi Hli. apply Hfr2; [|done].
  intros Hi'. by eapply Hdis.
Qed.

(** ** The thread functions *)

Lemma signal_r_woken w ts : woken ts (cond_signal wake_r w ts).
Proof. apply cond_signal_woken. by left. Qed.
Lemma signal_e_woken w ts : woken ts (cond_signal wake_e w ts).
Proof. apply cond_signal_woken. by right. Qed.

(** A quiet step without wake-up that keeps both buffers as they are. *)
Lemma fine_local p p' t c c' rns ens e :
  pinv p rns ens → threads p !! t = Some c → threads p' = <[t := c']> (threads p) →
  pheap p' = pheap p → rbuffer p' = rbuffer p → ebuffer p' = ebuffer p →
  pc_ok (pheap p) c' → (∀ l, priv c' = Some l → priv c = Some l) →
  pend (pheap p) c = pend (pheap p) c' ++ outs_of e → ins_of e = [] → elabs_of e = [] →
  fine p rns ens (pgo p' e).
Proof.
  intros Hi Ht Ets Eh Er Ee Hok Hpr Hpe Hin Hels.
  eapply fine_quiet; [done|apply woken_refl|done|done|done| | |done|done|done|done|done].
  - rewrite Er. apply Hi.
  - rewrite Ee. apply Hi.
Qed.

Lemma fine_lock_r p t c c' rns ens :
  pinv p rns ens → threads p !! t = Some c → pc_ok (pheap p) c' →
  (∀ l, priv c' = Some l → priv c = Some l) → pend (pheap p) c = pend (pheap p) c' →
  fine p rns ens (lock_r t c' p).
Proof.
  intros Hi Ht Hok Hpr Hpe. unfold lock_r. destruct (rmutex p); [done|].
  eapply fine_local; try done. by rewrite app_nil_r.
Qed.

Lemma fine_lock_e p t c c' rns ens :
  pinv p rns ens → threads p !! t = Some c → pc_ok (pheap p) c' →
  (∀ l, priv c' = Some l → priv c = Some l) → pend (pheap p) c = pend (pheap p) c' →
  fine p rns ens (lock_e t c' p).
Proof.
  intros Hi Ht Hok Hpr Hpe. unfold lock_e. destruct (emutex p); [done|].
  eapply fine_local; try done. by rewrite app_nil_r.
Qed.

Lemma cstr_of_string s : cstring s → cstr_of (cells s) = s.
Proof. intros Hs. rewrite <- (app_nil_r (cells s)). by apply cstr_of_cells. Qed.

(** A string goes from the block [q], the thread's own or a fresh one, into
    [rbuffer]. *)
Lemma fine_ins_r p p' t c c' rns ens ts q s rest (h1 : heap) b' h' l d e :
  pinv p rns ens → woken (threads p) ts → ts !! t = Some c →
  threads p' = <[t := c']> ts → pheap p' = h' → rbuffer p' = b' → ebuffer p' = ebuffer p →
  mine (pheap p) rns ens c q → (∀ i, i ≠ q → h1 !! i = pheap p !! i) →
  raw_ok s →
  wbuf_rep h' b' (rns ++ [Node l d s]) → wbuf_rep h' (ebuffer p) ens →
  (∀ i, i ∈ fp (rns ++ [Node l d s]) → i ∉ fp ens) →
  (∀ i, i ∈ fp (rns ++ [Node l d s]) → i ∈ fp rns ∨ h1 !! i = None) →
  (∀ i, i ∉ fp rns → i ≠ q → is_Some (h1 !! i) → h' !! i = h1 !! i) →
  h1 !! q = Some (cells s ++ rest) →
  pc_ok h' c' → (∀ l, priv c' = Some l → l = q ∧ q ∉ fp rns ∧ q ∉ fp ens) →
  pend (pheap p) c = [] → pend h' c' = [] → e = [PIn s] →
  fine p rns ens (pgo p' e).
Proof.
  intros Hi Hw Ht Ets Eh Er Ee Hq Hag Hraw Hr' He' Hdis' Hnew Hfr Hq1 Hok Hpr Hpe Hpe' ->.
  assert (∀ i, i ∈ fp (rns ++ [Node l d s]) → mine (pheap p) rns ens c i) as Hmine.
  { intros i [Hin|Hn]%Hnew; [by left|].
    destruct (decide (i = q)) as [->|Hne]; [done|]. rewrite Hag in Hn by done. unfold mine; auto. }
  eapply (fine_step p p' t c c' rns ens (rns ++ [Node l d s]) ens ts); try done.
  - intros i Hni. rewrite Eh. assert (i ≠ q) by (by intros ->).
    rewrite <- Hag by done. apply Hfr; [unfold mine in Hni; naive_solver|done|].
    rewrite Hag by done. destruct (pheap p !! i) eqn:E; [eauto|]. destruct Hni. unfold mine; auto.
  - intros i [Hin|[Hin|Hin]]; [by apply Hmine|unfold mine; auto|].
    apply Hpr in Hin as (-> & _). done.
  - by rewrite Eh, Er.
  - by rewrite Eh, Ee.
  - rewrite strings_app. apply Forall_app. split; [apply Hi|by repeat constructor].
  - apply Hi.
  - by rewrite Eh.
  - intros i Hin. apply Hpr in Hin as (-> & Hn1 & Hn2). split; [|done].
    intros [?|Hn]%Hnew; [done|congruence].
  - split; [rewrite length_app; simpl; lia|by repeat constructor].
  - rewrite Eh, Hpe, Hpe', strings_app, fmap_app. simpl. rewrite !app_nil_r. solve_Permutation.
Qed.

(** Fetching the next item number touches [todo] only. *)
Definition fetch_todo (p : proc) : Z * proc :=
  if bool_decide (loop p ≠ 0) then (1, p) else (todo p, set_todo (wrap32 (todo p - 1)) p).

Lemma fetch_todo_same p n p1 :
  fetch_todo p = (n, p1) →
  pheap p1 = pheap p ∧ rbuffer p1 = rbuffer p ∧ ebuffer p1 = ebuffer p ∧ threads p1 = threads p.
Proof. unfold fetch_todo. case_bool_decide; intros [= <- <-]; done. Qed.

Lemma fine_create p rns ens t c i :
  pinv p rns ens → threads p !! t = Some c → (∀ k, 0 ≤ in_rand i k) →
  (c = CrLock ∨ c = CrBody) → fine p rns ens (create_data t c i p).
Proof.
  intros Hi Ht Hrnd [->| ->]; simpl; [by eapply fine_lock_r|].
  fold (fetch_todo p). destruct (fetch_todo p) as [n p1] eqn:Ef.
  apply fetch_todo_same in Ef as (Eh & Er & Ee & Et).
  case_bool_decide; [apply (fine_local p _ t CrBody Exit); try done; simpl; by rewrite Et|].
  destruct (alloc_total_some (pheap p) (in_rand i 0%nat mod 39 + 2)) as (q & Hq & _).
  destruct (gen_data_spec (in_rand i) (pheap p) q Hrnd Hq) as [Eg Hqf].
  pose proof (word_is_word (in_rand i)) as Hword. set (s := word (in_rand i)) in *.
  pose proof (raw_word _ Hword) as Hraw. destruct (raw_string _ Hraw) as [Hcs Hlen].
  unfold run_p at 1. rewrite Eh, Eg. cbn [pheap set_heap block_at]. rewrite lookup_insert_eq.
  change (default [] (Some (cells s))) with (cells s). rewrite (cstr_of_string _ Hcs).
  set (h1 := <[q := cells s]> (pheap p)).
  assert (q ∉ fp rns ∧ q ∉ fp ens) as [Hqr Hqe].
  { split; [by apply (fifo_fresh _ _ _ _ _ (wb_fifo _ _ _ (sep_r _ _ _ _ _ _ Hi)))|].
    by apply (fifo_fresh _ _ _ _ _ (wb_fifo _ _ _ (sep_e _ _ _ _ _ _ Hi))). }
  assert (∀ b ns, wbuf_rep (pheap p) b ns → wbuf_rep h1 b ns) as Hfr1.
  { intros b ns Hb. eapply live_frame; [done|]. intros l Hl [x Hx]. unfold h1.
    rewrite lookup_insert_ne; [done|]. intros <-. congruence. }
  destruct (ins_beside h1 (rbuffer p) rns (ebuffer p) ens q s [])
    as (b' & h' & l & d & Ei & Hr' & He' & Hl & Hd & _ & Hdis & Hnew & Hfr & Hq');
    [apply Hfr1, Hi|apply Hfr1, Hi|apply Hi|unfold h1; by rewrite lookup_insert_eq, app_nil_r
    |done|done|done|done|].
  unfold run_p. cbn [pheap set_heap rbuffer]. rewrite Er. fold h1. rewrite Ei.
  eapply (fine_ins_r p _ t CrBody CrLock rns ens (cond_signal wake_r (in_wake i) (threads p))
    q s [] h1); try done.
  - apply signal_r_woken.
  - eapply woken_lookup; [apply signal_r_woken|done..].
  - simpl. by rewrite Et.
  - unfold mine; auto.
  - intros j Hj. unfold h1. by rewrite lookup_insert_ne.
  - unfold h1. by rewrite lookup_insert_eq, app_nil_r.
Qed.

(** A step that writes into the thread's own block only. *)
Lemma fine_own p p' t c c' rns ens ts q b e :
  pinv p rns ens → woken (threads p) ts → ts !! t = Some c → threads p' = <[t := c']> ts →
  priv c = Some q → pheap p' = <[q := b]> (pheap p) →
  rbuffer p' = rbuffer p → ebuffer p' = ebuffer p →
  pc_ok (pheap p') c' → (∀ l, priv c' = Some l → l = q) →
  pend (pheap p) c = pend (pheap p') c' ++ outs_of e → ins_of e = [] → elabs_of e = [] →
  fine p rns ens (pgo p' e).
Proof.
  intros Hi Hw Ht Ets Hq Eh Er Ee Hok Hpr Hpe Hin Hels.
  destruct (sep_woken _ _ _ _ _ _ _ Hi Hw) as [Hi' _].
  destruct (sep_priv _ _ _ _ _ _ Hi' _ _ _ Ht Hq) as [Nr Ne].
  assert (∀ l, l ≠ q → pheap p' !! l = pheap p !! l) as Hag.
  { intros l Hl. rewrite Eh. by rewrite lookup_insert_ne. }
  eapply (fine_step p p' t c c' rns ens rns ens ts); try done; try apply Hi.
  - intros l Hni. apply Hag. intros ->. apply Hni. unfold mine; auto.
  - intros l [?|[?|Hl%Hpr]]; subst; unfold mine; auto.
  - rewrite Er. eapply wbuf_rep_frame; [|apply Hi]. intros l Hl. apply Hag. by intros ->.
  - rewrite Ee. eapply wbuf_rep_frame; [|apply Hi]. intros l Hl. apply Hag. by intros ->.
  - by intros l ->%Hpr.
  - unfold counted. rewrite Hin, Hels. by split.
  - rewrite Hin, Hpe. simpl. solve_Permutation.
Qed.

Lemma done_cmd_string : cstring done_cmd ∧ Forall char_range done_cmd.
Proof. split; repeat constructor; unfold_ranges; lia. Qed.

(** What [read_fd] leaves in the block. *)
Lemma read_fd_ok i h q b :
  h !! q = Some b → length b = 40%nat →
  ∃ b', read_fd i (Some q) h = Ok (in_res i, <[q := b']> h) ∧ length b' = 40%nat ∧
    ∀ s rest, in_bytes i = cells s ++ rest → (length s ≤ 39)%nat → ∃ rest', b' = cells s ++ rest'.
Proof.
  intros Hq Hb. unfold read_fd. erewrite bind_ok by (by eapply load_block_ok).
  set (got := take (Z.to_nat READ_BYTE) (in_bytes i)).
  assert (length got ≤ 40)%nat as Hg by (unfold got; rewrite length_take; unfold READ_BYTE; lia).
  exists (got ++ drop (length got) b).
  erewrite bind_ok by (by eapply store_block_ok). split; [done|].
  split; [rewrite length_app, length_drop; lia|].
  intros s rest E Hs. unfold got. rewrite E, take_app_ge.
  - rewrite <- app_assoc. eauto.
  - rewrite length_cells. unfold READ_BYTE. lia.
Qed.

Lemma fine_read_init p rns ens t :
  pinv p rns ens → threads p !! t = Some RdInit →
  fine p rns ens (run_p (malloc_chars READ_BYTE) p (λ tmp p1, pgo (goto t (RdLock tmp) p1) [])).
Proof.
  intros Hi Ht. pose proof (sep_pc _ _ _ _ _ _ Hi _ _ Ht) as Hfr. simpl in Hfr.
  destruct (alloc_total_some (pheap p) READ_BYTE) as (q & Hq & Hqf).
  unfold run_p. rewrite (malloc_chars_ok _ _ q) by done.
  set (h1 := <[q := _]> (pheap p)).
  assert (∀ b ns, wbuf_rep (pheap p) b ns → wbuf_rep h1 b ns ∧ q ∉ fp ns) as Hfr1.
  { intros b ns Hb. split.
    - eapply live_frame; [done|]. intros l Hl [x Hx]. unfold h1.
      rewrite lookup_insert_ne; [done|]. intros <-. congruence.
    - by apply (fifo_fresh _ _ _ _ _ (wb_fifo _ _ _ Hb)). }
  destruct (Hfr1 _ _ (sep_r _ _ _ _ _ _ Hi)) as [Hr Nr].
  destruct (Hfr1 _ _ (sep_e _ _ _ _ _ _ Hi)) as [He Ne].
  eapply (fine_step p _ t RdInit (RdLock (Some q)) rns ens rns ens (threads p));
    try done; try apply Hi.
  - apply woken_refl.
  - intros l Hni. unfold goto, set_threads, set_heap; cbn [pheap]. unfold h1.
    rewrite lookup_insert_ne; [done|]. intros <-. apply Hni. unfold mine; auto.
  - intros l [?|[?|[= <-]]]; unfold mine; auto.
  - split; [done|]. exists q, (replicate 40 Undef). split; [done|].
    split; [exact (lookup_insert_eq (pheap p) q _)|done].
  - by intros l [= <-].
  - simpl. by rewrite app_nil_r.
Qed.

Lemma fine_read p rns ens t c i :
  pinv p rns ens → threads p !! t = Some c → polite_input p t i →
  match c with RdInit | RdLock _ | RdBody _ => True | _ => False end →
  fine p rns ens (read_dev t c i p).
Proof.
  intros Hi Ht [_ Hpol] Hc. pose proof (sep_pc _ _ _ _ _ _ Hi _ _ Ht) as Hok.
  destruct c as [| | |tmp|tmp| | | | | | | | | | | | | | | | | | | | | | | |]; try done; simpl.
  - by apply fine_read_init.
  - by eapply fine_lock_r.
  - fold (fetch_todo p). destruct (fetch_todo p) as [n p1] eqn:Ef.
    apply fetch_todo_same in Ef as (Eh & Er & Ee & Et).
    case_bool_decide; [apply (fine_local p _ t (RdBody tmp) Exit); try done; simpl; by rewrite Et|].
    destruct Hok as [Hfrees (q & b & -> & Hq & Hb)].
    destruct (read_fd_ok i _ _ _ Hq Hb) as (b1 & Erd & Hb1 & Hstr).
    assert (pend (pheap p) (RdBody (Some q)) = []) as Hpe by done.
    set (ts := cond_signal wake_r (in_wake i) (threads p)).
    assert (woken (threads p) ts) as Hw by apply signal_r_woken.
    assert (ts !! t = Some (RdBody (Some q))) as Hts by (by eapply woken_lookup).
    set (h1 := <[q := b1]> (pheap p)) in *.
    assert (h1 !! q = Some b1) as Hq1 by (unfold h1; by rewrite lookup_insert_eq).
    assert (pc_ok h1 (RdLock (Some q))) as Hok1 by (split; [done|by exists q, b1]).
    unfold run_p at 1. rewrite Eh, Erd. case_bool_decide as Hres.
    { eapply (fine_own p _ t (RdBody (Some q)) (RdLock (Some q)) rns ens ts q b1); try done.
      - simpl. by rewrite Et.
      - by intros l [= <-]. }
    destruct (Hpol _ Ht) as (s & rest & Ebytes & Hraw); [by destruct (decide (in_res i = 0))|].
    destruct (raw_string _ Hraw) as [Hcs Hlen].
    destruct (Hstr _ _ Ebytes Hlen) as (rest' & ->).
    destruct done_cmd_string as [Hd1 Hd2].
    destruct (strcmp_cells_eq s done_cmd rest' [Int 0]) as (z & Ez & _);
      [done|done|by apply raw_chars|done|].
    unfold run_p at 1. unfold strcmp_done. cbn [pheap set_heap].
    erewrite bind_ok by (by eapply load_block_ok). rewrite (lift_ok _ _ _ Ez).
    case_bool_decide as Hz.
    { eapply (fine_own p _ t (RdBody (Some q)) Exit rns ens ts q (cells s ++ rest')); try done.
      simpl. by rewrite Et. }
    destruct (sep_priv _ _ _ _ _ _ Hi _ _ _ Ht eq_refl) as [Nr Ne].
    assert (∀ b ns, wbuf_rep (pheap p) b ns → q ∉ fp ns → wbuf_rep h1 b ns) as Hfr1.
    { intros b0 ns Hb0 Nq. eapply live_frame; [done|]. intros l Hl _. unfold h1.
      rewrite lookup_insert_ne; [done|]. by intros <-. }
    destruct (ins_beside h1 (rbuffer p) rns (ebuffer p) ens q s rest')
      as (b' & h' & l & d & Ei & Hr' & He' & Hl & Hd & _ & Hdis & Hnew & Hfr & Hq');
      [by apply Hfr1; [apply Hi|]|by apply Hfr1; [apply Hi|]|apply Hi|done|done|done|done|done|].
    rewrite Hfrees in Hq'.
    unfold run_p. cbn [pheap set_heap rbuffer block_at]. rewrite Er, Ei, Hq1.
    change (default [] (Some (cells s ++ rest'))) with (cells s ++ rest').
    rewrite (cstr_of_cells _ _ Hcs).
    eapply (fine_ins_r p _ t (RdBody (Some q)) (RdLock (Some q)) rns ens ts q s rest' h1); try done.
    + simpl. by rewrite Et.
    + unfold mine; auto.
    + intros j Hj. unfold h1. by rewrite lookup_insert_ne.
    + split; [done|]. exists q, (cells s ++ rest'). simpl. by rewrite Hq'.
    + by intros j [= <-].
Qed.

(** A string leaves [rbuffer] for a thread. *)
Lemma fine_ext_r p p' t c c' n rns ens q b' h' :
  pinv p (n :: rns) ens → threads p !! t = Some c → threads p' = <[t := c']> (threads p) →
  pheap p' = h' → rbuffer p' = b' → ebuffer p' = ebuffer p →
  wbuf_rep h' b' rns → wbuf_rep h' (ebuffer p) ens →
  pheap p !! q = None → h' !! q = Some (cells (n_str n)) → q ∉ fp (n :: rns) → q ∉ fp ens →
  (∀ i, i ∉ fp (n :: rns) → is_Some (pheap p !! i) → h' !! i = pheap p !! i) →
  pend (pheap p) c = [] → c' = ElConv (Some q) →
  fine p (n :: rns) ens (pgo p' [PElab (n_str n)]).
Proof.
  intros Hi Ht Ets Eh Er Ee Hr' He' Hq Hq' Nq Nqe Hfr Hpe ->.
  pose proof (sep_raw _ _ _ _ _ _ Hi) as Hraw. apply Forall_cons in Hraw as [Hraw1 Hraw2].
  eapply (fine_step p p' t c (ElConv (Some q)) (n :: rns) ens rns ens (threads p)); try done.
  - apply woken_refl.
  - intros l Hni. rewrite Eh. apply Hfr; [unfold mine in Hni; naive_solver|].
    destruct (pheap p !! l) eqn:E; [eauto|]. destruct Hni. unfold mine; auto.
  - intros l [?|[?|[= <-]]]; unfold mine; rewrite ?fp_cons; [left; set_solver|auto..].
  - by rewrite Eh, Er.
  - by rewrite Eh, Ee.
  - intros l Hl. apply Hi. rewrite fp_cons. set_solver.
  - apply Hi.
  - exists q, (n_str n). by rewrite Eh.
  - intros l [= <-]. rewrite fp_cons in Nq. split; [set_solver|done].
  - split; [simpl; lia|constructor].
  - rewrite Hpe, Eh. simpl. rewrite Hq'. simpl. rewrite cstr_of_string by (by apply raw_string).
    rewrite app_nil_r. solve_Permutation.
Qed.

(** A string leaves [ebuffer]: the thread keeps it or shows it. *)
Lemma fine_ext_e p p' t c c' n rns ens q b' h' e :
  pinv p rns (n :: ens) → threads p !! t = Some c → threads p' = <[t := c']> (threads p) →
  pheap p' = h' → ebuffer p' = b' → rbuffer p' = rbuffer p →
  wbuf_rep h' b' ens → wbuf_rep h' (rbuffer p) rns →
  pheap p !! q = None → h' !! q = Some (cells (n_str n)) → q ∉ fp (n :: ens) → q ∉ fp rns →
  (∀ i, i ∉ fp (n :: ens) → is_Some (pheap p !! i) → h' !! i = pheap p !! i) →
  pend (pheap p) c = [] → pc_ok h' c' → (∀ l, priv c' = Some l → l = q) →
  pend h' c' ++ outs_of e = [n_str n] → ins_of e = [] → elabs_of e = [] →
  fine p rns (n :: ens) (pgo p' e).
Proof.
  intros Hi Ht Ets Eh Ee Er He' Hr' Hq Hq' Nq Nqr Hfr Hpe Hok Hpr Hpe' Hin Hels.
  pose proof (sep_el _ _ _ _ _ _ Hi) as Hel. apply Forall_cons in Hel as [Hel1 Hel2].
  eapply (fine_step p p' t c c' rns (n :: ens) rns ens (threads p)); try done.
  - apply woken_refl.
  - intros l Hni. rewrite Eh. apply Hfr; [unfold mine in Hni; naive_solver|].
    destruct (pheap p !! l) eqn:E; [eauto|]. destruct Hni. unfold mine; auto.
  - intros l [?|[?|Hl%Hpr]]; unfold mine; rewrite ?fp_cons; [auto|right; left; set_solver|].
    subst. auto.
  - by rewrite Eh, Er.
  - by rewrite Eh, Ee.
  - intros l Hl Hl'. apply (sep_disj _ _ _ _ _ _ Hi l Hl). rewrite fp_cons. set_solver.
  - apply Hi.
  - by rewrite Eh.
  - intros l ->%Hpr. rewrite fp_cons in Nq. split; [done|set_solver].
  - unfold counted. rewrite Hin, Hels. by split.
  - rewrite Hpe, Hin, Eh. simpl. f_equiv.
    transitivity ([n_str n] ++ strings ens); [done|]. rewrite <- Hpe'. solve_Permutation.
Qed.

(** The guards tell whether there is a string. *)
Lemma guards_nonempty h b ns :
  wbuf_rep h b ns → must_wait b = false → must_stop b = false → ∃ n ns', ns = n :: ns'.
Proof.
  intros Hr. unfold must_wait, must_stop. destruct ns as [|n ns]; [|eauto].
  rewrite (proj2 (wbuf_rep_nil _ _ _ Hr) eq_refl). rewrite (bool_decide_true (None = None)) by done.
  destruct (decide (w_done b = 0)); [by rewrite bool_decide_true|].
  by rewrite (bool_decide_true (w_done b ≠ 0)).
Qed.

Lemma fine_elaborate p rns ens t c i :
  pinv p rns ens → threads p !! t = Some c →
  match c with ElLock | ElCheck | ElWait | ElWake | ElConv _ | ElLockE _ | ElIns _ => True
  | _ => False end →
  fine p rns ens (elaborate_data t c i p).
Proof.
  intros Hi Ht Hc. pose proof (sep_pc _ _ _ _ _ _ Hi _ _ Ht) as Hok.
  destruct c; try done; simpl; try (by eapply fine_lock_r).
  - destruct (must_wait (rbuffer p)) eqn:Ew; [by apply (fine_local p _ t ElCheck ElWait)|].
    destruct (must_stop (rbuffer p)) eqn:Es; [by apply (fine_local p _ t ElCheck Exit)|].
    destruct (guards_nonempty _ _ _ (sep_r _ _ _ _ _ _ Hi) Ew Es) as (n & ns & ->).
    pose proof (sep_raw _ _ _ _ _ _ Hi) as Hraw. apply Forall_cons in Hraw as [Hraw _].
    destruct (raw_string _ Hraw) as [Hcs Hlen].
    destruct (ext_beside _ _ _ _ _ _ (sep_r _ _ _ _ _ _ Hi) (sep_e _ _ _ _ _ _ Hi)
      (sep_disj _ _ _ _ _ _ Hi) Hlen) as (q & b' & h' & E & Hr' & He' & _ & Hq & Hq' & N1 & N2 & Hfr).
    unfold run_p. rewrite E. cbn [pheap set_heap block_at]. rewrite Hq'.
    change (default [] (Some (cells (n_str n)))) with (cells (n_str n)).
    rewrite (cstr_of_string _ Hcs).
    by eapply (fine_ext_r p _ t ElCheck (ElConv (Some q)) n ns ens q).
  - destruct Hok as (q & s & -> & Hq & Hraw). destruct (raw_string _ Hraw) as [Hcs Hlen].
    destruct (el_string _ (conv_el _ Hraw)) as [Hcs' _].
    unfold run_p. rewrite (conv_spec _ _ _ Hraw Hq).
    eapply (fine_own p _ t (ElConv (Some q)) (ElLockE (Some q)) rns ens (threads p) q); try done.
    + apply woken_refl.
    + exists q, (conv_str s). split; [done|]. split; [apply lookup_insert_eq|by apply conv_el].
    + by intros l [= <-].
    + simpl. rewrite Hq, lookup_insert_eq. simpl. by rewrite !cstr_of_string.
  - eapply fine_lock_e; try done.
  - destruct Hok as (q & s & -> & Hq & Hel). destruct (el_string _ Hel) as [Hcs Hlen].
    destruct (sep_priv _ _ _ _ _ _ Hi _ _ _ Ht eq_refl) as [Nr Ne].
    destruct (ins_beside (pheap p) (ebuffer p) ens (rbuffer p) rns q s [])
      as (b' & h' & l & d & Ei & He' & Hr' & Hl & Hd & _ & Hdis & Hnew & Hfr & Hq');
      [apply Hi|apply Hi| |by rewrite app_nil_r|done|done|done|done|].
    { intros l Hl Hl'. by apply (sep_disj _ _ _ _ _ _ Hi l). }
    unfold run_p. rewrite Ei.
    eapply (fine_step p _ t (ElIns (Some q)) ElLock rns ens rns (ens ++ [Node l d s])
      (cond_signal wake_e (in_wake i) (threads p))); try done.
    + apply signal_e_woken.
    + eapply woken_lookup; [apply signal_e_woken|done..].
    + intros j Hni. apply Hfr; [unfold mine in Hni; naive_solver| |].
      * intros ->. apply Hni. unfold mine; auto.
      * destruct (pheap p !! j) eqn:E; [eauto|]. destruct Hni. unfold mine; auto.
    + intros j [Hj|[[Hj|Hj]%Hnew|Hj]]; unfold mine; auto. done.
    + intros j Hj Hj'. by apply (Hdis j).
    + apply Hi.
    + rewrite strings_app. apply Forall_app. split; [apply Hi|by repeat constructor].
    + simpl. rewrite Hq. simpl. rewrite cstr_of_string by done. rewrite strings_app. simpl.
      rewrite app_nil_r. solve_Permutation.
Qed.

Lemma ext_e_result p rns ens :
  pinv p rns ens → must_wait (ebuffer p) = false → must_stop (ebuffer p) = false →
  ∃ n ns q b' h', ens = n :: ns ∧ el_ok (n_str n) ∧
    op_ext (ebuffer p) (pheap p) = Ok ((Some q, b'), h') ∧
    wbuf_rep h' b' ns ∧ wbuf_rep h' (rbuffer p) rns ∧ pheap p !! q = None ∧
    h' !! q = Some (cells (n_str n)) ∧ q ∉ fp (n :: ns) ∧ q ∉ fp rns ∧
    cstr_of (block_at h' (Some q)) = n_str n ∧
    (∀ i, i ∉ fp (n :: ns) → is_Some (pheap p !! i) → h' !! i = pheap p !! i).
Proof.
  intros Hi Ew Es.
  destruct (guards_nonempty _ _ _ (sep_e _ _ _ _ _ _ Hi) Ew Es) as (n & ns & ->).
  pose proof (sep_el _ _ _ _ _ _ Hi) as Hel. apply Forall_cons in Hel as [Hel _].
  destruct (el_string _ Hel) as [Hcs Hlen].
  destruct (ext_beside _ _ _ _ _ _ (sep_e _ _ _ _ _ _ Hi) (sep_r _ _ _ _ _ _ Hi))
    with (2 := Hlen) as (q & b' & h' & E & He' & Hr' & _ & Hq & Hq' & N1 & N2 & Hfr).
  { intros l Hl Hl'. by apply (sep_disj _ _ _ _ _ _ Hi l). }
  exists n, ns, q, b', h'. repeat (split; [done|]). split; [|done].
  simpl. rewrite Hq'. by apply cstr_of_string.
Qed.

Lemma fine_write p rns ens t c i :
  pinv p rns ens → threads p !! t = Some c →
  match c with WrLock | WrCheck | WrWait | WrWake | WrTry _ _ | WrEnd _ _ => True | _ => False end →
  fine p rns ens (write_dev t c i p).
Proof.
  intros Hi Ht Hc. pose proof (sep_pc _ _ _ _ _ _ Hi _ _ Ht) as Hok.
  destruct c as [| | | | | | | | | | | | | | | |dt n|dt n| | | | | | | | | | |];
    try done; simpl; try (by eapply fine_lock_e).
  - destruct (must_wait (ebuffer p)) eqn:Ew; [by apply (fine_local p _ t WrCheck WrWait)|].
    destruct (must_stop (ebuffer p)) eqn:Es; [by apply (fine_local p _ t WrCheck Exit)|].
    destruct (ext_e_result _ _ _ Hi Ew Es)
      as (n & ns & q & b' & h' & -> & Hel & E & He' & Hr' & Hq & Hq' & N1 & N2 & Hstr & Hfr).
    unfold run_p. rewrite E.
    eapply (fine_ext_e p _ t WrCheck (WrTry (Some q) 0) n rns ns q b' h'); try done.
    + split; [by exists q, (n_str n)|by vm_compute].
    + by intros l [= <-].
    + cbn [pend outs_of omap list_omap]. by rewrite Hstr.
  - destruct Hok as [(q & s & -> & Hq & Hel) Hn]. destruct (el_string _ Hel) as [Hcs _].
    case_bool_decide as Hlt.
    + unfold run_p. rewrite (strlen_ok _ _ s []) by (by rewrite ?app_nil_r).
      case_bool_decide as Hres.
      * apply (fine_local p _ t (WrTry (Some q) n) (WrTry (Some q) (n + 1))); try done.
        split; [by exists q, s|lia].
      * apply (fine_local p _ t (WrTry (Some q) n) (WrEnd (Some q) n)); try done.
        -- by exists q, s.
        -- simpl. unfold MAX_RETRY in Hlt. by rewrite bool_decide_false by lia.
    + apply (fine_local p _ t (WrTry (Some q) n) (WrEnd (Some q) n)); try done.
      * by exists q, s.
      * unfold MAX_RETRY in *. simpl.
        by rewrite bool_decide_true by lia.
  - apply (fine_local p _ t (WrEnd dt n) WrLock); try done; simpl; repeat case_bool_decide; done.
Qed.

Lemma fine_print p rns ens t c :
  pinv p rns ens → threads p !! t = Some c →
  match c with PrLock | PrCheck | PrWait | PrWake => True | _ => False end →
  fine p rns ens (print_data t c p).
Proof.
  intros Hi Ht Hc. destruct c; try done; simpl; try (by eapply fine_lock_e).
  destruct (must_wait (ebuffer p)) eqn:Ew; [by apply (fine_local p _ t PrCheck PrWait)|].
  destruct (must_stop (ebuffer p)) eqn:Es; [by apply (fine_local p _ t PrCheck Exit)|].
  destruct (ext_e_result _ _ _ Hi Ew Es)
    as (n & ns & q & b' & h' & -> & Hel & E & He' & Hr' & Hq & Hq' & N1 & N2 & Hstr & Hfr).
  unfold run_p. rewrite E. cbn [pheap set_heap]. rewrite Hstr.
  by eapply (fine_ext_e p _ t PrCheck PrLock n rns ns q b' h').
Qed.

Lemma fine_main p rns ens t c i :
  pinv p rns ens → threads p !! t = Some c →
  match c with JoinT _ _ | RelLock _ | RelSet _ | SendDone _ | Closing => True | _ => False end →
  fine p rns ens (main_closing t c i p).
Proof.
  intros Hi Ht Hc. destruct c as [| | | | | | | | | | | | | | | | | | | | | | |k n|k|k|n| |];
    try done; simpl.
  - unfold wait_for.
    case_bool_decide; [case_bool_decide; [by apply (fine_local p _ t (JoinT k n) (JoinT k (S n)))|done]|].
    eapply (fine_local p _ t (JoinT k n)); try done; repeat case_match; done.
  - case_bool_decide; [by eapply fine_lock_r|by eapply fine_lock_e].
  - case_bool_decide.
    + eapply (fine_quiet p _ t (RelSet k) (JoinT (S k) 0) rns ens
        (cond_broadcast wake_r (threads p))); try done; try (by apply wbuf_rep_done, Hi); try apply Hi.
      * apply cond_broadcast_woken. by left.
      * eapply woken_lookup; [apply cond_broadcast_woken; by left|done..].
    + eapply (fine_quiet p _ t (RelSet k) (JoinT (S k) 0) rns ens
        (cond_broadcast wake_e (threads p))); try done; try (by apply wbuf_rep_done, Hi); try apply Hi.
      * apply cond_broadcast_woken. by right.
      * eapply woken_lookup; [apply cond_broadcast_woken; by right|done..].
  - unfold dev_done. destruct (_ && _);
      [by apply (fine_local p _ t (SendDone n) (SendDone (n + 1)))
      |by apply (fine_local p _ t (SendDone n) Closing)].
  - change (fine p rns ens (dev_close t i p)). unfold dev_close.
    by apply (fine_local p _ t Closing (Finished (if bool_decide (in_res i = -1) then 1 else 0))).
Qed.

Lemma fine_exec p rns ens t i :
  pinv p rns ens → polite_input p t i → fine p rns ens (pexec t i p).
Proof.
  intros Hi Hpol. unfold pexec. destruct (threads p !! t) as [c|] eqn:Ht; [|done].
  destruct c; try done.
  all: try (by apply fine_read).
  all: try (by apply fine_elaborate).
  all: try (by apply fine_write).
  all: try (by apply fine_print).
  all: try (by apply fine_main).
  all: apply fine_create; auto; apply Hpol.
Qed.

Lemma fine_spurious p rns ens t : pinv p rns ens → fine p rns ens (spurious t p).
Proof.
  intros Hi. unfold spurious. destruct (threads p !! t) as [c|] eqn:Ht; [|done].
  destruct c; try done; simpl;
    [by apply (fine_local p _ t _ ElWake rns ens [] Hi Ht)
    |by apply (fine_local p _ t _ WrWake rns ens [] Hi Ht)
    |by apply (fine_local p _ t _ PrWake rns ens [] Hi Ht)].
Qed.

(** The signal itself changes no data. *)
Lemma fine_sigint p rns ens t : pinv p rns ens → fine p rns ens (catcher_SIGINT t p).
Proof.
  intros Hi. unfold catcher_SIGINT.
  assert (∀ p', pheap p' = pheap p → rbuffer p' = rbuffer p → ebuffer p' = ebuffer p →
    threads p' = threads p → fine p rns ens (pgo p' [])) as Hsame.
  { intros p' Eh Er Ee Et. exists rns, ens. unfold pinv, stock. rewrite Eh, Er, Ee, Et.
    split; [done|]. split; [done|]. simpl. by rewrite app_nil_r. }
  destruct (threads p !! t) as [[]|]; try done; case_bool_decide; by apply Hsame.
Qed.

(** The handler drops what the buffers hold. *)
Lemma handler_pinv p rns ens :
  pinv p rns ens →
  match catcher_body p with
  | None => True
  | Some (Err _) => False
  | Some (Ok (p', _)) => ∃ rns' ens', pinv p' rns' ens'
  end.
Proof.
  intros Hi. unfold catcher_body. destruct (handler p) as [[t []]|]; [| |done].
  - destruct (rmutex p); [done|]. exists [], ens. destruct Hi. split; try done.
    + split; [apply fifo_empty|done].
    + intros l. set_solver.
    + intros t0 c l Ht Hl. split; [set_solver|]. by eapply sep_priv0.
  - destruct (emutex p); [done|]. exists rns, []. destruct Hi. split; try done.
    + split; [apply fifo_empty|done].
    + intros l. set_solver.
    + intros t0 c l Ht Hl. split; [|set_solver]. by eapply sep_priv0.
Qed.

(** ** Runs *)

Definition polite_label (p : proc) (l : plabel) : Prop :=
  match l with PExec t i => polite_input p t i | _ => True end.

Inductive pol_step : proc → plabel * list pevent → proc → Prop :=
  | pol_step_next l p e p' :
      polite_label p l → pnext l p = Some (Ok (p', e)) → pol_step p (l, e) p'.

Definition events (tr : list (plabel * list pevent)) : list pevent := concat tr.*2.

(** No SIGINT was delivered. *)
Definition undisturbed (tr : list (plabel * list pevent)) : Prop :=
  Forall (λ x, match x.1 with PSigint _ => False | _ => True end) tr.

Lemma events_snoc tr l e : events (tr ++ [(l, e)]) = events tr ++ e.
Proof. unfold events. rewrite fmap_app, concat_app. simpl. by rewrite app_nil_r. Qed.

Lemma pnext_fine l p rns ens :
  pinv p rns ens → polite_label p l →
  match pnext l p with
  | None => True
  | Some (Err _) => False
  | Some (Ok (p', e)) => ∃ rns' ens', pinv p' rns' ens' ∧
      (l ≠ PHandler → counted rns rns' e ∧
        (conv_str <$> ins_of e) ++ stock p rns ens ≡ₚ stock p' rns' ens' ++ outs_of e)
  end.
Proof.
  intros Hi Hpol.
  assert (∀ o, fine p rns ens o → match o with
    | None => True
    | Some (Err _) => False
    | Some (Ok (p', e)) => ∃ rns' ens', pinv p' rns' ens' ∧
      (l ≠ PHandler → counted rns rns' e ∧
        (conv_str <$> ins_of e) ++ stock p rns ens ≡ₚ stock p' rns' ens' ++ outs_of e)
    end) as Hfine.
  { intros [[[p' e]|]|]; [|done|done]. intros (rns' & ens' & ? & ?). eauto. }
  destruct l as [t i|t|t|]; simpl.
  - destruct (in_handler t p); [done|]. by apply Hfine, fine_exec.
  - destruct (in_handler t p); [done|]. by apply Hfine, fine_spurious.
  - destruct (in_handler t p); [done|]. by apply Hfine, fine_sigint.
  - pose proof (handler_pinv _ _ _ Hi) as H.
    destruct (catcher_body p) as [[[p' e]|]|]; [|done|done].
    destruct H as (rns' & ens' & H). exists rns', ens'. split; [done|]. by intros ?.
Qed.

(** Without a signal there is no handler. *)
Lemma next_no_handler l p p' e :
  pnext l p = Some (Ok (p', e)) → handler p = None →
  match l with PSigint _ => False | _ => True end → handler p' = None ∧ l ≠ PHandler.
Proof.
  intros E Hh Hl. destruct l as [t i|t|t|]; try done; simpl in E; split; try done.
  - unfold in_handler in E. rewrite Hh in E. unfold pexec in E.
    destruct (threads p !! t) as [c|]; [|done].
    destruct c; simpl in E; unfold create_data, read_dev, elaborate_data, write_dev, print_data,
      main_closing, wait_for, release_t, dev_done, dev_close, lock_r, lock_e, run_p, pgo, pblocked in E;
      repeat case_match; simplify_eq; done.
  - unfold in_handler, spurious, pgo, pblocked in E. rewrite Hh in E.
    repeat case_match; simplify_eq; done.
  - unfold catcher_body in E. by rewrite Hh in E.
  - unfold catcher_body in E. by rewrite Hh in E.
Qed.

End invariant.
