(* ===== verification/PipelineMove.v ===== *)
(** * The steps of the threads as transitions

    A table of the transitions [pexec] makes: from which program point to
    which, what happens to the mutexes, the [done] flags and the counter, and
    whom it wakes.  Locking, progress and termination are proved from it. *)

From stdpp Require Import base numbers list option gmap.
From S2P Require Import Prelude Memory CList Fun Buffer Pipeline PipelineInv.
Local Open Scope Z_scope.

(** ** Program points by mutex *)

Definition holds_r (c : ppc) : bool :=
  match c with CrBody | RdBody _ | ElCheck | RelSet 0 => true | _ => false end.
Definition holds_e (c : ppc) : bool :=
  match c with
  | ElIns _ | WrCheck | WrTry _ _ | WrEnd _ _ | PrCheck | RelSet (S _) => true
  | _ => false
  end.

(** The state outside the heap and the threads. *)
Definition same_flags (p p' : proc) : Prop :=
  w_done (rbuffer p') = w_done (rbuffer p) ∧ w_done (ebuffer p') = w_done (ebuffer p) ∧
  handler p' = handler p ∧ sizes p' = sizes p.
Definition same_count (p p' : proc) : Prop := todo p' = todo p ∧ loop p' = loop p.
Definition same_locks (p p' : proc) : Prop := rmutex p' = rmutex p ∧ emutex p' = emutex p.
Definition same_bufs (p p' : proc) : Prop := rbuffer p' = rbuffer p ∧ ebuffer p' = ebuffer p.

(** One item number was taken. *)
Definition took (n : Z) (p p' : proc) : Prop :=
  (loop p ≠ 0 ∧ n = 1 ∧ todo p' = todo p) ∨
  (loop p = 0 ∧ n = todo p ∧ todo p' = wrap32 (todo p - 1)).

(** ** The table *)

Inductive move (sends : bool) (p p' : proc) (t : nat) : ppc → ppc → list ppc → list pevent → Prop :=
  | mv_lock_r c c' :
      match c, c' with
      | CrLock, CrBody | ElLock, ElCheck | ElWake, ElCheck | RelLock 0, RelSet 0 => True
      | RdLock x, RdBody y => x = y
      | _, _ => False
      end →
      rmutex p = None → rmutex p' = Some t → emutex p' = emutex p →
      same_bufs p p' → same_count p p' → move sends p p' t c c' (threads p) []
  | mv_lock_e c c' :
      match c, c' with
      | WrLock, WrCheck | WrWake, WrCheck | PrLock, PrCheck | PrWake, PrCheck => True
      | ElLockE x, ElIns y => x = y
      | RelLock (S k), RelSet k' => k' = S k
      | _, _ => False
      end →
      emutex p = None → emutex p' = Some t → rmutex p' = rmutex p →
      same_bufs p p' → same_count p p' → move sends p p' t c c' (threads p) []
  | mv_src_init d :
      same_locks p p' → same_bufs p p' → same_count p p' →
      move sends p p' t RdInit (RdLock d) (threads p) []
  | mv_src_stop c n :
      match c with CrBody | RdBody _ => True | _ => False end →
      took n p p' → n ≤ 0 → rmutex p' = None → emutex p' = emutex p → same_bufs p p' →
      loop p' = loop p → move sends p p' t c Exit (threads p) []
  | mv_src_item c c' n w e :
      match c, c' with CrBody, CrLock => True | RdBody x, RdLock y => x = y | _, _ => False end →
      took n p p' → 0 < n → rmutex p' = None → emutex p' = emutex p →
      ebuffer p' = ebuffer p → loop p' = loop p →
      match c, e with
      | CrBody, PIn _ => True
      | RdBody _, PIn _ | RdBody _, PReadFail => True
      | _, _ => False
      end →
      move sends p p' t c c' (cond_signal wake_r w (threads p)) [e]
  | mv_src_last d n w :
      took n p p' → 0 < n → rmutex p' = None → emutex p' = emutex p → same_bufs p p' →
      loop p' = 0 → move sends p p' t (RdBody d) Exit (cond_signal wake_r w (threads p)) [PLast]
  | mv_el_wait :
      w_head (rbuffer p) = None → w_done (rbuffer p) = 0 → rmutex p' = None →
      emutex p' = emutex p → same_bufs p p' → same_count p p' →
      move sends p p' t ElCheck ElWait (threads p) []
  | mv_el_stop :
      w_head (rbuffer p) = None → w_done (rbuffer p) ≠ 0 → rmutex p' = None →
      emutex p' = emutex p → same_bufs p p' → same_count p p' →
      move sends p p' t ElCheck Exit (threads p) []
  | mv_el_ext d s :
      w_head (rbuffer p) ≠ None → rmutex p' = None → emutex p' = emutex p →
      ebuffer p' = ebuffer p → same_count p p' →
      move sends p p' t ElCheck (ElConv d) (threads p) [PElab s]
  | mv_el_conv d :
      same_locks p p' → same_bufs p p' → same_count p p' →
      move sends p p' t (ElConv d) (ElLockE d) (threads p) []
  | mv_el_ins d w :
      emutex p' = None → rmutex p' = rmutex p → rbuffer p' = rbuffer p → same_count p p' →
      move sends p p' t (ElIns d) ElLock (cond_signal wake_e w (threads p)) []
  | mv_sink_wait c c' :
      match c, c' with WrCheck, WrWait | PrCheck, PrWait => True | _, _ => False end →
      w_head (ebuffer p) = None → w_done (ebuffer p) = 0 → emutex p' = None →
      rmutex p' = rmutex p → same_bufs p p' → same_count p p' →
      move sends p p' t c c' (threads p) []
  | mv_sink_stop c :
      match c with WrCheck | PrCheck => True | _ => False end →
      w_head (ebuffer p) = None → w_done (ebuffer p) ≠ 0 → emutex p' = None →
      rmutex p' = rmutex p → same_bufs p p' → same_count p p' →
      move sends p p' t c Exit (threads p) []
  | mv_write_ext d :
      w_head (ebuffer p) ≠ None → same_locks p p' → rbuffer p' = rbuffer p → same_count p p' →
      move sends p p' t WrCheck (WrTry d 0) (threads p) []
  | mv_print_ext s :
      w_head (ebuffer p) ≠ None → emutex p' = None → rmutex p' = rmutex p →
      rbuffer p' = rbuffer p → same_count p p' →
      move sends p p' t PrCheck PrLock (threads p) [POut s]
  | mv_write_retry d n :
      n < MAX_RETRY → same_locks p p' → same_bufs p p' → same_count p p' →
      move sends p p' t (WrTry d n) (WrTry d (n + 1)) (threads p) []
  | mv_write_over d n e :
      same_locks p p' → same_bufs p p' → same_count p p' →
      (n < MAX_RETRY → ∃ s, e = [POut s]) → (MAX_RETRY ≤ n → e = []) →
      move sends p p' t (WrTry d n) (WrEnd d n) (threads p) e
  | mv_write_end d n e :
      emutex p' = None → rmutex p' = rmutex p → same_bufs p p' → same_count p p' →
      (n = 5 → ∃ s, e = [PLost s]) → (n ≠ 5 → e = []) →
      move sends p p' t (WrEnd d n) WrLock (threads p) e
  | mv_join_next k i :
      (i < stage_size k p)%nat → threads p !! (stage_base k p + i)%nat = Some Exit →
      same_locks p p' → same_bufs p p' → same_count p p' →
      move sends p p' t (JoinT k i) (JoinT k (S i)) (threads p) []
  | mv_join_done k i c' :
      (stage_size k p ≤ i)%nat →
      c' = (if bool_decide (k < 2)%nat then RelLock k else if sends then SendDone 0 else Closing) →
      same_locks p p' → same_bufs p p' → same_count p p' →
      move sends p p' t (JoinT k i) c' (threads p) []
  | mv_rel_r :
      rmutex p' = None → emutex p' = emutex p → ebuffer p' = ebuffer p →
      w_head (rbuffer p') = w_head (rbuffer p) → w_done (rbuffer p') = 1 → same_count p p' →
      move sends p p' t (RelSet 0) (JoinT 1 0) (cond_broadcast wake_r (threads p)) []
  | mv_rel_e k :
      emutex p' = None → rmutex p' = rmutex p → rbuffer p' = rbuffer p →
      w_head (ebuffer p') = w_head (ebuffer p) → w_done (ebuffer p') = 1 → same_count p p' →
      move sends p p' t (RelSet (S k)) (JoinT (S (S k)) 0) (cond_broadcast wake_e (threads p)) []
  | mv_send n :
      n ≤ MAX_RETRY → same_locks p p' → same_bufs p p' → same_count p p' →
      move sends p p' t (SendDone n) (SendDone (n + 1)) (threads p) []
  | mv_sent n r :
      same_locks p p' → same_bufs p p' → same_count p p' →
      move sends p p' t (SendDone n) Closing (threads p) [PDoneSent r]
  | mv_close r :
      same_locks p p' → same_bufs p p' → same_count p p' →
      move sends p p' t Closing (Finished r) (threads p) (cleanup p).

(** The [done] flags change only in [release_t]. *)
Definition flags_ok (c : ppc) (p p' : proc) : Prop :=
  handler p' = handler p ∧ sizes p' = sizes p ∧
  (c ≠ RelSet 0 → w_done (rbuffer p') = w_done (rbuffer p)) ∧
  ((∀ k, c ≠ RelSet (S k)) → w_done (ebuffer p') = w_done (ebuffer p)).

Section moves.
Context {Al : Allocator} {Tot : TotalAllocator} {ops : Ops} {spec : OpsSpec ops}.

Definition moved (t : nat) (c : ppc) (p p' : proc) (e : list pevent) : Prop :=
  ∃ c' ts, threads p' = <[t := c']> ts ∧ move op_sends_done p p' t c c' ts e ∧ flags_ok c p p'.

Lemma moved_intro t c c' ts p p' e :
  threads p' = <[t := c']> ts → move op_sends_done p p' t c c' ts e → flags_ok c p p' → moved t c p p' e.
Proof. unfold moved. eauto. Qed.

Lemma fetch_took p n p1 :
  fetch_todo p = (n, p1) →
  took n p p1 ∧ rmutex p1 = rmutex p ∧ emutex p1 = emutex p ∧ loop p1 = loop p ∧
  handler p1 = handler p ∧ sizes p1 = sizes p.
Proof.
  unfold fetch_todo, took. case_bool_decide; intros [= <- <-].
  - split; [by left|done].
  - split; [right|done]. split; [|done]. by destruct (decide (loop p = 0)).
Qed.

Lemma lock_r_move t c c' p p' e :
  lock_r t c' p = Some (Ok (p', e)) →
  match c, c' with
  | CrLock, CrBody | ElLock, ElCheck | ElWake, ElCheck | RelLock 0, RelSet 0 => True
  | RdLock x, RdBody y => x = y
  | _, _ => False
  end → moved t c p p' e.
Proof.
  intros E Hc. unfold lock_r, pgo in E. destruct (rmutex p) eqn:Em; [done|]. simplify_eq.
  apply (moved_intro t c c' (threads p)); [done|by eapply mv_lock_r|done].
Qed.

Lemma lock_e_move t c c' p p' e :
  lock_e t c' p = Some (Ok (p', e)) →
  match c, c' with
  | WrLock, WrCheck | WrWake, WrCheck | PrLock, PrCheck | PrWake, PrCheck => True
  | ElLockE x, ElIns y => x = y
  | RelLock (S k), RelSet k' => k' = S k
  | _, _ => False
  end → moved t c p p' e.
Proof.
  intros E Hc. unfold lock_e, pgo in E. destruct (emutex p) eqn:Em; [done|]. simplify_eq.
  apply (moved_intro t c c' (threads p)); [done|by eapply mv_lock_e|done].
Qed.

Lemma create_move t c i p p' e :
  (c = CrLock ∨ c = CrBody) → create_data t c i p = Some (Ok (p', e)) → moved t c p p' e.
Proof.
  intros [->| ->] E; simpl in E; [by eapply lock_r_move|].
  fold (fetch_todo p) in E. destruct (fetch_todo p) as [n p1] eqn:Ef.
  destruct (fetch_todo_same _ _ _ Ef) as (Eh & Er & Ee & Et).
  destruct (fetch_took _ _ _ Ef) as (Htk & _ & Em & El & Eha & Esz). unfold pgo in E.
  case_bool_decide as Hn.
  - simplify_eq. apply (moved_intro t CrBody Exit (threads p)); [simpl; by rewrite Et|by eapply mv_src_stop|].
    unfold flags_ok. simpl. by rewrite Er, Ee, Eha, Esz.
  - unfold run_p in E. destruct (gen_data (in_rand i) (pheap p1)) as [[d h1]|]; [|done].
    destruct (op_ins d _ _) as [[b h2]|] eqn:Ei; [|done]. simplify_eq.
    apply (moved_intro t CrBody CrLock (cond_signal wake_r (in_wake i) (threads p)));
      [simpl; by rewrite Et|eapply (mv_src_item _ _ _ _ _ _ n); try done; lia|].
    unfold flags_ok. simpl. rewrite Ee, Eha, Esz.
    apply buffer_ins_done in Ei. simpl in Ei. by rewrite Ei, Er.
Qed.

Lemma read_move t c i p p' e :
  match c with RdInit | RdLock _ | RdBody _ => True | _ => False end →
  read_dev t c i p = Some (Ok (p', e)) → moved t c p p' e.
Proof.
  intros Hc E. destruct c as [| | |d|d| | | | | | | | | | | | | | | | | | | | | | | |]; try done;
    simpl in E; [|by eapply lock_r_move|].
  - unfold run_p in E. destruct (malloc_chars _ _) as [[d h]|]; [|done]. unfold pgo in E. simplify_eq.
    by apply (moved_intro t RdInit (RdLock d) (threads p)); [done|apply mv_src_init|].
  - fold (fetch_todo p) in E. destruct (fetch_todo p) as [n p1] eqn:Ef.
    destruct (fetch_todo_same _ _ _ Ef) as (Eh & Er & Ee & Et).
    destruct (fetch_took _ _ _ Ef) as (Htk & _ & Em & El & Eha & Esz). unfold pgo in E.
    case_bool_decide as Hn.
    { simplify_eq. apply (moved_intro t (RdBody d) Exit (threads p)); [simpl; by rewrite Et|by eapply mv_src_stop|].
      unfold flags_ok. simpl. by rewrite Er, Ee, Eha, Esz. }
    unfold run_p in E. destruct (read_fd i d (pheap p1)) as [[r h1]|]; [|done].
    case_bool_decide as Hr.
    { simplify_eq. apply (moved_intro t (RdBody d) (RdLock d) (cond_signal wake_r (in_wake i) (threads p)));
        [simpl; by rewrite Et|eapply (mv_src_item _ _ _ _ _ _ n); try done; lia|].
      unfold flags_ok. simpl. by rewrite Er, Ee, Eha, Esz. }
    destruct (strcmp_done d _) as [[z h2]|]; [|done]. case_bool_decide as Hz.
    { simplify_eq. apply (moved_intro t (RdBody d) Exit (cond_signal wake_r (in_wake i) (threads p)));
        [simpl; by rewrite Et|eapply (mv_src_last _ _ _ _ _ n); try done; lia|].
      unfold flags_ok. simpl. by rewrite Er, Ee, Eha, Esz. }
    destruct (op_ins d _ _) as [[b h3]|] eqn:Ei; [|done]. simplify_eq.
    apply (moved_intro t (RdBody d) (RdLock d) (cond_signal wake_r (in_wake i) (threads p)));
      [simpl; by rewrite Et|eapply (mv_src_item _ _ _ _ _ _ n); try done; lia|].
    unfold flags_ok. simpl. rewrite Ee, Eha, Esz.
    apply buffer_ins_done in Ei. simpl in Ei. by rewrite Ei, Er.
Qed.

Lemma must_wait_true b : must_wait b = true → w_head b = None ∧ w_done b = 0.
Proof. unfold must_wait. rewrite andb_true_iff, !bool_decide_eq_true. done. Qed.
Lemma must_stop_true b : must_stop b = true → w_head b = None ∧ w_done b ≠ 0.
Proof. unfold must_stop. rewrite andb_true_iff, !bool_decide_eq_true. naive_solver. Qed.
Lemma must_false b : must_wait b = false → must_stop b = false → w_head b ≠ None.
Proof.
  unfold must_wait, must_stop. rewrite !andb_false_iff, !bool_decide_eq_false.
  destruct (decide (w_done b = 0)); naive_solver.
Qed.

Lemma elaborate_move t c i p p' e :
  match c with ElLock | ElCheck | ElWait | ElWake | ElConv _ | ElLockE _ | ElIns _ => True
  | _ => False end →
  elaborate_data t c i p = Some (Ok (p', e)) → moved t c p p' e.
Proof.
  intros Hc E. destruct c as [| | | | | | | | |d|d|d| | | | | | | | | | | | | | | | |]; try done;
    simpl in E; try (by eapply lock_r_move); try (by eapply lock_e_move).
  - destruct (must_wait (rbuffer p)) eqn:Ew.
    { apply must_wait_true in Ew as [? ?]. unfold pgo in E. simplify_eq.
      by apply (moved_intro t ElCheck ElWait (threads p)); [done|apply mv_el_wait|]. }
    destruct (must_stop (rbuffer p)) eqn:Es.
    { apply must_stop_true in Es as [? ?]. unfold pgo in E. simplify_eq.
      by apply (moved_intro t ElCheck Exit (threads p)); [done|apply mv_el_stop|]. }
    pose proof (must_false _ Ew Es).
    unfold run_p in E. destruct (op_ext _ _) as [[[d b] h1]|] eqn:Ex; [|done].
    unfold pgo in E. simplify_eq. apply buffer_ext_done in Ex.
    by apply (moved_intro t ElCheck (ElConv d) (threads p)); [done|apply mv_el_ext|].
  - unfold run_p in E. destruct (op_conv _ _) as [[[] h]|]; [|done]. unfold pgo in E. simplify_eq.
    by apply (moved_intro t (ElConv d) (ElLockE d) (threads p)); [done|apply mv_el_conv|].
  - unfold run_p in E. destruct (op_ins _ _ _) as [[b h]|] eqn:Ei; [|done]. unfold pgo in E. simplify_eq.
    apply buffer_ins_done in Ei.
    by apply (moved_intro t (ElIns d) ElLock (cond_signal wake_e (in_wake i) (threads p)));
      [done|apply mv_el_ins|].
Qed.

Lemma write_move t c i p p' e :
  match c with WrLock | WrCheck | WrWait | WrWake | WrTry _ _ | WrEnd _ _ => True | _ => False end →
  write_dev t c i p = Some (Ok (p', e)) → moved t c p p' e.
Proof.
  intros Hc E. destruct c as [| | | | | | | | | | | | | | | |d n|d n| | | | | | | | | | |]; try done;
    simpl in E; try (by eapply lock_e_move).
  - destruct (must_wait (ebuffer p)) eqn:Ew.
    { apply must_wait_true in Ew as [? ?]. unfold pgo in E. simplify_eq.
      by apply (moved_intro t WrCheck WrWait (threads p)); [done|apply mv_sink_wait|]. }
    destruct (must_stop (ebuffer p)) eqn:Es.
    { apply must_stop_true in Es as [? ?]. unfold pgo in E. simplify_eq.
      by apply (moved_intro t WrCheck Exit (threads p)); [done|apply mv_sink_stop|]. }
    pose proof (must_false _ Ew Es).
    unfold run_p in E. destruct (op_ext _ _) as [[[d b] h1]|] eqn:Ex; [|done].
    unfold pgo in E. simplify_eq. apply buffer_ext_done in Ex.
    by apply (moved_intro t WrCheck (WrTry d 0) (threads p)); [done|apply mv_write_ext|].
  - unfold run_p, pgo in E. case_bool_decide as Hlt.
    + destruct (strlen d (pheap p)) as [[z h]|]; [|done]. case_bool_decide; simplify_eq.
      * by apply (moved_intro t (WrTry d n) (WrTry d (n + 1)) (threads p)); [done|apply mv_write_retry|].
      * apply (moved_intro t (WrTry d n) (WrEnd d n) (threads p)); [done|apply mv_write_over|];
          try done; [by eauto|lia].
    + simplify_eq. apply (moved_intro t (WrTry d n) (WrEnd d n) (threads p));
        [done|apply mv_write_over|]; try done; lia.
  - unfold pgo in E. simplify_eq.
    apply (moved_intro t (WrEnd d n) WrLock (threads p)); [done|apply mv_write_end|]; try done.
    + intros ->. rewrite bool_decide_true by done. eauto.
    + intros Hn. by rewrite bool_decide_false.
Qed.

Lemma print_move t c p p' e :
  match c with PrLock | PrCheck | PrWait | PrWake => True | _ => False end →
  print_data t c p = Some (Ok (p', e)) → moved t c p p' e.
Proof.
  intros Hc E. destruct c; try done; simpl in E; try (by eapply lock_e_move).
  destruct (must_wait (ebuffer p)) eqn:Ew.
  { apply must_wait_true in Ew as [? ?]. unfold pgo in E. simplify_eq.
    by apply (moved_intro t PrCheck PrWait (threads p)); [done|apply mv_sink_wait|]. }
  destruct (must_stop (ebuffer p)) eqn:Es.
  { apply must_stop_true in Es as [? ?]. unfold pgo in E. simplify_eq.
    by apply (moved_intro t PrCheck Exit (threads p)); [done|apply mv_sink_stop|]. }
  pose proof (must_false _ Ew Es).
  unfold run_p in E. destruct (op_ext _ _) as [[[d b] h1]|] eqn:Ex; [|done].
  unfold pgo in E. simplify_eq. apply buffer_ext_done in Ex.
  by apply (moved_intro t PrCheck PrLock (threads p)); [done|apply mv_print_ext|].
Qed.

Lemma main_move t c i p p' e :
  match c with JoinT _ _ | RelLock _ | RelSet _ | SendDone _ | Closing => True | _ => False end →
  main_closing t c i p = Some (Ok (p', e)) → moved t c p p' e.
Proof.
  intros Hc E. destruct c as [| | | | | | | | | | | | | | | | | | | | | | |k n|k|k|n| |]; try done;
    cbn [main_closing] in E.
  - unfold wait_for, pgo in E. case_bool_decide as Hn; [case_bool_decide; [|done]|]; simplify_eq.
    + by apply (moved_intro t (JoinT k n) (JoinT k (S n)) (threads p)); [done|apply mv_join_next|].
    + by eapply (moved_intro t (JoinT k n) _ (threads p)); [done|apply mv_join_done; [lia|..]|].
  - unfold release_t in E. case_bool_decide; subst; [by eapply lock_r_move|].
    eapply lock_e_move; [done|]. by destruct k.
  - unfold release_t, pgo in E. case_bool_decide; subst; simplify_eq.
    + by apply (moved_intro t (RelSet 0) (JoinT 1 0) (cond_broadcast wake_r (threads p)));
        [done|apply mv_rel_r|].
    + destruct k as [|k]; [done|].
      apply (moved_intro t (RelSet (S k)) (JoinT (S (S k)) 0) (cond_broadcast wake_e (threads p)));
        [done|by apply mv_rel_e|]. repeat split; try done. intros H0. by destruct (H0 k).
  - unfold dev_done, pgo in E. destruct (_ && _) eqn:Ea; simplify_eq.
    + apply andb_true_iff in Ea as [Ea%bool_decide_eq_true _].
      by apply (moved_intro t (SendDone n) (SendDone (n + 1)) (threads p)); [done|apply mv_send|].
    + by apply (moved_intro t (SendDone n) Closing (threads p)); [done|apply mv_sent|].
  - unfold dev_close, pgo in E. simplify_eq.
    by eapply (moved_intro t Closing _ (threads p)); [done|apply mv_close|].
Qed.

(** Every step of a thread is in the table. *)
Lemma exec_move t i p p' e :
  pexec t i p = Some (Ok (p', e)) → ∃ c, threads p !! t = Some c ∧ moved t c p p' e.
Proof.
  intros E. unfold pexec in E. destruct (threads p !! t) as [c|]; [|done]. exists c. split; [done|].
  destruct c; try done.
  all: try (by eapply read_move).
  all: try (by eapply elaborate_move).
  all: try (by eapply write_move).
  all: try (by eapply print_move).
  all: try (by eapply main_move).
  all: eapply create_move; eauto.
Qed.

End moves.
