(* ===== verification/PipelineDone.v ===== *)
(** * The stages end in order

    On a run without SIGINT: the threads of a stage end only when the buffer
    in front of it is closed and empty, a closed buffer gets nothing more, and
    some thread can always run until main has finished. *)

From stdpp Require Import base numbers list option gmap.
From S2P Require Import Prelude Memory CList Fun Buffer Pipeline PipelineInv PipelineMove PipelineLive.
Local Open Scope Z_scope.

(** ** Roles *)

(** The stage a program point belongs to; 3 is main, 4 a thread that ended. *)
Definition kind (c : ppc) : nat :=
  match c with
  | CrLock | CrBody | RdInit | RdLock _ | RdBody _ => 0
  | ElLock | ElCheck | ElWait | ElWake | ElConv _ | ElLockE _ | ElIns _ => 1
  | WrLock | WrCheck | WrWait | WrWake | WrTry _ _ | WrEnd _ _
  | PrLock | PrCheck | PrWait | PrWake => 2
  | JoinT _ _ | RelLock _ | RelSet _ | SendDone _ | Closing | Finished _ => 3
  | Exit => 4
  end.

(** The stage of a thread, by its index. *)
Definition role (p : proc) (t : nat) : nat :=
  let '(a, b, _) := sizes p in
  if decide (t = 0)%nat then 3
  else if decide (t ≤ a)%nat then 0 else if decide (t ≤ a + b)%nat then 1 else 2.

Definition in_role (k : nat) (c : ppc) : Prop := kind c = k ∨ (c = Exit ∧ k ≠ 3%nat).

(** Number of all threads. *)
Definition total (p : proc) : nat :=
  let '(a, b, c) := sizes p in (1 + a + b + c)%nat.

Lemma move_kind sends p p' t c c' ts e :
  move sends p p' t c c' ts e → kind c' = kind c ∨ (c' = Exit ∧ kind c ≠ 3%nat).
Proof. destruct 1; repeat case_match; simplify_eq/=; (by left) || (by right). Qed.

Lemma wake_kind c c' : wake_r c = Some c' ∨ wake_e c = Some c' → kind c' = kind c.
Proof. intros [E|E]; destruct c; simplify_eq/=; done. Qed.

(** A thread that ended stays where it is. *)
Lemma move_not_exit sends p p' t c c' ts e : move sends p p' t c c' ts e → c ≠ Exit.
Proof. destruct 1; repeat case_match; simplify_eq/=; done. Qed.

Lemma after_exit t c c' ts p p' t0 :
  after t c' ts p p' → threads p !! t = Some c → c ≠ Exit →
  threads p !! t0 = Some Exit → threads p' !! t0 = Some Exit.
Proof.
  intros Ha Hc Hne H0. assert (t0 ≠ t) by (intros ->; congruence).
  by destruct (after_other _ _ _ _ _ _ _ Ha ltac:(done) H0) as (c0 & ? & [->|[?|?]]).
Qed.

(** All threads of a stage have ended. *)
Definition exited (k : nat) (p : proc) : Prop :=
  ∀ t, role p t = k → (t < total p)%nat → threads p !! t = Some Exit.

(** How far main has got: the stages below are joined. *)
Definition main_stage (c : ppc) : nat :=
  match c with
  | JoinT k _ | RelLock k | RelSet k => k
  | _ => 3
  end.

Definition main_ok (p : proc) (c : ppc) : Prop :=
  match c with
  | JoinT k i => (k ≤ 2)%nat ∧ (i ≤ stage_size k p)%nat ∧
      (∀ k', (k' < k)%nat → exited k' p) ∧
      (∀ j, (j < i)%nat → threads p !! (stage_base k p + j)%nat = Some Exit)
  | RelLock k | RelSet k => (k < 2)%nat ∧ ∀ k', (k' ≤ k)%nat → exited k' p
  | SendDone n => 0 ≤ n ≤ MAX_RETRY + 1 ∧ ∀ k', (k' < 3)%nat → exited k' p
  | Closing | Finished _ => ∀ k', (k' < 3)%nat → exited k' p
  | _ => False
  end.

(** Sleepers in front of the two buffers. *)
Definition sleeps_r (c : ppc) : bool := match c with ElWait => true | _ => false end.
Definition sleeps_e (c : ppc) : bool := match c with WrWait | PrWait => true | _ => false end.

Record live (p : proc) : Prop := {
  lv_len : length (threads p) = total p;
  lv_role t c : threads p !! t = Some c → in_role (role p t) c;
  lv_main : ∃ c, threads p !! 0%nat = Some c ∧ main_ok p c ∧
    ((1 ≤ main_stage c)%nat → w_done (rbuffer p) ≠ 0) ∧
    ((2 ≤ main_stage c)%nat → w_done (ebuffer p) ≠ 0);
  lv_rdone : w_done (rbuffer p) ≠ 0 → exited 0 p ∧
    ∀ t c, threads p !! t = Some c → sleeps_r c = false;
  lv_edone : w_done (ebuffer p) ≠ 0 → exited 1 p ∧
    ∀ t c, threads p !! t = Some c → sleeps_e c = false;
  lv_rempty t : role p t = 1%nat → threads p !! t = Some Exit →
    w_head (rbuffer p) = None ∧ w_done (rbuffer p) ≠ 0;
  lv_eempty t : role p t = 2%nat → threads p !! t = Some Exit →
    w_head (ebuffer p) = None ∧ w_done (ebuffer p) ≠ 0 }.

(** ** Indices *)

Lemma role_base k p i :
  (k < 3)%nat → (i < stage_size k p)%nat →
  role p (stage_base k p + i) = k ∧ (stage_base k p + i < total p)%nat.
Proof.
  unfold role, stage_base, stage_size, total. destruct (sizes p) as [[a b] c].
  destruct k as [|[|[|k]]]; intros Hk Hi; try lia; simpl; repeat case_decide; lia.
Qed.

Lemma exited_intro k p :
  (k < 3)%nat →
  (∀ i, (i < stage_size k p)%nat → threads p !! (stage_base k p + i)%nat = Some Exit) → exited k p.
Proof.
  unfold exited, role, stage_base, stage_size, total. destruct (sizes p) as [[a b] c].
  intros Hk Hex t Hr Ht. repeat case_decide; subst; try lia.
  - replace t with (1 + (t - 1))%nat by lia. apply Hex. lia.
  - replace t with (1 + a + (t - 1 - a))%nat by lia. apply Hex. lia.
  - replace t with (1 + a + b + (t - 1 - a - b))%nat by lia. apply Hex. lia.
Qed.

Lemma same_role p p' t : sizes p' = sizes p → role p' t = role p t.
Proof. unfold role. by intros ->. Qed.
Lemma same_size p p' k : sizes p' = sizes p → stage_size k p' = stage_size k p.
Proof. unfold stage_size. by intros ->. Qed.
Lemma same_base p p' k : sizes p' = sizes p → stage_base k p' = stage_base k p.
Proof. unfold stage_base. by intros ->. Qed.
Lemma same_total p p' : sizes p' = sizes p → total p' = total p.
Proof. unfold total. by intros ->. Qed.

(** What was joined stays joined. *)
Lemma exited_after k t c c' ts p p' :
  after t c' ts p p' → threads p !! t = Some c → c ≠ Exit → sizes p' = sizes p →
  exited k p → exited k p'.
Proof.
  intros Ha Hc Hne Hs Hex t0 Hr Ht. rewrite (same_role _ _ _ Hs) in Hr. rewrite (same_total _ _ Hs) in Ht.
  eapply after_exit; eauto.
Qed.

Lemma main_ok_after t c c' ts p p' cm :
  after t c' ts p p' → threads p !! t = Some c → c ≠ Exit → sizes p' = sizes p →
  main_ok p cm → main_ok p' cm.
Proof.
  intros Ha Hc Hne Hs. destruct cm; simpl; try done;
    rewrite ?(same_size _ _ _ Hs), ?(same_base _ _ _ Hs).
  - intros (? & ? & Hk & Hj). repeat split; try done.
    + intros k' Hk'. eapply exited_after; eauto.
    + intros j Hlt. eapply after_exit; eauto.
  - intros (? & Hk). split; [done|]. intros k' Hk'. eapply exited_after; eauto.
  - intros (? & Hk). split; [done|]. intros k' Hk'. eapply exited_after; eauto.
  - intros (? & Hk). split; [done|]. intros k' Hk'. eapply exited_after; eauto.
  - intros Hk k' Hk'. eapply exited_after; eauto.
  - intros Hk k' Hk'. eapply exited_after; eauto.
Qed.

(** ** What the table says about the buffers *)

Lemma move_head_r sends p p' t c c' ts e :
  move sends p p' t c c' ts e →
  w_head (rbuffer p') = w_head (rbuffer p) ∨ kind c = 0%nat ∨ w_head (rbuffer p) ≠ None.
Proof.
  destruct 1; unfold same_bufs in *; repeat case_match; simplify_eq/=; try (by auto);
    left; intuition congruence.
Qed.

Lemma move_head_e sends p p' t c c' ts e :
  move sends p p' t c c' ts e →
  w_head (ebuffer p') = w_head (ebuffer p) ∨ kind c = 1%nat ∨ w_head (ebuffer p) ≠ None.
Proof.
  destruct 1; unfold same_bufs in *; repeat case_match; simplify_eq/=; try (by auto);
    left; intuition congruence.
Qed.

Lemma move_exit sends p p' t c ts e :
  move sends p p' t c Exit ts e →
  kind c = 0%nat ∨
  (kind c = 1%nat ∧ w_head (rbuffer p) = None ∧ w_done (rbuffer p) ≠ 0) ∨
  (kind c = 2%nat ∧ w_head (ebuffer p) = None ∧ w_done (ebuffer p) ≠ 0).
Proof. inversion 1; repeat case_match; simplify_eq/=; tauto. Qed.

Lemma move_sleep sends p p' t c c' ts e :
  move sends p p' t c c' ts e →
  (sleeps_r c' = true → w_done (rbuffer p) = 0) ∧ (sleeps_e c' = true → w_done (ebuffer p) = 0).
Proof. destruct 1; repeat case_match; simplify_eq/=; done. Qed.

Lemma wake_not_sleep c c' :
  wake_r c = Some c' ∨ wake_e c = Some c' → sleeps_r c' = false ∧ sleeps_e c' = false.
Proof. intros [E|E]; destruct c; simplify_eq/=; done. Qed.

Lemma broadcast_no_sleeper_r ts t c :
  cond_broadcast wake_r ts !! t = Some c → sleeps_r c = false.
Proof.
  unfold cond_broadcast. rewrite list_lookup_fmap.
  destruct (ts !! t) as [c0|]; [|done]. intros [= <-]. by destruct c0.
Qed.
Lemma broadcast_no_sleeper_e ts t c :
  cond_broadcast wake_e ts !! t = Some c → sleeps_e c = false.
Proof.
  unfold cond_broadcast. rewrite list_lookup_fmap.
  destruct (ts !! t) as [c0|]; [|done]. intros [= <-]. by destruct c0.
Qed.

(** What main's own steps do. *)
Lemma move_main sends p p' t c c' ts e :
  move sends p p' t c c' ts e → kind c = 3%nat → main_ok p c → after t c' ts p p' →
  threads p !! t = Some c → sizes p' = sizes p → (length (threads p) = total p) →
  main_ok p' c' ∧
  (main_stage c' = main_stage c ∨
   (main_stage c' = 1%nat ∧ w_done (rbuffer p') = 1) ∨
   (main_stage c' = 2%nat ∧ main_stage c = 1%nat ∧ w_done (ebuffer p') = 1) ∨
   main_stage c = 2%nat ∧ main_stage c' = 3%nat).
Proof.
  intros Hm Hk Hok Ha Hc Hs Hlen.
  assert (main_ok p c' → main_ok p' c') as Hlift.
  { eapply main_ok_after; [done|done| |done]. by intros ->. }
  destruct Hm; try done; try (by repeat case_match).
  - destruct c, c'; try done; destruct stage; try done. destruct stage0; [|done].
    split; [by apply Hlift|by left].
  - destruct c, c'; try done; destruct stage; try done. subst.
    split; [by apply Hlift|by left].
  - destruct Hok as (Hk2 & Hi & Hlow & Hj). split; [|by left]. apply Hlift.
    split; [done|]. split; [lia|]. split; [done|]. intros j Hlt.
    destruct (decide (j = i)) as [->|]; [done|]. apply Hj. lia.
  - destruct Hok as (Hk2 & Hi & Hlow & Hj). assert (i = stage_size k p) as -> by lia.
    assert (exited k p) as Hex by (apply exited_intro; [lia|done]).
    case_bool_decide; subst c'.
    + split; [|by left]. apply Hlift. split; [done|]. intros k' Hk'.
      destruct (decide (k' = k)) as [->|]; [done|]. apply Hlow. lia.
    + assert (k = 2%nat) as -> by lia.
      assert (∀ k', (k' < 3)%nat → exited k' p) as Hall.
      { intros k' Hk'. destruct (decide (k' = 2%nat)) as [->|]; [done|]. apply Hlow. lia. }
      split; [|right; right; right; by destruct sends]. apply Hlift.
      destruct sends; [|done]. split; [done|done].
  - destruct Hok as [_ Hex]. split; [|right; by left]. apply Hlift. split; [lia|]. split; [lia|].
    split; [|lia]. intros k' Hk'. apply Hex. lia.
  - destruct Hok as [Hk2 Hex]. assert (k = 0%nat) as -> by lia.
    split; [|right; right; by left]. apply Hlift. split; [lia|]. split; [lia|].
    split; [|lia]. intros k' Hk'. apply Hex. lia.
  - destruct Hok as [Hn Hex]. split; [|by left]. apply Hlift. split; [unfold MAX_RETRY in *; lia|done].
  - destruct Hok as [Hn Hex]. split; [|by left]. by apply Hlift.
  - split; [|by left]. by apply Hlift.
Qed.

(** Threads keep their roles. *)
Lemma roles_move sends p p' t c c' ts e :
  (∀ t0 c0, threads p !! t0 = Some c0 → in_role (role p t0) c0) → threads p !! t = Some c →
  move sends p p' t c c' ts e → after t c' ts p p' → sizes p' = sizes p →
  ∀ t0 c0, threads p' !! t0 = Some c0 → in_role (role p' t0) c0.
Proof.
  intros HR Hc Hm Ha Hs t0 c0 H0. rewrite (same_role _ _ _ Hs).
  destruct (after_cases _ _ _ _ _ _ _ Ha H0) as [[-> ->]|[Hne (c1 & H1 & E)]].
  - pose proof (HR _ _ Hc) as Hr. pose proof (move_not_exit _ _ _ _ _ _ _ _ Hm) as Hne.
    assert (kind c = role p t) as Hk by by destruct Hr as [?|[? _]].
    destruct (move_kind _ _ _ _ _ _ _ _ Hm) as [Ek|[-> Ek]]; [left; by rewrite Ek|right; by rewrite <- Hk].
  - pose proof (HR _ _ H1) as Hr. destruct E as [->|E]; [done|].
    left. rewrite (wake_kind _ _ E). destruct Hr as [?|[-> _]]; [done|]. by destruct E.
Qed.

(** Main moves on or stays where it is. *)
Lemma main_move_ok sends p p' t c c' ts e :
  length (threads p) = total p → (∀ t0 c0, threads p !! t0 = Some c0 → in_role (role p t0) c0) →
  (∃ cm, threads p !! 0%nat = Some cm ∧ main_ok p cm) → threads p !! t = Some c →
  move sends p p' t c c' ts e → after t c' ts p p' → sizes p' = sizes p →
  ∃ cm, threads p' !! 0%nat = Some cm ∧ main_ok p' cm.
Proof.
  intros Hl HR (cm & H0 & Hok) Hc Hm Ha Hs. pose proof (move_not_exit _ _ _ _ _ _ _ _ Hm) as Hnx.
  destruct (decide (t = 0)%nat) as [->|Hne].
  - rewrite Hc in H0. injection H0 as <-. exists c'. split; [by eapply after_same|].
    assert (kind c = 3%nat) as Hk.
    { destruct (HR _ _ Hc) as [->|[-> _]]; [|done]. unfold role. destruct (sizes p) as [[??]?]. by rewrite decide_True. }
    by destruct (move_main _ _ _ _ _ _ _ _ Hm Hk Hok Ha Hc Hs Hl).
  - destruct (after_other _ _ _ _ _ _ _ Ha (not_eq_sym Hne) H0) as (c1 & Hc1 & E).
    assert (c1 = cm) as -> by (destruct E as [->|E]; [done|]; destruct cm; try done; by destruct E).
    exists cm. split; [done|]. by eapply main_ok_after.
Qed.
