(* ===== verification/PipelineProgress.v ===== *)
(** * Progress of the processes

    The order of the stages is an invariant of undisturbed runs, and from it
    follows that the process is never stuck before main has finished. *)

From stdpp Require Import base numbers list option gmap.
From S2P Require Import Prelude Memory CList Fun Buffer Pipeline PipelineInv PipelineMove PipelineLive PipelineDone.
Local Open Scope Z_scope.

(** ** Preservation *)

Section preserved.
Context (sends : bool) (p p' : proc) (t : nat) (c c' : ppc) (ts : list ppc) (e : list pevent).
Context (L : live p) (Hc : threads p !! t = Some c) (Hm : move sends p p' t c c' ts e).
Context (Ha : after t c' ts p p') (Hf : flags_ok c p p').

Lemma step_sizes : sizes p' = sizes p.
Proof using Hf. by destruct Hf as (_ & ? & _). Qed.

Lemma step_not_exit : c ≠ Exit.
Proof using Hm. by eapply move_not_exit. Qed.

Lemma step_kind : kind c = role p t.
Proof using L Hc Hm.
  destruct (lv_role _ L _ _ Hc) as [?|[? _]]; [done|]. by destruct step_not_exit.
Qed.

Lemma step_exited k : exited k p → exited k p'.
Proof using Hm Hc Ha Hf. eapply exited_after; [done|done|apply step_not_exit|apply step_sizes]. Qed.

(** [done] is set by [release_t] and never taken back. *)
Lemma step_rdone :
  w_done (rbuffer p') = w_done (rbuffer p) ∨
  (c = RelSet 0 ∧ w_done (rbuffer p') = 1 ∧ ts = cond_broadcast wake_r (threads p)).
Proof using L Hc Hm Ha Hf.
  destruct Hf as (_ & _ & Hr & _).
  destruct (decide (c = RelSet 0)) as [E|Hne]; [right|left; by apply Hr].
  split; [done|]. clear - Hm E. destruct Hm; repeat case_match; simplify_eq; done.
Qed.

Lemma step_edone :
  w_done (ebuffer p') = w_done (ebuffer p) ∨
  ((∃ k, c = RelSet (S k)) ∧ w_done (ebuffer p') = 1 ∧ ts = cond_broadcast wake_e (threads p)).
Proof using L Hc Hm Ha Hf.
  destruct Hf as (_ & _ & _ & He).
  assert ((∃ k, c = RelSet (S k)) ∨ ∀ k, c ≠ RelSet (S k)) as [[k E]|Hne];
    [destruct c as [| | | | | | | | | | | | | | | | | | | | | | | | |[|k]| | |]; try (by right); left; eauto
    |right|left; by apply He].
  split; [eauto|]. clear - Hm E. destruct Hm; repeat case_match; simplify_eq; done.
Qed.

Lemma step_roles t0 c0 : threads p' !! t0 = Some c0 → in_role (role p' t0) c0.
Proof using L Hc Hm Ha Hf. eapply roles_move; [apply L|done|done|done|apply step_sizes]. Qed.

(** Main moves on or stays where it is. *)
Lemma step_main :
  ∃ cm, threads p' !! 0%nat = Some cm ∧ main_ok p' cm ∧
    ((1 ≤ main_stage cm)%nat → w_done (rbuffer p') ≠ 0) ∧
    ((2 ≤ main_stage cm)%nat → w_done (ebuffer p') ≠ 0).
Proof using L Hc Hm Ha Hf.
  destruct (lv_main _ L) as (cm & H0 & Hok & H1 & H2).
  assert (w_done (rbuffer p) ≠ 0 → w_done (rbuffer p') ≠ 0) as Dr
    by (destruct step_rdone as [->|(_ & -> & _)]; done).
  assert (w_done (ebuffer p) ≠ 0 → w_done (ebuffer p') ≠ 0) as De
    by (destruct step_edone as [->|(_ & -> & _)]; done).
  pose proof step_kind as Hsk. pose proof step_sizes as Hss. pose proof step_not_exit as Hnx.
  destruct (decide (t = 0)%nat) as [->|Hne].
  - rewrite Hc in H0. injection H0 as <-. exists c'. split; [by eapply after_same|].
    assert (kind c = 3%nat) as Hk.
    { rewrite Hsk. unfold role. destruct (sizes p) as [[??]?]. by rewrite decide_True. }
    destruct (move_main _ _ _ _ _ _ _ _ Hm Hk Hok Ha Hc Hss (lv_len _ L)) as [Hok' Hst].
    split; [done|]. destruct Hst as [E|[[E Ed]|[(E & E' & Ed)|[E E']]]].
    + rewrite E. auto.
    + rewrite E, Ed. split; [done|lia].
    + rewrite E, Ed. split; [|done]. intros _. apply Dr, H1. lia.
    + rewrite E'. split; intros _; [apply Dr, H1|apply De, H2]; lia.
  - destruct (after_other _ _ _ _ _ _ _ Ha (not_eq_sym Hne) H0) as (c1 & Hc1 & E).
    assert (c1 = cm) as ->.
    { destruct E as [->|E]; [done|]. destruct cm; try done; by destruct E. }
    exists cm. split; [done|]. split; [|auto].
    by eapply main_ok_after.
Qed.

Lemma step_rsleep :
  w_done (rbuffer p') ≠ 0 → exited 0 p' ∧ ∀ t0 c0, threads p' !! t0 = Some c0 → sleeps_r c0 = false.
Proof using L Hc Hm Ha Hf.
  intros Hd. pose proof step_kind as Hsk. pose proof step_exited as Hse.
  destruct step_rdone as [E|(Ec & Ed & Ets)].
  - rewrite E in Hd. destruct (lv_rdone _ L Hd) as [Hex Hsl]. split; [by apply Hse|].
    intros t0 c0 H0. destruct (after_cases _ _ _ _ _ _ _ Ha H0) as [[-> ->]|[_ (c1 & H1 & E1)]].
    + destruct (sleeps_r c') eqn:Es; [|done]. by apply (proj1 (move_sleep _ _ _ _ _ _ _ _ Hm)) in Es.
    + destruct E1 as [->|E1]; [by eapply Hsl|]. by apply (wake_not_sleep c1).
  - assert (t = 0%nat) as Et.
    { pose proof Hsk as Ek. rewrite Ec in Ek. unfold role in Ek.
      destruct (sizes p) as [[??]?]. by repeat case_decide. }
    destruct (lv_main _ L) as (cm & H0 & Hok & _). rewrite Et in Hc. rewrite Hc in H0.
    injection H0 as <-. rewrite Ec in Hok. destruct Hok as [_ Hex].
    split; [apply Hse, Hex; lia|]. intros t0 c0 H0.
    destruct Ha as (E' & _). rewrite E' in H0.
    apply list_lookup_insert_Some in H0 as [(_ & <- & _)|[_ H0]].
    + destruct Hm; repeat case_match; simplify_eq; done.
    + rewrite Ets in H0. by eapply broadcast_no_sleeper_r.
Qed.

Lemma step_esleep :
  w_done (ebuffer p') ≠ 0 → exited 1 p' ∧ ∀ t0 c0, threads p' !! t0 = Some c0 → sleeps_e c0 = false.
Proof using L Hc Hm Ha Hf.
  intros Hd. pose proof step_kind as Hsk. pose proof step_exited as Hse.
  destruct step_edone as [E|((k & Ec) & Ed & Ets)].
  - rewrite E in Hd. destruct (lv_edone _ L Hd) as [Hex Hsl]. split; [by apply Hse|].
    intros t0 c0 H0. destruct (after_cases _ _ _ _ _ _ _ Ha H0) as [[-> ->]|[_ (c1 & H1 & E1)]].
    + destruct (sleeps_e c') eqn:Es; [|done]. by apply (proj2 (move_sleep _ _ _ _ _ _ _ _ Hm)) in Es.
    + destruct E1 as [->|E1]; [by eapply Hsl|]. by apply (wake_not_sleep c1).
  - assert (t = 0%nat) as Et.
    { pose proof Hsk as Ek. rewrite Ec in Ek. unfold role in Ek.
      destruct (sizes p) as [[??]?]. by repeat case_decide. }
    destruct (lv_main _ L) as (cm & H0 & Hok & _). rewrite Et in Hc. rewrite Hc in H0.
    injection H0 as <-. rewrite Ec in Hok. destruct Hok as [_ Hex].
    split; [apply Hse, Hex; lia|]. intros t0 c0 H0.
    destruct Ha as (E' & _). rewrite E' in H0.
    apply list_lookup_insert_Some in H0 as [(_ & <- & _)|[_ H0]].
    + destruct Hm; repeat case_match; simplify_eq; done.
    + rewrite Ets in H0. by eapply broadcast_no_sleeper_e.
Qed.

(** A thread at [Exit] was there before or has just stopped. *)
Lemma step_exit_cases t0 :
  threads p' !! t0 = Some Exit → threads p !! t0 = Some Exit ∨ (t0 = t ∧ c' = Exit).
Proof using Ha.
  intros H0. destruct (after_cases _ _ _ _ _ _ _ Ha H0) as [[-> E]|[_ (c1 & H1 & E1)]]; [by right|].
  left. destruct E1 as [->|E1]; [done|]. destruct c1; by destruct E1.
Qed.

Lemma step_rempty t0 :
  role p' t0 = 1%nat → threads p' !! t0 = Some Exit →
  w_head (rbuffer p') = None ∧ w_done (rbuffer p') ≠ 0.
Proof using L Hc Hm Ha Hf.
  intros Hr H0. rewrite (same_role _ _ _ step_sizes) in Hr.
  pose proof step_kind as Hsk. pose proof step_not_exit as Hnx.
  assert (w_head (rbuffer p) = None ∧ w_done (rbuffer p) ≠ 0) as [Hh Hd].
  { destruct (step_exit_cases _ H0) as [H1|[-> ->]]; [by eapply lv_rempty|].
    destruct (move_exit _ _ _ _ _ _ _ Hm) as [E|[(_ & ? & ?)|(E & _)]]; [|done|];
      rewrite Hsk in E; congruence. }
  split.
  - destruct (move_head_r _ _ _ _ _ _ _ _ Hm) as [->|[E|?]]; [done| |done].
    destruct (lv_rdone _ L Hd) as [Hex _].
    assert (c = Exit) as Ec; [|done].
    rewrite (Hex t) in Hc; [congruence|by rewrite <- Hsk|].
    rewrite <- (lv_len _ L). by eapply lookup_lt_Some.
  - by destruct step_rdone as [->|(_ & -> & _)].
Qed.

Lemma step_eempty t0 :
  role p' t0 = 2%nat → threads p' !! t0 = Some Exit →
  w_head (ebuffer p') = None ∧ w_done (ebuffer p') ≠ 0.
Proof using L Hc Hm Ha Hf.
  intros Hr H0. rewrite (same_role _ _ _ step_sizes) in Hr.
  pose proof step_kind as Hsk. pose proof step_not_exit as Hnx.
  assert (w_head (ebuffer p) = None ∧ w_done (ebuffer p) ≠ 0) as [Hh Hd].
  { destruct (step_exit_cases _ H0) as [H1|[-> ->]]; [by eapply lv_eempty|].
    destruct (move_exit _ _ _ _ _ _ _ Hm) as [E|[(E & _)|(_ & ? & ?)]]; [| |done];
      rewrite Hsk in E; congruence. }
  split.
  - destruct (move_head_e _ _ _ _ _ _ _ _ Hm) as [->|[E|?]]; [done| |done].
    destruct (lv_edone _ L Hd) as [Hex _].
    assert (c = Exit) as Ec; [|done].
    rewrite (Hex t) in Hc; [congruence|by rewrite <- Hsk|].
    rewrite <- (lv_len _ L). by eapply lookup_lt_Some.
  - by destruct step_edone as [->|(_ & -> & _)].
Qed.

Lemma live_move : live p'.
Proof using L Hc Hm Ha Hf.
  split.
  - rewrite (after_length _ _ _ _ _ Ha), (same_total _ _ step_sizes). apply L.
  - apply step_roles.
  - apply step_main.
  - apply step_rsleep.
  - apply step_esleep.
  - apply step_rempty.
  - apply step_eempty.
Qed.

End preserved.

(** A wake-up keeps the invariant. *)
Lemma live_wake p p' t c c' :
  live p → threads p !! t = Some c → wake_r c = Some c' ∨ wake_e c = Some c' →
  after t c' (threads p) p p' → same_flags p p' → same_bufs p p' → live p'.
Proof.
  intros L Hc Hw Ha (_ & _ & _ & Hs) [Er Ee].
  assert (c ≠ Exit ∧ kind c ≠ 3%nat) as [Hne Hnm] by (destruct Hw; by destruct c).
  assert (∀ t0 c0, threads p' !! t0 = Some c0 →
    ∃ c1, threads p !! t0 = Some c1 ∧ (c0 = c1 ∨ wake_r c1 = Some c0 ∨ wake_e c1 = Some c0)) as Hback.
  { intros t0 c0 H0. destruct (after_cases _ _ _ _ _ _ _ Ha H0) as [[-> ->]|[_ ?]]; eauto. }
  assert (∀ t0, threads p' !! t0 = Some Exit → threads p !! t0 = Some Exit) as Hexit.
  { intros t0 (c1 & H1 & [->|E])%Hback; [done|]. destruct c1; by destruct E. }
  split.
  - rewrite (after_length _ _ _ _ _ Ha), (same_total _ _ Hs). apply L.
  - intros t0 c0 (c1 & H1 & E)%Hback. rewrite (same_role _ _ _ Hs).
    pose proof (lv_role _ L _ _ H1) as Hr. destruct E as [->|E]; [done|].
    left. rewrite (wake_kind _ _ E). destruct Hr as [?|[-> _]]; [done|]. by destruct E.
  - destruct (lv_main _ L) as (cm & H0 & Hok & H1 & H2).
    assert (t ≠ 0%nat) as Ht0.
    { intros ->. rewrite Hc in H0. simplify_eq. by destruct cm. }
    destruct (after_other _ _ _ _ _ _ _ Ha (not_eq_sym Ht0) H0) as (c1 & Hc1 & E).
    assert (c1 = cm) as -> by (destruct E as [->|E]; [done|]; destruct cm; try done; by destruct E).
    exists cm. rewrite Er, Ee. split; [done|]. split; [|done]. by eapply main_ok_after.
  - rewrite Er. intros Hd. destruct (lv_rdone _ L Hd) as [Hex Hsl]. split; [by eapply exited_after|].
    intros t0 c0 (c1 & H1 & [->|E])%Hback; [by eapply Hsl|]. by apply (wake_not_sleep c1).
  - rewrite Ee. intros Hd. destruct (lv_edone _ L Hd) as [Hex Hsl]. split; [by eapply exited_after|].
    intros t0 c0 (c1 & H1 & [->|E])%Hback; [by eapply Hsl|]. by apply (wake_not_sleep c1).
  - intros t0. rewrite (same_role _ _ _ Hs), Er. intros Hr H0%Hexit. by eapply lv_rempty.
  - intros t0. rewrite (same_role _ _ _ Hs), Ee. intros Hr H0%Hexit. by eapply lv_eempty.
Qed.

Section progress.
Context {Al : Allocator} {Tot : TotalAllocator} {ops : Ops} {spec : OpsSpec ops}.

Lemma live_step l p p' e :
  live p → handler p = None → is_sigint l = false → pnext l p = Some (Ok (p', e)) → live p'.
Proof.
  intros L Hh Hl E. destruct l as [t i|t|t|]; try done; simpl in E.
  - destruct (in_handler t p); [done|].
    destruct (exec_after _ _ _ _ _ E) as (c & c' & ts & Hc & Hm & Ha & Hf). by eapply live_move.
  - destruct (in_handler t p); [done|].
    destruct (spurious_after _ _ _ _ E) as (c & c' & Hc & Hw & _ & Ha & Hf & _ & _ & Hb & _).
    by eapply live_wake.
  - unfold catcher_body in E. by rewrite Hh in E.
Qed.

(** ** Who can run *)

(** Program points that wait for a mutex. *)
Definition needs_r (c : ppc) : bool :=
  match c with CrLock | RdLock _ | ElLock | ElWake | RelLock 0 => true | _ => false end.
Definition needs_e (c : ppc) : bool :=
  match c with
  | ElLockE _ | WrLock | WrWake | PrLock | PrWake | RelLock (S _) => true
  | _ => false
  end.

(** A thread that is not blocked by a mutex, a condition variable or a join. *)
Lemma enabled p t c i :
  threads p !! t = Some c → handler p = None →
  sleeps_r c = false → sleeps_e c = false → c ≠ Exit → (∀ r, c ≠ Finished r) →
  (∀ k n, c = JoinT k n → (stage_size k p ≤ n)%nat ∨ threads p !! (stage_base k p + n)%nat = Some Exit) →
  (needs_r c = true → rmutex p = None) → (needs_e c = true → emutex p = None) →
  pnext (PExec t i) p ≠ None.
Proof.
  intros Hc Hh Hs1 Hs2 Hx Hfin Hj Hr He. simpl. unfold in_handler. rewrite Hh.
  unfold pexec. rewrite Hc.
  destruct c as [| | |d|d| | | | |d|d|d| | | | |d n|d n| | | | | |k n|k|k|n| |r]; try done; simpl;
    unfold lock_r, lock_e, pgo; simpl in Hr, He; rewrite ?Hr by done; rewrite ?He by done; try done.
  - fold (fetch_todo p). destruct (fetch_todo p). case_bool_decide; [done|].
    unfold run_p. repeat case_match; done.
  - unfold run_p. repeat case_match; done.
  - fold (fetch_todo p). destruct (fetch_todo p). case_bool_decide; [done|].
    unfold run_p. repeat case_match; done.
  - unfold run_p. repeat case_match; done.
  - unfold run_p. repeat case_match; done.
  - unfold run_p. repeat case_match; done.
  - unfold run_p. repeat case_match; done.
  - unfold run_p. repeat case_match; done.
  - unfold run_p. repeat case_match; done.
  - unfold wait_for. case_bool_decide; [|done].
    destruct (Hj _ _ eq_refl) as [?|?]; [lia|]. by rewrite bool_decide_true.
  - destruct k; simpl in *; unfold lock_r, lock_e; [by rewrite Hr|by rewrite He].
  - by case_bool_decide.
  - unfold dev_done. by case_match.
  - by destruct (Hfin r).
Qed.

(** A thread that holds a mutex can always run. *)
Lemma holder_enabled p t c i :
  threads p !! t = Some c → handler p = None → holds_r c = true ∨ holds_e c = true →
  pnext (PExec t i) p ≠ None.
Proof.
  intros Hc Hh Hd. eapply enabled; [done|done|..]; destruct Hd; destruct c; try done;
    destruct stage; done.
Qed.

(** Unless main has finished, some thread can run. *)
Lemma some_enabled p i :
  live p → locks_ok p → handler p = None →
  (∃ r, threads p !! 0%nat = Some (Finished r)) ∨ ∃ t, pnext (PExec t i) p ≠ None.
Proof.
  intros L [Hr He] Hh. rewrite Hh in Hr.
  destruct (rmutex p) as [t|] eqn:Er.
  { destruct (mx_owner _ _ _ _ Hr t eq_refl) as [(c & Hc & Hhc)|]; [|done].
    right. exists t. eapply holder_enabled; eauto. }
  destruct (emutex p) as [t|] eqn:Ee.
  { destruct (mx_owner _ _ _ _ He t eq_refl) as [(c & Hc & Hhc)|]; [|done].
    right. exists t. eapply holder_enabled; eauto. }
  destruct (lv_main _ L) as (cm & H0 & Hok & H1 & H2).
  destruct (decide (kind cm = 3%nat)) as [_|]; [|by destruct cm].
  destruct cm as [| | | | | | | | | | | | | | | | | | | | | | |k n|k|k|n| |r]; try done.
  all: try (right; exists 0%nat; by eapply enabled).
  2: { left. eauto. }
  destruct Hok as (Hk & Hn & Hlow & Hj).
  destruct (decide (n < stage_size k p)%nat) as [Hlt|Hge].
  2: { right. exists 0%nat. eapply enabled; try done. intros k0 n0 [= <- <-]. left. lia. }
  destruct (role_base k p n ltac:(lia) Hlt) as [Hrole Htot].
  destruct (lookup_lt_is_Some_2 (threads p) (stage_base k p + n)%nat) as [c Hc];
    [by rewrite (lv_len _ L)|].
  destruct (decide (c = Exit)) as [->|Hx].
  { right. exists 0%nat. eapply enabled; try done. intros k0 n0 [= <- <-]. by right. }
  right. exists (stage_base k p + n)%nat.
  destruct (lv_role _ L _ _ Hc) as [Hkc|[? _]]; [|done]. rewrite Hrole in Hkc.
  eapply enabled; try done.
  - destruct (sleeps_r c) eqn:Es; [|done]. destruct c; try done. simpl in Hkc. subst k.
    destruct (lv_rdone _ L (H1 ltac:(simpl; lia))) as [_ Hsl]. by specialize (Hsl _ _ Hc).
  - destruct (sleeps_e c) eqn:Es; [|done].
    assert (k = 2%nat) as -> by (by destruct c).
    destruct (lv_edone _ L (H2 ltac:(simpl; lia))) as [_ Hsl]. specialize (Hsl _ _ Hc). congruence.
  - intros r ->. simpl in Hkc. lia.
  - intros k0 n0 ->. simpl in Hkc. lia.
Qed.

End progress.
