(* ===== verification/PipelineTerm.v ===== *)
(** * Termination of the processes

    A measure on the state that every step of a thread lowers: the items still
    to be created, the strings on their way with the steps they still cost,
    and the program points.  It bounds the length of every undisturbed run of
    a process started with a positive number of items. *)

From stdpp Require Import base numbers list option gmap.
From S2P Require Import Prelude Memory CList Fun Buffer Pipeline PipelineInv PipelineMove PipelineLive PipelineDone PipelineProgress.
Local Open Scope nat_scope.

(** ** Sums over threads *)

Fixpoint tsum (f : ppc → nat) (ts : list ppc) : nat :=
  match ts with [] => 0 | c :: ts' => f c + tsum f ts' end.

Lemma tsum_insert f ts t c c' :
  ts !! t = Some c → tsum f (<[t := c']> ts) + f c = tsum f ts + f c'.
Proof.
  revert t. induction ts as [|c0 ts IH]; intros [|t] H; simplify_eq/=; [lia|].
  specialize (IH _ H). change (list_insert t c' ts) with (<[t := c']> ts). lia.
Qed.

(** ** Weights *)

(** The steps a program point still costs; [N] threads may have to be woken. *)
Definition weight (N : nat) (c : ppc) : nat :=
  match c with
  | CrLock | RdLock _ | ElLock | ElWake | WrLock | WrWake | PrLock | PrWake => 2
  | CrBody | RdBody _ | ElCheck | WrCheck | PrCheck => 1
  | RdInit => 3
  | ElWait | WrWait | PrWait | Exit => 0
  | ElConv _ => 17
  | ElLockE _ => 16
  | ElIns _ => 15
  | WrTry _ n => Z.to_nat (10 - n)
  | WrEnd _ _ => 3
  | JoinT 0 i => 6 * N + 15 + (N - i)
  | JoinT 1 i => 3 * N + 12 + (N - i)
  | JoinT _ i => 9 + (N - i)
  | RelLock 0 => 6 * N + 14
  | RelLock _ => 3 * N + 11
  | RelSet 0 => 6 * N + 13
  | RelSet _ => 3 * N + 10
  | SendDone n => Z.to_nat (8 - n)
  | Closing => 1
  | Finished _ => 0
  end.

(** The strings in the hands of a thread. *)
Definition carries (c : ppc) : nat :=
  match c with
  | ElConv _ | ElLockE _ | ElIns _ | WrTry _ _ => 1
  | WrEnd _ n => if bool_decide (n = 5)%Z then 1 else 0
  | _ => 0
  end.

Definition is_source (c : ppc) : nat := if bool_decide (kind c = 0) then 1 else 0.

(** An item costs 21 steps, a raw string 17, an elaborated one 10. *)
Definition measure (p : proc) (rns ens : list node) : nat :=
  21 * Z.to_nat (todo p) + 17 * length rns + 10 * length ens
  + tsum (weight (total p)) (threads p).

Lemma wake_weight N c c' :
  wake_r c = Some c' ∨ wake_e c = Some c' → weight N c = 0 ∧ weight N c' = 2 ∧
    carries c = 0 ∧ carries c' = 0 ∧ is_source c = 0 ∧ is_source c' = 0.
Proof. intros [E|E]; destruct c; simplify_eq/=; done. Qed.

Lemma wake_first_weight N wk ts :
  (∀ c c', wk c = Some c' → wake_r c = Some c' ∨ wake_e c = Some c') →
  tsum (weight N) (wake_first wk ts) ≤ tsum (weight N) ts + 2.
Proof.
  intros Hwk. induction ts as [|c ts IH]; simpl; [lia|].
  destruct (wk c) as [c'|] eqn:E; simpl; [|lia].
  destruct (wake_weight N _ _ (Hwk _ _ E)) as (-> & -> & _). lia.
Qed.

Lemma signal_weight N wk w ts :
  (∀ c c', wk c = Some c' → wake_r c = Some c' ∨ wake_e c = Some c') →
  tsum (weight N) (cond_signal wk w ts) ≤ tsum (weight N) ts + 2.
Proof.
  intros Hwk. unfold cond_signal. destruct (ts !! w) as [c|] eqn:Hw; [|by apply wake_first_weight].
  destruct (wk c) as [c'|] eqn:E; [|by apply wake_first_weight].
  pose proof (tsum_insert (weight N) _ _ _ c' Hw).
  destruct (wake_weight N _ _ (Hwk _ _ E)) as (? & ? & _). lia.
Qed.

Lemma broadcast_weight N wk ts :
  (∀ c c', wk c = Some c' → wake_r c = Some c' ∨ wake_e c = Some c') →
  tsum (weight N) (cond_broadcast wk ts) ≤ tsum (weight N) ts + 2 * length ts.
Proof.
  intros Hwk. unfold cond_broadcast. induction ts as [|c ts IH]; [simpl; lia|].
  rewrite fmap_cons. cbn [tsum length]. destruct (wk c) as [c'|] eqn:E; cbn [default from_option id]; [|lia].
  destruct (wake_weight N _ _ (Hwk _ _ E)) as (-> & -> & _). lia.
Qed.

Lemma woken_sums ts ts' :
  woken ts ts' → tsum carries ts' = tsum carries ts ∧ tsum is_source ts' = tsum is_source ts.
Proof.
  induction 1 as [|c c' ts ts' Hc _ [IH1 IH2]]; [done|]. simpl.
  destruct Hc as [->|E]; [lia|]. destruct (wake_weight 0 _ _ E) as (_ & _ & -> & -> & -> & ->). lia.
Qed.

(** What a move may add by waking others. *)
Definition bonus (c : ppc) (e : list pevent) : nat :=
  match c, e with
  | CrBody, [] | RdBody _, [] => 0
  | CrBody, _ | RdBody _, _ | ElIns _, _ => 2
  | _, _ => 0
  end.

Lemma move_bonus sends p p' t c c' ts e N :
  move sends p p' t c c' ts e → length (threads p) = N →
  tsum (weight N) ts ≤ tsum (weight N) (threads p) + bonus c e + match c with RelSet _ => 2 * N | _ => 0 end.
Proof.
  intros Hm HN.
  destruct Hm; repeat case_match; simplify_eq; simpl; try lia;
    first [ (etrans; [apply signal_weight; by auto|lia])
          | (etrans; [apply broadcast_weight; by auto|lia]) ].
Qed.

(** The steps never start at a sleeper. *)
Lemma move_awake sends p p' t c c' ts e :
  move sends p p' t c c' ts e → wake_r c = None ∧ wake_e c = None.
Proof. destruct 1; repeat case_match; simplify_eq/=; done. Qed.

Local Open Scope Z_scope.

(** ** Every step lowers the measure *)

Definition nlen {A} (l : list A) : Z := Z.of_nat (length l).

(** The effect of a move on the measure, term by term. *)
Lemma move_cost sends p p' t c c' ts e :
  move sends p p' t c c' ts e → loop p = 0 → int_range (todo p) → INT_MIN < todo p →
  (∀ d n, c = WrTry d n → n ≤ MAX_RETRY) → (∀ n, c = SendDone n → 0 ≤ n ≤ MAX_RETRY + 1) →
  let N := total p in
  21 * Z.of_nat (Z.to_nat (todo p')) + 17 * (nlen (ins_of e) - nlen (elabs_of e)) +
  10 * (nlen (elabs_of e) + Z.of_nat (carries c) - Z.of_nat (carries c') - nlen (outs_of e)) +
  Z.of_nat (weight N c') + Z.of_nat (bonus c e) +
  Z.of_nat (match c with RelSet _ => 2 * N | _ => 0 end)%nat
  < 21 * Z.of_nat (Z.to_nat (todo p)) + Z.of_nat (weight N c).
Proof.
  intros Hm Hl Ht Ht0 Hn Hs N. unfold MAX_RETRY in *.
  assert (∀ n, took n p p' → n = todo p ∧ todo p' = todo p - 1) as Htook.
  { intros n [(? & _)|(_ & -> & ->)]; [done|]. split; [done|]. apply wrap32_id. unfold_ranges. lia. }
  destruct Hm as [c c' Hcc _ _ _ _ [Et _]|c c' Hcc _ _ _ _ [Et _]|d _ _ [Et _]|c n Hcc Htk Hle _ _ _ _
    |c c' n w e Hcc Htk Hlt _ _ _ _ He|d n w Htk Hlt|_ _ _ _ _ [Et _]|_ _ _ _ _ [Et _]|d s _ _ _ _ [Et _]
    |d _ _ [Et _]|d w _ _ _ [Et _]|c c' Hcc _ _ _ _ _ [Et _]|c Hcc _ _ _ _ _ [Et _]|d _ _ _ [Et _]
    |s _ _ _ _ [Et _]|d n Hlt _ _ [Et _]|d n e _ _ [Et _] H1 H2|d n e _ _ _ [Et _] H1 H2
    |k i Hi _ _ _ [Et _]|k i c' Hi -> _ _ [Et _]|_ _ _ _ _ [Et _]|k _ _ _ _ _ [Et _]|n Hle _ _ [Et _]
    |n r _ _ [Et _]|r _ _ [Et _]]; try rewrite Et; unfold nlen.
  - repeat case_match; simplify_eq; simpl; lia.
  - repeat case_match; simplify_eq; simpl; lia.
  - simpl; lia.
  - destruct (Htook _ Htk) as [-> ->]. destruct c; try done; simpl; lia.
  - destruct (Htook _ Htk) as [-> ->]. destruct c, c'; try done; destruct e; try done; simpl; lia.
  - destruct (Htook _ Htk) as [-> ->]. simpl; lia.
  - simpl; lia.
  - simpl; lia.
  - simpl; lia.
  - simpl; lia.
  - simpl; lia.
  - destruct c, c'; try done; simpl; lia.
  - destruct c; try done; simpl; lia.
  - simpl; lia.
  - simpl; lia.
  - specialize (Hn _ _ eq_refl). simpl; lia.
  - specialize (Hn _ _ eq_refl). unfold MAX_RETRY in *. cbn [weight carries bonus].
    destruct (decide (n < 5)) as [H5|H5].
    + destruct (H1 H5) as [s ->]. rewrite bool_decide_false by lia. simpl; lia.
    + rewrite (H2 ltac:(lia)), bool_decide_true by lia. simpl; lia.
  - cbn [weight carries bonus]. destruct (decide (n = 5)) as [->|H5].
    + destruct (H1 eq_refl) as [s ->]. rewrite bool_decide_true by done. simpl; lia.
    + rewrite (H2 H5), bool_decide_false by done. simpl; lia.
  - assert (i < N)%nat.
    { unfold N, stage_size, total in *. destruct (sizes p) as [[a b] c]. repeat case_match; lia. }
    destruct k as [|[|k]]; cbn; lia.
  - destruct (decide (k < 2)%nat) as [Hk|Hk].
    + rewrite bool_decide_true by done. destruct k as [|[|k]]; cbn; lia.
    + rewrite bool_decide_false by done. destruct k as [|[|k]]; [lia..|]. destruct sends; cbn; lia.
  - cbn; lia.
  - cbn; lia.
  - specialize (Hs _ eq_refl). cbn [weight carries bonus]. simpl; lia.
  - specialize (Hs _ eq_refl). cbn [weight carries bonus]. simpl; lia.
  - simpl; lia.
Qed.

(** ** Runs *)

(** The source threads not yet ended. *)
Definition sources (p : proc) : Z := Z.of_nat (tsum is_source (threads p)).

(** [todo] falls below zero by at most one per source thread. *)
Record todo_ok (p : proc) : Prop := {
  td_loop : loop p = 0;
  td_sources : sources p ≤ Z.of_nat (stage_size 0 p);
  td_low : sources p - Z.of_nat (stage_size 0 p) ≤ todo p;
  td_high : todo p ≤ INT_MAX;
  td_few : Z.of_nat (stage_size 0 p) ≤ 100 }.

Lemma todo_ok_range p : todo_ok p → int_range (todo p) ∧ INT_MIN < todo p.
Proof. intros []. unfold sources in *. unfold_ranges. lia. Qed.

Lemma move_source sends p p' t c c' ts e :
  move sends p p' t c c' ts e → todo_ok p →
  loop p' = 0 ∧ (is_source c' ≤ is_source c)%nat ∧
  (todo p' = todo p ∨ (todo p' = todo p - 1 ∧ (0 < todo p ∨ (is_source c' = 0 ∧ is_source c = 1)%nat))).
Proof.
  intros Hm Hok. pose proof (todo_ok_range _ Hok) as [Hr Hm0]. pose proof (td_loop _ Hok) as Hl.
  assert (∀ n, took n p p' → n = todo p ∧ todo p' = todo p - 1) as Htook.
  { intros n [(? & _)|(_ & -> & ->)]; [done|]. split; [done|]. apply wrap32_id. unfold_ranges. lia. }
  assert (is_source c' ≤ is_source c)%nat as Hsrc.
  { unfold is_source. destruct (move_kind _ _ _ _ _ _ _ _ Hm) as [->|[-> _]]; [done|].
    repeat case_bool_decide; (done || lia). }
  destruct Hm; unfold same_count in *; (split; [intuition congruence|]); (split; [exact Hsrc|]);
    try (left; intuition congruence).
  all: match goal with H : took _ _ _ |- _ => destruct (Htook _ H) as [-> ->] end.
  all: right; split; [done|].
  - right. by destruct c.
  - by left.
  - by left.
Qed.

Lemma todo_ok_after sends p p' t c c' ts e :
  todo_ok p → threads p !! t = Some c → move sends p p' t c c' ts e → after t c' ts p p' →
  sizes p' = sizes p → todo_ok p'.
Proof.
  intros Hok Hc Hm (Ets & Hw & _) Hs.
  destruct (move_source _ _ _ _ _ _ _ _ Hm Hok) as (Hl & Hsrc & Ht).
  destruct (move_awake _ _ _ _ _ _ _ _ Hm) as [Hw1 Hw2].
  pose proof (tsum_insert is_source _ _ _ c' (woken_lookup _ _ _ _ Hw Hc Hw1 Hw2)) as Hins.
  destruct (woken_sums _ _ Hw) as [_ Hsum]. destruct Hok as [? ? ? ? ?]. unfold sources in *.
  split; rewrite ?(same_size _ _ _ Hs); unfold sources; rewrite ?Ets; (done || lia).
Qed.

Section termination.
Context {Al : Allocator} {Tot : TotalAllocator} {ops : Ops} {spec : OpsSpec ops}.

Lemma inflight_length h ts : length (inflight h ts) = tsum carries ts.
Proof.
  unfold inflight. induction ts as [|c ts IH]; [done|]. rewrite bind_cons, length_app, IH. simpl.
  f_equal. destruct c; try done. simpl. by case_bool_decide.
Qed.

(** A step of a thread lowers the measure. *)
Lemma exec_measure t i p p' e rns ens :
  pinv p rns ens → live p → todo_ok p → polite_input p t i →
  pexec t i p = Some (Ok (p', e)) →
  ∃ rns' ens', pinv p' rns' ens' ∧ (measure p' rns' ens' < measure p rns ens)%nat ∧
    todo_ok p' ∧ Forall raw_ok (ins_of e) ∧
    (conv_str <$> ins_of e) ++ stock p rns ens ≡ₚ stock p' rns' ens' ++ outs_of e.
Proof.
  intros Hi L Hok Hpol E. pose proof (fine_exec _ _ _ _ _ Hi Hpol) as Hfine. rewrite E in Hfine.
  destruct Hfine as (rns' & ens' & Hi' & [Hcnt Hraw] & Hbal).
  destruct (exec_after _ _ _ _ _ E) as (c & c' & ts & Hc & Hm & Ha & Hf).
  exists rns', ens'. split; [done|]. pose proof (step_sizes _ _ _ Hf) as Hs.
  split; [|split; [by eapply todo_ok_after|by split]].
  pose proof (Permutation_length Hbal) as Hlen. unfold stock in Hlen.
  rewrite !length_app, !length_fmap, !length_strings, !inflight_length in Hlen.
  destruct (move_awake _ _ _ _ _ _ _ _ Hm) as [Hw1 Hw2].
  destruct Ha as (Ets & Hw & _).
  pose proof (woken_lookup _ _ _ _ Hw Hc Hw1 Hw2) as Htc.
  pose proof (tsum_insert carries _ _ _ c' Htc) as Hcar.
  pose proof (tsum_insert (weight (total p)) _ _ _ c' Htc) as Hwt.
  destruct (woken_sums _ _ Hw) as [Hsum _].
  pose proof (move_bonus _ _ _ _ _ _ _ _ (total p) Hm (lv_len _ L)) as Hbonus.
  destruct (todo_ok_range _ Hok) as [Hr Hm0].
  assert (∀ d n, c = WrTry d n → (n ≤ MAX_RETRY)%Z) as Htry.
  { intros d n ->. by destruct (sep_pc _ _ _ _ _ _ Hi _ _ Hc). }
  assert (∀ n, c = SendDone n → (0 ≤ n ≤ MAX_RETRY + 1)%Z) as Hsend.
  { intros n ->. destruct (lv_main _ L) as (cm & H0 & Hmo & _).
    assert (t = 0%nat) as ->.
    { pose proof (lv_role _ L _ _ Hc) as [Hr0|[? _]]; [|done]. simpl in Hr0. unfold role in Hr0.
      destruct (sizes p) as [[??]?]. by repeat case_decide. }
    rewrite Hc in H0. simplify_eq. by destruct Hmo. }
  pose proof (move_cost _ _ _ _ _ _ _ _ Hm (td_loop _ Hok) Hr Hm0 Htry Hsend) as Hcost.
  unfold nlen in *. unfold measure. rewrite (same_total _ _ Hs), Ets.
  rewrite Ets in Hlen. cbv zeta in Hcost. lia.
Qed.

(** The spurious wake-ups of a run. *)
Definition is_spurious (l : plabel) : bool := match l with PSpurious _ => true | _ => false end.
Definition spurs (tr : list (plabel * list pevent)) : nat :=
  length (filter (λ x, is_spurious x.1 = true) tr).

(** What an undisturbed run keeps. *)
Record run_ok (bound : nat) (p : proc) (tr : list (plabel * list pevent))
    (rns ens : list node) : Prop := {
  ro_inv : pinv p rns ens;
  ro_live : live p;
  ro_locks : locks_ok p;
  ro_sig : sig_ok p 0;
  ro_handler : handler p = None;
  ro_todo : todo_ok p;
  ro_length : (length tr + measure p rns ens ≤ bound + 3 * spurs tr)%nat;
  ro_raw : Forall raw_ok (ins_of (events tr));
  ro_balance : conv_str <$> ins_of (events tr) ≡ₚ stock p rns ens ++ outs_of (events tr) }.

Lemma ins_of_app e1 e2 : ins_of (e1 ++ e2) = ins_of e1 ++ ins_of e2.
Proof. apply omap_app. Qed.
Lemma outs_of_app e1 e2 : outs_of (e1 ++ e2) = outs_of e1 ++ outs_of e2.
Proof. apply omap_app. Qed.

Lemma spurs_snoc tr l e : spurs (tr ++ [(l, e)]) = (spurs tr + if is_spurious l then 1 else 0)%nat.
Proof.
  unfold spurs. rewrite filter_app, length_app. simpl.
  destruct l; simpl; rewrite ?decide_False, ?decide_True by done; simpl; lia.
Qed.

(** The balance of a longer run. *)
Lemma balance_snoc tr l e p p' rns ens rns' ens' :
  conv_str <$> ins_of (events tr) ≡ₚ stock p rns ens ++ outs_of (events tr) →
  (conv_str <$> ins_of e) ++ stock p rns ens ≡ₚ stock p' rns' ens' ++ outs_of e →
  conv_str <$> ins_of (events (tr ++ [(l, e)])) ≡ₚ
    stock p' rns' ens' ++ outs_of (events (tr ++ [(l, e)])).
Proof.
  intros H1 H2. rewrite !events_snoc, ins_of_app, outs_of_app, fmap_app, H1.
  transitivity (((conv_str <$> ins_of e) ++ stock p rns ens) ++ outs_of (events tr));
    [solve_Permutation|]. rewrite H2. solve_Permutation.
Qed.

Lemma spurious_measure t p p' e rns ens :
  pinv p rns ens → live p → todo_ok p → spurious t p = Some (Ok (p', e)) →
  pinv p' rns ens ∧ measure p' rns ens = (measure p rns ens + 2)%nat ∧ todo_ok p' ∧
  stock p' rns ens = stock p rns ens.
Proof.
  intros Hi L Hok E. destruct (spurious_after _ _ _ _ E)
    as (c & c' & Hc & Hw & -> & Ha & (_ & _ & _ & Hs) & [Et El] & _ & [Er Ee] & Eh).
  destruct Ha as (Ets & _ & _).
  assert (woken (threads p) (threads p')) as Hwk.
  { rewrite Ets. rewrite <- (list_insert_id (threads p) t c Hc) at 1.
    apply Forall2_insert; [apply woken_refl|by right]. }
  destruct (sep_woken _ _ _ _ _ _ _ Hi Hwk) as [Hi' Hinf].
  destruct (woken_sums _ _ Hwk) as [_ Hsrc].
  split; [|split; [|split]].
  - unfold pinv. by rewrite Eh, Er, Ee.
  - unfold measure. rewrite (same_total _ _ Hs), Et, Ets.
    pose proof (tsum_insert (weight (total p)) _ _ _ c' Hc).
    destruct (wake_weight (total p) _ _ Hw) as (? & ? & _). lia.
  - destruct Hok. split; unfold sources in *; rewrite ?Hsrc, ?Et, ?El, ?(same_size _ _ _ Hs); done.
  - unfold stock. by rewrite Eh, Hinf.
Qed.

Lemma run_ok_step bound p tr rns ens l e p' :
  run_ok bound p tr rns ens → is_sigint l = false → pol_step p (l, e) p' →
  ∃ rns' ens', run_ok bound p' (tr ++ [(l, e)]) rns' ens'.
Proof.
  intros [Hi L Hlk Hsg Hh Hok Hlen Hraw Hbal] Hns Hst.
  inversion Hst as [l' p1 e' p1' Hpol E]; subst.
  pose proof (live_step _ _ _ _ L Hh Hns E) as L'.
  pose proof (locks_step _ _ _ _ _ Hlk Hsg ltac:(done) E) as Hlk'.
  pose proof (sig_step _ _ _ _ _ Hsg ltac:(done) E) as Hsg'. rewrite Hns in Hsg'.
  destruct (next_no_handler _ _ _ _ E Hh) as [Hh' _]; [by destruct l|].
  destruct l as [t i|t|t|]; try done; simpl in E.
  - destruct (in_handler t p); [done|].
    destruct (exec_measure _ _ _ _ _ _ _ Hi L Hok Hpol E) as (rns' & ens' & Hi' & Hms & Hok' & Hr & Hb).
    exists rns', ens'. split; try done.
    + rewrite spurs_snoc, length_app. simpl. lia.
    + rewrite events_snoc, ins_of_app. by apply Forall_app.
    + by eapply balance_snoc.
  - destruct (in_handler t p); [done|].
    destruct (spurious_measure _ _ _ _ _ _ Hi L Hok E) as (Hi' & Hms & Hok' & Hb).
    destruct (spurious_after _ _ _ _ E) as (_ & _ & _ & _ & -> & _).
    exists rns, ens. split; try done.
    + rewrite spurs_snoc, length_app. simpl. lia.
    + rewrite events_snoc, ins_of_app. by apply Forall_app.
    + eapply balance_snoc; [done|]. simpl. by rewrite Hb, app_nil_r.
  - unfold catcher_body in E. by rewrite Hh in E.
Qed.

Lemma undisturbed_run bound p0 tr p :
  run_ok bound p0 [] [] [] → run pol_step p0 tr p → undisturbed tr →
  ∃ rns ens, run_ok bound p tr rns ens.
Proof.
  intros H0. apply (run_invariant pol_step (λ p tr, undisturbed tr → ∃ rns ens, run_ok bound p tr rns ens)).
  - intros _. eauto.
  - intros p1 tr1 [l e] p2 IH Hst [Hu1 Hu2]%Forall_app. destruct (IH Hu1) as (rns & ens & Hro).
    eapply run_ok_step; [done| |done]. inversion Hu2 as [|? ? Hl]; subst. by destruct l.
Qed.

End termination.
