(* ===== verification/PipelineStart.v ===== *)
(** * A process from start to end

    The state main creates satisfies the invariants, and when main has
    finished nothing is left in the process. *)

From stdpp Require Import base numbers list option gmap.
From S2P Require Import Prelude Memory CList Fun Buffer Pipeline PipelineInv PipelineMove PipelineLive PipelineDone PipelineProgress PipelineTerm.
Local Open Scope Z_scope.

Definition nonneg (n : Z * Z * Z) : Prop := let '(a, b, c) := n in 0 ≤ a ∧ 0 ≤ b ∧ 0 ≤ c.

Section start.
Context {Al : Allocator} {Tot : TotalAllocator} {ops : Ops} {spec : OpsSpec ops}.
Context (src snk : ppc) (a b c : Z) (items lp : Z).
Context (Hsrc : src = CrLock ∨ (src = RdInit ∧ ops_frees = false)) (Hsnk : snk = WrLock ∨ snk = PrLock).
Context (Ha : a ≤ 100) (Hitems : 0 ≤ items ≤ INT_MAX) (Hlp : lp = 0).

Let p0 : proc := start src ElLock snk (a, b, c) items lp.

Lemma start_lookup t x :
  threads p0 !! t = Some x →
  (t = 0%nat ∧ x = JoinT 0 0) ∨
  (role p0 t = 0%nat ∧ x = src) ∨ (role p0 t = 1%nat ∧ x = ElLock) ∨ (role p0 t = 2%nat ∧ x = snk).
Proof.
  clear Hitems Ha Hlp Hsrc Hsnk. unfold p0, start, role. cbn [threads sizes].
  destruct t as [|t]; [intros [= <-]; by left|]. cbn [lookup list_lookup].
  intros [H|[Hl [H|[Hl2 H]]%lookup_app_Some]]%lookup_app_Some; right;
    apply lookup_replicate in H as [-> Hlt]; rewrite ?length_replicate in *;
    repeat case_decide; try lia; tauto.
Qed.

Lemma start_pc t x :
  threads p0 !! t = Some x →
  priv x = None ∧ holds_r x = false ∧ holds_e x = false ∧ x ≠ Exit ∧ carries x = 0%nat ∧
  (src = CrLock → x ≠ RdInit).
Proof.
  intros [[_ ->]|[[_ ->]|[[_ ->]|[_ ->]]]]%start_lookup; destruct Hsrc as [->|[-> _]], Hsnk as [->| ->]; done.
Qed.

Lemma start_pinv : pinv p0 [] [].
Proof.
  clear Hitems Ha Hlp.
  split; try (by constructor); try (by set_solver).
  - by apply wbuf_rep_init with (b := Wbuf None None 0 0).
  - by apply wbuf_rep_init with (b := Wbuf None None 0 0).
  - intros t x Hx. destruct (start_lookup _ _ Hx) as [[_ ->]|[[_ ->]|[[_ ->]|[_ ->]]]]; try done.
    + destruct Hsrc as [->|[-> ?]]; done.
    + by destruct Hsnk as [->| ->].
  - intros t t' x x' l Hx. by destruct (start_pc _ _ Hx) as (-> & _).
Qed.

Lemma start_locks : locks_ok p0.
Proof.
  split; split; try done; intros t x Hx; destruct (start_pc _ _ Hx) as (_ & Hr & He & _); congruence.
Qed.

Lemma start_length : length (threads p0) = total p0.
Proof.
  clear Hitems Ha Hlp Hsrc Hsnk. unfold p0, start, total. cbn [threads sizes]. simpl. rewrite !length_app, !length_replicate. lia.
Qed.

Lemma start_live : live p0.
Proof.
  clear Hitems Ha Hlp.
  split; try done.
  - apply start_length.
  - intros t x Hx. destruct (start_lookup _ _ Hx) as [[-> ->]|[[-> ->]|[[-> ->]|[-> ->]]]]; left.
    + unfold role. destruct (sizes p0) as [[??]?]. by rewrite decide_True.
    + by destruct Hsrc as [->|[-> _]].
    + done.
    + by destruct Hsnk as [->| ->].
  - exists (JoinT 0 0). split; [done|]. split; [|split; simpl; lia].
    split; [lia|]. split; [lia|]. split; [lia|lia].
  - intros t _ Hx. by destruct (start_pc _ _ Hx) as (_ & _ & _ & ? & _).
  - intros t _ Hx. by destruct (start_pc _ _ Hx) as (_ & _ & _ & ? & _).
Qed.

Lemma tsum_app f ts ts' : tsum f (ts ++ ts') = (tsum f ts + tsum f ts')%nat.
Proof. clear. induction ts as [|x ts IH]; simpl; lia. Qed.
Lemma tsum_replicate f n x : tsum f (replicate n x) = (n * f x)%nat.
Proof. clear. induction n as [|n IH]; simpl; lia. Qed.

Lemma start_todo : todo_ok p0.
Proof.
  assert (sources p0 = Z.of_nat (Z.to_nat a)) as Es.
  { unfold sources, p0, start. cbn [threads tsum]. rewrite !tsum_app, !tsum_replicate.
    assert (is_source src = 1 ∧ is_source snk = 0)%nat as [-> ->]
      by (destruct Hsrc as [->|[-> _]], Hsnk as [->| ->]; done).
    change (is_source ElLock) with 0%nat. change (is_source (JoinT 0 0)) with 0%nat. lia. }
  assert (stage_size 0 p0 = Z.to_nat a) as Ez by done.
  split; rewrite ?Es, ?Ez; simpl; (done || lia).
Qed.

(** The bound on the length of a run. *)
Definition step_bound : nat :=
  (21 * Z.to_nat items + 2 * (Z.to_nat a + Z.to_nat b + Z.to_nat c) + Z.to_nat a
   + 7 * total p0 + 15)%nat.

Lemma start_measure : (measure p0 [] [] ≤ step_bound)%nat.
Proof.
  unfold measure, step_bound. cbn [length]. generalize (total p0). intros N.
  unfold p0, start. cbn [threads todo]. simpl tsum.
  rewrite !tsum_app, !tsum_replicate.
  assert (weight N src ≤ 3)%nat by (destruct Hsrc as [->|[-> _]]; simpl; lia).
  assert (weight N snk = 2)%nat as -> by (destruct Hsnk as [->| ->]; done).
  simpl. nia.
Qed.

Lemma start_run_ok : run_ok step_bound p0 [] [] [].
Proof.
  split; try done.
  - apply start_pinv.
  - apply start_live.
  - apply start_locks.
  - apply start_todo.
  - simpl. pose proof start_measure. unfold spurs. simpl. lia.
  - assert (inflight (pheap p0) (threads p0) = []) as E; [|unfold stock; by rewrite E].
    apply length_zero_iff_nil. rewrite inflight_length.
    assert (∀ ts, (∀ t x, ts !! t = Some x → carries x = 0%nat) → tsum carries ts = 0%nat) as Hsum.
    { clear. induction ts as [|x ts IH]; intros H; [done|]. simpl.
      rewrite (H 0%nat x eq_refl), IH; [done|]. intros t y Hy. by apply (H (S t)). }
    apply Hsum. intros t x Hx. by destruct (start_pc _ _ Hx) as (_ & _ & _ & _ & ? & _).
Qed.

End start.

Section finish.
Context {Al : Allocator} {Tot : TotalAllocator} {ops : Ops} {spec : OpsSpec ops}.

(** When main has finished every thread has ended and, if there was an
    elaborate and a sink thread, everything that came in went out. *)
Lemma finished_all bound p tr rns ens r :
  run_ok bound p tr rns ens → threads p !! 0%nat = Some (Finished r) →
  (1 ≤ stage_size 1 p)%nat → (1 ≤ stage_size 2 p)%nat →
  (∀ t x, threads p !! t = Some x → t ≠ 0%nat → x = Exit) ∧
  conv_str <$> ins_of (events tr) ≡ₚ outs_of (events tr).
Proof.
  intros [Hi L _ _ _ _ _ _ Hbal] Hfin H1 H2.
  destruct (lv_main _ L) as (cm & H0 & Hmo & _). rewrite Hfin in H0. simplify_eq.
  assert (∀ k, (k < 3)%nat → exited k p) as Hex by done.
  assert (∀ t x, threads p !! t = Some x → t ≠ 0%nat → x = Exit) as Hall.
  { intros t x Hx Ht. assert (threads p !! t = Some Exit); [|congruence].
    apply (Hex (role p t)); [|done|rewrite <- (lv_len _ L); by eapply lookup_lt_Some].
    unfold role. destruct (sizes p) as [[??]?]. repeat case_decide; lia. }
  split; [done|].
  destruct (role_base 1 p 0 ltac:(lia) ltac:(lia)) as [R1 T1].
  destruct (role_base 2 p 0 ltac:(lia) ltac:(lia)) as [R2 T2].
  destruct (lv_rempty _ L _ R1 (Hex 1%nat ltac:(lia) _ R1 T1)) as [Er _].
  destruct (lv_eempty _ L _ R2 (Hex 2%nat ltac:(lia) _ R2 T2)) as [Ee _].
  apply (wbuf_rep_nil _ _ _ (sep_r _ _ _ _ _ _ Hi)) in Er as ->.
  apply (wbuf_rep_nil _ _ _ (sep_e _ _ _ _ _ _ Hi)) in Ee as ->.
  rewrite Hbal. unfold stock. simpl. rewrite app_nil_r.
  assert (inflight (pheap p) (threads p) = []) as ->; [|done].
  unfold inflight. apply length_zero_iff_nil.
  destruct (threads p) as [|c0 ts]; [done|]. simpl in Hfin. simplify_eq. rewrite bind_cons. simpl.
  assert (Forall (.= Exit) ts) as Hts.
  { apply Forall_lookup. intros t x Hx. by apply (Hall (S t)). }
  clear -Hts. induction Hts as [|x ts -> _ IH]; [done|]. by rewrite bind_cons.
Qed.

(** Otherwise a thread can take a step, and the step does not fault. *)
Lemma not_stuck bound p tr rns ens i :
  run_ok bound p tr rns ens → (∀ t, polite_input p t i) →
  (∃ r, threads p !! 0%nat = Some (Finished r)) ∨
  ∃ t p' e, pnext (PExec t i) p = Some (Ok (p', e)).
Proof.
  intros [Hi L Hl _ Hh _ _ _ _] Hpol.
  destruct (some_enabled p i L Hl Hh) as [?|[t Ht]]; [by left|right]. exists t.
  pose proof (pnext_fine (PExec t i) _ _ _ Hi (Hpol t)) as Hf.
  destruct (pnext (PExec t i) p) as [[[p' e]|]|]; [eauto|done|done].
Qed.

End finish.

(** ** Arguments *)

(** atoi: white space, a sign, digits; strtol saturates at the range of a
    32-bit long. *)
Definition is_space (c : Z) : bool := bool_decide (c = 32 ∨ 9 ≤ c ≤ 13).
Definition is_digit (c : Z) : bool := bool_decide (48 ≤ c ≤ 57).

Fixpoint skip_space (s : list Z) : list Z :=
  match s with c :: s' => if is_space c then skip_space s' else s | [] => [] end.
Fixpoint digits (acc : Z) (s : list Z) : Z :=
  match s with
  | c :: s' => if is_digit c then digits (acc * 10 + (c - 48)) s' else acc
  | [] => acc
  end.
Definition atoi (s : list Z) : Z :=
  let clamp z := Z.max INT_MIN (Z.min INT_MAX z) in
  match skip_space s with
  | c :: s' =>
      if bool_decide (c = 45) then clamp (- digits 0 s')
      else if bool_decide (c = 43) then clamp (digits 0 s')
      else clamp (digits 0 (c :: s'))
  | [] => 0
  end.

Lemma atoi_range s : int_range (atoi s).
Proof.
  unfold atoi. unfold_ranges. destruct (skip_space s); [lia|]. repeat case_bool_decide; lia.
Qed.

(** ** Any run *)

Section anyrun.
Context {Al : Allocator} {Tot : TotalAllocator} {ops : Ops} {spec : OpsSpec ops}.

Lemma run_pinv p0 tr p :
  pinv p0 [] [] → run pol_step p0 tr p → ∃ rns ens, pinv p rns ens.
Proof.
  intros H0. apply (run_invariant pol_step (λ p _, ∃ rns ens, pinv p rns ens)); [eauto|].
  intros p1 tr1 le p2 (rns & ens & Hi) Hst. inversion Hst as [l p1' e p2' Hpol E]; subst.
  pose proof (pnext_fine l _ _ _ Hi Hpol) as Hf. rewrite E in Hf.
  destruct Hf as (rns' & ens' & Hi' & _). eauto.
Qed.

Lemma pol_run p0 tr p : run pol_step p0 tr p → run pstep p0 tr p.
Proof.
  apply (run_invariant pol_step (λ p tr, run pstep p0 tr p)); [constructor|].
  intros p1 tr1 le p2 IH Hst. inversion Hst; subst. eapply run_snoc; [done|]. by constructor.
Qed.

(** A schedule that completes is a run. *)
Lemma pruns_run ls p p' es :
  pruns ls p = Some (Ok (p', es)) → ∃ tr, run pstep p tr p' ∧ events tr = es ∧ tr.*1 = ls.
Proof.
  revert p es. induction ls as [|l ls IH]; intros p es E; simpl in E.
  - unfold pgo in E. simplify_eq. exists []. split; [constructor|done].
  - destruct (pnext l p) as [[[p1 e1]|]|] eqn:E1; try done.
    destruct (pruns ls p1) as [[[p2 e2]|]|] eqn:E2; try done. simplify_eq.
    destruct (IH _ _ E2) as (tr & Hr & <- & <-). exists ([(l, e1)] ++ tr). split; [|done].
    eapply run_trans; [|done]. apply run_one. by constructor.
Qed.

(** The same for schedules whose inputs keep the assumptions; the labels are
    tested in the states they are taken in. *)
Fixpoint polite_along (ls : list plabel) (p : proc) : Prop :=
  match ls with
  | [] => True
  | l :: ls' =>
      polite_label p l ∧
      match pnext l p with Some (Ok (p', _)) => polite_along ls' p' | _ => True end
  end.

Lemma pruns_pol_run ls p p' es :
  polite_along ls p → pruns ls p = Some (Ok (p', es)) →
  ∃ tr, run pol_step p tr p' ∧ events tr = es ∧ tr.*1 = ls.
Proof.
  revert p es. induction ls as [|l ls IH]; intros p es Hpol E; simpl in E, Hpol.
  - unfold pgo in E. simplify_eq. exists []. split; [constructor|done].
  - destruct Hpol as [Hl Hpol]. destruct (pnext l p) as [[[p1 e1]|]|] eqn:E1; try done.
    destruct (pruns ls p1) as [[[p2 e2]|]|] eqn:E2; try done. simplify_eq.
    destruct (IH _ _ Hpol E2) as (tr & Hr & <- & <-). exists ([(l, e1)] ++ tr). split; [|done].
    eapply run_trans; [|done]. apply run_one. by constructor.
Qed.

End anyrun.

(** ** Concrete runs *)

Section concrete.
Context {Al : Allocator} {Tot : TotalAllocator} {ops : Ops} {spec : OpsSpec ops}.

Definition pfinal (ls : list plabel) (p : proc) : proc :=
  match pruns ls p with Some (Ok (p', _)) => p' | _ => p end.
Definition pshown (ls : list plabel) (p : proc) : list pevent :=
  match pruns ls p with Some (Ok (_, e)) => e | _ => [] end.
Definition pcompletes (ls : list plabel) (p : proc) : bool :=
  match pruns ls p with Some (Ok _) => true | _ => false end.

(** Labels whose input is acceptable in any state. *)
Definition always_polite (l : plabel) : Prop := ∀ p, polite_label p l.

Lemma always_polite_along ls p : Forall always_polite ls → polite_along ls p.
Proof.
  intros H. revert p. induction H as [|l ls Hl _ IH]; intros p; [done|]. simpl.
  split; [apply Hl|]. destruct (pnext l p) as [[[p' e]|]|]; auto.
Qed.

Lemma pcompletes_run ls p :
  pcompletes ls p = true → ∃ tr, run pstep p tr (pfinal ls p) ∧ events tr = pshown ls p ∧ tr.*1 = ls.
Proof.
  unfold pcompletes, pfinal, pshown. destruct (pruns ls p) as [[[p' e]|]|] eqn:E; try done.
  intros _. by eapply pruns_run.
Qed.

Lemma pcompletes_pol_run ls p :
  Forall always_polite ls → pcompletes ls p = true →
  ∃ tr, run pol_step p tr (pfinal ls p) ∧ events tr = pshown ls p ∧ tr.*1 = ls.
Proof.
  intros Hpol. unfold pcompletes, pfinal, pshown.
  destruct (pruns ls p) as [[[p' e]|]|] eqn:E; try done.
  intros _. eapply pruns_pol_run; [by apply always_polite_along|done].
Qed.

Lemma undisturbed_labels tr :
  Forall (λ l, is_sigint l = false) tr.*1 → undisturbed tr.
Proof.
  unfold undisturbed. intros H%Forall_fmap. eapply Forall_impl; [exact H|].
  intros [l e] Hl. by destruct l.
Qed.

End concrete.
