(* ===== verification/PipelineItems.v ===== *)
(** * The items of a run

    Every attempt of a source thread uses one of the items asked for on the
    command line; a source thread stops only when there are none left or when
    the terminator was read. *)

From stdpp Require Import base numbers list option gmap.
From S2P Require Import Prelude Memory CList Fun Buffer Pipeline PipelineInv PipelineMove PipelineLive PipelineDone PipelineProgress PipelineTerm PipelineStart.
Local Open Scope Z_scope.

(** ** Attempts *)

Definition is_try (ev : pevent) : bool :=
  match ev with PIn _ | PReadFail | PLast => true | _ => false end.
Definition tries (e : list pevent) : Z := nlen (filter (λ ev, is_try ev = true) e).

Lemma tries_app e e' : tries (e ++ e') = tries e + tries e'.
Proof. unfold tries, nlen. rewrite filter_app, length_app. lia. Qed.

(** What was tried and what is left make the number of items. *)
Definition items_ok (items : Z) (p : proc) (e : list pevent) : Prop :=
  tries e + Z.max 0 (todo p) = items ∧
  ∀ t, role p t = 0%nat → threads p !! t = Some Exit → todo p ≤ 0 ∨ PLast ∈ e.

Lemma move_items sends p p' t c c' ts e :
  move sends p p' t c c' ts e → todo_ok p →
  todo p' ≤ todo p ∧ tries e + Z.max 0 (todo p') = Z.max 0 (todo p) ∧
  (c' = Exit → kind c = 0%nat → todo p ≤ 0 ∨ PLast ∈ e).
Proof.
  intros Hm Htd. destruct (todo_ok_range _ Htd) as [Hr Hm0]. pose proof (td_loop _ Htd) as Hl.
  assert (∀ n, took n p p' → n = todo p ∧ todo p' = todo p - 1) as Htook.
  { intros n [(? & _)|(_ & -> & ->)]; [done|]. split; [done|]. apply wrap32_id. unfold_ranges. lia. }
  clear Htd Hr Hm0 Hl. unfold tries, nlen.
  destruct Hm as [c c' Hcc _ _ _ _ [-> _]|c c' Hcc _ _ _ _ [-> _]|d _ _ [-> _]|c n Hcc Htk Hle _ _ _ _
    |c c' n w e Hcc Htk Hlt _ _ _ _ He|d n w Htk Hlt|_ _ _ _ _ [-> _]|_ _ _ _ _ [-> _]|d s _ _ _ _ [-> _]
    |d _ _ [-> _]|d w _ _ _ [-> _]|c c' Hcc _ _ _ _ _ [-> _]|c Hcc _ _ _ _ _ [-> _]|d _ _ _ [-> _]
    |s _ _ _ _ [-> _]|d n Hlt _ _ [-> _]|d n e _ _ [-> _] H1 H2|d n e _ _ _ [-> _] H1 H2
    |k i Hi _ _ _ [-> _]|k i c' Hi -> _ _ [-> _]|_ _ _ _ _ [-> _]|k _ _ _ _ _ [-> _]|n Hle _ _ [-> _]
    |n r _ _ [-> _]|r _ _ [-> _]]; try done.
  - split; [done|]. split; [done|]. intros ->. repeat case_match; done.
  - split; [done|]. split; [done|]. intros ->. repeat case_match; done.
  - destruct (Htook _ Htk) as [-> ->]. simpl. split; [lia|]. split; [lia|]. by left.
  - destruct (Htook _ Htk) as [-> ->]. destruct c, c'; try done; destruct e; try done; simpl;
      (split; [lia|]); (split; [lia|done]).
  - destruct (Htook _ Htk) as [-> ->]. simpl. split; [lia|]. split; [lia|]. right. set_solver.
  - by destruct c, c'.
  - by destruct c.
  - destruct (decide (n < MAX_RETRY)) as [Hlt|Hge]; [by destruct (H1 Hlt) as [s ->]|].
    by rewrite (H2 ltac:(lia)).
  - destruct (decide (n = 5)) as [Hlt|Hge]; [by destruct (H1 Hlt) as [s ->]|].
    by rewrite (H2 Hge).
Qed.

Lemma items_move items sends p p' t c c' ts es e :
  items_ok items p es → todo_ok p → live p → threads p !! t = Some c →
  move sends p p' t c c' ts e → after t c' ts p p' → sizes p' = sizes p →
  items_ok items p' (es ++ e).
Proof.
  intros [Hn Hx] Htd L Hc Hm Ha Hs.
  destruct (move_items _ _ _ _ _ _ _ _ Hm Htd) as (H1 & H2 & H3).
  split; [rewrite tries_app; lia|].
  intros t0 Hr0 H0. rewrite (same_role _ _ _ Hs) in Hr0. rewrite elem_of_app.
  assert (todo p ≤ 0 ∨ PLast ∈ es ∨ PLast ∈ e) as [|]; [|lia|tauto].
  destruct (after_cases _ _ _ _ _ _ _ Ha H0) as [[-> <-]|[_ (c1 & Hc1 & E)]].
  - assert (kind c = 0%nat) as Hk; [|destruct (H3 eq_refl Hk); tauto].
    destruct (lv_role _ L _ _ Hc) as [->|[-> _]]; [done|]. by destruct (move_not_exit _ _ _ _ _ _ _ _ Hm).
  - assert (threads p !! t0 = Some Exit) as Hx0; [|destruct (Hx t0 Hr0 Hx0); tauto].
    destruct E as [<-|E]; [done|]. destruct c1; by destruct E.
Qed.

(** A process whose source threads run [create_data] only creates. *)
Definition not_read (c : ppc) : Prop :=
  match c with RdInit | RdLock _ | RdBody _ => False | _ => True end.
Definition creates (p : proc) : Prop := ∀ t c, threads p !! t = Some c → not_read c.
Definition only_in (e : list pevent) : Prop := tries e = nlen (ins_of e) ∧ PLast ∉ e.

Lemma only_in_app e e' : only_in e → only_in e' → only_in (e ++ e').
Proof.
  unfold only_in, nlen. intros [H1 H2] [H3 H4]. rewrite tries_app, ins_of_app, length_app, elem_of_app.
  split; [lia|tauto].
Qed.

Definition quiet (ev : pevent) : bool :=
  match ev with PReadFail | PLast => false | _ => true end.
Lemma only_in_nil : only_in [].
Proof. split; [done|set_solver]. Qed.
Lemma only_in_one ev : quiet ev = true → only_in [ev].
Proof. destruct ev; intros; try done; (split; [done|set_solver]). Qed.
#[local] Hint Resolve only_in_nil : core.

Lemma move_creates sends p p' t c c' ts e :
  move sends p p' t c c' ts e → not_read c → not_read c' ∧ only_in e.
Proof.
  destruct 1 as [c c' Hcc|c c' Hcc| | |c c' n w e Hcc Htk Hlt _ _ _ _ He| | | | | | |c c' Hcc| | | | |
    d n e _ _ _ H1 H2|d n e _ _ _ _ H1 H2| |k i c' Hi ->| | | | |]; intros Hnr; try done;
    try (split; [done|by apply only_in_one]); try (split; [done|by auto]).
  - split; [|auto]. repeat case_match; done.
  - split; [|auto]. repeat case_match; done.
  - destruct c, c'; try done. destruct e; try done. split; [done|by apply only_in_one].
  - split; [|auto]. repeat case_match; done.
  - split; [done|].
    destruct (decide (n < MAX_RETRY)) as [Hlt|Hge]; [destruct (H1 Hlt) as [s ->]|rewrite (H2 ltac:(lia))];
      [by apply only_in_one|auto].
  - split; [done|]. destruct (decide (n = 5)) as [Hlt|Hge]; [destruct (H1 Hlt) as [s ->]|rewrite (H2 Hge)];
      [by apply only_in_one|auto].
  - split; [|auto]. repeat case_match; done.
Qed.

Section items.
Context {Al : Allocator} {Tot : TotalAllocator} {ops : Ops} {spec : OpsSpec ops}.

Lemma creates_after t c' ts p p' :
  creates p → not_read c' → after t c' ts p p' → creates p'.
Proof.
  intros Hcr Hc' Ha t0 c0 H0.
  destruct (after_cases _ _ _ _ _ _ _ Ha H0) as [[-> ->]|[_ (c1 & Hc1 & E)]]; [done|].
  destruct E as [->|E]; [by apply (Hcr t0)|]. destruct c1; destruct E; simplify_eq/=; done.
Qed.

Lemma creates_run p0 tr p :
  creates p0 → run pstep p0 tr p → undisturbed tr → handler p0 = None →
  handler p = None ∧ creates p ∧ only_in (events tr).
Proof.
  intros H0 Hr Hu Hh0. revert Hr Hu.
  apply (run_invariant pstep (λ p tr, undisturbed tr → handler p = None ∧ creates p ∧ only_in (events tr))).
  - intros _. split; [done|]. split; [done|]. apply only_in_nil.
  - intros p1 tr1 [l e] p2 IH Hst [Hu1 Hu2]%Forall_app. destruct (IH Hu1) as (Hh & Hcr & Ho).
    inversion Hst as [l' p1' e' p2' E]; subst. rewrite events_snoc.
    inversion Hu2 as [|? ? Hl]; subst.
    destruct (next_no_handler _ _ _ _ E Hh) as [Hh' _]; [by destruct l|]. split; [done|].
    destruct l as [t i|t|t|]; try done; simpl in E.
    + destruct (in_handler t p1); [done|].
      destruct (exec_after _ _ _ _ _ E) as (c & c' & ts & Hc & Hm & Ha & _).
      destruct (move_creates _ _ _ _ _ _ _ _ Hm (Hcr _ _ Hc)) as [Hc' He].
      split; [by eapply creates_after|by apply only_in_app].
    + destruct (in_handler t p1); [done|].
      destruct (spurious_after _ _ _ _ E) as (c & c' & Hc & Hw & -> & Ha & _).
      rewrite app_nil_r. split; [|done]. eapply creates_after; [done| |done].
      destruct c; destruct Hw; simplify_eq/=; done.
    + unfold catcher_body in E. by rewrite Hh in E.
Qed.

(** ** Undisturbed runs from the start *)

Record pipe_ok (bound : nat) (sz : nat * nat * nat) (items : Z) (p : proc)
    (tr : list (plabel * list pevent)) : Prop := {
  po_run : ∃ rns ens, run_ok bound p tr rns ens;
  po_items : items_ok items p (events tr);
  po_sizes : sizes p = sz }.

Lemma pipe_step bound sz items p tr l e p' :
  pipe_ok bound sz items p tr → is_sigint l = false → pol_step p (l, e) p' →
  pipe_ok bound sz items p' (tr ++ [(l, e)]).
Proof.
  intros [(rns & ens & Hro) Hit Hsz] Hns Hst.
  destruct (run_ok_step _ _ _ _ _ _ _ _ Hro Hns Hst) as (rns' & ens' & Hro').
  inversion Hst as [l' p1 e' p1' Hpol E]; subst.
  assert (items_ok items p' (events tr ++ e) ∧ sizes p' = sizes p) as [Hit' Hs].
  { destruct l as [t i|t|t|]; try done; simpl in E.
    - destruct (in_handler t p); [done|].
      destruct (exec_after _ _ _ _ _ E) as (c & c' & ts & Hc & Hm & Haf & Hf).
      pose proof (step_sizes _ _ _ Hf) as Hs. split; [|done].
      eapply items_move; try done; apply Hro.
    - destruct (in_handler t p); [done|].
      destruct (spurious_after _ _ _ _ E)
        as (c & c' & Hc & Hw & -> & Haf & (_ & _ & _ & Hs) & [Et _] & _).
      split; [|done]. rewrite app_nil_r.
      destruct Hit as [Hn Hx]. split; [by rewrite Et|]. intros t0. rewrite (same_role _ _ _ Hs), Et.
      intros Hr H0. apply (Hx t0); [done|].
      destruct (after_cases _ _ _ _ _ _ _ Haf H0) as [[-> E0]|[_ (c1 & Hc1 & [->|E1])]]; [|done|].
      + rewrite <- E0 in Hw. destruct c; by destruct Hw.
      + destruct c1; by destruct E1.
    - unfold catcher_body in E. by rewrite (ro_handler _ _ _ _ _ Hro) in E. }
  split; [eauto|by rewrite events_snoc|done].
Qed.

Lemma run_ok_weaken bound bound' p tr rns ens :
  (bound ≤ bound')%nat → run_ok bound p tr rns ens → run_ok bound' p tr rns ens.
Proof. intros Hb []. split; try done. lia. Qed.

(** [a], [b] and [c] threads per stage. *)
Lemma pipe_run src snk a b c items bound tr p :
  (src = CrLock ∨ (src = RdInit ∧ ops_frees = false)) → (snk = WrLock ∨ snk = PrLock) →
  0 ≤ a ≤ 100 → 0 ≤ b → 0 ≤ c → 0 ≤ items ≤ INT_MAX →
  21 * items + 10 * a + 9 * b + 9 * c + 22 ≤ bound →
  run pol_step (start src ElLock snk (a, b, c) items 0) tr p → undisturbed tr →
  pipe_ok (Z.to_nat bound) (Z.to_nat a, Z.to_nat b, Z.to_nat c) items p tr.
Proof.
  intros Hsrc Hsnk Ha Hb Hc Hi Hbd.
  apply (run_invariant pol_step (λ p tr, undisturbed tr → pipe_ok (Z.to_nat bound) _ items p tr)).
  - intros _. split; [|split|done].
    + exists [], []. eapply run_ok_weaken; [|apply start_run_ok; (done || lia)].
      unfold step_bound, total, start. cbn [sizes]. lia.
    + unfold tries, nlen. simpl. lia.
    + intros t _ Hx. by destruct (start_pc src snk a b c items 0 Hsrc Hsnk _ _ Hx) as (_ & _ & _ & ? & _).
  - intros p1 tr1 [l e] p2 IH Hst [Hu1 Hu2]%Forall_app. eapply pipe_step; [by apply IH| |done].
    inversion Hu2 as [|? ? Hl]; subst. by destruct l.
Qed.

(** At the end: all strings left, and all items used unless the terminator
    was read. *)
Lemma pipe_finished bound a b c items p tr r :
  pipe_ok bound (S a, S b, S c) items p tr → threads p !! 0%nat = Some (Finished r) →
  (tries (events tr) = items ∨ PLast ∈ events tr) ∧ Forall raw_ok (ins_of (events tr)) ∧
  conv_str <$> ins_of (events tr) ≡ₚ outs_of (events tr).
Proof.
  intros [(rns & ens & Hro) [Hn Hx] Hsz] Hfin.
  assert (stage_size 0 p = S a ∧ stage_size 1 p = S b ∧ stage_size 2 p = S c)
    as (S0 & S1 & S2) by (unfold stage_size; by rewrite Hsz).
  destruct (finished_all _ _ _ _ _ _ Hro Hfin) as [Hall Hperm]; [lia|lia|].
  split; [|split; [apply (ro_raw _ _ _ _ _ Hro)|done]].
  destruct (role_base 0 p 0 ltac:(lia) ltac:(lia)) as [R0 T0].
  destruct (lookup_lt_is_Some_2 (threads p) (stage_base 0 p + 0)%nat) as [x Hc];
    [by rewrite (lv_len _ (ro_live _ _ _ _ _ Hro))|].
  assert (x = Exit) as ->.
  { apply (Hall _ _ Hc). unfold stage_base. rewrite Hsz. simpl. lia. }
  destruct (Hx _ R0 Hc) as [|]; [left; lia|by right].
Qed.

(** The number of attempts never exceeds the items. *)
Lemma pipe_tries bound sz items p tr : pipe_ok bound sz items p tr → tries (events tr) ≤ items.
Proof. intros [_ [Hn _] _]. lia. Qed.

End items.

(** ** Thread numbers *)

Lemma nthreads_pos todo step max :
  0 < todo < INT_MAX → 0 < step → 1 ≤ max → 1 ≤ nthreads false todo step max ≤ max.
Proof.
  intros Ht Hs Hm. unfold nthreads. rewrite Z.quot_div_nonneg by lia.
  assert (0 ≤ todo / step) by (apply Z.div_pos; lia).
  assert (todo / step ≤ todo) by (apply Z.div_le_upper_bound; nia).
  rewrite wrap32_id by (unfold_ranges; lia). case_bool_decide; lia.
Qed.
