(* ===== verification/PipelineSig.v ===== *)
(** * A signal in a critical section

    catcher_SIGINT locks [rmutex].  When it interrupts a source thread that
    holds this mutex the process never ends. *)

From stdpp Require Import base numbers list option gmap.
From S2P Require Import Prelude Memory CList Fun Buffer Pipeline PipelineInv PipelineMove PipelineLive PipelineDone PipelineProgress PipelineTerm PipelineStart.
Local Open Scope Z_scope.

Section signal.
Context {Al : Allocator} {Tot : TotalAllocator} {ops : Ops} {spec : OpsSpec ops}.

(** Without a signal the order of the stages is kept on any run. *)
Lemma run_live p0 tr p :
  live p0 → handler p0 = None → run pstep p0 tr p → undisturbed tr → live p ∧ handler p = None.
Proof.
  intros L0 H0.
  apply (run_invariant pstep (λ p tr, undisturbed tr → live p ∧ handler p = None)); [done|].
  intros p1 tr1 [l e] p2 IH Hst [Hu1 Hu2]%Forall_app. destruct (IH Hu1) as [L Hh].
  inversion Hst as [l' p1' e' p2' E]; subst. inversion Hu2 as [|? ? Hl]; subst.
  split; [eapply live_step; try done; by destruct l|].
  by destruct (next_no_handler _ _ _ _ E Hh).
Qed.

(** The thread [t] is interrupted while it holds [rmutex]; main waits for a
    source thread that is not behind it. *)
Record jammed (t : nat) (c : ppc) (n : Z) (p : proc) : Prop := {
  jm_locks : locks_ok p;
  jm_sig : sig_ok p n;
  jm_handler : handler p = Some (t, HLockR);
  jm_mutex : rmutex p = Some t;
  jm_thread : threads p !! t = Some c;
  jm_main : ∃ j, threads p !! 0%nat = Some (JoinT 0 j) ∧ (1 + j ≤ t)%nat ∧ (t ≤ stage_size 0 p)%nat }.

(** A move of another thread. *)
Lemma jammed_move t c n sends p p' t0 c0 c' ts e :
  jammed t c n p → holds_r c = true → t0 ≠ t → threads p !! t0 = Some c0 →
  move sends p p' t0 c0 c' ts e → after t0 c' ts p p' → flags_ok c0 p p' →
  rmutex p' = Some t ∧ threads p' !! t = Some c ∧
  ∃ j, threads p' !! 0%nat = Some (JoinT 0 j) ∧ (1 + j ≤ t)%nat ∧ (t ≤ stage_size 0 p')%nat.
Proof.
  intros [Hl Hs Hh Hm Ht (j & H0 & Hj & Hsz)] Hc Hne Hc0 Hmv Ha Hf.
  assert (∀ x, wake_r c = Some x ∨ wake_e c = Some x → False) as Hnw
    by (intros x [E|E]; destruct c; done).
  assert (stage_size 0 p' = stage_size 0 p) as Ez by (apply same_size; apply Hf).
  split; [|split].
  - destruct (move_locks _ _ _ _ _ _ _ _ Hmv) as [[[-> _]|[(E & _)|(_ & E & _)]] _]; [done|congruence|].
    pose proof (mx_holds _ _ _ _ (proj1 Hl) _ _ Hc0 E). congruence.
  - destruct (after_other _ _ _ _ _ _ _ Ha (not_eq_sym Hne) Ht) as (c1 & ? & [->|E]); [done|].
    by destruct (Hnw c1).
  - rewrite Ez. destruct (decide (t0 = 0%nat)) as [->|Ht0].
    + rewrite Hc0 in H0. simplify_eq. rewrite (after_same _ _ _ _ _ Ha).
      inversion Hmv as [? ? Hcc| ? ? Hcc| | ? ? Hcc|? ? ? ? ? Hcc| | | | | | |? ? Hcc|? Hcc| | | | |
        |k i Hi Hex|k i ? Hi| | | | |]; subst; try done.
      * exists (S j). split; [done|]. split; [|done].
        assert (stage_base 0 p + j ≠ t)%nat as Hjt; [|unfold stage_base in Hjt; repeat case_match; lia].
        intros E. rewrite E, Ht in Hex. simplify_eq.
      * lia.
    + destruct (after_other _ _ _ _ _ _ _ Ha (not_eq_sym Ht0) H0) as (c1 & ? & [->|[E|E]]); [|done..].
      eauto.
Qed.

Lemma jammed_step t c n p l e p' :
  jammed t c n p → holds_r c = true → 1 ≤ n < INT_MAX → pstep p (l, e) p' →
  jammed t c (n + if is_sigint l then 1 else 0) p'.
Proof.
  intros J Hc Hn Hst. inversion Hst as [l' p1 e' p1' E]; subst.
  pose proof (jm_locks _ _ _ _ J) as Hl. pose proof (jm_sig _ _ _ _ J) as Hs.
  pose proof (locks_step _ _ _ _ _ Hl Hs ltac:(lia) E) as Hl'.
  pose proof (sig_step _ _ _ _ _ Hs ltac:(lia) E) as Hs'.
  pose proof (jm_handler _ _ _ _ J) as Hh. pose proof (jm_mutex _ _ _ _ J) as Hm.
  destruct l as [t0 i|t0|t0|]; simpl in E.
  - destruct (in_handler t0 p) eqn:Hin; [done|]. unfold in_handler in Hin. rewrite Hh in Hin.
    apply bool_decide_eq_false in Hin.
    destruct (exec_after _ _ _ _ _ E) as (c0 & c' & ts & Hc0 & Hmv & Ha & Hf).
    destruct (jammed_move _ _ _ _ _ _ _ _ _ _ _ J Hc (not_eq_sym Hin) Hc0 Hmv Ha Hf) as (H1 & H2 & H3).
    split; try done. destruct Hf as (-> & _). done.
  - destruct (in_handler t0 p) eqn:Hin; [done|]. unfold in_handler in Hin. rewrite Hh in Hin.
    apply bool_decide_eq_false in Hin.
    destruct (spurious_after _ _ _ _ E)
      as (c0 & c' & Hc0 & Hw & _ & Ha & (_ & _ & Eh & Esz) & _ & [Er _] & _).
    destruct J as [_ _ _ _ Ht (j & H0 & Hj & Hsz)].
    split; try done; [congruence|congruence| |].
    + destruct (after_other _ _ _ _ _ _ _ Ha Hin Ht) as (c1 & ? & [->|[E1|E1]]); [done|..];
        destruct c; done.
    + exists j. rewrite (same_size _ _ _ Esz). split; [|done].
      destruct (after_cases _ _ _ _ _ 0%nat (JoinT 0 j) Ha) as [[<- <-]|[Hne _]].
      * destruct Ha as (-> & _). rewrite list_lookup_insert_ne; [done|]. intros ->.
        rewrite Hc0 in H0. simplify_eq. by destruct Hw.
      * rewrite Hc0 in H0. simplify_eq. by destruct Hw.
      * destruct (after_other _ _ _ _ _ _ _ Ha Hne H0) as (c1 & ? & [->|[E1|E1]]); done.
  - destruct (in_handler t0 p); [done|]. unfold catcher_SIGINT, pgo in E.
    assert (wrap32 (control p + 1) = n + 1) as Ew
      by (destruct Hs as [-> _]; apply wrap32_id; unfold_ranges; lia).
    destruct J as [_ _ _ _ Ht Hmn]. destruct (threads p !! t0) as [c0|]; [|done].
    destruct c0; try done; (rewrite bool_decide_true in E by (simpl; lia)); simplify_eq; by split.
  - unfold catcher_body in E. rewrite Hh, Hm in E. done.
Qed.

Lemma jammed_run t c n p tr q :
  jammed t c n p → holds_r c = true → 1 ≤ n → run pstep p tr q → n + signals tr < INT_MAX →
  jammed t c (n + signals tr) q.
Proof.
  intros J Hc Hn.
  apply (run_invariant pstep (λ q tr, n + signals tr < INT_MAX → jammed t c (n + signals tr) q)).
  - intros _. unfold signals. simpl. by rewrite Z.add_0_r.
  - intros p1 tr1 [l e] p2 IH Hst.
    assert (signals (tr1 ++ [(l, e)]) = signals tr1 + if is_sigint l then 1 else 0) as ->.
    { unfold signals. rewrite filter_app, length_app. simpl.
      destruct l; simpl; rewrite ?decide_False, ?decide_True by done; simpl; lia. }
    intros Hlt. assert (0 ≤ signals tr1) by (unfold signals; lia).
    assert (n + signals tr1 < INT_MAX) by (destruct (is_sigint l); lia).
    rewrite Z.add_assoc. eapply jammed_step; try done; [by apply IH|lia].
Qed.

(** A source thread that holds [rmutex] gets the signal. *)
Lemma signal_jams p t c p' e :
  live p → locks_ok p → handler p = None → control p = 0 →
  threads p !! t = Some c → kind c = 0%nat → holds_r c = true →
  pnext (PSigint t) p = Some (Ok (p', e)) → jammed t c 1 p'.
Proof.
  intros L Hl Hh H0 Hc Hk Hr E.
  assert (sig_ok p 0) as Hs by (split; [done|]; split; [done|by rewrite Hh]).
  pose proof (locks_step _ _ _ _ _ Hl Hs ltac:(done) E) as Hl'.
  pose proof (sig_step _ _ _ _ _ Hs ltac:(done) E) as Hs'.
  assert (role p t = 0%nat) as Hrole.
  { destruct (lv_role _ L _ _ Hc) as [<-|[-> _]]; done. }
  assert (t < total p)%nat as Ht by (rewrite <- (lv_len _ L); by eapply lookup_lt_Some).
  assert (¬ exited 0 p) as Hnx.
  { intros Hex. rewrite (Hex t Hrole Ht) in Hc. simplify_eq. }
  assert (1 ≤ t ≤ stage_size 0 p)%nat as Htr.
  { unfold role in Hrole. unfold stage_size. destruct (sizes p) as [[??]?].
    repeat case_decide; lia. }
  assert (∃ j, threads p !! 0%nat = Some (JoinT 0 j) ∧ (1 + j ≤ t)%nat) as (j & Hj & Hjt).
  { destruct (lv_main _ L) as (cm & Hm & Hok & _).
    destruct cm as [| | | | | | | | | | | | | | | | | | | | | | |k i|k|k|n| |r]; try done.
    - destruct Hok as (_ & _ & Hlow & Hj). destruct k; [|destruct Hnx; apply Hlow; lia].
      exists i. split; [done|]. destruct (decide (1 + i ≤ t)%nat) as [|Hgt]; [done|].
      assert (stage_base 0 p + (t - 1) = t)%nat as Eb
        by (unfold stage_base; destruct (sizes p) as [[??]?]; lia).
      specialize (Hj (t - 1)%nat ltac:(lia)). rewrite Eb, Hc in Hj. by simplify_eq.
    - destruct Hnx. apply Hok. lia.
    - destruct Hnx. apply Hok. lia.
    - destruct Hnx. apply Hok. lia.
    - destruct Hnx. apply Hok. lia.
    - destruct Hnx. apply Hok. lia. }
  pose proof (mx_holds _ _ _ _ (proj1 Hl) _ _ Hc Hr) as Hm.
  simpl in E. unfold in_handler, catcher_SIGINT, pgo in E. rewrite Hh, Hc, H0 in E.
  destruct c; try done; simplify_eq/=; (split; try done); exists j; (split; [done|]); (split; [lia|exact (proj2 Htr)]).
Qed.

End signal.
