(* ===== verification/PipelineClean.v ===== *)
(** * Cleaning up

    On every run, signals included, main destroys the mutexes and the condition
    variables once, when it has joined all threads and nothing uses them. *)

From stdpp Require Import base numbers list option gmap.
From S2P Require Import Prelude Memory CList Fun Buffer Pipeline PipelineInv PipelineMove PipelineLive PipelineDone PipelineProgress PipelineTerm PipelineStart.
Local Open Scope Z_scope.

(** Main's place in the order of the stages, on any run: the flags of the
    buffers, which the signal handler sets early, do not matter. *)
Record staged (p : proc) : Prop := {
  st_len : length (threads p) = total p;
  st_role t c : threads p !! t = Some c → in_role (role p t) c;
  st_main : ∃ c, threads p !! 0%nat = Some c ∧ main_ok p c;
  st_handler t h : handler p = Some (t, h) → ∃ c, threads p !! t = Some c ∧ c ≠ Exit }.

(** The times [cleanup] ran. *)
Definition is_clean (ev : pevent) : bool := match ev with PClean _ => true | _ => false end.
Definition cleans (e : list pevent) : nat := length (filter (λ ev, is_clean ev = true) e).
Definition finished (p : proc) : bool := match threads p !! 0%nat with Some (Finished _) => true | _ => false end.
Definition all_unused (e : list pevent) : Prop := PClean false ∉ e.

Lemma move_quiet sends p p' t c c' ts e : move sends p p' t c c' ts e → c ≠ Closing → cleans e = 0%nat ∧ all_unused e.
Proof.
  unfold cleans, all_unused. destruct 1; intros Hc; repeat case_match; simplify_eq/=; try done;
    repeat match goal with
    | H : ?n < MAX_RETRY → ∃ s, ?e = _, H' : MAX_RETRY ≤ ?n → ?e = [] |- _ =>
        destruct (decide (n < MAX_RETRY)) as [?|?]; [destruct (H ltac:(done)) as [? ->]|rewrite (H' ltac:(lia))]; clear H H'
    | H : ?n = 5 → ∃ s, ?e = _, H' : ?n ≠ 5 → ?e = [] |- _ =>
        destruct (decide (n = 5)) as [?|?]; [destruct (H ltac:(done)) as [? ->]|rewrite (H' ltac:(done))]; clear H H'
    end; (split; [done|]); set_solver.
Qed.

Section clean.
Context {Al : Allocator} {Tot : TotalAllocator} {ops : Ops} {spec : OpsSpec ops}.

Lemma staged_after sends p p' t c c' ts e :
  staged p → threads p !! t = Some c → move sends p p' t c c' ts e → after t c' ts p p' → flags_ok c p p' → in_handler t p = false → staged p'.
Proof.
  intros [S1 S2 S3 S4] Hc Hm Ha (Hh & Hs & _) Hin. constructor.
  - by rewrite (after_length _ _ _ _ _ Ha), (same_total _ _ Hs).
  - by eapply roles_move.
  - by eapply main_move_ok.
  - intros t0 h. rewrite Hh. intros E. destruct (S4 t0 h E) as (c0 & H0 & Hx).
    assert (t0 ≠ t) as Hne by (intros ->; unfold in_handler in Hin; rewrite E in Hin; by apply bool_decide_eq_false in Hin).
    destruct (after_other _ _ _ _ _ _ _ Ha Hne H0) as (c1 & H1 & Hc1). exists c1. split; [done|].
    destruct Hc1 as [->|[Hw|Hw]]; [done|by destruct c0; simplify_eq/=..].
Qed.
Lemma staged_wake p p' t c c' :
  staged p → threads p !! t = Some c → wake_r c = Some c' ∨ wake_e c = Some c' → after t c' (threads p) p p' → same_flags p p' → staged p'.
Proof.
  intros [S1 S2 S3 S4] Hc Hw Ha (_ & _ & Hh & Hs). assert (c ≠ Exit) as Hx by (intros ->; by destruct Hw). constructor.
  - by rewrite (after_length _ _ _ _ _ Ha), (same_total _ _ Hs).
  - intros t0 c0 H0. rewrite (same_role _ _ _ Hs). destruct (after_cases _ _ _ _ _ _ _ Ha H0) as [[-> ->]|[Hne (c1 & H1 & E)]].
    + pose proof (S2 _ _ Hc) as Hr. left. rewrite (wake_kind _ _ Hw). by destruct Hr as [?|[? _]].
    + pose proof (S2 _ _ H1) as Hr. destruct E as [->|E]; [done|]. left. rewrite (wake_kind _ _ E).
      destruct Hr as [?|[-> _]]; [done|]. by destruct E.
  - destruct S3 as (cm & H0 & Hok). assert (t ≠ 0%nat) as Hne.
    { intros ->. assert (cm = c) as -> by congruence. by destruct c; destruct Hw. }
    destruct (after_other _ _ _ _ _ _ _ Ha (not_eq_sym Hne) H0) as (c1 & Hc1 & E).
    assert (c1 = cm) as -> by (destruct E as [->|E]; [done|]; destruct cm; try done; by destruct E).
    exists cm. split; [done|]. by eapply main_ok_after.
  - intros t0 h. rewrite Hh. intros E. destruct (S4 t0 h E) as (c0 & H0 & Hx0). destruct (decide (t0 = t)) as [->|Hne].
    + exists c'. split; [by eapply after_same|]. intros ->. destruct c; by destruct Hw.
    + destruct (after_other _ _ _ _ _ _ _ Ha Hne H0) as (c1 & H1 & Hc1). exists c1. split; [done|].
      destruct Hc1 as [->|[?|?]]; [done|by destruct c0; simplify_eq/=..].
Qed.

(** When main closes the device nothing is in use. *)
Lemma closing_unused p t : staged p → locks_ok p → threads p !! t = Some Closing → in_handler t p = false → cleanup p = [PClean true].
Proof.
  intros [S1 S2 (cm & H0 & Hok) S4] [Lr Le] Hc Hin.
  assert (t = 0%nat) as ->.
  { destruct (S2 _ _ Hc) as [Hr|[? _]]; [|done]. unfold role in Hr. simpl in Hr. destruct (sizes p) as [[??]?]. by repeat case_decide. }
  assert (cm = Closing) as -> by congruence. simpl in Hok.
  assert (∀ t0 c0, threads p !! t0 = Some c0 → c0 = Closing ∧ t0 = 0%nat ∨ c0 = Exit) as Hall.
  { intros t0 c0 Ht0. destruct (decide (t0 = 0%nat)) as [->|Hne]; [left; split; [congruence|done]|right].
    assert (t0 < total p)%nat as Hlt by (rewrite <- S1; by eapply lookup_lt_Some).
    assert (role p t0 < 3)%nat as Hr by (unfold role; destruct (sizes p) as [[??]?]; rewrite decide_False by done; repeat case_decide; lia).
    rewrite (Hok _ Hr t0 eq_refl Hlt) in Ht0. congruence. }
  unfold cleanup. assert (rmutex p = None) as ->.
  { destruct (rmutex p) as [t0|] eqn:Em; [|done]. destruct (mx_owner _ _ _ _ Lr t0 eq_refl) as [(c0 & Hc0 & Hh)|Hh].
    - by destruct (Hall _ _ Hc0) as [[-> _]| ->].
    - unfold hold_of in Hh. destruct (handler p) as [[t1 []]|] eqn:Ehh; try done. injection Hh as ->.
      destruct (S4 _ _ eq_refl) as (c0 & Hc0 & Hx). destruct (Hall _ _ Hc0) as [[_ ->]|?]; [|done].
      unfold in_handler in Hin. rewrite Ehh in Hin. by apply bool_decide_eq_false in Hin. }
  assert (emutex p = None) as ->.
  { destruct (emutex p) as [t0|] eqn:Em; [|done]. destruct (mx_owner _ _ _ _ Le t0 eq_refl) as [(c0 & Hc0 & Hh)|Hh]; [|done].
    by destruct (Hall _ _ Hc0) as [[-> _]| ->]. }
  rewrite !bool_decide_true by done. assert (forallb (λ c, match wake_r c ∪ wake_e c with Some _ => false | None => true end) (threads p) = true) as ->; [|done].
  apply forallb_forall. intros c0 Hc0%list_elem_of_In. apply list_elem_of_lookup in Hc0 as [t0 Ht0]. by destruct (Hall _ _ Ht0) as [[-> _]| ->].
Qed.

Lemma staged_threads p p' : staged p → threads p' = threads p → sizes p' = sizes p →
  (∀ t h, handler p' = Some (t, h) → ∃ c, threads p !! t = Some c ∧ c ≠ Exit) → staged p'.
Proof.
  intros [S1 S2 (cm & H0 & Hok) _] Et Es Hh. constructor; rewrite ?Et; [by rewrite (same_total _ _ Es)| | |done].
  - intros t c Hc. rewrite (same_role _ _ _ Es). auto.
  - exists cm. split; [done|]. destruct p, p'. simpl in *. subst. by destruct cm.
Qed.

(** What any run has done. *)
Record tidy (p : proc) (tr : list (plabel * list pevent)) : Prop := {
  ti_staged : staged p;
  ti_locks : locks_ok p;
  ti_signals : sig_ok p (signals tr);
  ti_once : cleans (events tr) = if finished p then 1%nat else 0%nat;
  ti_unused : all_unused (events tr) }.
Lemma cleans_app e e' : cleans (e ++ e') = (cleans e + cleans e')%nat.
Proof. unfold cleans. by rewrite filter_app, length_app. Qed.
Lemma finished_other t c' ts p p' : after t c' ts p p' → t ≠ 0%nat → finished p' = finished p.
Proof.
  intros Ha Hne. unfold finished. destruct (threads p !! 0%nat) as [c0|] eqn:E.
  - destruct (after_other _ _ _ _ _ _ _ Ha (not_eq_sym Hne) E) as (c1 & -> & [->|[Hw|Hw]]); [done|by destruct c0; simplify_eq/=..].
  - assert (threads p' !! 0%nat = None) as ->; [|done]. apply lookup_ge_None. rewrite (after_length _ _ _ _ _ Ha). by apply lookup_ge_None.
Qed.
Definition is_finished (c : ppc) : bool := match c with Finished _ => true | _ => false end.
Lemma move_finished sends p p' t c c' ts e : move sends p p' t c c' ts e → c ≠ Closing → is_finished c = false ∧ is_finished c' = false.
Proof. destruct 1; intros Hc; repeat case_match; simplify_eq/=; done. Qed.
Lemma exec_cleans sends p p' t c c' ts e : staged p → locks_ok p → threads p !! t = Some c → move sends p p' t c c' ts e →
  after t c' ts p p' → in_handler t p = false →
  (cleans e + (if finished p then 1 else 0) = (if finished p' then 1 else 0))%nat ∧ all_unused e.
Proof.
  intros T1 T2 Hc Hm Ha Hin. assert (finished p = if decide (t = 0)%nat then is_finished c else finished p) as Hp.
  { case_decide as Ht; [|done]. subst t. unfold finished. by rewrite Hc. }
  assert (finished p' = if decide (t = 0)%nat then is_finished c' else finished p) as Hp'.
  { case_decide as Ht; [subst t; unfold finished; by rewrite (after_same _ _ _ _ _ Ha)|]. by eapply finished_other. }
  destruct (decide (c = Closing)) as [->|Hne].
  - assert (e = [PClean true] ∧ is_finished c' = true) as [-> Hf].
    { pose proof (closing_unused p t T1 T2 Hc Hin) as Hcl. inversion Hm; subst; repeat case_match; simplify_eq/=; done. }
    assert (t = 0%nat) as ->.
    { destruct (st_role _ T1 _ _ Hc) as [Hr|[? _]]; [|done]. unfold role in Hr. simpl in Hr. destruct (sizes p) as [[??]?]. by repeat case_decide. }
    rewrite decide_True in Hp, Hp' by done. rewrite Hp, Hp', Hf. split; [done|]. unfold all_unused. set_solver.
  - destruct (move_quiet _ _ _ _ _ _ _ _ Hm Hne) as [-> Hu]. destruct (move_finished _ _ _ _ _ _ _ _ Hm Hne) as [H1 H2].
    split; [|done]. rewrite Hp'. case_decide; [|done]. by rewrite Hp, H1, H2.
Qed.
Lemma tidy_step p tr l e p' : tidy p tr → signals tr < INT_MAX → signals (tr ++ [(l, e)]) < INT_MAX →
  pnext l p = Some (Ok (p', e)) → tidy p' (tr ++ [(l, e)]).
Proof.
  intros [T1 T2 T3 T4 T5] Hlt Hlt' E.
  assert (signals (tr ++ [(l, e)]) = signals tr + if is_sigint l then 1 else 0) as Es.
  { unfold signals. rewrite filter_app, length_app. simpl. destruct l; simpl; rewrite ?decide_False, ?decide_True by done; simpl; lia. }
  pose proof (locks_step _ _ _ _ _ T2 T3 Hlt E) as Hl. pose proof (sig_step _ _ _ _ _ T3 Hlt E) as Hs. rewrite <- Es in Hs.
  assert (staged p' ∧ cleans e + (if finished p then 1 else 0) = (if finished p' then 1 else 0) ∧ all_unused e)%nat as (H1 & H2 & H3).
  2: { constructor; [done..| |].
       - rewrite events_snoc, cleans_app. lia.
       - unfold all_unused. rewrite events_snoc. by intros [?|?]%elem_of_app. }
  destruct l as [t i|t|t|]; simpl in E.
  - destruct (in_handler t p) eqn:Hin; [done|]. destruct (exec_after _ _ _ _ _ E) as (c & c' & ts & Hc & Hm & Ha & Hf).
    split; [by eapply staged_after|by eapply exec_cleans].
  - destruct (in_handler t p) eqn:Hin; [done|]. destruct (spurious_after _ _ _ _ E) as (c & c' & Hc & Hw & -> & Ha & Hf & _).
    split; [by eapply staged_wake|]. split; [|unfold all_unused; set_solver]. simpl.
    assert (t ≠ 0%nat) as Hne; [|by rewrite (finished_other _ _ _ _ _ Ha Hne)].
    intros ->. destruct (st_main _ T1) as (cm & H0 & Hok). assert (cm = c) as -> by congruence. by destruct c; destruct Hw.
  - destruct (in_handler t p); [done|]. unfold catcher_SIGINT, pgo in E. destruct (threads p !! t) as [c|] eqn:Hc; [|done].
    assert (threads p' = threads p ∧ sizes p' = sizes p ∧ e = [] ∧ ∀ t0 h, handler p' = Some (t0, h) →
      ∃ c, threads p !! t0 = Some c ∧ c ≠ Exit) as (Et & Esz & -> & Hh').
    { destruct c; try done; case_bool_decide; simplify_eq; (split; [done|split; [done|split; [done|]]]); try exact (st_handler _ T1);
        simpl; intros t0 h [= <- _]; eexists; (split; [exact Hc|done]). }
    split; [by eapply staged_threads|]. unfold finished. rewrite Et. split; [done|]. unfold all_unused. set_solver.
  - assert (threads p' = threads p ∧ sizes p' = sizes p ∧ e = [] ∧ ∀ t0 h, handler p' = Some (t0, h) →
      ∃ c, threads p !! t0 = Some c ∧ c ≠ Exit) as (Et & Esz & -> & Hh').
    { pose proof (st_handler _ T1) as HH. unfold catcher_body, pgo in E. destruct (handler p) as [[t []]|] eqn:Ehh; [| |done].
      - destruct (rmutex p); [done|]. simplify_eq. split; [done|]. split; [done|]. split; [done|]. simpl. intros t0 h [= <- _]. by eapply HH.
      - destruct (emutex p); [done|]. simplify_eq. done. }
    split; [by eapply staged_threads|]. unfold finished. rewrite Et. split; [done|]. unfold all_unused. set_solver.
Qed.

(** From the start. *)
Lemma tidy_run p0 tr p : staged p0 → locks_ok p0 → control p0 = 0 → handler p0 = None → finished p0 = false →
  run pstep p0 tr p → signals tr < INT_MAX → tidy p tr.
Proof.
  intros HS HL HC HH HF. apply (run_invariant pstep (λ p tr, signals tr < INT_MAX → tidy p tr)).
  - intros _. constructor; [done|done| | |].
    + split; [done|]. split; [done|]. by rewrite HH.
    + by rewrite HF.
    + unfold all_unused. simpl. set_solver.
  - intros p1 tr1 [l e] p2 IH Hst Hlt. inversion Hst as [l' p1' e' p2' E]; subst.
    assert (signals tr1 ≤ signals (tr1 ++ [(l, e)])).
    { unfold signals. rewrite filter_app, length_app. lia. }
    eapply tidy_step; [apply IH; lia|lia|done|done].
Qed.
Lemma live_staged p : live p → handler p = None → staged p.
Proof.
  intros L Hh. constructor; [apply L|apply L| |by rewrite Hh]. destruct (lv_main _ L) as (c & H0 & Hok & _). by exists c.
Qed.
End clean.
