(* ===== verification/Writer.v ===== *)
(** * The writer process (Writer/write.c, Writer/write.h)

    The pipeline with the writer's parts: words are generated, put in lower
    case and written to the device. *)

From stdpp Require Import base numbers list option gmap.
From S2P Require Import Prelude Memory CList Fun Buffer Pipeline PipelineInv PipelineMove PipelineLive PipelineDone PipelineProgress PipelineTerm PipelineStart PipelineItems PipelineSig PipelineClean.
Local Open Scope Z_scope.

(** ** Definitions *)

Definition S_ET : Z := 5.
Definition MAX_ET : Z := 10.
Definition S_CT : Z := 10.
Definition MAX_CT : Z := 4.
Definition S_WT : Z := 1.
Definition MAX_WT : Z := 1.

#[export] Instance writer_ops `{Allocator} : Ops := {|
  op_ins := WriterBuffer.wbuf_ins;
  op_ext := WriterBuffer.wbuf_ext;
  op_conv := to_lower;
  op_sends_done := true |}.

(** [dev_open]: the exit status, or the descriptor. *)
Definition dev_open (opened : Z) : Z + Z := if bool_decide (opened = -1) then inl 1 else inr opened.

(** The choice of the number of threads. *)
Definition thread_numbers (todo : Z) : Z * Z * Z :=
  let looping := bool_decide (todo = 0) in
  (nthreads looping todo S_CT MAX_CT, nthreads looping todo S_ET MAX_ET,
   nthreads looping todo S_WT MAX_WT).

(** The process after the creation loops. *)
Definition wstart (items : Z) : proc :=
  start CrLock ElLock WrLock (thread_numbers items) items (if bool_decide (items ≠ 0) then 0 else 1).

(** [main] up to the creation of the threads: the exit status, or the state of
    the process.  [opened] is the result of open. *)
Definition main (argc : Z) (argv1 : list Z) (opened : Z) : Z + proc :=
  if bool_decide (argc = 2) then
    let todo := atoi argv1 in
    match dev_open opened with
    | inl status => inl status
    | inr _ => inr (wstart todo)
    end
  else inl (-1).

(** ** What the pipeline relies on *)

(** Strings of the second buffer: up to 39 small letters. *)
Definition small_word (s : list Z) : Prop :=
  (length s ≤ 39)%nat ∧ Forall (λ c, 97 ≤ c ≤ 121) s.

#[export] Instance writer_spec `{TotalAllocator} : OpsSpec writer_ops.
Proof.
  refine {| ops_frees := true; conv_str := lower; raw_ok := is_word; el_ok := small_word |}.
  - intros s Hs. split; [by apply is_word_cstring|apply Hs].
  - intros s [Hl Hs]. split; [|done]. eapply Forall_impl; [done|]. simpl. lia.
  - done.
  - intros s [_ Hs]. eapply Forall_impl; [done|]. simpl. unfold_ranges. lia.
  - intros s Hs. split; [rewrite length_lower; apply Hs|by apply lower_word].
  - intros h p s Hs Hp. change (shift_letters 32 (Some p) h = Ok (tt, <[p := cells (lower s)]> h)).
    rewrite (shift_letters_spec 32 h p s []); [by rewrite app_nil_r|by rewrite app_nil_r|by apply is_word_cstring|].
    destruct Hs as [? _]. unfold_ranges. lia.
Defined.

(** ** Thread numbers *)

Lemma writer_numbers todo :
  0 < todo < INT_MAX →
  ∃ a b, thread_numbers todo = (a, b, 1) ∧ 1 ≤ a ≤ 4 ∧ 1 ≤ b ≤ 10.
Proof.
  intros Ht. unfold thread_numbers. rewrite bool_decide_false by lia.
  pose proof (nthreads_pos todo S_CT MAX_CT Ht ltac:(done) ltac:(done)) as H1.
  pose proof (nthreads_pos todo S_ET MAX_ET Ht ltac:(done) ltac:(done)) as H2.
  pose proof (nthreads_pos todo S_WT MAX_WT Ht ltac:(done) ltac:(done)) as H3.
  unfold MAX_CT, MAX_ET, MAX_WT in *.
  eexists _, _. split; [|split; [exact H1|exact H2]]. do 2 f_equal. lia.
Qed.

Section runs.
Context {Al : Allocator} {Tot : TotalAllocator}.

Lemma writer_run_ok items tr p :
  0 < items < INT_MAX → run pol_step (wstart items) tr p → undisturbed tr →
  ∃ a b, pipe_ok (Z.to_nat (21 * items + 161)) (S a, S b, 1%nat) items p tr ∧
    only_in (events tr).
Proof.
  intros Hi Hr Hu. destruct (writer_numbers _ Hi) as (a & b & En & Ha & Hb).
  unfold wstart in Hr. rewrite En, bool_decide_true in Hr by lia.
  exists (pred (Z.to_nat a)), (pred (Z.to_nat b)). rewrite !Nat.succ_pred by lia. split.
  - eapply (pipe_run CrLock WrLock a b 1); try done; try (by left); lia.
  - apply pol_run in Hr. eapply creates_run in Hr as (_ & _ & ?); try done.
    intros t c Hx. destruct (start_lookup CrLock WrLock a b 1 items 0) with (1 := Hx)
      as [[_ ->]|[[_ ->]|[[_ ->]|[_ ->]]]]; done.
Qed.

(** What a finished writer has done. *)
Lemma writer_finished items tr p r :
  0 < items < INT_MAX → run pol_step (wstart items) tr p → undisturbed tr →
  threads p !! 0%nat = Some (Finished r) →
  Z.of_nat (length (ins_of (events tr))) = items ∧ Forall is_word (ins_of (events tr)) ∧
  lower <$> ins_of (events tr) ≡ₚ outs_of (events tr).
Proof.
  intros Hi Hr Hu Hfin. destruct (writer_run_ok _ _ _ Hi Hr Hu) as (a & b & Hok & Ho & Hl).
  destruct (pipe_finished _ _ _ _ _ _ _ _ Hok Hfin) as ([Ht|Ht] & Hraw & Hperm); [|done].
  by rewrite Ho in Ht.
Qed.

(** ** Theorems *)


(** C7: Asked for at least one word and less than INT_MAX, and not interrupted
    by SIGINT (whose handler drops the words that are left), the writer, when
    it finishes, has created exactly the requested number of words, each of 1
    to 39 letters from A to Y, and every one was, in lower case, either written
    to the device once or reported lost. *)
Theorem writer_writes_all items tr p r :
  0 < items < INT_MAX → run pol_step (wstart items) tr p → undisturbed tr →
  threads p !! 0%nat = Some (Finished r) →
  let created := ins_of (events tr) in
  Z.of_nat (length created) = items ∧ Forall is_word created ∧
  lower <$> created ≡ₚ outs_of (events tr).
Proof.
  intros Hi Hr Hu Hfin. exact (writer_finished _ _ _ _ Hi Hr Hu Hfin).
Qed.

(** C11: The writer's memory accesses are safe on every run, with signals at
    any point: with memory available no thread faults, whatever number of
    words was asked for. *)
Theorem writer_memory_safe items tr p l f :
  run pol_step (wstart items) tr p → polite_label p l → pnext l p ≠ Some (Err f).
Proof.
  intros Hr Hpol. destruct (run_pinv (wstart items) tr p) as (rns & ens & Hi); [|done|].
  - unfold wstart. destruct (thread_numbers items) as [[a b] c].
    apply start_pinv; by left.
  - pose proof (pnext_fine l _ _ _ Hi Hpol) as Hf. intros E. by rewrite E in Hf.
Qed.

(** C13: Mutual exclusion in the writer, signals included (fewer than 2^31 of
    them): two threads inside critical sections of [rmutex] are the same
    thread, and likewise for [emutex]. *)
Theorem writer_mutual_exclusion items tr p t t' c c' :
  run pstep (wstart items) tr p → signals tr < INT_MAX →
  threads p !! t = Some c → threads p !! t' = Some c' →
  (holds_r c = true → holds_r c' = true → t = t') ∧
  (holds_e c = true → holds_e c' = true → t = t').
Proof.
  intros Hr Hs Hc Hc'.
  destruct (reachable_locks (wstart items) tr p) as [[Lr Le] _]; try done.
  - unfold wstart. destruct (thread_numbers items) as [[a b] x]. apply start_locks; by left.
  - split; intros H1 H2.
    + pose proof (mx_holds _ _ _ _ Lr _ _ Hc H1). pose proof (mx_holds _ _ _ _ Lr _ _ Hc' H2). congruence.
    + pose proof (mx_holds _ _ _ _ Le _ _ Hc H1). pose proof (mx_holds _ _ _ _ Le _ _ Hc' H2). congruence.
Qed.

(** A SIGINT that reaches a creating thread inside its critical section
    stops the writer for good: the handler waits for [rmutex], which the
    interrupted thread holds, and main never gets past its first join. *)
Theorem writer_sigint_deadlock items tr p t p' e tr' q :
  run pstep (wstart items) tr p → undisturbed tr → threads p !! t = Some CrBody →
  pnext (PSigint t) p = Some (Ok (p', e)) →
  run pstep p' tr' q → 1 + signals tr' < INT_MAX →
  handler q = Some (t, HLockR) ∧ rmutex q = Some t ∧
  ∃ j, threads q !! 0%nat = Some (JoinT 0 j).
Proof.
  intros Hr Hu Hc E Hr' Hs.
  assert (live (wstart items) ∧ locks_ok (wstart items) ∧ handler (wstart items) = None ∧
    control (wstart items) = 0) as (L0 & K0 & H0 & Z0).
  { unfold wstart. destruct (thread_numbers items) as [[a b] x].
    split; [apply start_live; by left|]. split; [apply start_locks; by left|done]. }
  destruct (run_live _ _ _ L0 H0 Hr Hu) as [L Hh].
  pose proof (undisturbed_signals _ Hu) as Es.
  destruct (reachable_locks _ _ _ K0 Z0 H0 Hr) as [K [Zc _]]; [by rewrite Es|]. rewrite Es in Zc.
  pose proof (signal_jams _ _ _ _ _ L K Hh Zc Hc eq_refl eq_refl E) as J.
  destruct (jammed_run _ _ _ _ _ _ J eq_refl ltac:(lia) Hr' Hs) as [_ _ ? ? _ (j & ? & _)]. eauto.
Qed.

(** C14: On every run of the writer, with fewer than 2^31 signals at any point,
    cleanup runs once, as main finishes, and then neither mutex is locked and no
    thread waits on the condition variables that it destroys. *)
Theorem writer_cleans_up items tr p :
  run pstep (wstart items) tr p → signals tr < INT_MAX →
  cleans (events tr) = (if finished p then 1%nat else 0%nat) ∧ PClean false ∉ events tr.
Proof.
  intros Hr Hs. destruct (tidy_run (wstart items) tr p) as [_ _ _ H1 H2]; try done;
    unfold wstart; destruct (thread_numbers items) as [[a b] c]; try done.
  - by apply live_staged; [apply start_live; by left|].
  - apply start_locks; by left.
Qed.

End runs.

(** The result of [dev_done] does not tell whether the command was sent:
    when all six attempts fail it is 0, when the sixth succeeds it is 1. *)
Theorem dev_done_result_wrong p t bad good :
  in_res bad ≠ 0 → in_res good = 0 →
  (∃ p', dev_done t (MAX_RETRY + 1) bad p = Some (Ok (p', [PDoneSent 0]))) ∧
  (∃ p', dev_done t MAX_RETRY bad p = Some (Ok (goto t (SendDone (MAX_RETRY + 1)) p, [])) ∧
         dev_done t MAX_RETRY good p = Some (Ok (p', [PDoneSent 1]))).
Proof.
  intros Hb Hg. unfold dev_done, MAX_RETRY. split.
  - eexists. by rewrite (bool_decide_false (5 + 1 ≤ 5)) by lia.
  - eexists. rewrite (bool_decide_true (5 ≤ 5)) by lia. rewrite (bool_decide_true (in_res bad ≠ 0)) by done.
    rewrite (bool_decide_false (in_res good ≠ 0)) by lia. by rewrite bool_decide_true.
Qed.

(** [main] of the writer on every branch: a wrong number of arguments and
    a device that cannot be opened end it with -1 and 1; otherwise it starts
    1 to 4 creating threads, 1 to 10 elaborating threads and one writing
    thread for a positive number of words below INT_MAX, and the maximal
    numbers for the endless mode.  With INT_MAX words the number of writing
    threads overflows and none is started. *)
Theorem writer_main_branches argc argv1 opened :
  (argc ≠ 2 → main argc argv1 opened = inl (-1)) ∧
  (argc = 2 → opened = -1 → main argc argv1 opened = inl 1) ∧
  (argc = 2 → opened ≠ -1 → main argc argv1 opened = inr (wstart (atoi argv1))) ∧
  (∀ items, 0 < items < INT_MAX →
    ∃ a b, sizes (wstart items) = (a, b, 1%nat) ∧ (1 ≤ a ≤ 4)%nat ∧ (1 ≤ b ≤ 10)%nat) ∧
  sizes (wstart 0) = (4%nat, 10%nat, 1%nat) ∧
  sizes (wstart INT_MAX) = (4%nat, 10%nat, 0%nat).
Proof.
  unfold main, dev_open. split; [intros; by rewrite bool_decide_false|].
  split; [intros -> ->; done|].
  split; [intros -> ?; rewrite bool_decide_true by done; by rewrite bool_decide_false|].
  split; [|by split; vm_compute].
  intros items Hi. destruct (writer_numbers _ Hi) as (a & b & E & Ha & Hb).
  unfold wstart. rewrite E. exists (Z.to_nat a), (Z.to_nat b). split; [done|]. lia.
Qed.

(** ** Witnesses *)

Local Abbreviation wops := (@writer_ops first_fit).
Local Abbreviation wspec := (@writer_spec first_fit first_fit_total).

(** rand gives 0, every call succeeds, a read would deliver "A". *)
Definition calm : input := Input (λ _, 0) 0 (cells [65]) 0.
Definition times (n t : nat) : list plabel := replicate n (PExec t calm).

(** One word from creation to the end of the program: thread 1 creates, 2
    elaborates, 3 writes. *)
Definition one_word : list plabel :=
  times 4 1 ++ times 5 2 ++ times 4 0 ++ times 2 2 ++ times 4 0 ++ times 6 3 ++ times 4 0.

Lemma calm_polite : @polite_label first_fit first_fit_total wops wspec (wstart 1) (PExec 0 calm).
Proof.
  split; [intros k; simpl; lia|]. intros _ _ _. exists [65], []. split; [done|].
  split; [simpl; lia|]. repeat constructor; lia.
Qed.

Lemma times_polite n t :
  Forall (@always_polite first_fit first_fit_total wops wspec) (times n t).
Proof.
  apply Forall_replicate. intros p. split; [intros k; simpl; lia|]. intros _ _ _. exists [65], [].
  split; [done|]. split; [simpl; lia|]. repeat constructor; lia.
Qed.

Lemma one_word_run :
  ∃ tr, run (@pol_step first_fit first_fit_total wops wspec) (wstart 1) tr
      (@pfinal first_fit wops one_word (wstart 1)) ∧
    events tr = @pshown first_fit wops one_word (wstart 1) ∧ undisturbed tr.
Proof.
  destruct (@pcompletes_pol_run first_fit first_fit_total wops wspec one_word (wstart 1))
    as (tr & Hr & He & Hl).
  - unfold one_word. repeat (apply Forall_app; split); apply times_polite.
  - by vm_compute.
  - exists tr. split; [done|]. split; [done|]. apply undisturbed_labels. rewrite Hl.
    repeat constructor.
Qed.


Lemma writer_writes_all_witness :
  @pshown first_fit wops one_word (wstart 1) = [PIn [65]; PElab [65]; POut [97]; PDoneSent 0; PClean true] ∧
  ∃ tr, lower <$> ins_of (events tr) ≡ₚ outs_of (events tr).
Proof.
  split; [vm_compute; reflexivity|].
  destruct one_word_run as (tr & Hr & _ & Hu). exists tr.
  refine (proj2 (proj2 (@writer_writes_all first_fit first_fit_total 1 tr _ 0
    ltac:(unfold_ranges; lia) Hr Hu _))).
  vm_compute. reflexivity.
Defined.

Lemma writer_memory_safe_witness :
  @pnext first_fit wops (PExec 0 calm) (wstart 1) ≠ Some (Err NullDeref).
Proof.
  exact (@writer_memory_safe first_fit first_fit_total 1 [] (wstart 1) (PExec 0 calm) NullDeref
    (run_nil _ _) calm_polite).
Defined.

(** A creating thread has locked [rmutex]. *)
Lemma locked_run :
  ∃ tr, run (@pstep first_fit wops) (wstart 1) tr
      (@pfinal first_fit wops (times 1 1) (wstart 1)) ∧ undisturbed tr.
Proof.
  destruct (@pcompletes_run first_fit wops (times 1 1) (wstart 1)) as (tr & Hr & _ & Hl);
    [by vm_compute|].
  exists tr. split; [done|]. apply undisturbed_labels. rewrite Hl. repeat constructor.
Qed.

Lemma writer_mutual_exclusion_witness :
  let p := @pfinal first_fit wops (times 1 1) (wstart 1) in
  threads p !! 1%nat = Some CrBody ∧ (holds_r CrBody = true → holds_r CrBody = true → 1%nat = 1%nat).
Proof.
  destruct locked_run as (tr & Hr & Hu). split; [vm_compute; reflexivity|].
  refine (proj1 (@writer_mutual_exclusion first_fit first_fit_total 1 tr _ 1%nat 1%nat CrBody CrBody
    Hr _ _ _)).
  - rewrite (undisturbed_signals _ Hu). reflexivity.
  - vm_compute. reflexivity.
  - vm_compute. reflexivity.
Defined.

Lemma writer_sigint_deadlock_witness :
  let p := @pfinal first_fit wops (times 1 1) (wstart 1) in
  let q := @pfinal first_fit wops [PSigint 1] p in
  handler q = Some (1%nat, HLockR) ∧ rmutex q = Some 1%nat ∧
  ∃ j, threads q !! 0%nat = Some (JoinT 0 j).
Proof.
  destruct locked_run as (tr & Hr & Hu).
  refine (@writer_sigint_deadlock first_fit first_fit_total 1 tr _ 1%nat _ [] [] _
    Hr Hu _ _ (run_nil _ _) _); vm_compute; reflexivity.
Defined.

Lemma dev_done_result_wrong_witness :
  let bad := Input (λ _, 0) (-1) [] 0%nat in
  (∃ p', dev_done 0 (MAX_RETRY + 1) bad (wstart 1) = Some (Ok (p', [PDoneSent 0]))) ∧
  (∃ p', dev_done 0 MAX_RETRY bad (wstart 1)
           = Some (Ok (goto 0 (SendDone (MAX_RETRY + 1)) (wstart 1), [])) ∧
         dev_done 0 MAX_RETRY calm (wstart 1) = Some (Ok (p', [PDoneSent 1]))).
Proof.
  exact (dev_done_result_wrong (wstart 1) 0 (Input (λ _, 0) (-1) [] 0%nat) calm
    ltac:(simpl; lia) ltac:(reflexivity)).
Defined.

Lemma writer_cleans_up_witness :
  ∃ tr, run (@pstep first_fit wops) (wstart 1) tr (@pfinal first_fit wops one_word (wstart 1)) ∧
    cleans (events tr) = 1%nat ∧ PClean false ∉ events tr.
Proof.
  destruct one_word_run as (tr & Hr & _ & Hu). apply pol_run in Hr. exists tr. split; [exact Hr|].
  assert (finished (@pfinal first_fit wops one_word (wstart 1)) = true) as Hf by (vm_compute; reflexivity).
  pose proof (@writer_cleans_up first_fit first_fit_total 1 tr _ Hr) as H. rewrite Hf in H. apply H.
  rewrite (undisturbed_signals _ Hu). reflexivity.
Defined.
