(* ===== verification/Reader.v ===== *)
(** * The reader process (Reader/read.c, Reader/read.h)

    The pipeline with the reader's parts: strings are read from the device,
    put in upper case and printed. *)

From stdpp Require Import base numbers list option gmap.
From S2P Require Import Prelude Memory CList Fun Buffer Pipeline PipelineInv PipelineMove PipelineLive PipelineDone PipelineProgress PipelineTerm PipelineStart PipelineItems PipelineSig PipelineClean.
Local Open Scope Z_scope.

(** ** Definitions *)

Definition S_ET : Z := 5.
Definition MAX_ET : Z := 4.
Definition S_RT : Z := 1.
Definition MAX_RT : Z := 1.
Definition S_PT : Z := 10.
Definition MAX_PT : Z := 2.

#[export] Instance reader_ops `{Allocator} : Ops := {|
  op_ins := ReaderBuffer.wbuf_ins;
  op_ext := ReaderBuffer.wbuf_ext;
  op_conv := to_upper;
  op_sends_done := false |}.

(** The functions of read.c that the pipeline takes from the shared
    definitions: the text is the same in both programs up to the operations in
    [reader_ops]. *)
Section functions.
Context `{Allocator}.
Definition elaborate_data := @Pipeline.elaborate_data reader_ops.
Definition wait_for := Pipeline.wait_for.
Definition release_t := Pipeline.release_t.
Definition dev_close := Pipeline.dev_close.
Definition cleanup := Pipeline.cleanup.
Definition main_closing := @Pipeline.main_closing reader_ops.
Definition catcher_SIGINT := Pipeline.catcher_SIGINT.
Definition catcher_body := Pipeline.catcher_body.

(** What a thread of the reader runs at each of its program points. *)
Lemma reader_exec t i p c :
  threads p !! t = Some c →
  @pexec _ reader_ops t i p =
    match c with
    | RdInit | RdLock _ | RdBody _ => @read_dev _ reader_ops t c i p
    | ElLock | ElCheck | ElWait | ElWake | ElConv _ | ElLockE _ | ElIns _ => elaborate_data t c i p
    | PrLock | PrCheck | PrWait | PrWake => @print_data reader_ops t c p
    | JoinT _ _ | RelLock _ | RelSet _ | SendDone _ | Closing => main_closing t c i p
    | Exit | Finished _ => pblocked
    | _ => @pexec _ reader_ops t i p
    end.
Proof. intros Hc. unfold pexec. rewrite Hc. by destruct c. Qed.
End functions.

(** [dev_open]: the exit status, or the descriptor. *)
Definition dev_open (opened : Z) : Z + Z := if bool_decide (opened = -1) then inl 1 else inr opened.

(** The choice of the number of threads. *)
Definition thread_numbers (todo : Z) : Z * Z * Z :=
  let looping := bool_decide (todo = 0) in
  (nthreads looping todo S_RT MAX_RT, nthreads looping todo S_ET MAX_ET,
   nthreads looping todo S_PT MAX_PT).

(** The process after the creation loops. *)
Definition rstart (items : Z) : proc :=
  start RdInit ElLock PrLock (thread_numbers items) items (if bool_decide (items ≠ 0) then 0 else 1).

(** [main] up to the creation of the threads: the exit status, or the state of
    the process.  [opened] is the result of open. *)
Definition main (argc : Z) (argv1 : list Z) (opened : Z) : Z + proc :=
  if bool_decide (argc = 2) then
    let todo := atoi argv1 in
    match dev_open opened with
    | inl status => inl status
    | inr _ => inr (rstart todo)
    end
  else inl (-1).

(** ** What the pipeline relies on *)

(** Strings that fit the read buffer and have no space, which [to_upper]
    turns into a terminator. *)
Definition readable (s : list Z) : Prop :=
  (length s ≤ 39)%nat ∧ Forall (λ c, char_range c ∧ c ≠ 0 ∧ c ≠ 32) s.

Lemma shift_up_nonzero c : char_range c → c ≠ 32 → shift_char (-32) c ≠ 0.
Proof.
  unfold shift_char. intros Hc Hn. rewrite wrap32_id by (revert Hc; unfold_ranges; lia).
  unfold wrap8. change (2 ^ 7) with 128. change (2 ^ 8) with 256. revert Hc. unfold_ranges. intros Hc.
  destruct (decide (-96 ≤ c)).
  - rewrite Z.mod_small by lia. lia.
  - replace (c + -32 + 128) with ((c + -32 + 384) + (-1) * 256) by lia.
    rewrite Z.mod_add, Z.mod_small by lia. lia.
Qed.

#[export] Instance reader_spec `{TotalAllocator} : OpsSpec reader_ops.
Proof.
  refine {| ops_frees := false; conv_str := upper; raw_ok := readable;
            el_ok := λ s, cstring s ∧ (length s ≤ 39)%nat |}.
  - intros s [Hl Hs]. split; [|done]. eapply Forall_impl; [done|]. simpl. tauto.
  - done.
  - intros s [Hl Hs]. split; [lia|]. eapply Forall_impl; [done|]. simpl. unfold_ranges. lia.
  - intros s [_ Hs]. eapply Forall_impl; [done|]. simpl. tauto.
  - intros s [Hl Hs]. split; [|by unfold upper, shift_str; rewrite length_fmap].
    apply Forall_fmap. eapply Forall_impl; [done|]. simpl. intros c (? & _ & ?).
    by apply shift_up_nonzero.
  - intros h p s Hs Hp. change (shift_letters (-32) (Some p) h = Ok (tt, <[p := cells (upper s)]> h)).
    rewrite (shift_letters_spec (-32) h p s []); [by rewrite app_nil_r|by rewrite app_nil_r| |].
    + destruct Hs as [_ Hs]. eapply Forall_impl; [done|]. simpl. tauto.
    + destruct Hs as [? _]. unfold_ranges. lia.
Defined.

Lemma reader_numbers todo :
  0 < todo < INT_MAX →
  ∃ b c, thread_numbers todo = (1, b, c) ∧ 1 ≤ b ≤ 4 ∧ 1 ≤ c ≤ 2.
Proof.
  intros Ht. unfold thread_numbers. rewrite bool_decide_false by lia.
  pose proof (nthreads_pos todo S_RT MAX_RT Ht ltac:(done) ltac:(done)) as H1.
  pose proof (nthreads_pos todo S_ET MAX_ET Ht ltac:(done) ltac:(done)) as H2.
  pose proof (nthreads_pos todo S_PT MAX_PT Ht ltac:(done) ltac:(done)) as H3.
  unfold MAX_RT, MAX_ET, MAX_PT in *.
  eexists _, _. split; [|split; [exact H2|exact H3]]. do 2 f_equal. lia.
Qed.

Section runs.
Context {Al : Allocator} {Tot : TotalAllocator}.

Lemma reader_run_ok items tr p :
  0 < items < INT_MAX → run pol_step (rstart items) tr p → undisturbed tr →
  ∃ b c, pipe_ok (Z.to_nat (21 * items + 86)) (1%nat, S b, S c) items p tr.
Proof.
  intros Hi Hr Hu. destruct (reader_numbers _ Hi) as (b & c & En & Hb & Hc).
  unfold rstart in Hr. rewrite En, bool_decide_true in Hr by lia.
  exists (pred (Z.to_nat b)), (pred (Z.to_nat c)). rewrite !Nat.succ_pred by lia.
  eapply (pipe_run RdInit PrLock 1 b c); try done; try (by right); lia.
Qed.

(** What a finished reader has done. *)
Lemma reader_finished items tr p r :
  0 < items < INT_MAX → run pol_step (rstart items) tr p → undisturbed tr →
  threads p !! 0%nat = Some (Finished r) →
  upper <$> ins_of (events tr) ≡ₚ outs_of (events tr) ∧
  tries (events tr) ≤ items ∧ (tries (events tr) = items ∨ PLast ∈ events tr).
Proof.
  intros Hi Hr Hu Hfin. destruct (reader_run_ok _ _ _ Hi Hr Hu) as (b & c & Hok).
  destruct (pipe_finished _ _ _ _ _ _ _ _ Hok Hfin) as (Ht & _ & Hperm).
  split; [done|]. split; [by eapply pipe_tries|done].
Qed.

(** ** Theorems *)


(** C8: Asked for at least one read and less than INT_MAX, and not interrupted
    by SIGINT (whose handler drops the strings that are left), the reader, when
    it finishes, has printed every string it read exactly once, in upper case,
    and it has read from the device as many times as asked, failures included,
    unless it met the terminator "00". *)
Theorem reader_prints_all items tr p r :
  0 < items < INT_MAX → run pol_step (rstart items) tr p → undisturbed tr →
  threads p !! 0%nat = Some (Finished r) →
  upper <$> ins_of (events tr) ≡ₚ outs_of (events tr) ∧
  tries (events tr) ≤ items ∧ (tries (events tr) = items ∨ PLast ∈ events tr).
Proof.
  intros Hi Hr Hu Hfin. exact (reader_finished _ _ _ _ Hi Hr Hu Hfin).
Qed.

(** C12: The reader's memory accesses are safe on every run, with signals at
    any point, as long as the device delivers terminated strings of at most 39
    characters other than space: no thread faults. *)
Theorem reader_memory_safe items tr p l f :
  run pol_step (rstart items) tr p → polite_label p l → pnext l p ≠ Some (Err f).
Proof.
  intros Hr Hpol. destruct (run_pinv (rstart items) tr p) as (rns & ens & Hi); [|done|].
  - unfold rstart. destruct (thread_numbers items) as [[a b] c].
    apply start_pinv; by right.
  - pose proof (pnext_fine l _ _ _ Hi Hpol) as Hf. intros E. by rewrite E in Hf.
Qed.

(** Mutual exclusion in the reader, signals included (fewer than 2^31 of
    them): two threads inside critical sections of [rmutex] are the same
    thread, and likewise for [emutex]. *)
Theorem reader_mutual_exclusion items tr p t t' c c' :
  run pstep (rstart items) tr p → signals tr < INT_MAX →
  threads p !! t = Some c → threads p !! t' = Some c' →
  (holds_r c = true → holds_r c' = true → t = t') ∧
  (holds_e c = true → holds_e c' = true → t = t').
Proof.
  intros Hr Hs Hc Hc'.
  destruct (reachable_locks (rstart items) tr p) as [[Lr Le] _]; try done.
  - unfold rstart. destruct (thread_numbers items) as [[a b] x]. apply start_locks; by right.
  - split; intros H1 H2.
    + pose proof (mx_holds _ _ _ _ Lr _ _ Hc H1). pose proof (mx_holds _ _ _ _ Lr _ _ Hc' H2). congruence.
    + pose proof (mx_holds _ _ _ _ Le _ _ Hc H1). pose proof (mx_holds _ _ _ _ Le _ _ Hc' H2). congruence.
Qed.

(** A SIGINT that reaches the reading thread inside its critical section,
    where it spends the time of the read call, stops the reader for good: the
    handler waits for [rmutex], which the interrupted thread holds, and main
    never gets past its first join. *)
Theorem reader_sigint_deadlock items tr p t tmp p' e tr' q :
  run pstep (rstart items) tr p → undisturbed tr → threads p !! t = Some (RdBody tmp) →
  pnext (PSigint t) p = Some (Ok (p', e)) →
  run pstep p' tr' q → 1 + signals tr' < INT_MAX →
  handler q = Some (t, HLockR) ∧ rmutex q = Some t ∧
  ∃ j, threads q !! 0%nat = Some (JoinT 0 j).
Proof.
  intros Hr Hu Hc E Hr' Hs.
  assert (live (rstart items) ∧ locks_ok (rstart items) ∧ handler (rstart items) = None ∧
    control (rstart items) = 0) as (L0 & K0 & H0 & Z0).
  { unfold rstart. destruct (thread_numbers items) as [[a b] x].
    split; [apply start_live; by right|]. split; [apply start_locks; by right|done]. }
  destruct (run_live _ _ _ L0 H0 Hr Hu) as [L Hh].
  pose proof (undisturbed_signals _ Hu) as Es.
  destruct (reachable_locks _ _ _ K0 Z0 H0 Hr) as [K [Zc _]]; [by rewrite Es|]. rewrite Es in Zc.
  pose proof (signal_jams _ _ _ _ _ L K Hh Zc Hc eq_refl eq_refl E) as J.
  destruct (jammed_run _ _ _ _ _ _ J eq_refl ltac:(lia) Hr' Hs) as [_ _ ? ? _ (j & ? & _)]. eauto.
Qed.

(** On every run of the reader, with fewer than 2^31 signals at any point,
    cleanup runs once, as main finishes, and then neither mutex is locked and no
    thread waits on the condition variables that it destroys. *)
Theorem reader_cleans_up items tr p :
  run pstep (rstart items) tr p → signals tr < INT_MAX →
  cleans (events tr) = (if finished p then 1%nat else 0%nat) ∧ PClean false ∉ events tr.
Proof.
  intros Hr Hs. destruct (tidy_run (rstart items) tr p) as [_ _ _ H1 H2]; try done;
    unfold rstart; destruct (thread_numbers items) as [[a b] c]; try done.
  - by apply live_staged; [apply start_live; by right|].
  - apply start_locks; by right.
Qed.

End runs.

(** [main] of the reader on every branch: a wrong number of arguments and
    a device that cannot be opened end it with -1 and 1; otherwise it starts
    one reading thread, 1 to 4 elaborating threads and 1 or 2 printing threads
    for a positive number of reads below INT_MAX, and the maximal numbers for
    the endless mode.  With INT_MAX reads the number of reading threads
    overflows and none is started. *)
Theorem reader_main_branches argc argv1 opened :
  (argc ≠ 2 → main argc argv1 opened = inl (-1)) ∧
  (argc = 2 → opened = -1 → main argc argv1 opened = inl 1) ∧
  (argc = 2 → opened ≠ -1 → main argc argv1 opened = inr (rstart (atoi argv1))) ∧
  (∀ items, 0 < items < INT_MAX →
    ∃ b c, sizes (rstart items) = (1%nat, b, c) ∧ (1 ≤ b ≤ 4)%nat ∧ (1 ≤ c ≤ 2)%nat) ∧
  sizes (rstart 0) = (1%nat, 4%nat, 2%nat) ∧
  sizes (rstart INT_MAX) = (0%nat, 4%nat, 2%nat).
Proof.
  unfold main, dev_open. split; [intros; by rewrite bool_decide_false|].
  split; [intros -> ->; done|].
  split; [intros -> ?; rewrite bool_decide_true by done; by rewrite bool_decide_false|].
  split; [|by split; vm_compute].
  intros items Hi. destruct (reader_numbers _ Hi) as (a & b & E & Ha & Hb).
  unfold rstart. rewrite E. exists (Z.to_nat a), (Z.to_nat b). split; [done|]. lia.
Qed.

(** ** Witnesses *)

Local Abbreviation rops := (@reader_ops first_fit).
Local Abbreviation rspec := (@reader_spec first_fit first_fit_total).

(** Every call succeeds; a read delivers "a". *)
Definition calm : input := Input (λ _, 0) 0 (cells [97]) 0.
Definition times (n t : nat) : list plabel := replicate n (PExec t calm).

(** One string from the device to the output: thread 1 reads, 2 elaborates, 3
    prints. *)
Definition one_string : list plabel :=
  times 5 1 ++ times 5 2 ++ times 4 0 ++ times 2 2 ++ times 4 0 ++ times 4 3 ++ times 3 0.

Lemma read_calm_polite t p : @polite_label first_fit first_fit_total rops rspec p (PExec t calm).
Proof.
  split; [intros k; simpl; lia|]. intros _ _ _. exists [97], []. split; [done|].
  split; [simpl; lia|]. repeat constructor; unfold_ranges; lia.
Qed.

Lemma read_times_polite n t : Forall (@always_polite first_fit first_fit_total rops rspec) (times n t).
Proof. apply Forall_replicate. intros p. apply read_calm_polite. Qed.

Lemma one_string_run :
  ∃ tr, run (@pol_step first_fit first_fit_total rops rspec) (rstart 1) tr
      (@pfinal first_fit rops one_string (rstart 1)) ∧
    events tr = @pshown first_fit rops one_string (rstart 1) ∧ undisturbed tr.
Proof.
  destruct (@pcompletes_pol_run first_fit first_fit_total rops rspec one_string (rstart 1))
    as (tr & Hr & He & Hl).
  - unfold one_string. repeat (apply Forall_app; split); apply read_times_polite.
  - by vm_compute.
  - exists tr. split; [done|]. split; [done|]. apply undisturbed_labels. rewrite Hl.
    repeat constructor.
Qed.


Lemma reader_prints_all_witness :
  @pshown first_fit rops one_string (rstart 1) = [PIn [97]; PElab [97]; POut [65]; PClean true] ∧
  ∃ tr, upper <$> ins_of (events tr) ≡ₚ outs_of (events tr) ∧
    tries (events tr) ≤ 1 ∧ (tries (events tr) = 1 ∨ PLast ∈ events tr).
Proof.
  split; [vm_compute; reflexivity|].
  destruct one_string_run as (tr & Hr & _ & Hu). exists tr.
  refine (@reader_prints_all first_fit first_fit_total 1 tr _ 0
    ltac:(unfold_ranges; lia) Hr Hu _).
  vm_compute. reflexivity.
Defined.

Lemma reader_memory_safe_witness :
  @pnext first_fit rops (PExec 1 calm) (rstart 1) ≠ Some (Err NullDeref).
Proof.
  exact (@reader_memory_safe first_fit first_fit_total 1 [] (rstart 1) (PExec 1 calm) NullDeref
    (run_nil _ _) (read_calm_polite 1 (rstart 1))).
Defined.

(** The reading thread is in its critical section. *)
Lemma read_locked_run :
  ∃ tr, run (@pstep first_fit rops) (rstart 1) tr
      (@pfinal first_fit rops (times 2 1) (rstart 1)) ∧ undisturbed tr.
Proof.
  destruct (@pcompletes_run first_fit rops (times 2 1) (rstart 1)) as (tr & Hr & _ & Hl);
    [by vm_compute|].
  exists tr. split; [done|]. apply undisturbed_labels. rewrite Hl. repeat constructor.
Qed.

Lemma reader_mutual_exclusion_witness :
  let p := @pfinal first_fit rops (times 2 1) (rstart 1) in
  ∃ c, threads p !! 1%nat = Some c ∧ (holds_r c = true → holds_r c = true → 1%nat = 1%nat).
Proof.
  destruct read_locked_run as (tr & Hr & Hu).
  eexists. split; [vm_compute; reflexivity|].
  refine (proj1 (@reader_mutual_exclusion first_fit first_fit_total 1 tr _ 1%nat 1%nat _ _
    Hr _ _ _)).
  - rewrite (undisturbed_signals _ Hu). reflexivity.
  - vm_compute. reflexivity.
  - vm_compute. reflexivity.
Defined.

Lemma reader_sigint_deadlock_witness :
  let p := @pfinal first_fit rops (times 2 1) (rstart 1) in
  let q := @pfinal first_fit rops [PSigint 1] p in
  handler q = Some (1%nat, HLockR) ∧ rmutex q = Some 1%nat ∧
  ∃ j, threads q !! 0%nat = Some (JoinT 0 j).
Proof.
  destruct read_locked_run as (tr & Hr & Hu).
  refine (@reader_sigint_deadlock first_fit first_fit_total 1 tr _ 1%nat _ _ [] [] _
    Hr Hu _ _ (run_nil _ _) _); vm_compute; reflexivity.
Defined.
