(* ===== verification/System.v ===== *)
(** * Writer, device and reader together

    One writer process, the device and one reader process.  The link between
    them is the system calls: the strings the device pushes are the ones the
    writer's calls of write succeeded with (and the final command), the
    strings the reader gets are the ones the device delivers. *)

From stdpp Require Import base numbers list option gmap.
From S2P Require Import Prelude Memory CList Kbuf Stat Fun Device DeviceInv DeviceSafe DevicePolite DeviceRead DeviceThm.
From S2P Require Import Buffer Pipeline PipelineInv PipelineStart PipelineItems Writer Reader.
Local Open Scope Z_scope.

(** The strings written to the device. *)
Definition written (e : list pevent) : list (list Z) :=
  omap (λ ev, match ev with POut s => Some s | _ => None end) e.

(** Without the command that ends the transmission. *)
Definition data (l : list (list Z)) : list (list Z) := filter (λ s, s ≠ done_cmd) l.

Lemma written_outs e : sublist (written e) (outs_of e).
Proof. induction e as [|[] e IH]; simpl; try done; by constructor. Qed.

Lemma sublist_filter {A} (P : A → Prop) `{!∀ x, Decision (P x)} (l k : list A) :
  sublist l k → sublist (filter P l) (filter P k).
Proof.
  induction 1 as [|x l k _ IH|x l k _ IH]; [done|..]; rewrite !filter_cons;
    case_decide; by (done || constructor).
Qed.

Lemma upper_lower_words l : Forall is_word l → upper <$> (lower <$> l) = l.
Proof.
  intros H. rewrite <- list_fmap_compose. rewrite <- (list_fmap_id l) at 2.
  apply list_fmap_ext. intros i s Hi. simpl. rewrite Forall_lookup in H.
  destruct (H _ _ Hi) as [_ Hs]. apply upper_lower. eapply Forall_impl; [done|]. simpl. lia.
Qed.

Section system.
Context {Kal : Allocator} {Sm : @SmallMemory Kal}.
Context {Al : Allocator} {Tot : @TotalAllocator Al}.

Local Abbreviation writer_step := (@pol_step Al Tot writer_ops writer_spec).
Local Abbreviation reader_step := (@pol_step Al Tot reader_ops reader_spec).

(** C2: From end to end.  A writer and a reader have finished (no SIGINT), and
    the device ran with clients that keep the protocol.  What the device
    pushed is what the writer wrote, what the reader read is what the device
    delivered (the terminator aside on both sides).  Then every string the
    reader prints is one of the words the writer created, at most as often as
    it was created; and if no write failed for good, the device is empty and
    every string taken from it was delivered, then the reader prints exactly
    the created words. *)
Theorem printed_are_created items wtr wp wr dtr s ritems rtr rp rr :
  0 < items < INT_MAX → run writer_step (wstart items) wtr wp → undisturbed wtr →
  threads wp !! 0%nat = Some (Finished wr) →
  @polite_reachable Kal dtr s →
  0 < ritems < INT_MAX → run reader_step (rstart ritems) rtr rp → undisturbed rtr →
  threads rp !! 0%nat = Some (Finished rr) →
  data (pushes (concat dtr)) = written (events wtr) →
  ins_of (events rtr) = data (deliveries (concat dtr)) →
  outs_of (events rtr) ⊆+ ins_of (events wtr) ∧
  (outs_of (events wtr) = written (events wtr) → queue_of s [] →
   deliveries (concat dtr) = pops (concat dtr) →
   outs_of (events rtr) ≡ₚ ins_of (events wtr)).
Proof.
  intros Hi Hw Hwu Hwf Hd Hri Hr Hru Hrf Elw Elr.
  destruct (writer_finished _ _ _ _ Hi Hw Hwu Hwf) as (_ & Hwords & Hperm).
  destruct (reader_finished _ _ _ _ Hri Hr Hru Hrf) as (Hprint & _).
  destruct (reachable_reads _ _ Hd) as [Hsub _].
  destruct (reachable_inv _ _ (polite_reachable_reachable _ _ Hd)) as (ns & Hinv & Hsp).
  pose proof (spec_conserves _ _ _ Hsp) as Hq. simpl in Hq.
  rewrite <- (upper_lower_words _ Hwords). rewrite <- Hprint, Hperm, Elr. split.
  - apply fmap_submseteq. transitivity (written (events wtr)); [|apply sublist_submseteq, written_outs].
    rewrite <- Elw. apply sublist_submseteq, sublist_filter. rewrite Hq.
    by apply sublist_inserts_r.
  - intros -> (ns' & Hk & Hnil) ->. rewrite <- Elw, Hq.
    assert (ns = []) as ->; [|by rewrite app_nil_r].
    destruct ns'; [|done]. pose proof (kb_isempty_rep _ _ _ Hk) as E.
    rewrite (kb_isempty_rep _ _ _ (inv_kb _ _ _ Hinv)) in E. by destruct ns.
Qed.

End system.

(** ** Witness *)

(** The writer sends "a" and the command, the reader reads "a" once and another
    process takes the command. *)
Definition a_and_done : list label :=
  do_open 3 ++ do_write 4 [97] ++ do_write 4 done_cmd ++ do_read 5 40 ++ do_read 5 40.

Lemma a_and_done_polite : Forall polite a_and_done.
Proof.
  repeat constructor; simpl; unfold polite_dim, READ_BYTE; try lia.
  - exists [97]. repeat split; try done. repeat constructor; lia.
  - exists done_cmd. repeat split; try done. repeat constructor; lia.
Qed.

Lemma drained s :
  head (kb_fifo s) = None → tail (kb_fifo s) = None → count (kb_fifo s) = 0 → queue_of s [].
Proof.
  intros Hh Ht Hc. exists []. split; [|done]. split; [|done|done]. rewrite Hh.
  apply fifo_empty.
Qed.

Lemma printed_are_created_witness :
  ∃ wtr rtr, ins_of (events wtr) = [[65]] ∧ outs_of (events rtr) ≡ₚ ins_of (events wtr).
Proof.
  destruct one_word_run as (wtr & Hw & Ew & Hwu).
  destruct one_string_run as (rtr & Hr & Er & Hru).
  assert (@completes small_first_fit a_and_done init_state = true) as Hc by (vm_compute; reflexivity).
  destruct (@completes_polite small_first_fit _ a_and_done_polite Hc) as (dtr & Hd & Ed).
  exists wtr, rtr. split; [rewrite Ew; vm_compute; reflexivity|].
  refine (proj2 (@printed_are_created small_first_fit small_first_fit_small first_fit first_fit_total
    1 wtr _ 0 dtr _ 1 rtr _ 0 ltac:(unfold_ranges; lia) Hw Hwu _ Hd
    ltac:(unfold_ranges; lia) Hr Hru _ _ _) _ _ _).
  - vm_compute; reflexivity.
  - vm_compute; reflexivity.
  - rewrite Ew, Ed; vm_compute; reflexivity.
  - rewrite Er, Ed; vm_compute; reflexivity.
  - rewrite Ew; vm_compute; reflexivity.
  - apply drained; vm_compute; reflexivity.
  - rewrite Ed; vm_compute; reflexivity.
Defined.
