(* ===== verification/KExpr.v ===== *)
(** * Dependency expressions of the kernel configuration
      (Vm/linux-2.6.19/scripts/kconfig/expr.c, expr.h)

    The configuration program of the kernel tree the module is built in keeps
    dependencies as trees over symbols with three values and simplifies them
    in place.  The trees are values here: the C code never shares a node
    between two trees, it copies ([expr_copy]) before it takes a tree apart,
    and the functions that change a tree through a pointer to a slot return
    the changed tree.  Where two slots of the same tree are passed
    ([expr_eliminate_dups1] and [2]) a slot is a path from the root.

    [trans_count], the static counter of the transformations, is the state of
    the monad.  The symbol table is a parameter: the values of the symbols
    after they were computed, so that [sym_calc_value] returns at once. *)

From stdpp Require Import base numbers list option strings.
From S2P Require Import Prelude.
Local Open Scope Z_scope.
Local Open Scope c_scope.

(** ** Data *)

Inductive tristate := Tno | Tmod | Tyes.
Inductive expr_type :=
  E_NONE | E_OR | E_AND | E_NOT | E_EQUAL | E_UNEQUAL | E_CHOICE | E_SYMBOL | E_RANGE.
Inductive symbol_type :=
  S_UNKNOWN | S_BOOLEAN | S_TRISTATE | S_INT | S_HEX | S_STRING | S_OTHER.

#[export] Instance tristate_eq_dec : EqDecision tristate.
Proof. solve_decision. Defined.
#[export] Instance expr_type_eq_dec : EqDecision expr_type.
Proof. solve_decision. Defined.
#[export] Instance symbol_type_eq_dec : EqDecision symbol_type.
Proof. solve_decision. Defined.

(** The address of a symbol. *)
Definition symbol := positive.
Definition symbol_yes : symbol := 1%positive.
Definition symbol_mod : symbol := 2%positive.
Definition symbol_no : symbol := 3%positive.

(** What the functions of expr.c read of a [struct symbol]. *)
Record syminfo := Syminfo {
  s_type : symbol_type;
  s_const : bool;          (* flags & SYMBOL_CONST *)
  s_name : option string;
  s_tri : tristate;        (* curr.tri *)
  s_val : string }.        (* curr.val *)

(** A node of [struct expr] by its type.  The left operands of an E_CHOICE
    node form a chain of such nodes, here the list of its symbols. *)
Inductive expr :=
  | ESymbol (s : symbol)
  | ENot (e : expr)
  | EEqual (a b : symbol)
  | EUnequal (a b : symbol)
  | EAnd (l r : expr)
  | EOr (l r : expr)
  | EChoice (syms : list symbol)
  | ERange (a b : symbol).

#[export] Instance expr_eq_dec : EqDecision expr.
Proof. solve_decision. Defined.

Definition etype (e : expr) : expr_type :=
  match e with
  | ESymbol _ => E_SYMBOL | ENot _ => E_NOT | EEqual _ _ => E_EQUAL | EUnequal _ _ => E_UNEQUAL
  | EAnd _ _ => E_AND | EOr _ _ => E_OR | EChoice _ => E_CHOICE | ERange _ _ => E_RANGE
  end.

(** The type argument of the functions on conjunctions and disjunctions. *)
Inductive junction := JOr | JAnd.
#[export] Instance junction_eq_dec : EqDecision junction.
Proof. solve_decision. Defined.

(** [e->type == type], with the operands. *)
Definition kids (j : junction) (e : expr) : option (expr * expr) :=
  match j, e with
  | JOr, EOr l r => Some (l, r)
  | JAnd, EAnd l r => Some (l, r)
  | _, _ => None
  end.
Definition of_type (j : junction) (e : expr) : bool :=
  match kids j e with Some _ => true | None => false end.
Definition is_junction (e : expr) : option junction :=
  match e with EOr _ _ => Some JOr | EAnd _ _ => Some JAnd | _ => None end.
(** The symbol without influence: 'n' under ||, 'y' under &&. *)
Definition unit_symbol (j : junction) : symbol :=
  match j with JOr => symbol_no | JAnd => symbol_yes end.

(** ** Construction *)

Definition expr_alloc_symbol (sym : symbol) : expr := ESymbol sym.
(** Only called with E_NOT in expr.c. *)
Definition expr_alloc_one (ce : expr) : expr := ENot ce.
Definition expr_alloc_two (j : junction) (e1 e2 : expr) : expr :=
  match j with JOr => EOr e1 e2 | JAnd => EAnd e1 e2 end.
(** [true] for E_EQUAL, [false] for E_UNEQUAL. *)
Definition expr_alloc_comp (equal : bool) (s1 s2 : symbol) : expr :=
  if equal then EEqual s1 s2 else EUnequal s1 s2.
Definition expr_alloc_and (e1 e2 : option expr) : option expr :=
  match e1 with
  | None => e2
  | Some x1 => match e2 with Some x2 => Some (expr_alloc_two JAnd x1 x2) | None => e1 end
  end.
Definition expr_alloc_or (e1 e2 : option expr) : option expr :=
  match e1 with
  | None => e2
  | Some x1 => match e2 with Some x2 => Some (expr_alloc_two JOr x1 x2) | None => e1 end
  end.

(** E_CHOICE has a symbol where the copy expects an expression; a node of
    another type is copied to NULL, which every caller dereferences. *)
Fixpoint expr_copy (org : expr) : res expr :=
  match org with
  | ESymbol s => Ok (ESymbol s)
  | ENot e => rbind (expr_copy e) (λ e', Ok (ENot e'))
  | EEqual a b => Ok (EEqual a b)
  | EUnequal a b => Ok (EUnequal a b)
  | EAnd l r => rbind (expr_copy l) (λ l', rbind (expr_copy r) (λ r', Ok (EAnd l' r')))
  | EOr l r => rbind (expr_copy l) (λ l', rbind (expr_copy r) (λ r', Ok (EOr l' r')))
  | EChoice _ => Err TypeConfusion
  | ERange _ _ => Err NullDeref
  end.

(** The number of nodes [expr_free] gives back: it returns early for E_NOT and
    does not follow an E_CHOICE chain. *)
Fixpoint expr_free (e : expr) : nat :=
  match e with
  | ESymbol _ | EEqual _ _ | EUnequal _ _ => 1
  | ENot e' => expr_free e'
  | EOr l r | EAnd l r => expr_free l + expr_free r + 1
  | EChoice _ | ERange _ _ => 1
  end.

(** ** Constants *)

Definition is_sym (s : symbol) (e : expr) : bool :=
  match e with ESymbol s' => bool_decide (s' = s) | _ => false end.
Definition expr_is_yes (e : option expr) : bool :=
  match e with None => true | Some x => is_sym symbol_yes x end.
Definition expr_is_no (e : option expr) : bool :=
  match e with None => false | Some x => is_sym symbol_no x end.

Fixpoint expr_eliminate_yn (e : expr) : expr :=
  match e with
  | EAnd l r =>
      let l' := expr_eliminate_yn l in
      let r' := expr_eliminate_yn r in
      if is_sym symbol_no l' then ESymbol symbol_no
      else if is_sym symbol_yes l' then r'
      else if is_sym symbol_no r' then ESymbol symbol_no
      else if is_sym symbol_yes r' then l'
      else EAnd l' r'
  | EOr l r =>
      let l' := expr_eliminate_yn l in
      let r' := expr_eliminate_yn r in
      if is_sym symbol_no l' then r'
      else if is_sym symbol_yes l' then ESymbol symbol_yes
      else if is_sym symbol_no r' then l'
      else if is_sym symbol_yes r' then ESymbol symbol_yes
      else EOr l' r'
  | _ => e
  end.

(** ** Common parts of two expressions *)

(** The counter is the state. *)
Abbreviation K := (M Z).
Definition get_count : K Z := λ c, Ok (c, c).
Definition set_count (c : Z) : K unit := λ _, Ok (tt, c).
Definition incr_count : K unit := λ c, Ok (tt, c + 1).

(** [expr_eliminate_eq] with its recursive worker as argument. *)
Definition eliminate_eq_with (worker : junction → expr → expr → K (expr * expr))
    (e1 e2 : expr) : K (expr * expr) :=
  '(x1, x2) <- match is_junction e1 with
               | Some j => worker j e1 e2
               | None => ret (e1, e2)
               end;;
  '(y1, y2) <- (if bool_decide (etype x1 ≠ etype x2) then
                  match is_junction x2 with
                  | Some j => worker j x1 x2
                  | None => ret (x1, x2)
                  end
                else ret (x1, x2));;
  ret (expr_eliminate_yn y1, expr_eliminate_yn y2).

(** Both are the constant 'y', or both the constant 'n'. *)
Definition same_constant (e1 e2 : expr) : bool :=
  match e1, e2 with
  | ESymbol a, ESymbol b =>
      bool_decide (a = b) && (bool_decide (a = symbol_yes) || bool_decide (a = symbol_no))
  | _, _ => false
  end.

(** The functions call each other on smaller trees; [n] bounds the depth. *)
Fixpoint __expr_eliminate_eq (n : nat) (j : junction) (e1 e2 : expr) : K (expr * expr) :=
  match n with
  | O => lift (Err NoFuel)
  | S n' =>
      match kids j e1 with
      | Some (l, r) =>
          '(l', e2') <- __expr_eliminate_eq n' j l e2;;
          '(r', e2'') <- __expr_eliminate_eq n' j r e2';;
          ret (expr_alloc_two j l' r', e2'')
      | None =>
          match kids j e2 with
          | Some (l, r) =>
              '(e1', l') <- __expr_eliminate_eq n' j e1 l;;
              '(e1'', r') <- __expr_eliminate_eq n' j e1' r;;
              ret (e1'', expr_alloc_two j l' r')
          | None =>
              if same_constant e1 e2 then ret (e1, e2)
              else
                eq <- expr_eq n' e1 e2;;
                if (eq : bool) then
                  incr_count;;;
                  ret (expr_alloc_symbol (unit_symbol j), expr_alloc_symbol (unit_symbol j))
                else ret (e1, e2)
          end
      end
  end
with expr_eq (n : nat) (e1 e2 : expr) : K bool :=
  match n with
  | O => lift (Err NoFuel)
  | S n' =>
      match e1, e2 with
      | EEqual a b, EEqual a' b' | EUnequal a b, EUnequal a' b' =>
          ret (bool_decide (a = a') && bool_decide (b = b'))
      | ESymbol a, ESymbol a' => ret (bool_decide (a = a'))
      | ENot x, ENot x' => expr_eq n' x x'
      | EAnd _ _, EAnd _ _ | EOr _ _, EOr _ _ =>
          c1 <- lift (expr_copy e1);;
          c2 <- lift (expr_copy e2);;
          old_count <- get_count;;
          '(x1, x2) <- eliminate_eq_with (__expr_eliminate_eq n') c1 c2;;
          set_count old_count;;;
          ret match x1, x2 with
              | ESymbol a, ESymbol b => bool_decide (a = b)
              | _, _ => false
              end
      | _, _ => ret false
      end
  end.

Definition expr_eliminate_eq (n : nat) (e1 e2 : expr) : K (expr * expr) :=
  eliminate_eq_with (__expr_eliminate_eq n) e1 e2.

(** [ep] collects the common parts. *)
Fixpoint expr_extract_eq (n : nat) (j : junction) (ep : option expr) (e1 e2 : expr)
    : K (option expr * expr * expr) :=
  match n with
  | O => lift (Err NoFuel)
  | S n' =>
      match kids j e1 with
      | Some (l, r) =>
          '(ep1, l', e2') <- expr_extract_eq n' j ep l e2;;
          '(ep2, r', e2'') <- expr_extract_eq n' j ep1 r e2';;
          ret (ep2, expr_alloc_two j l' r', e2'')
      | None =>
          match kids j e2 with
          | Some (l, r) =>
              '(ep1, e1', l') <- expr_extract_eq n' j ep e1 l;;
              '(ep2, e1'', r') <- expr_extract_eq n' j ep1 e1' r;;
              ret (ep2, e1'', expr_alloc_two j l' r')
          | None =>
              eq <- expr_eq n' e1 e2;;
              if (eq : bool) then
                ret (Some match ep with Some x => expr_alloc_two j x e1 | None => e1 end,
                     expr_alloc_symbol (unit_symbol j), expr_alloc_symbol (unit_symbol j))
              else ret (ep, e1, e2)
          end
      end
  end.

(** [expr_extract_eq_and] and [expr_extract_eq_or]. *)
Definition extract_eq_top (n : nat) (j : junction) (e1 e2 : expr) : K (option expr * expr * expr) :=
  '(tmp, x1, x2) <- expr_extract_eq n j None e1 e2;;
  ret match tmp with
      | Some _ => (tmp, expr_eliminate_yn x1, expr_eliminate_yn x2)
      | None => (tmp, x1, x2)
      end.
Definition expr_extract_eq_and (n : nat) (e1 e2 : expr) : K (option expr * expr * expr) :=
  extract_eq_top n JAnd e1 e2.
Definition expr_extract_eq_or (n : nat) (e1 e2 : expr) : K (option expr * expr * expr) :=
  extract_eq_top n JOr e1 e2.

(** ** With the symbol table *)

Section table.
Context (Sg : symbol → syminfo).

Definition is_type (t : symbol_type) (s : symbol) : bool := bool_decide (s_type (Sg s) = t).

Fixpoint expr_trans_bool (e : expr) : expr :=
  match e with
  | EAnd l r => EAnd (expr_trans_bool l) (expr_trans_bool r)
  | EOr l r => EOr (expr_trans_bool l) (expr_trans_bool r)
  | ENot l => ENot (expr_trans_bool l)
  | EUnequal a b =>
      if is_type S_TRISTATE a && bool_decide (b = symbol_no) then ESymbol a else e
  | _ => e
  end.

(** The tests both join functions start with: each operand is a symbol, a
    comparison or a negated one, and both are about the same symbol, which is
    boolean or tristate. *)
Definition left_sym (e : expr) : option symbol :=
  match e with EEqual a _ | EUnequal a _ | ESymbol a => Some a | _ => None end.
Definition join_symbol (e1 e2 : expr) : option symbol :=
  let sym1 := match e1 with ENot tmp => left_sym tmp | _ => left_sym e1 end in
  let sym2 := match e2 with
              | ENot (ESymbol a) => Some a
              | ENot _ => None
              | _ => left_sym e2
              end in
  match sym1, sym2 with
  | Some s1, Some s2 =>
      if bool_decide (s1 = s2) && (is_type S_BOOLEAN s1 || is_type S_TRISTATE s1)
      then Some s1 else None
  | _, _ => None
  end.

(** [e->type == E_EQUAL && e->right.sym == s], and for E_UNEQUAL. *)
Definition eq_to (s : symbol) (e : expr) : bool :=
  match e with EEqual _ b => bool_decide (b = s) | _ => false end.
Definition ne_to (s : symbol) (e : expr) : bool :=
  match e with EUnequal _ b => bool_decide (b = s) | _ => false end.
Definition is_symbol (e : expr) : bool := match e with ESymbol _ => true | _ => false end.
Definition is_not_symbol (e : expr) : bool := match e with ENot (ESymbol _) => true | _ => false end.
(** A condition for the two operands in either order. *)
Definition either (p q : expr → bool) (e1 e2 : expr) : bool := (p e1 && q e2) || (q e1 && p e2).

Definition join_or_rules (e1 e2 : expr) : option expr :=
  match join_symbol e1 e2 with
  | None => None
  | Some sym1 =>
      if is_type S_TRISTATE sym1 && either (eq_to symbol_yes) (eq_to symbol_mod) e1 e2
      then Some (expr_alloc_comp false sym1 symbol_no)
      else if is_type S_TRISTATE sym1 && either (eq_to symbol_yes) (eq_to symbol_no) e1 e2
      then Some (expr_alloc_comp false sym1 symbol_mod)
      else if is_type S_TRISTATE sym1 && either (eq_to symbol_mod) (eq_to symbol_no) e1 e2
      then Some (expr_alloc_comp false sym1 symbol_yes)
      else if is_type S_BOOLEAN sym1 && either is_not_symbol is_symbol e1 e2
      then Some (expr_alloc_symbol symbol_yes)
      else None
  end.

(** (a='b') && (a!='c'): with constants 'b' and 'c' this is decided. *)
Definition join_eq_ne (sym1 : symbol) (e1 e2 : expr) : option expr :=
  match e1, e2 with
  | EEqual _ b, EUnequal _ c | EUnequal _ c, EEqual _ b =>
      if s_const (Sg c) && s_const (Sg b) then
        Some (if bool_decide (b ≠ c) then expr_alloc_comp true sym1 b
              else expr_alloc_symbol symbol_no)
      else None
  | _, _ => None
  end.

Definition join_and_rules (e1 e2 : expr) : option expr :=
  match join_symbol e1 e2 with
  | None => None
  | Some sym1 =>
      if either is_symbol (eq_to symbol_yes) e1 e2
      then Some (expr_alloc_comp true sym1 symbol_yes)
      else if either is_symbol (ne_to symbol_no) e1 e2
      then Some (expr_alloc_symbol sym1)
      else if either is_symbol (ne_to symbol_mod) e1 e2
      then Some (expr_alloc_comp true sym1 symbol_yes)
      else if is_type S_TRISTATE sym1 then
        match join_eq_ne sym1 e1 e2 with
        | Some e => Some e
        | None =>
            if either (ne_to symbol_yes) (ne_to symbol_no) e1 e2
            then Some (expr_alloc_comp true sym1 symbol_mod)
            else if either (ne_to symbol_yes) (ne_to symbol_mod) e1 e2
            then Some (expr_alloc_comp true sym1 symbol_no)
            else if either (ne_to symbol_mod) (ne_to symbol_no) e1 e2
            then Some (expr_alloc_comp true sym1 symbol_yes)
            else None
        end
      else None
  end.

Definition join_with (rules : expr → expr → option expr) (n : nat) (e1 e2 : expr) : K (option expr) :=
  eq <- expr_eq n e1 e2;;
  if (eq : bool) then c <- lift (expr_copy e1);; ret (Some c) else ret (rules e1 e2).
Definition expr_join_or : nat → expr → expr → K (option expr) := join_with join_or_rules.
Definition expr_join_and : nat → expr → expr → K (option expr) := join_with join_and_rules.
Definition expr_join (j : junction) : nat → expr → expr → K (option expr) :=
  match j with JOr => expr_join_or | JAnd => expr_join_and end.

(** ** Transformation to a normal form *)

Definition transform_equal (a b : symbol) : expr :=
  if is_type S_BOOLEAN a then
    if bool_decide (b = symbol_no) then ENot (expr_alloc_symbol a)
    else if bool_decide (b = symbol_mod) then ESymbol symbol_no
    else if bool_decide (b = symbol_yes) then ESymbol a
    else EEqual a b
  else EEqual a b.
Definition transform_unequal (a b : symbol) : expr :=
  if is_type S_BOOLEAN a then
    if bool_decide (b = symbol_no) then ESymbol a
    else if bool_decide (b = symbol_mod) then ESymbol symbol_yes
    else if bool_decide (b = symbol_yes) then ENot (expr_alloc_symbol a)
    else EUnequal a b
  else EUnequal a b.

(** An E_RANGE node has symbols where the function expects expressions. *)
Fixpoint expr_transform (n : nat) (e : expr) : res expr :=
  match n with
  | O => Err NoFuel
  | S n' =>
      match e with
      | ESymbol _ | EChoice _ => Ok e
      | EEqual a b => Ok (transform_equal a b)
      | EUnequal a b => Ok (transform_unequal a b)
      | ERange _ _ => Err TypeConfusion
      | EAnd l r => rbind (expr_transform n' l) (λ l', rbind (expr_transform n' r) (λ r', Ok (EAnd l' r')))
      | EOr l r => rbind (expr_transform n' l) (λ l', rbind (expr_transform n' r) (λ r', Ok (EOr l' r')))
      | ENot l =>
          rbind (expr_transform n' l) (λ l',
          match l' with
          | ENot x => expr_transform n' x
          | EEqual a b => Ok (EUnequal a b)
          | EUnequal a b => Ok (EEqual a b)
          | EOr x y => expr_transform n' (EAnd (ENot x) (expr_alloc_one y))
          | EAnd x y => expr_transform n' (EOr (ENot x) (expr_alloc_one y))
          | ESymbol s =>
              if bool_decide (s = symbol_yes) then Ok (ESymbol symbol_no)
              else if bool_decide (s = symbol_mod) then Ok (ESymbol symbol_mod)
              else if bool_decide (s = symbol_no) then Ok (ESymbol symbol_yes)
              else Ok (ENot l')
          | _ => Ok (ENot l')
          end)
      end
  end.

(** ** Duplicates *)

(** A slot of a tree: the way from the root through the operands of && and ||,
    [false] to the left. *)
Definition path := list bool.
Fixpoint get (p : path) (t : expr) : option expr :=
  match p with
  | [] => Some t
  | b :: p' => match t with
               | EAnd l r | EOr l r => get p' (if b then r else l)
               | _ => None
               end
  end.
Fixpoint put (p : path) (x t : expr) : expr :=
  match p with
  | [] => x
  | b :: p' => match t with
               | EAnd l r => if b then EAnd l (put p' x r) else EAnd (put p' x l) r
               | EOr l r => if b then EOr l (put p' x r) else EOr (put p' x l) r
               | _ => t
               end
  end.
Definition deref (p : path) (t : expr) : K expr :=
  match get p t with Some e => ret e | None => lift (Err BadAccess) end.

(** [p1] and [p2] are the slots [ep1] and [ep2]; [e1 == e2] compares the
    pointers in them, which are equal when the slots are. *)
Fixpoint expr_eliminate_dups1 (n : nat) (j : junction) (p1 p2 : path) (t : expr) : K expr :=
  match n with
  | O => lift (Err NoFuel)
  | S n' =>
      e1 <- deref p1 t;;
      e2 <- deref p2 t;;
      if of_type j e1 then
        t1 <- expr_eliminate_dups1 n' j (p1 ++ [false]) p2 t;;
        expr_eliminate_dups1 n' j (p1 ++ [true]) p2 t1
      else if of_type j e2 then
        t1 <- expr_eliminate_dups1 n' j p1 (p2 ++ [false]) t;;
        expr_eliminate_dups1 n' j p1 (p2 ++ [true]) t1
      else if bool_decide (p1 = p2) then ret t
      else
        e1' <- match is_junction e1 with
               | Some j' => expr_eliminate_dups1 n' j' [] [] e1
               | None => ret e1
               end;;
        tmp <- expr_join j n' e1' e2;;
        match tmp with
        | Some x =>
            incr_count;;;
            ret (put p2 x (put p1 (expr_alloc_symbol (unit_symbol j)) t))
        | None => ret (put p1 e1' t)
        end
  end.

(** The constant that makes the other operand of the junction irrelevant. *)
Definition zero_symbol (j : junction) : symbol :=
  match j with JOr => symbol_yes | JAnd => symbol_no end.
Definition dual (j : junction) : junction := match j with JOr => JAnd | JAnd => JOr end.

(** There is no return after the second pair of recursive calls. *)
Fixpoint expr_eliminate_dups2 (n : nat) (j : junction) (p1 p2 : path) (t : expr) : K expr :=
  match n with
  | O => lift (Err NoFuel)
  | S n' =>
      e1 <- deref p1 t;;
      if of_type j e1 then
        t1 <- expr_eliminate_dups2 n' j (p1 ++ [false]) p2 t;;
        expr_eliminate_dups2 n' j (p1 ++ [true]) p2 t1
      else
        e2 <- deref p2 t;;
        t1 <- (if of_type j e2 then
                 t0 <- expr_eliminate_dups2 n' j p1 (p2 ++ [false]) t;;
                 expr_eliminate_dups2 n' j p1 (p2 ++ [true]) t0
               else ret t);;
        if bool_decide (p1 = p2) then ret t1
        else
          x1 <- deref p1 t1;;
          match is_junction x1 with
          | Some j' =>
              x1' <- expr_eliminate_dups2 n' j' [] [] x1;;
              let t2 := put p1 x1' t1 in
              x2 <- deref p2 t2;;
              c1 <- lift (expr_copy x1');;
              tmp1 <- lift (expr_transform n' (expr_alloc_one c1));;
              tmp2 <- lift (expr_copy x2);;
              '(_, tmp1', _) <- extract_eq_top n' (dual j') tmp1 tmp2;;
              if is_sym (unit_symbol (dual j')) tmp1' then
                incr_count;;;
                ret (put p1 (expr_alloc_symbol (zero_symbol (dual j'))) t2)
              else ret t2
          | None => ret t1
          end
  end.

(** The loop, at most [m] times. *)
Fixpoint eliminate_dups_loop (n m : nat) (e : expr) : K expr :=
  match m with
  | O => lift (Err NoFuel)
  | S m' =>
      set_count 0;;;
      e1 <- match is_junction e with
            | Some j =>
                e' <- expr_eliminate_dups1 n j [] [] e;;
                expr_eliminate_dups2 n j [] [] e'
            | None => ret e
            end;;
      trans_count <- get_count;;
      if bool_decide (trans_count = 0) then ret e1
      else eliminate_dups_loop n m' (expr_eliminate_yn e1)
  end.
Definition expr_eliminate_dups (n m : nat) (e : expr) : K expr :=
  oldcount <- get_count;;
  e' <- eliminate_dups_loop n m e;;
  set_count oldcount;;;
  ret e'.

(** ** Symbols of an expression *)

Fixpoint expr_contains_symbol (dep : expr) (sym : symbol) : bool :=
  match dep with
  | EAnd l r | EOr l r => expr_contains_symbol l sym || expr_contains_symbol r sym
  | ESymbol s => bool_decide (s = sym)
  | EEqual a b | EUnequal a b => bool_decide (a = sym) || bool_decide (b = sym)
  | ENot e => expr_contains_symbol e sym
  | _ => false
  end.

Fixpoint expr_depends_symbol (dep : expr) (sym : symbol) : bool :=
  match dep with
  | EAnd l r => expr_depends_symbol l sym || expr_depends_symbol r sym
  | ESymbol s => bool_decide (s = sym)
  | EEqual a b =>
      bool_decide (a = sym) && (bool_decide (b = symbol_yes) || bool_decide (b = symbol_mod))
  | EUnequal a b => bool_decide (a = sym) && bool_decide (b = symbol_no)
  | _ => false
  end.

(** [equal] is [type == E_EQUAL].  NULL is both an argument and a result; it
    also stands for a junction with a NULL operand, which arises only from an
    E_CHOICE or E_RANGE node below it.  For a symbol other than 'y' and 'n' a
    junction is returned as it is. *)
Fixpoint trans_compare (e : expr) (equal : bool) (sym : symbol) : option expr :=
  let negate (x : option expr) := if equal then x else expr_alloc_one <$> x in
  let junction_of (j : junction) (l r : expr) :=
    if bool_decide (sym = symbol_yes ∨ sym = symbol_no) then
      match trans_compare l true sym, trans_compare r true sym with
      | Some x, Some y =>
          negate (Some (expr_alloc_two (if bool_decide (sym = symbol_yes) then j else dual j) x y))
      | _, _ => None
      end
    else negate (Some e) in
  match e with
  | EAnd l r => junction_of JAnd l r
  | EOr l r => junction_of JOr l r
  | ENot l => trans_compare l (negb equal) sym
  | EUnequal _ _ | EEqual _ _ =>
      if bool_decide (sym = symbol_yes) then negate (Some e)
      else if bool_decide (sym = symbol_mod) then
        Some (expr_alloc_symbol (if equal then symbol_no else symbol_yes))
      else if bool_decide (sym = symbol_no) then Some (if equal then expr_alloc_one e else e)
      else None
  | ESymbol s => Some (expr_alloc_comp equal s sym)
  | EChoice _ | ERange _ _ => None
  end.
Definition expr_trans_compare (e : option expr) (equal : bool) (sym : symbol) : option expr :=
  match e with
  | None =>
      let x := expr_alloc_symbol sym in Some (if equal then x else expr_alloc_one x)
  | Some x => trans_compare x equal sym
  end.

(** ** Values *)

Definition tri_num (t : tristate) : Z := match t with Tno => 0 | Tmod => 1 | Tyes => 2 end.
(** The macros E_OR, E_AND and E_NOT. *)
Definition tri_or (a b : tristate) : tristate := if bool_decide (tri_num b < tri_num a) then a else b.
Definition tri_and (a b : tristate) : tristate := if bool_decide (tri_num a < tri_num b) then a else b.
Definition tri_not (a : tristate) : tristate :=
  match a with Tno => Tyes | Tmod => Tmod | Tyes => Tno end.

Definition sym_get_string_value (s : symbol) : string :=
  if is_type S_BOOLEAN s || is_type S_TRISTATE s then
    match s_tri (Sg s) with Tno => "n" | Tmod => "m" | Tyes => "y" end
  else s_val (Sg s).

Fixpoint calc_value (e : expr) : tristate :=
  match e with
  | ESymbol s => s_tri (Sg s)
  | EAnd l r => tri_and (calc_value l) (calc_value r)
  | EOr l r => tri_or (calc_value l) (calc_value r)
  | ENot l => tri_not (calc_value l)
  | EEqual a b =>
      if bool_decide (sym_get_string_value a = sym_get_string_value b) then Tyes else Tno
  | EUnequal a b =>
      if bool_decide (sym_get_string_value a = sym_get_string_value b) then Tno else Tyes
  | EChoice _ | ERange _ _ => Tno
  end.
Definition expr_calc_value (e : option expr) : tristate :=
  match e with None => Tyes | Some x => calc_value x end.

(** ** Printing *)

(** The cases fall through. *)
Definition expr_compare_type (t1 t2 : expr_type) : Z :=
  let choice := if bool_decide (t2 = E_NONE) then 1 else -1 in
  let or_ := if bool_decide (t2 = E_CHOICE) then 1 else choice in
  let and_ := if bool_decide (t2 = E_OR) then 1 else or_ in
  let not_ := if bool_decide (t2 = E_AND) then 1 else and_ in
  let equal := if bool_decide (t2 = E_NOT) then 1 else not_ in
  if bool_decide (t1 = t2) then 0
  else match t1 with
       | E_EQUAL | E_UNEQUAL => equal
       | E_NOT => not_
       | E_AND => and_
       | E_OR => or_
       | E_CHOICE => choice
       | _ => -1
       end.

(** The strings given to [fn], in order.  Symbols in comparisons have names. *)
Definition name_of (s : symbol) : string := default "(null)" (s_name (Sg s)).

Fixpoint choice_tokens (syms : list symbol) : list string :=
  match syms with
  | [] => []
  | [s] => [name_of s]
  | s :: syms' => name_of s :: " ^ " :: choice_tokens syms'
  end%string.

Fixpoint print_expr (e : expr) (prevtoken : expr_type) : list string :=
  let paren (s : string) := if bool_decide (expr_compare_type prevtoken (etype e) > 0) then [s] else [] in
  paren "("%string ++
  match e with
  | ESymbol s => [default "<choice>"%string (s_name (Sg s))]
  | ENot l => "!"%string :: print_expr l E_NOT
  | EEqual a b => [name_of a; "="%string; name_of b]
  | EUnequal a b => [name_of a; "!="%string; name_of b]
  | EOr l r => print_expr l E_OR ++ [" || "%string] ++ print_expr r E_OR
  | EAnd l r => print_expr l E_AND ++ [" && "%string] ++ print_expr r E_AND
  | EChoice syms => choice_tokens syms
  | ERange a b => ["["%string; name_of a; " "%string; name_of b; "]"%string]
  end ++
  paren ")"%string.
Definition expr_print (e : option expr) (prevtoken : expr_type) : list string :=
  match e with None => ["y"%string] | Some x => print_expr x prevtoken end.

(** [expr_fprint] and [expr_gstr_print] append the strings. *)
Definition expr_gstr_print (e : option expr) (gs : string) : string :=
  foldl String.append gs (expr_print e E_NONE).

End table.
