(* ===== verification/KExprEq.v ===== *)
(** * Equality of dependency expressions and common parts (kconfig/expr.c)

    [expr_eq] is sound for the values of the expressions, the functions that
    take common parts out keep the values, and all of them return within the
    depth that the size of the trees gives. *)

From stdpp Require Import base numbers list option strings sets.
From S2P Require Import Prelude KExpr.
Local Open Scope Z_scope.
Local Open Scope c_scope.

(** ** Trees *)

Fixpoint size (e : expr) : nat :=
  match e with
  | ENot l => S (size l)
  | EAnd l r | EOr l r => S (size l + size r)
  | _ => 1
  end.
(** An expression as the parser builds it for a dependency. *)
Fixpoint dep (e : expr) : Prop :=
  match e with
  | ENot l => dep l
  | EAnd l r | EOr l r => dep l ∧ dep r
  | EChoice _ | ERange _ _ => False
  | _ => True
  end.

Lemma size_pos e : (1 ≤ size e)%nat.
Proof. destruct e; simpl; lia. Qed.

Lemma expr_copy_ok e : dep e → expr_copy e = Ok e.
Proof.
  induction e; simpl; intros H; try done.
  - by rewrite IHe.
  - destruct H. by rewrite IHe1, IHe2.
  - destruct H. by rewrite IHe1, IHe2.
Qed.
Lemma expr_copy_inv e e' : expr_copy e = Ok e' → e' = e ∧ dep e.
Proof.
  revert e'. induction e as [s|e IH|a b|a b|l IHl r IHr|l IHl r IHr|l|a b]; simpl; intros e' E;
    simplify_eq; try done.
  - destruct (expr_copy e); [|done]. simplify_eq/=. by destruct (IH _ eq_refl) as [-> ?].
  - destruct (expr_copy l), (expr_copy r); try done. simplify_eq/=.
    destruct (IHl _ eq_refl) as [-> ?]. by destruct (IHr _ eq_refl) as [-> ?].
  - destruct (expr_copy l), (expr_copy r); try done. simplify_eq/=.
    destruct (IHl _ eq_refl) as [-> ?]. by destruct (IHr _ eq_refl) as [-> ?].
Qed.

Lemma kids_eq j e l r : kids j e = Some (l, r) → e = expr_alloc_two j l r.
Proof. destruct j, e; intros [= -> ->]; done. Qed.
Lemma kids_two j l r : kids j (expr_alloc_two j l r) = Some (l, r).
Proof. by destruct j. Qed.
Lemma of_type_two j l r : of_type j (expr_alloc_two j l r) = true.
Proof. unfold of_type. by rewrite kids_two. Qed.
Lemma of_type_kids j e l r : kids j e = Some (l, r) → of_type j e = true.
Proof. unfold of_type. by intros ->. Qed.
Lemma size_two j l r : size (expr_alloc_two j l r) = S (size l + size r).
Proof. by destruct j. Qed.
Lemma dep_two j l r : dep (expr_alloc_two j l r) ↔ dep l ∧ dep r.
Proof. by destruct j. Qed.
Lemma is_junction_kids e j : is_junction e = Some j → ∃ l r, e = expr_alloc_two j l r.
Proof. destruct e; intros [= <-]; eauto. Qed.

Lemma is_sym_true s e : is_sym s e = true → e = ESymbol s.
Proof. destruct e; try done. simpl. by intros ->%bool_decide_eq_true. Qed.

Lemma yn_size e : (size (expr_eliminate_yn e) ≤ size e)%nat.
Proof. induction e; simpl; try lia; repeat case_match; simpl; lia. Qed.
Lemma yn_dep e : dep e → dep (expr_eliminate_yn e).
Proof.
  induction e; simpl; try done; intros [H1 H2]; repeat case_match; try done; simpl; auto.
Qed.

(** ** Running the counter monad *)

Lemma lift_inv {S A} (r : res A) (s : S) a s' : lift r s = Ok (a, s') → r = Ok a ∧ s' = s.
Proof. unfold lift. destruct r; intros [= -> ->]; done. Qed.

(** Take a successful sequence apart. *)
Ltac minv :=
  repeat match goal with
  | H : bind _ _ _ = Ok _ |- _ => apply bind_inv in H as (? & ? & ? & H)
  | H : lift _ _ = Ok _ |- _ => apply lift_inv in H as [? ?]
  | H : ret _ _ = Ok _ |- _ => unfold ret in H
  | H : get_count _ = Ok _ |- _ => unfold get_count in H
  | H : set_count _ _ = Ok _ |- _ => unfold set_count in H
  | H : incr_count _ = Ok _ |- _ => unfold incr_count in H
  | H : Ok _ = Ok _ |- _ => injection H as; subst
  | H : Err _ = Ok _ |- _ => discriminate H
  | H : (match ?p with (_, _) => _ end) _ = Ok _ |- _ => is_var p; destruct p
  end.

(** ** Values *)

(** What holds of a computed symbol table. *)
Record table_ok (Sg : symbol → syminfo) : Prop := {
  tb_yes : s_tri (Sg symbol_yes) = Tyes;
  tb_mod : s_tri (Sg symbol_mod) = Tmod;
  tb_no : s_tri (Sg symbol_no) = Tno;
  tb_yes_val : s_val (Sg symbol_yes) = "y"%string;
  tb_mod_val : s_val (Sg symbol_mod) = "m"%string;
  tb_no_val : s_val (Sg symbol_no) = "n"%string;
  tb_consts s : s = symbol_yes ∨ s = symbol_mod ∨ s = symbol_no → s_type (Sg s) = S_UNKNOWN;
  tb_bool s : s_type (Sg s) = S_BOOLEAN → s_tri (Sg s) ≠ Tmod;
  tb_const_inj a b : s_const (Sg a) = true → s_const (Sg b) = true →
    sym_get_string_value Sg a = sym_get_string_value Sg b → a = b }.

Definition tri_op (j : junction) : tristate → tristate → tristate :=
  match j with JOr => tri_or | JAnd => tri_and end.
Definition tri_unit (j : junction) : tristate := match j with JOr => Tno | JAnd => Tyes end.

Lemma tri_assoc j a b c : tri_op j (tri_op j a b) c = tri_op j a (tri_op j b c).
Proof. by destruct j, a, b, c. Qed.
Lemma tri_comm j a b : tri_op j a b = tri_op j b a.
Proof. by destruct j, a, b. Qed.
Lemma tri_unit_l j a : tri_op j (tri_unit j) a = a.
Proof. by destruct j, a. Qed.
Lemma tri_unit_r j a : tri_op j a (tri_unit j) = a.
Proof. by destruct j, a. Qed.
Lemma tri_idem j a : tri_op j a a = a.
Proof. by destruct j, a. Qed.

Lemma calc_two Sg j l r :
  calc_value Sg (expr_alloc_two j l r) = tri_op j (calc_value Sg l) (calc_value Sg r).
Proof. by destruct j. Qed.
Lemma calc_unit Sg j : table_ok Sg → calc_value Sg (ESymbol (unit_symbol j)) = tri_unit j.
Proof. intros []. by destruct j. Qed.

(** Taking the same part out twice in a row. *)
Lemma tri_split j C1 C2 l r :
  tri_op j (tri_op j C1 l) (tri_op j C2 r) = tri_op j (tri_op j C1 C2) (tri_op j l r).
Proof. by destruct j, C1, C2, l, r. Qed.

(** Case analysis on the values in the goal. *)
Ltac tri_cases :=
  repeat match goal with |- context [calc_value ?S ?x] => generalize (calc_value S x); intros [] end;
  reflexivity.

Lemma yn_value Sg e : table_ok Sg → calc_value Sg (expr_eliminate_yn e) = calc_value Sg e.
Proof.
  intros [Hy _ Hn _ _ _ _ _ _]. induction e as [| | | |l IHl r IHr|l IHl r IHr| |]; try done; simpl;
    rewrite <- IHl, <- IHr.
  - destruct (is_sym symbol_no (expr_eliminate_yn l)) eqn:E1;
      [|destruct (is_sym symbol_yes (expr_eliminate_yn l)) eqn:E2;
      [|destruct (is_sym symbol_no (expr_eliminate_yn r)) eqn:E3;
      [|destruct (is_sym symbol_yes (expr_eliminate_yn r)) eqn:E4; [|done]]]];
      [apply is_sym_true in E1 as ->|apply is_sym_true in E2 as ->|apply is_sym_true in E3 as ->
      |apply is_sym_true in E4 as ->]; simpl; rewrite ?Hy, ?Hn; tri_cases.
  - destruct (is_sym symbol_no (expr_eliminate_yn l)) eqn:E1;
      [|destruct (is_sym symbol_yes (expr_eliminate_yn l)) eqn:E2;
      [|destruct (is_sym symbol_no (expr_eliminate_yn r)) eqn:E3;
      [|destruct (is_sym symbol_yes (expr_eliminate_yn r)) eqn:E4; [|done]]]];
      [apply is_sym_true in E1 as ->|apply is_sym_true in E2 as ->|apply is_sym_true in E3 as ->
      |apply is_sym_true in E4 as ->]; simpl; rewrite ?Hy, ?Hn; tri_cases.
Qed.

(** ** Common parts *)

(** The pair shrank by a common part: same value [C] on both sides. *)
Definition taken (Sg : symbol → syminfo) (j : junction) (e1 e2 e1' e2' : expr) : Prop :=
  ∃ C, calc_value Sg e1 = tri_op j C (calc_value Sg e1') ∧
       calc_value Sg e2 = tri_op j C (calc_value Sg e2').

(** The shape of the results. *)
Definition shrunk (j : junction) (e e' : expr) : Prop :=
  (size e' ≤ size e)%nat ∧ (dep e → dep e') ∧ (of_type j e = true → of_type j e' = true).

Lemma shrunk_refl j e : shrunk j e e.
Proof. by split; [|split]. Qed.
Lemma shrunk_trans j a b c : shrunk j a b → shrunk j b c → shrunk j a c.
Proof. intros (? & ? & ?) (? & ? & ?). split; [lia|]. split; auto. Qed.
Lemma shrunk_two j e l r l' r' :
  kids j e = Some (l, r) → shrunk j l l' → shrunk j r r' → shrunk j e (expr_alloc_two j l' r').
Proof.
  intros ->%kids_eq (? & ? & _) (? & ? & _). unfold shrunk. rewrite !size_two, !dep_two.
  split; [lia|]. split; [tauto|]. intros _. apply of_type_two.
Qed.
Lemma shrunk_unit j e : kids j e = None → shrunk j e (ESymbol (unit_symbol j)).
Proof.
  intros H. pose proof (size_pos e). split; [simpl; lia|]. split; [done|].
  unfold of_type. by rewrite H.
Qed.
#[export] Hint Resolve shrunk_refl : core.

Section values.
Context (Sg : symbol → syminfo) (Hok : table_ok Sg).

Lemma taken_refl j e1 e2 : taken Sg j e1 e2 e1 e2.
Proof. exists (tri_unit j). by rewrite !tri_unit_l. Qed.

Lemma taken_left j e1 l r e2 l' e2' r' e2'' :
  kids j e1 = Some (l, r) → taken Sg j l e2 l' e2' → taken Sg j r e2' r' e2'' →
  taken Sg j e1 e2 (expr_alloc_two j l' r') e2''.
Proof.
  intros ->%kids_eq (C1 & H1 & H2) (C2 & H3 & H4). exists (tri_op j C1 C2).
  rewrite !calc_two. split; [rewrite H1, H3; apply tri_split|by rewrite H2, H4, tri_assoc].
Qed.

Lemma taken_swap j e1 e2 e1' e2' : taken Sg j e1 e2 e1' e2' → taken Sg j e2 e1 e2' e1'.
Proof. intros (C & H1 & H2). by exists C. Qed.

Lemma taken_unit j e1 e2 :
  calc_value Sg e1 = calc_value Sg e2 →
  taken Sg j e1 e2 (ESymbol (unit_symbol j)) (ESymbol (unit_symbol j)).
Proof.
  intros E. exists (calc_value Sg e1). rewrite !calc_unit, !tri_unit_r by done. by rewrite E.
Qed.

Lemma expr_alloc_symbol_eq s : expr_alloc_symbol s = ESymbol s.
Proof. done. Qed.

(** [expr_eliminate_eq] over a worker that keeps the values. *)
Definition worker_ok (w : junction → expr → expr → K (expr * expr)) : Prop :=
  ∀ j e1 e2 c x1 x2 c', w j e1 e2 c = Ok ((x1, x2), c') →
    taken Sg j e1 e2 x1 x2 ∧ shrunk j e1 x1 ∧ shrunk j e2 x2.

(** Both values are the same function of the values that are left. *)
Lemma eliminate_eq_values w e1 e2 c x1 x2 c' :
  worker_ok w → eliminate_eq_with w e1 e2 c = Ok ((x1, x2), c') →
  ∃ f, calc_value Sg e1 = f (calc_value Sg x1) ∧ calc_value Sg e2 = f (calc_value Sg x2).
Proof.
  intros Hw E. unfold eliminate_eq_with in E. minv. rewrite !yn_value by done.
  assert (∃ f, calc_value Sg e1 = f (calc_value Sg e) ∧ calc_value Sg e2 = f (calc_value Sg e0)) as (f & F1 & F2).
  { destruct (is_junction e1) as [j|]; minv; [|by exists id].
    destruct (Hw _ _ _ _ _ _ _ H) as ((C & ? & ?) & _). by exists (tri_op j C). }
  assert (∃ g, calc_value Sg e = g (calc_value Sg e3) ∧ calc_value Sg e0 = g (calc_value Sg e4)) as (g & G1 & G2).
  { case_bool_decide; [|minv; by exists id]. destruct (is_junction e0) as [j|]; minv; [|by exists id].
    destruct (Hw _ _ _ _ _ _ _ H0) as ((C & ? & ?) & _). by exists (tri_op j C). }
  exists (λ v, f (g v)). by rewrite F1, F2, G1, G2.
Qed.

(** The last case of [expr_eq]. *)
Lemma eq_junction n e1 e2 c b c' :
  worker_ok (__expr_eliminate_eq n) →
  (c1 <- lift (expr_copy e1);;
   c2 <- lift (expr_copy e2);;
   old_count <- get_count;;
   '(x1, x2) <- eliminate_eq_with (__expr_eliminate_eq n) c1 c2;;
   set_count old_count;;;
   ret match x1, x2 with
       | ESymbol a, ESymbol b => bool_decide (a = b)
       | _, _ => false
       end) c = Ok (b, c') →
  c' = c ∧ (b = true → calc_value Sg e1 = calc_value Sg e2).
Proof.
  intros Hw E. minv. split; [done|].
  repeat match goal with H : expr_copy _ = Ok _ |- _ => apply expr_copy_inv in H as [-> _] end.
  destruct (eliminate_eq_values _ _ _ _ _ _ _ Hw H2) as (f & -> & ->).
  intros Hb. f_equal. destruct e, e0; try done. by apply bool_decide_eq_true in Hb as ->.
Qed.

(** [expr_eq] and its worker, for any depth at which they return. *)
Lemma eq_sound n :
  (∀ j e1 e2 c x1 x2 c', __expr_eliminate_eq n j e1 e2 c = Ok ((x1, x2), c') →
     taken Sg j e1 e2 x1 x2 ∧ shrunk j e1 x1 ∧ shrunk j e2 x2) ∧
  (∀ e1 e2 c b c', expr_eq n e1 e2 c = Ok (b, c') →
     c' = c ∧ (b = true → calc_value Sg e1 = calc_value Sg e2)).
Proof.
  induction n as [|n [IHe IHq]]; [by split|]. split.
  - intros j e1 e2 c x1 x2 c' E. simpl in E.
    destruct (kids j e1) as [[l r]|] eqn:E1.
    { minv. destruct (IHe _ _ _ _ _ _ _ H) as (H1 & H2 & H3). destruct (IHe _ _ _ _ _ _ _ H0) as (H4 & H5 & H6).
      split; [by eapply taken_left|]. split; [by eapply shrunk_two|by eapply shrunk_trans]. }
    destruct (kids j e2) as [[l r]|] eqn:E2.
    { minv. destruct (IHe _ _ _ _ _ _ _ H) as (H1 & H2 & H3). destruct (IHe _ _ _ _ _ _ _ H0) as (H4 & H5 & H6).
      split; [|split; [by eapply shrunk_trans|by eapply shrunk_two]].
      apply taken_swap. eapply taken_left; [done|by apply taken_swap|by apply taken_swap]. }
    destruct (same_constant e1 e2); [minv; auto using taken_refl|].
    minv. destruct (IHq _ _ _ _ _ H) as [-> Hb]. destruct x; minv; [|auto using taken_refl].
    rewrite expr_alloc_symbol_eq.
    split; [by apply taken_unit; auto|]. split; by apply shrunk_unit.
  - intros e1 e2 c b c' E. simpl in E.
    destruct e1 as [a|x|a1 b1|a1 b1|l1 r1|l1 r1|s1|a1 b1], e2 as [a'|x'|a2 b2|a2 b2|l2 r2|l2 r2|s2|a2 b2];
      try (minv; by split).
    + minv. split; [done|]. by intros ->%bool_decide_eq_true.
    + destruct (IHq _ _ _ _ _ E) as [-> Hb]. split; [done|]. simpl. intros ?. by rewrite Hb.
    + minv. split; [done|]. by intros [->%bool_decide_eq_true ->%bool_decide_eq_true]%andb_prop.
    + minv. split; [done|]. by intros [->%bool_decide_eq_true ->%bool_decide_eq_true]%andb_prop.
    + by eapply (eq_junction n (EAnd l1 r1) (EAnd l2 r2)).
    + by eapply (eq_junction n (EOr l1 r1) (EOr l2 r2)).
Qed.

(** What [expr_extract_eq] collects; NULL has no influence. *)
Definition part_value (j : junction) (ep : option expr) : tristate :=
  match ep with Some x => calc_value Sg x | None => tri_unit j end.

Definition extracted (j : junction) (ep : option expr) (e1 e2 : expr) (ep' : option expr)
    (x1 x2 : expr) : Prop :=
  ∃ C, calc_value Sg e1 = tri_op j C (calc_value Sg x1) ∧
       calc_value Sg e2 = tri_op j C (calc_value Sg x2) ∧
       part_value j ep' = tri_op j (part_value j ep) C.

Lemma extracted_refl j ep e1 e2 : extracted j ep e1 e2 ep e1 e2.
Proof. exists (tri_unit j). by rewrite !tri_unit_l, tri_unit_r. Qed.
Lemma extracted_swap j ep e1 e2 ep' x1 x2 :
  extracted j ep e1 e2 ep' x1 x2 → extracted j ep e2 e1 ep' x2 x1.
Proof. intros (C & ? & ? & ?). by exists C. Qed.
Lemma extracted_left j ep e1 l r e2 ep1 l' e2' ep2 r' e2'' :
  kids j e1 = Some (l, r) → extracted j ep l e2 ep1 l' e2' → extracted j ep1 r e2' ep2 r' e2'' →
  extracted j ep e1 e2 ep2 (expr_alloc_two j l' r') e2''.
Proof.
  intros ->%kids_eq (C1 & H1 & H2 & H3) (C2 & H4 & H5 & H6). exists (tri_op j C1 C2).
  rewrite !calc_two. split; [rewrite H1, H4; apply tri_split|].
  split; [by rewrite H2, H5, tri_assoc|by rewrite H6, H3, tri_assoc].
Qed.
Lemma extracted_unit j ep e1 e2 :
  calc_value Sg e1 = calc_value Sg e2 →
  extracted j ep e1 e2 (Some match ep with Some x => expr_alloc_two j x e1 | None => e1 end)
    (ESymbol (unit_symbol j)) (ESymbol (unit_symbol j)).
Proof.
  intros E. exists (calc_value Sg e1). rewrite !calc_unit, !tri_unit_r by done.
  split; [done|]. split; [done|]. destruct ep; simpl; [apply calc_two|by rewrite tri_unit_l].
Qed.

Lemma extract_sound n : ∀ j ep e1 e2 c ep' x1 x2 c',
  expr_extract_eq n j ep e1 e2 c = Ok ((ep', x1, x2), c') →
  c' = c ∧ extracted j ep e1 e2 ep' x1 x2 ∧ shrunk j e1 x1 ∧ shrunk j e2 x2.
Proof.
  induction n as [|n IH]; intros j ep e1 e2 c ep' x1 x2 c' E; [done|]. simpl in E.
  destruct (kids j e1) as [[l r]|] eqn:E1.
  { minv. destruct (IH _ _ _ _ _ _ _ _ _ H) as (-> & H1 & H2 & H3).
    destruct (IH _ _ _ _ _ _ _ _ _ H0) as (-> & H4 & H5 & H6).
    split; [done|]. split; [by eapply extracted_left|]. split; [by eapply shrunk_two|by eapply shrunk_trans]. }
  destruct (kids j e2) as [[l r]|] eqn:E2.
  { minv. destruct (IH _ _ _ _ _ _ _ _ _ H) as (-> & H1 & H2 & H3).
    destruct (IH _ _ _ _ _ _ _ _ _ H0) as (-> & H4 & H5 & H6).
    split; [done|]. split; [|split; [by eapply shrunk_trans|by eapply shrunk_two]].
    apply extracted_swap. eapply extracted_left; [done|by apply extracted_swap..]. }
  minv. destruct (proj2 (eq_sound n) _ _ _ _ _ H) as [-> Hb].
  destruct x; minv; [|auto using extracted_refl]. rewrite expr_alloc_symbol_eq.
  split; [done|]. split; [by apply extracted_unit; auto|]. split; by apply shrunk_unit.
Qed.

(** The common part and the rests make up both expressions. *)
Lemma extract_top_sound n j e1 e2 c tmp x1 x2 c' :
  extract_eq_top n j e1 e2 c = Ok ((tmp, x1, x2), c') →
  c' = c ∧ calc_value Sg e1 = tri_op j (part_value j tmp) (calc_value Sg x1) ∧
  calc_value Sg e2 = tri_op j (part_value j tmp) (calc_value Sg x2).
Proof.
  intros E. unfold extract_eq_top in E. apply bind_inv in E as ([[o y1] y2] & c1 & E1 & E2).
  destruct (extract_sound _ _ _ _ _ _ _ _ _ _ E1) as (-> & (C & H1 & H2 & H3) & _).
  simpl in H3. rewrite tri_unit_l in H3. rewrite H1, H2.
  destruct o; injection E2 as <- <- <- <-; rewrite ?yn_value by done; simpl in *; by rewrite H3.
Qed.

End values.

(** ** A concrete table *)

(** Symbols 4 and 5 are boolean, 6 and 7 tristate, 8 a string, 9 and 10
    constants; the values of the first four can be chosen. *)
Definition demo_table (v4 v5 : bool) (v6 v7 : tristate) (s : symbol) : syminfo :=
  let b (v : bool) := if v then Tyes else Tno in
  match s with
  | 1 => Syminfo S_UNKNOWN true (Some "y") Tyes "y"
  | 2 => Syminfo S_UNKNOWN true (Some "m") Tmod "m"
  | 3 => Syminfo S_UNKNOWN true (Some "n") Tno "n"
  | 4 => Syminfo S_BOOLEAN false (Some "A") (b v4) ""
  | 5 => Syminfo S_BOOLEAN false (Some "B") (b v5) ""
  | 6 => Syminfo S_TRISTATE false (Some "T") v6 ""
  | 7 => Syminfo S_TRISTATE false (Some "U") v7 ""
  | 8 => Syminfo S_STRING false (Some "S") Tno "text"
  | 9 => Syminfo S_UNKNOWN true (Some "c") Tno "c"
  | 10 => Syminfo S_UNKNOWN true (Some "d") Tno "d"
  | _ => Syminfo S_UNKNOWN false (Some "X") Tno "X"
  end%positive%string.

Lemma demo_table_cases (P : symbol → Prop) v4 v5 v6 v7 :
  P 1%positive → P 2%positive → P 3%positive → P 4%positive → P 5%positive → P 6%positive →
  P 7%positive → P 8%positive → P 9%positive → P 10%positive →
  (∀ s, demo_table v4 v5 v6 v7 s = Syminfo S_UNKNOWN false (Some "X"%string) Tno "X" → P s) → ∀ s, P s.
Proof.
  intros ? ? ? ? ? ? ? ? ? ? H s.
  destruct s as [[[[s|s|]|[s|s|]|]|[[s|s|]|[s|s|]|]|]|[[[s|s|]|[s|s|]|]|[[s|s|]|[s|s|]|]|]|];
    (done || apply H; done).
Qed.

Lemma demo_table_ok v4 v5 v6 v7 : table_ok (demo_table v4 v5 v6 v7).
Proof.
  split; try done.
  - by intros s [->|[->| ->]].
  - intros s. pattern s. apply (demo_table_cases _ v4 v5 v6 v7); try done; try (by destruct v4, v5).
    by intros s0 ->.
  - assert (∀ s, s_const (demo_table v4 v5 v6 v7 s) = true →
      s ∈ [1; 2; 3; 9; 10]%positive) as Hc.
    { intros s. pattern s. apply (demo_table_cases _ v4 v5 v6 v7); intros; try done; try set_solver.
      by rewrite H in H0. }
    intros a b Ha%Hc Hb%Hc. rewrite !elem_of_cons in Ha, Hb.
    destruct Ha as [->|[->|[->|[->|[->|?%elem_of_nil]]]]], Hb as [->|[->|[->|[->|[->|?%elem_of_nil]]]]]; done.
Qed.

(** ** Depth *)

Definition plain_table : symbol → syminfo := demo_table true true Tyes Tyes.
Lemma plain_ok : table_ok plain_table.
Proof. apply demo_table_ok. Qed.

Lemma elim_shrunk n j e1 e2 c x1 x2 c' :
  __expr_eliminate_eq n j e1 e2 c = Ok ((x1, x2), c') → shrunk j e1 x1 ∧ shrunk j e2 x2.
Proof. intros E. by destruct (proj1 (eq_sound plain_table plain_ok n) _ _ _ _ _ _ _ E). Qed.
Lemma eq_count n e1 e2 c b c' : expr_eq n e1 e2 c = Ok (b, c') → c' = c.
Proof. intros E. by destruct (proj2 (eq_sound plain_table plain_ok n) _ _ _ _ _ E). Qed.

(** The depth the worker needs; one call less on a junction. *)
Definition enough (n : nat) (j : junction) (e1 e2 : expr) : Prop :=
  (3 * (size e1 + size e2) ≤ n + (if of_type j e1 || of_type j e2 then 2 else 0))%nat.

Lemma same_type_shrunk j l1 r1 l2 r2 x1 x2 :
  shrunk j (expr_alloc_two j l1 r1) x1 → shrunk j (expr_alloc_two j l2 r2) x2 → etype x1 = etype x2.
Proof.
  intros (_ & _ & H1) (_ & _ & H2). rewrite of_type_two in H1, H2.
  specialize (H1 eq_refl). specialize (H2 eq_refl). unfold of_type in *.
  by destruct j, x1, x2.
Qed.

(** The last case of [expr_eq] returns. *)
Lemma eq_junction_total n j l1 r1 l2 r2 c :
  let e1 := expr_alloc_two j l1 r1 in let e2 := expr_alloc_two j l2 r2 in
  dep e1 → dep e2 → (∃ r c', __expr_eliminate_eq n j e1 e2 c = Ok (r, c')) →
  ∃ b c', (c1 <- lift (expr_copy e1);;
   c2 <- lift (expr_copy e2);;
   old_count <- get_count;;
   '(x1, x2) <- eliminate_eq_with (__expr_eliminate_eq n) c1 c2;;
   set_count old_count;;;
   ret match x1, x2 with
       | ESymbol a, ESymbol b => bool_decide (a = b)
       | _, _ => false
       end) c = Ok (b, c').
Proof.
  intros e1 e2 D1 D2 ([x1 x2] & c' & E). destruct (elim_shrunk _ _ _ _ _ _ _ _ E) as [S1 S2].
  assert (eliminate_eq_with (__expr_eliminate_eq n) e1 e2 c
    = Ok ((expr_eliminate_yn x1, expr_eliminate_yn x2), c')) as E'.
  { unfold eliminate_eq_with. assert (is_junction e1 = Some j) as -> by (by destruct j).
    rewrite (bind_ok _ _ _ _ _ E). cbn beta iota.
    rewrite (bool_decide_false (etype x1 ≠ etype x2)); [done|].
    intros Hne. apply Hne. by eapply same_type_shrunk. }
  eexists _, _. erewrite bind_ok by (by apply lift_ok, expr_copy_ok).
  erewrite bind_ok by (by apply lift_ok, expr_copy_ok). erewrite bind_ok by done.
  rewrite (bind_ok _ _ _ _ _ E'). done.
Qed.

Lemma eq_total n :
  (∀ j e1 e2 c, dep e1 → dep e2 → enough n j e1 e2 →
     ∃ r c', __expr_eliminate_eq n j e1 e2 c = Ok (r, c')) ∧
  (∀ e1 e2 c, dep e1 → dep e2 → (3 * (size e1 + size e2) ≤ n + 1)%nat →
     ∃ b c', expr_eq n e1 e2 c = Ok (b, c')).
Proof.
  induction n as [|n [IHe IHq]].
  { split; intros; exfalso.
    - pose proof (size_pos e1). pose proof (size_pos e2). unfold enough in *. case_match; lia.
    - pose proof (size_pos e1). pose proof (size_pos e2). lia. }
  split.
  - intros j e1 e2 c D1 D2 Hn. unfold enough in Hn. simpl.
    destruct (kids j e1) as [[l r]|] eqn:E1.
    { apply kids_eq in E1 as ->. rewrite size_two in Hn. apply dep_two in D1 as [Dl Dr].
      assert ((if of_type j (expr_alloc_two j l r) || of_type j e2 then 2 else 0) = 2)%nat as Ht
        by (by rewrite of_type_two). rewrite Ht in Hn.
      destruct (IHe j l e2 c Dl D2) as ([l' e2'] & c1 & H1); [unfold enough; lia|].
      destruct (elim_shrunk _ _ _ _ _ _ _ _ H1) as [_ (Hs & Hd & _)].
      destruct (IHe j r e2' c1 Dr (Hd D2)) as ([r' e2''] & c2 & H2); [unfold enough; lia|].
      rewrite (bind_ok _ _ _ _ _ H1), (bind_ok _ _ _ _ _ H2). eexists _, _. done. }
    destruct (kids j e2) as [[l r]|] eqn:E2.
    { apply kids_eq in E2 as ->. rewrite size_two in Hn. apply dep_two in D2 as [Dl Dr].
      assert ((if of_type j e1 || of_type j (expr_alloc_two j l r) then 2 else 0) = 2)%nat as Ht
        by (by rewrite of_type_two, orb_true_r). rewrite Ht in Hn.
      destruct (IHe j e1 l c D1 Dl) as ([e1' l'] & c1 & H1); [unfold enough; lia|].
      destruct (elim_shrunk _ _ _ _ _ _ _ _ H1) as [(Hs & Hd & _) _].
      destruct (IHe j e1' r c1 (Hd D1) Dr) as ([e1'' r'] & c2 & H2); [unfold enough; lia|].
      rewrite (bind_ok _ _ _ _ _ H1), (bind_ok _ _ _ _ _ H2). eexists _, _. done. }
    destruct (same_constant e1 e2); [eexists _, _; done|].
    assert (of_type j e1 || of_type j e2 = false) as Ht by (unfold of_type; by rewrite E1, E2).
    rewrite Ht in Hn. destruct (IHq e1 e2 c D1 D2) as (b & c' & H); [lia|].
    rewrite (bind_ok _ _ _ _ _ H). destruct b; eexists _, _; done.
  - intros e1 e2 c D1 D2 Hn. simpl.
    destruct e1 as [a|x|a1 b1|a1 b1|l1 r1|l1 r1|s1|a1 b1], e2 as [a'|x'|a2 b2|a2 b2|l2 r2|l2 r2|s2|a2 b2];
      try (eexists _, _; done).
    + apply IHq; [done|done|]. simpl in Hn. lia.
    + apply (eq_junction_total n JAnd l1 r1 l2 r2); [done|done|].
      apply IHe; [done|done|]. unfold enough. rewrite of_type_two. simpl in *. lia.
    + apply (eq_junction_total n JOr l1 r1 l2 r2); [done|done|].
      apply IHe; [done|done|]. unfold enough. rewrite of_type_two. simpl in *. lia.
Qed.

Lemma expr_eq_total n e1 e2 c :
  dep e1 → dep e2 → (3 * (size e1 + size e2) ≤ n + 1)%nat → ∃ b, expr_eq n e1 e2 c = Ok (b, c).
Proof.
  intros D1 D2 Hn. destruct (proj2 (eq_total n) e1 e2 c D1 D2 Hn) as (b & c' & E).
  pose proof (eq_count _ _ _ _ _ _ E). subst. eauto.
Qed.

Lemma eliminate_eq_total n e1 e2 c :
  dep e1 → dep e2 → (3 * (size e1 + size e2) ≤ n)%nat →
  ∃ r c', expr_eliminate_eq n e1 e2 c = Ok (r, c').
Proof.
  intros D1 D2 Hn. unfold expr_eliminate_eq, eliminate_eq_with.
  assert (∃ x1 x2 c', match is_junction e1 with
    | Some j => __expr_eliminate_eq n j e1 e2 | None => ret (e1, e2) end c = Ok ((x1, x2), c') ∧
    (size x1 + size x2 ≤ size e1 + size e2)%nat ∧ dep x1 ∧ dep x2) as (x1 & x2 & c1 & E1 & Hs & Dx1 & Dx2).
  { destruct (is_junction e1) as [j|]; [|eexists _, _, _; split; [done|auto]].
    destruct (proj1 (eq_total n) j e1 e2 c D1 D2) as ([x1 x2] & c' & E); [unfold enough; case_match; lia|].
    destruct (elim_shrunk _ _ _ _ _ _ _ _ E) as [(? & ? & _) (? & ? & _)].
    exists x1, x2, c'. split; [done|]. split; [lia|auto]. }
  rewrite (bind_ok _ _ _ _ _ E1). cbn beta iota. case_bool_decide; [|eexists _, _; done].
  destruct (is_junction x2) as [j|]; [|eexists _, _; done].
  destruct (proj1 (eq_total n) j x1 x2 c1 Dx1 Dx2) as ([y1 y2] & c' & E); [unfold enough; case_match; lia|].
  rewrite (bind_ok _ _ _ _ _ E). eexists _, _. done.
Qed.

Lemma extract_total n : ∀ j ep e1 e2 c,
  dep e1 → dep e2 → (3 * (size e1 + size e2) ≤ n)%nat →
  ∃ r, expr_extract_eq n j ep e1 e2 c = Ok (r, c).
Proof.
  induction n as [|n IH]; intros j ep e1 e2 c D1 D2 Hn.
  { pose proof (size_pos e1). lia. }
  simpl. destruct (kids j e1) as [[l r]|] eqn:E1.
  { apply kids_eq in E1 as ->. rewrite size_two in Hn. apply dep_two in D1 as [Dl Dr].
    destruct (IH j ep l e2 c Dl D2) as ([[ep1 l'] e2'] & H1); [lia|].
    destruct (extract_sound plain_table plain_ok _ _ _ _ _ _ _ _ _ _ H1) as (_ & _ & _ & Hs & Hd & _).
    destruct (IH j ep1 r e2' c Dr (Hd D2)) as ([[ep2 r'] e2''] & H2); [lia|].
    rewrite (bind_ok _ _ _ _ _ H1), (bind_ok _ _ _ _ _ H2). eexists. done. }
  destruct (kids j e2) as [[l r]|] eqn:E2.
  { apply kids_eq in E2 as ->. rewrite size_two in Hn. apply dep_two in D2 as [Dl Dr].
    destruct (IH j ep e1 l c D1 Dl) as ([[ep1 e1'] l'] & H1); [lia|].
    destruct (extract_sound plain_table plain_ok _ _ _ _ _ _ _ _ _ _ H1) as (_ & _ & (Hs & Hd & _) & _).
    destruct (IH j ep1 e1' r c (Hd D1) Dr) as ([[ep2 e1''] r'] & H2); [lia|].
    rewrite (bind_ok _ _ _ _ _ H1), (bind_ok _ _ _ _ _ H2). eexists. done. }
  destruct (expr_eq_total n e1 e2 c D1 D2) as [b H]; [lia|].
  rewrite (bind_ok _ _ _ _ _ H). destruct b; eexists; done.
Qed.

Lemma extract_top_total n j e1 e2 c :
  dep e1 → dep e2 → (3 * (size e1 + size e2) ≤ n)%nat → ∃ r, extract_eq_top n j e1 e2 c = Ok (r, c).
Proof.
  intros D1 D2 Hn. destruct (extract_total n j None e1 e2 c D1 D2 Hn) as ([[o y1] y2] & E).
  unfold extract_eq_top. rewrite (bind_ok _ _ _ _ _ E). eexists. done.
Qed.
