(* ===== verification/KExprTrans.v ===== *)
(** * Transformations of single expressions (kconfig/expr.c)

    The normal form, the rules that join two operands, the comparison of an
    expression with a constant, the symbols of an expression and the release
    of its nodes. *)

From stdpp Require Import base numbers list option strings sets.
From S2P Require Import Prelude KExpr KExprEq.
Local Open Scope Z_scope.

(** ** Symbols with a logical value *)

Section symbols.
Context (Sg : symbol → syminfo) (Hok : table_ok Sg).

Definition logical (s : symbol) : Prop :=
  is_type Sg S_BOOLEAN s = true ∨ is_type Sg S_TRISTATE s = true ∨
  s = symbol_yes ∨ s = symbol_mod ∨ s = symbol_no.

Definition tri_string (t : tristate) : string :=
  match t with Tno => "n" | Tmod => "m" | Tyes => "y" end.

Lemma tri_string_inj a b : tri_string a = tri_string b → a = b.
Proof. by destruct a, b. Qed.

Lemma is_type_spec t s : is_type Sg t s = true ↔ s_type (Sg s) = t.
Proof. apply bool_decide_eq_true. Qed.

Lemma logical_string s : logical s → sym_get_string_value Sg s = tri_string (s_tri (Sg s)).
Proof.
  unfold sym_get_string_value. intros [->|[->|H]]; [done|by rewrite orb_true_r|].
  assert (s_type (Sg s) = S_UNKNOWN) as E by (by apply tb_consts).
  unfold is_type. rewrite E, !bool_decide_false by done. cbn [orb].
  destruct Hok as [H1 H2 H3 H4 H5 H6 _ _ _]. destruct H as [->|[->| ->]]; rewrite ?H1, ?H2, ?H3; done.
Qed.

Lemma string_yes : sym_get_string_value Sg symbol_yes = tri_string Tyes.
Proof. rewrite logical_string by (unfold logical; tauto). by rewrite (tb_yes _ Hok). Qed.
Lemma string_mod : sym_get_string_value Sg symbol_mod = tri_string Tmod.
Proof. rewrite logical_string by (unfold logical; tauto). by rewrite (tb_mod _ Hok). Qed.
Lemma string_no : sym_get_string_value Sg symbol_no = tri_string Tno.
Proof. rewrite logical_string by (unfold logical; tauto). by rewrite (tb_no _ Hok). Qed.

(** The value of a comparison of a logical symbol with a constant. *)
Definition tri_const (s : symbol) : option tristate :=
  if bool_decide (s = symbol_yes) then Some Tyes
  else if bool_decide (s = symbol_mod) then Some Tmod
  else if bool_decide (s = symbol_no) then Some Tno
  else None.

Lemma tri_const_spec s t : tri_const s = Some t → s_tri (Sg s) = t ∧ sym_get_string_value Sg s = tri_string t.
Proof.
  unfold tri_const. destruct Hok. repeat case_bool_decide; intros [= <-]; subst;
    auto using string_yes, string_mod, string_no.
Qed.

Lemma compare_value a b t :
  logical a → tri_const b = Some t →
  calc_value Sg (EEqual a b) = (if bool_decide (s_tri (Sg a) = t) then Tyes else Tno) ∧
  calc_value Sg (EUnequal a b) = (if bool_decide (s_tri (Sg a) = t) then Tno else Tyes).
Proof.
  intros Ha [Et Hb]%tri_const_spec. simpl. rewrite (logical_string a Ha), Hb.
  destruct (decide (s_tri (Sg a) = t)) as [E|E].
  - rewrite E. by rewrite !bool_decide_true.
  - rewrite !bool_decide_false; [done|done|]. by intros ?%tri_string_inj.
Qed.

(** ** Two values *)

(** No symbol of the expression has the value 'm'. *)
Fixpoint two (e : expr) : Prop :=
  match e with
  | ESymbol s => s_tri (Sg s) ≠ Tmod
  | ENot l => two l
  | EAnd l r | EOr l r => two l ∧ two r
  | EEqual a _ | EUnequal a _ => s_tri (Sg a) ≠ Tmod
  | _ => True
  end.

Lemma two_value e : two e → calc_value Sg e ≠ Tmod.
Proof.
  induction e as [s|e IH|a b|a b|l IHl r IHr|l IHl r IHr|l|a b]; simpl; try done.
  - intros H%IH. by destruct (calc_value Sg e).
  - by case_bool_decide.
  - by case_bool_decide.
  - intros [H1%IHl H2%IHr]. by destruct (calc_value Sg l), (calc_value Sg r).
  - intros [H1%IHl H2%IHr]. by destruct (calc_value Sg l), (calc_value Sg r).
Qed.

Lemma two_two j l r : two (expr_alloc_two j l r) ↔ two l ∧ two r.
Proof. by destruct j. Qed.
Lemma two_unit j : two (ESymbol (unit_symbol j)).
Proof. destruct Hok. by destruct j; simpl; congruence. Qed.
Lemma two_yn e : two e → two (expr_eliminate_yn e).
Proof.
  destruct Hok. induction e as [| | | |l IHl r IHr|l IHl r IHr| |]; simpl; try done;
    intros [H1 H2]; repeat case_match; simpl; auto; congruence.
Qed.

(** ** The normal form *)

(** Negation stands only before symbols that are no constants; boolean symbols
    are not compared with the constants. *)
Definition comparable (a b : symbol) : Prop := is_type Sg S_BOOLEAN a = false ∨ tri_const b = None.
Fixpoint normal (e : expr) : Prop :=
  match e with
  | ENot (ESymbol s) => tri_const s = None
  | ENot _ => False
  | EAnd l r | EOr l r => normal l ∧ normal r
  | EEqual a b | EUnequal a b => comparable a b
  | _ => True
  end.

Fixpoint height (e : expr) : nat :=
  match e with
  | ESymbol _ => 1
  | EEqual _ _ | EUnequal _ _ => 2
  | ENot l => S (height l)
  | EAnd l r | EOr l r => S (height l `max` height r)
  | _ => 1
  end.

Fixpoint leaves (e : expr) : nat :=
  match e with
  | ENot l => leaves l
  | EAnd l r | EOr l r => leaves l + leaves r
  | _ => 1
  end.

Lemma leaves_size e : (leaves e ≤ size e)%nat.
Proof. induction e; simpl in *; lia. Qed.
Lemma height_size e : (height e ≤ size e + 1)%nat.
Proof. induction e; simpl in *; lia. Qed.
Lemma normal_size e : normal e → (size e + 1 ≤ 3 * leaves e)%nat.
Proof.
  induction e as [|e IH| | |l IHl r IHr|l IHl r IHr| |]; simpl; intros H; try lia.
  - destruct e; try done; simpl; lia.
  - destruct H as [?%IHl ?%IHr]. lia.
  - destruct H as [?%IHl ?%IHr]. lia.
Qed.

Lemma height_pos e : (1 ≤ height e)%nat.
Proof. destruct e; simpl; lia. Qed.

Lemma boolean_value a : is_type Sg S_BOOLEAN a = true → s_tri (Sg a) ≠ Tmod.
Proof. intros H%is_type_spec. by apply tb_bool. Qed.

(** What a transformation keeps. *)
Record keeps (e e' : expr) : Prop := {
  kp_value : calc_value Sg e' = calc_value Sg e;
  kp_dep : dep e → dep e';
  kp_two : two e → two e';
  kp_height : (height e' ≤ height e)%nat;
  kp_leaves : (leaves e' ≤ leaves e)%nat;
  kp_normal : normal e' }.

Lemma tri_const_none s :
  s ≠ symbol_no → s ≠ symbol_mod → s ≠ symbol_yes → tri_const s = None.
Proof. intros. unfold tri_const. by rewrite !bool_decide_false. Qed.

Lemma transform_equal_ok a b : keeps (EEqual a b) (transform_equal Sg a b).
Proof.
  unfold transform_equal. destruct (is_type Sg S_BOOLEAN a) eqn:Hb; [|by split; try done; left].
  assert (logical a) as Hl by (by left). pose proof (boolean_value _ Hb) as Hv.
  assert (tri_const a = None) as Ha.
  { apply is_type_spec in Hb. apply tri_const_none; intros ->;
      rewrite tb_consts in Hb; (done || tauto). }
  case_bool_decide; [subst; split; try done|].
  { rewrite (proj1 (compare_value a symbol_no Tno Hl eq_refl)). simpl. by destruct (s_tri (Sg a)). }
  case_bool_decide; [subst; split; try done|].
  { rewrite (proj1 (compare_value a symbol_mod Tmod Hl eq_refl)). simpl. rewrite (tb_no _ Hok). by destruct (s_tri (Sg a)). }
  { intros _. simpl. by rewrite (tb_no _ Hok). }
  { simpl. lia. }
  case_bool_decide; [subst; split; try done|].
  { rewrite (proj1 (compare_value a symbol_yes Tyes Hl eq_refl)). simpl. by destruct (s_tri (Sg a)). }
  { simpl. lia. }
  split; try done. right. by apply tri_const_none.
Qed.

Lemma transform_unequal_ok a b : keeps (EUnequal a b) (transform_unequal Sg a b).
Proof.
  unfold transform_unequal. destruct (is_type Sg S_BOOLEAN a) eqn:Hb; [|by split; try done; left].
  assert (logical a) as Hl by (by left). pose proof (boolean_value _ Hb) as Hv.
  assert (tri_const a = None) as Ha.
  { apply is_type_spec in Hb. apply tri_const_none; intros ->;
      rewrite tb_consts in Hb; (done || tauto). }
  case_bool_decide; [subst; split; try done|].
  { rewrite (proj2 (compare_value a symbol_no Tno Hl eq_refl)). simpl. by destruct (s_tri (Sg a)). }
  { simpl. lia. }
  case_bool_decide; [subst; split; try done|].
  { rewrite (proj2 (compare_value a symbol_mod Tmod Hl eq_refl)). simpl. rewrite (tb_yes _ Hok). by destruct (s_tri (Sg a)). }
  { intros _. simpl. by rewrite (tb_yes _ Hok). }
  { simpl. lia. }
  case_bool_decide; [subst; split; try done|].
  { rewrite (proj2 (compare_value a symbol_yes Tyes Hl eq_refl)). simpl. by destruct (s_tri (Sg a)). }
  split; try done. right. by apply tri_const_none.
Qed.

Lemma tri_not_or a b : tri_not (tri_or a b) = tri_and (tri_not a) (tri_not b).
Proof. by destruct a, b. Qed.
Lemma tri_not_and a b : tri_not (tri_and a b) = tri_or (tri_not a) (tri_not b).
Proof. by destruct a, b. Qed.
Lemma tri_not_not a : tri_not (tri_not a) = a.
Proof. by destruct a. Qed.

Lemma calc_not_equal a b : tri_not (calc_value Sg (EEqual a b)) = calc_value Sg (EUnequal a b).
Proof. simpl. by case_bool_decide. Qed.
Lemma calc_not_unequal a b : tri_not (calc_value Sg (EUnequal a b)) = calc_value Sg (EEqual a b).
Proof. simpl. by case_bool_decide. Qed.

(** The depth that is enough. *)
Definition deep (n : nat) (e : expr) : Prop :=
  (2 * height e ≤ n + (match is_junction e with Some _ => 1 | None => 0 end))%nat.

Lemma keeps_trans a b c : keeps a b → keeps b c → keeps a c.
Proof. intros [] []. split; [congruence|auto|auto|lia|lia|done]. Qed.

(** A step towards the normal form before the next transformation. *)
Definition same (e e' : expr) : Prop :=
  calc_value Sg e' = calc_value Sg e ∧ (dep e → dep e') ∧ (two e → two e') ∧ (height e' ≤ height e)%nat ∧
  (leaves e' ≤ leaves e)%nat.
Lemma same_keeps a b c : same a b → keeps b c → keeps a c.
Proof. intros (? & ? & ? & ? & ?) []. split; [congruence|auto|auto|lia|lia|done]. Qed.

(** Negation of a transformed operand. *)
Lemma not_same l l' : keeps l l' → same (ENot l) (ENot l').
Proof. intros []. split; [simpl; congruence|]. split; [done|]. split; [done|]. simpl. lia. Qed.

(** Negation of a constant. *)
Lemma not_const s t :
  tri_const s = Some (tri_not (s_tri (Sg t))) → tri_const t ≠ None → keeps (ENot (ESymbol s)) (ESymbol t).
Proof.
  intros Hs Ht. apply tri_const_spec in Hs as [Hs _]. split; try done; simpl.
  - rewrite Hs. by destruct (s_tri (Sg t)).
  - rewrite Hs. by destruct (s_tri (Sg t)).
  - lia.
Qed.

Lemma transform_ok n : ∀ e, dep e → deep n e → ∃ e', expr_transform Sg n e = Ok e' ∧ keeps e e'.
Proof.
  induction n as [|n IH]; intros e De Hn; unfold deep in Hn.
  { destruct e; simpl in *; lia. }
  destruct e as [s|l|a b|a b|l r|l r|l|a b]; simpl; try done.
  - exists (ESymbol s). by split.
  - destruct (IH l De) as (l' & -> & Kl).
    { unfold deep. simpl in Hn. case_match; lia. }
    cbn [rbind]. pose proof (not_same _ _ Kl) as Sm. pose proof (kp_normal _ _ Kl) as Nl.
    pose proof (kp_dep _ _ Kl De) as Dl'. pose proof (kp_height _ _ Kl) as Hl.
    cbn [height is_junction] in Hn.
    destruct l' as [s|x|a b|a b|x y|x y|x|a b]; try done.
    + assert (∀ t, tri_const s = Some (tri_not (s_tri (Sg t))) → tri_const t ≠ None →
        keeps (ENot l) (ESymbol t)) as Hc by (intros; eapply same_keeps; [done|by apply not_const]).
      case_bool_decide; [subst; eexists; split; [done|apply Hc; [by rewrite (tb_no _ Hok)|done]]|].
      case_bool_decide; [subst; eexists; split; [done|apply Hc; [by rewrite (tb_mod _ Hok)|done]]|].
      case_bool_decide; [subst; eexists; split; [done|apply Hc; [by rewrite (tb_yes _ Hok)|done]]|].
      eexists. split; [done|]. eapply same_keeps; [done|]. split; try done. by apply tri_const_none.
    + destruct (IH x) as (e' & -> & Ke); [done|unfold deep; simpl in Hl; case_match; lia|].
      eexists. split; [done|]. eapply same_keeps; [done|].
      destruct Ke as [K1 K2 K3 K4 K6 K5].
      split; simpl in *; [by rewrite tri_not_not, K1|auto|auto|lia|lia|done].
    + eexists. split; [done|]. eapply same_keeps; [done|].
      split; try done; [symmetry; apply calc_not_equal|simpl; lia].
    + eexists. split; [done|]. eapply same_keeps; [done|].
      split; try done; [symmetry; apply calc_not_unequal|simpl; lia].
    + destruct (IH (EOr (ENot x) (ENot y))) as (e' & E & Ke).
      { done. } { unfold deep. simpl in *. lia. }
      exists e'. split; [exact E|]. eapply same_keeps; [done|]. destruct Ke as [K1 K2 K3 K4 K6 K5].
      split; simpl in *; [by rewrite K1, tri_not_and|auto|auto|lia|lia|done].
    + destruct (IH (EAnd (ENot x) (ENot y))) as (e' & E & Ke).
      { done. } { unfold deep. simpl in *. lia. }
      exists e'. split; [exact E|]. eapply same_keeps; [done|]. destruct Ke as [K1 K2 K3 K4 K6 K5].
      split; simpl in *; [by rewrite K1, tri_not_or|auto|auto|lia|lia|done].
  - eexists. split; [done|]. apply transform_equal_ok.
  - eexists. split; [done|]. apply transform_unequal_ok.
  - destruct De as [Dl Dr]. simpl in Hn.
    destruct (IH l Dl) as (l' & -> & [K1 K2 K3 K4 K6 K5]); [unfold deep; case_match; lia|].
    destruct (IH r Dr) as (r' & -> & [L1 L2 L3 L4 L6 L5]); [unfold deep; case_match; lia|].
    eexists. split; [done|]. split; simpl; [by rewrite K1, L1|tauto|tauto|lia|lia|done].
  - destruct De as [Dl Dr]. simpl in Hn.
    destruct (IH l Dl) as (l' & -> & [K1 K2 K3 K4 K6 K5]); [unfold deep; case_match; lia|].
    destruct (IH r Dr) as (r' & -> & [L1 L2 L3 L4 L6 L5]); [unfold deep; case_match; lia|].
    eexists. split; [done|]. split; simpl; [by rewrite K1, L1|tauto|tauto|lia|lia|done].
Qed.

(** An expression in normal form is left as it is. *)
Lemma transform_equal_id a b : comparable a b → transform_equal Sg a b = EEqual a b.
Proof.
  unfold transform_equal, comparable, tri_const. intros [->|H]; [done|].
  destruct (is_type Sg S_BOOLEAN a); [|done]. repeat case_bool_decide; done.
Qed.
Lemma transform_unequal_id a b : comparable a b → transform_unequal Sg a b = EUnequal a b.
Proof.
  unfold transform_unequal, comparable, tri_const. intros [->|H]; [done|].
  destruct (is_type Sg S_BOOLEAN a); [|done]. repeat case_bool_decide; done.
Qed.
Lemma transform_normal n : ∀ e, dep e → normal e → (height e ≤ n)%nat → expr_transform Sg n e = Ok e.
Proof.
  induction n as [|n IH]; intros e De Ne Hn; [pose proof (height_pos e); lia|].
  destruct e as [s|l|a b|a b|l r|l r|l|a b]; simpl in *; try done.
  - destruct l as [s| | | | | | |]; try done. rewrite (IH (ESymbol s)); [|done|done|simpl in *; lia]. simpl.
    unfold tri_const in Ne. repeat case_bool_decide; done.
  - by rewrite transform_equal_id.
  - by rewrite transform_unequal_id.
  - destruct De, Ne. by rewrite (IH l), (IH r) by (done || lia).
  - destruct De, Ne. by rewrite (IH l), (IH r) by (done || lia).
Qed.

(** ** Joining two operands *)

Lemma join_symbol_spec e1 e2 s :
  join_symbol Sg e1 e2 = Some s →
  (is_type Sg S_BOOLEAN s = true ∨ is_type Sg S_TRISTATE s = true) ∧
  (∀ a b, e1 = EEqual a b ∨ e1 = EUnequal a b ∨ e1 = ESymbol a ∨ e1 = ENot (ESymbol a) → a = s) ∧
  (∀ a b, e2 = EEqual a b ∨ e2 = EUnequal a b ∨ e2 = ESymbol a ∨ e2 = ENot (ESymbol a) → a = s).
Proof.
  unfold join_symbol. intros E.
  destruct (match e1 with ENot tmp => left_sym tmp | _ => left_sym e1 end) as [s1|] eqn:E1; [|done].
  destruct (match e2 with ENot (ESymbol a) => Some a | ENot _ => None | _ => left_sym e2 end) as [s2|] eqn:E2; [|done].
  case_bool_decide as Hs; [|done]. subst s2. simpl in E.
  destruct (is_type Sg S_BOOLEAN s1 || is_type Sg S_TRISTATE s1) eqn:Ht; [|done]. injection E as <-.
  split; [by apply orb_prop in Ht|].
  split; intros a b [->|[->|[->| ->]]]; simpl in *; congruence.
Qed.

(** The expression behind a test: [f] of its symbol. *)
Definition about (f : symbol → expr) : Prop :=
  ∀ a, ∃ b, f a = EEqual a b ∨ f a = EUnequal a b ∨ f a = ESymbol a ∨ f a = ENot (ESymbol a).
Definition shape (p : expr → bool) (f : symbol → expr) : Prop :=
  about f ∧ ∀ e, p e = true → ∃ a, e = f a.

Lemma eq_to_shape r : shape (eq_to r) (λ a, EEqual a r).
Proof.
  split; [intros a; exists r; tauto|].
  intros e. destruct e; try done. simpl. intros ->%bool_decide_eq_true. eauto.
Qed.
Lemma ne_to_shape r : shape (ne_to r) (λ a, EUnequal a r).
Proof.
  split; [intros a; exists r; tauto|].
  intros e. destruct e; try done. simpl. intros ->%bool_decide_eq_true. eauto.
Qed.
Lemma is_symbol_shape : shape is_symbol ESymbol.
Proof. split; [intros a; exists a; tauto|]. intros e. destruct e; try done. eauto. Qed.
Lemma is_not_symbol_shape : shape is_not_symbol (λ a, ENot (ESymbol a)).
Proof.
  split; [intros a; exists a; tauto|]. intros e. destruct e as [|[]| | | | | |]; try done. eauto.
Qed.

(** A joined operand has the value of the junction and is no junction. *)
Record joined (j : junction) (e1 e2 e : expr) : Prop := {
  jd_value : calc_value Sg e = tri_op j (calc_value Sg e1) (calc_value Sg e2);
  jd_dep : dep e;
  jd_size : size e = 1%nat;
  jd_two : two e1 → two e2 → two e;
  jd_type : is_junction e = None }.

Lemma joined_comm j e1 e2 e : joined j e1 e2 e → joined j e2 e1 e.
Proof. intros []. split; auto. by rewrite tri_comm. Qed.

(** A rule whose condition names the operands up to their order. *)
Lemma joined_either j p q f g e1 e2 s e :
  shape p f → shape q g → join_symbol Sg e1 e2 = Some s → either p q e1 e2 = true →
  joined j (f s) (g s) e → joined j e1 e2 e.
Proof.
  intros [Hf Hp] [Hg Hq] (_ & H1 & H2)%join_symbol_spec He Hj.
  apply orb_prop in He as [[E1%Hp E2%Hq]%andb_prop|[E1%Hq E2%Hp]%andb_prop];
    destruct E1 as [a ->], E2 as [b ->].
  - destruct (Hf a) as [? Ha], (Hg b) as [? Hb]. by rewrite (H1 _ _ Ha), (H2 _ _ Hb).
  - destruct (Hg a) as [? Ha], (Hf b) as [? Hb]. rewrite (H1 _ _ Ha), (H2 _ _ Hb). by apply joined_comm.
Qed.

(** Values of comparisons with the constants and the symbol itself. *)
Lemma cmp_yes a : logical a →
  calc_value Sg (EEqual a symbol_yes) = (if bool_decide (s_tri (Sg a) = Tyes) then Tyes else Tno) ∧
  calc_value Sg (EUnequal a symbol_yes) = (if bool_decide (s_tri (Sg a) = Tyes) then Tno else Tyes).
Proof. intros Ha. by apply compare_value. Qed.
Lemma cmp_mod a : logical a →
  calc_value Sg (EEqual a symbol_mod) = (if bool_decide (s_tri (Sg a) = Tmod) then Tyes else Tno) ∧
  calc_value Sg (EUnequal a symbol_mod) = (if bool_decide (s_tri (Sg a) = Tmod) then Tno else Tyes).
Proof. intros Ha. by apply compare_value. Qed.
Lemma cmp_no a : logical a →
  calc_value Sg (EEqual a symbol_no) = (if bool_decide (s_tri (Sg a) = Tno) then Tyes else Tno) ∧
  calc_value Sg (EUnequal a symbol_no) = (if bool_decide (s_tri (Sg a) = Tno) then Tno else Tyes).
Proof. intros Ha. by apply compare_value. Qed.

(** A rule about one logical symbol: case analysis on its value. *)
Ltac rule Hl P Q Hs E :=
  intros [= <-]; apply (joined_either _ _ _ _ _ _ _ _ _ P Q Hs E); cbn beta;
  split; try done; try (simpl; tauto);
  rewrite ?(proj1 (cmp_yes _ Hl)), ?(proj2 (cmp_yes _ Hl)), ?(proj1 (cmp_mod _ Hl)), ?(proj2 (cmp_mod _ Hl)),
    ?(proj1 (cmp_no _ Hl)), ?(proj2 (cmp_no _ Hl)); simpl; rewrite ?(tb_yes _ Hok), ?(tb_no _ Hok);
  by destruct (s_tri (Sg _)).

Lemma join_or_value e1 e2 e : join_or_rules Sg e1 e2 = Some e → joined JOr e1 e2 e.
Proof.
  unfold join_or_rules. destruct (join_symbol Sg e1 e2) as [s|] eqn:Hs; [|done].
  assert (logical s) as Hl.
  { destruct (join_symbol_spec _ _ _ Hs) as ([Hb|Hb] & _); [by left|right; by left]. }
  destruct (is_type Sg S_TRISTATE s && either (eq_to symbol_yes) (eq_to symbol_mod) e1 e2) eqn:E1.
  { apply andb_prop in E1 as [_ E1]. rule Hl (eq_to_shape symbol_yes) (eq_to_shape symbol_mod) Hs E1. }
  destruct (is_type Sg S_TRISTATE s && either (eq_to symbol_yes) (eq_to symbol_no) e1 e2) eqn:E2.
  { apply andb_prop in E2 as [_ E2]. rule Hl (eq_to_shape symbol_yes) (eq_to_shape symbol_no) Hs E2. }
  destruct (is_type Sg S_TRISTATE s && either (eq_to symbol_mod) (eq_to symbol_no) e1 e2) eqn:E3.
  { apply andb_prop in E3 as [_ E3]. rule Hl (eq_to_shape symbol_mod) (eq_to_shape symbol_no) Hs E3. }
  destruct (is_type Sg S_BOOLEAN s && either is_not_symbol is_symbol e1 e2) eqn:E4; [|done].
  apply andb_prop in E4 as [Hb E4]. pose proof (boolean_value _ Hb) as Hv.
  rule Hl is_not_symbol_shape is_symbol_shape Hs E4.
Qed.

Lemma join_eq_ne_value s e1 e2 e :
  join_symbol Sg e1 e2 = Some s → join_eq_ne Sg s e1 e2 = Some e → joined JAnd e1 e2 e.
Proof.
  intros (_ & H1 & H2)%join_symbol_spec.
  assert (∀ b c, s_const (Sg c) && s_const (Sg b) = true →
    joined JAnd (EEqual s b) (EUnequal s c)
      (if bool_decide (b ≠ c) then expr_alloc_comp true s b else expr_alloc_symbol symbol_no)) as Hj.
  { intros b c [Hc Hb]%andb_prop. case_bool_decide as Hbc.
    - split; try done. simpl.
      destruct (decide (sym_get_string_value Sg s = sym_get_string_value Sg b)) as [E|E].
      + rewrite E, !bool_decide_true by done. rewrite bool_decide_false; [done|].
        intros ?. apply Hbc. by apply (tb_const_inj _ Hok).
      + rewrite (bool_decide_false _ E). by case_bool_decide.
    - subst c. split; try done; simpl; rewrite (tb_no _ Hok); [|done].
      by case_bool_decide. }
  unfold join_eq_ne. destruct e1 as [| |a b|a b| | | |], e2 as [| |a' b'|a' b'| | | |]; try done.
  - destruct (s_const _ && _) eqn:E; [|done]. intros [= <-].
    rewrite (H1 a b ltac:(tauto)), (H2 a' b' ltac:(tauto)). by apply Hj.
  - destruct (s_const _ && _) eqn:E; [|done]. intros [= <-].
    rewrite (H1 a b ltac:(tauto)), (H2 a' b' ltac:(tauto)). by apply joined_comm, Hj.
Qed.

Lemma join_and_value e1 e2 e : join_and_rules Sg e1 e2 = Some e → joined JAnd e1 e2 e.
Proof.
  unfold join_and_rules. destruct (join_symbol Sg e1 e2) as [s|] eqn:Hs; [|done].
  assert (logical s) as Hl.
  { destruct (join_symbol_spec _ _ _ Hs) as ([Hb|Hb] & _); [by left|right; by left]. }
  destruct (either is_symbol (eq_to symbol_yes) e1 e2) eqn:E1;
    [rule Hl is_symbol_shape (eq_to_shape symbol_yes) Hs E1|].
  destruct (either is_symbol (ne_to symbol_no) e1 e2) eqn:E2;
    [rule Hl is_symbol_shape (ne_to_shape symbol_no) Hs E2|].
  destruct (either is_symbol (ne_to symbol_mod) e1 e2) eqn:E3;
    [rule Hl is_symbol_shape (ne_to_shape symbol_mod) Hs E3|].
  destruct (is_type Sg S_TRISTATE s); [|done].
  destruct (join_eq_ne Sg s e1 e2) as [x|] eqn:E4.
  { intros [= <-]. by eapply join_eq_ne_value. }
  destruct (either (ne_to symbol_yes) (ne_to symbol_no) e1 e2) eqn:E5;
    [rule Hl (ne_to_shape symbol_yes) (ne_to_shape symbol_no) Hs E5|].
  destruct (either (ne_to symbol_yes) (ne_to symbol_mod) e1 e2) eqn:E6;
    [rule Hl (ne_to_shape symbol_yes) (ne_to_shape symbol_mod) Hs E6|].
  destruct (either (ne_to symbol_mod) (ne_to symbol_no) e1 e2) eqn:E7; [|done].
  rule Hl (ne_to_shape symbol_mod) (ne_to_shape symbol_no) Hs E7.
Qed.

(** The join functions, equal operands included. *)
Record merged (j : junction) (e1 e2 x : expr) : Prop := {
  mg_value : calc_value Sg x = tri_op j (calc_value Sg e1) (calc_value Sg e2);
  mg_dep : dep e1 → dep x;
  mg_size : (size x ≤ size e1)%nat;
  mg_two : two e1 → two e2 → two x;
  mg_type : of_type j e1 = false → of_type j x = false }.

Lemma join_ok j n e1 e2 c o c' :
  expr_join Sg j n e1 e2 c = Ok (o, c') → c' = c ∧ ∀ x, o = Some x → merged j e1 e2 x.
Proof.
  intros E. assert (∃ rules, (∀ x, rules e1 e2 = Some x → joined j e1 e2 x) ∧
    join_with rules n e1 e2 c = Ok (o, c')) as (rules & Hr & E').
  { destruct j; eexists; (split; [|exact E]); [apply join_or_value|apply join_and_value]. }
  clear E. unfold join_with in E'. minv. destruct (proj2 (eq_sound Sg Hok n) _ _ _ _ _ H) as [-> Hb].
  destruct x; minv.
  - split; [done|]. intros y [= <-]. apply expr_copy_inv in H0 as [-> _].
    split; try done. by rewrite <- Hb, tri_idem.
  - split; [done|]. intros y [H1 H2 H3 H4 H5]%Hr. pose proof (size_pos e1).
    split; try done; [lia|]. intros _. unfold of_type. by destruct j, y.
Qed.

Lemma join_total j n e1 e2 c :
  dep e1 → dep e2 → (3 * (size e1 + size e2) ≤ n + 1)%nat → ∃ o, expr_join Sg j n e1 e2 c = Ok (o, c).
Proof.
  intros D1 D2 Hn. destruct (expr_eq_total n e1 e2 c D1 D2 Hn) as [b E].
  assert (∃ rules, expr_join Sg j n e1 e2 = join_with rules n e1 e2) as [rules ->] by (destruct j; by eexists).
  unfold join_with. rewrite (bind_ok _ _ _ _ _ E). destruct b; [|by eexists].
  erewrite bind_ok by (by apply lift_ok, expr_copy_ok). by eexists.
Qed.

(** ** Tests for a tristate symbol *)

(** Without 'm' the test FOO!=n is FOO. *)
Lemma trans_bool_two e : two e → calc_value Sg (expr_trans_bool Sg e) = calc_value Sg e.
Proof.
  induction e as [s|e IH|a b|a b|l IHl r IHr|l IHl r IHr|l|a b]; intros Ht; try done.
  - simpl. by rewrite IH.
  - cbn [expr_trans_bool]. destruct (is_type Sg S_TRISTATE a) eqn:Ha; [|done]. cbn [andb].
    case_bool_decide; [|done]. subst b.
    rewrite (proj2 (cmp_no a ltac:(right; by left))). simpl in *. by destruct (s_tri (Sg a)).
  - simpl. destruct Ht. by rewrite IHl, IHr.
  - simpl. destruct Ht. by rewrite IHl, IHr.
Qed.

(** Without negation a test that holds still holds, and a test that fails
    still fails. *)
Fixpoint positive_expr (e : expr) : Prop :=
  match e with ENot _ => False | EAnd l r | EOr l r => positive_expr l ∧ positive_expr r | _ => True end.

Lemma trans_bool_positive e :
  positive_expr e → calc_value Sg (expr_trans_bool Sg e) = Tno ↔ calc_value Sg e = Tno.
Proof.
  induction e as [s|e IH|a b|a b|l IHl r IHr|l IHl r IHr|l|a b]; intros Ht; try done.
  - cbn [expr_trans_bool]. destruct (is_type Sg S_TRISTATE a) eqn:Ha; [|done]. cbn [andb].
    case_bool_decide; [|done]. subst b.
    rewrite (proj2 (cmp_no a ltac:(right; by left))). simpl. by destruct (s_tri (Sg a)).
  - simpl. destruct Ht as [H1%IHl H2%IHr]. revert H1 H2.
    destruct (calc_value Sg (expr_trans_bool Sg l)), (calc_value Sg (expr_trans_bool Sg r)),
      (calc_value Sg l), (calc_value Sg r); intros; (done || (exfalso; naive_solver)).
  - simpl. destruct Ht as [H1%IHl H2%IHr]. revert H1 H2.
    destruct (calc_value Sg (expr_trans_bool Sg l)), (calc_value Sg (expr_trans_bool Sg r)),
      (calc_value Sg l), (calc_value Sg r); intros; (done || (exfalso; naive_solver)).
Qed.

(** ** Comparison of an expression with a constant *)

Fixpoint logical_expr (e : expr) : Prop :=
  match e with
  | ESymbol s => logical s
  | EEqual a _ | EUnequal a _ => logical a
  | ENot l => logical_expr l
  | EAnd l r | EOr l r => logical_expr l ∧ logical_expr r
  | _ => False
  end.

Definition truth (b : bool) : tristate := if b then Tyes else Tno.
Definition test (equal : bool) (v w : tristate) : tristate :=
  truth (if equal then bool_decide (v = w) else bool_decide (v ≠ w)).

Lemma calc_one e : calc_value Sg (expr_alloc_one e) = tri_not (calc_value Sg e).
Proof. done. Qed.

(** A comparison compared with a constant. *)
Lemma compare_of_compare e sym t (equal : bool) :
  (sym = symbol_yes ∧ t = Tyes) ∨ (sym = symbol_no ∧ t = Tno) → calc_value Sg e ≠ Tmod →
  ∃ x, (if bool_decide (sym = symbol_yes) then if equal then Some e else expr_alloc_one <$> Some e
    else if bool_decide (sym = symbol_mod) then Some (expr_alloc_symbol (if equal then symbol_no else symbol_yes))
    else if bool_decide (sym = symbol_no) then Some (if equal then expr_alloc_one e else e) else None) = Some x ∧
    calc_value Sg x = test equal (calc_value Sg e) t.
Proof.
  intros [[-> ->]|[-> ->]] H2; destruct equal; eexists; (split; [done|]); rewrite ?calc_one;
    by destruct (calc_value Sg e).
Qed.

(** [expr_trans_compare] for 'y' and 'n' when no symbol has the value 'm'. *)
Lemma trans_compare_ok e sym t equal :
  logical_expr e → two e → (sym = symbol_yes ∧ t = Tyes) ∨ (sym = symbol_no ∧ t = Tno) →
  ∃ x, trans_compare e equal sym = Some x ∧ calc_value Sg x = test equal (calc_value Sg e) t.
Proof.
  intros Hl Ht Hs. revert equal.
  induction e as [s|e IH|a b|a b|l IHl r IHr|l IHl r IHr|l|a b]; intros equal; try done; simpl in Hl, Ht.
  - exists (expr_alloc_comp equal s sym). split; [done|].
    destruct Hs as [[-> ->]|[-> ->]], equal; cbn [expr_alloc_comp];
      rewrite ?(proj1 (cmp_yes s Hl)), ?(proj2 (cmp_yes s Hl)), ?(proj1 (cmp_no s Hl)), ?(proj2 (cmp_no s Hl));
      simpl; by destruct (s_tri (Sg s)).
  - destruct (IH Hl Ht (negb equal)) as (x & Hx & Hv). exists x. split; [done|]. rewrite Hv.
    pose proof (two_value e Ht) as H2. simpl. generalize dependent (calc_value Sg e). intros v _ Hv.
    destruct Hs as [[_ ->]|[_ ->]], equal, v; done.
  - apply compare_of_compare; [done|simpl; by case_bool_decide].
  - apply compare_of_compare; [done|simpl; by case_bool_decide].
  - destruct Hl, Ht as [T1 T2]. destruct (IHl ltac:(done) T1 true) as (x & Hx & Hvx).
    destruct (IHr ltac:(done) T2 true) as (y & Hy & Hvy). simpl. rewrite Hx, Hy.
    pose proof (two_value _ T1) as V1. pose proof (two_value _ T2) as V2.
    destruct Hs as [[-> ->]|[-> ->]], equal; eexists; (split; [done|]); simpl; rewrite Hvx, Hvy; simpl;
      by destruct (calc_value Sg l), (calc_value Sg r).
  - destruct Hl, Ht as [T1 T2]. destruct (IHl ltac:(done) T1 true) as (x & Hx & Hvx).
    destruct (IHr ltac:(done) T2 true) as (y & Hy & Hvy). simpl. rewrite Hx, Hy.
    pose proof (two_value _ T1) as V1. pose proof (two_value _ T2) as V2.
    destruct Hs as [[-> ->]|[-> ->]], equal; eexists; (split; [done|]); simpl; rewrite Hvx, Hvy; simpl;
      by destruct (calc_value Sg l), (calc_value Sg r).
Qed.

(** ** Symbols of an expression *)

Lemma depends_ok e s :
  logical_expr e → expr_depends_symbol e s = true → calc_value Sg e ≠ Tno → s_tri (Sg s) ≠ Tno.
Proof.
  induction e as [s'|e IH|a b|a b|l IHl r IHr|l IHl r IHr|l|a b]; intros Hl Hd Hv; try done; cbn [expr_depends_symbol] in Hd.
  - apply bool_decide_eq_true in Hd as <-. done.
  - apply andb_prop in Hd as [->%bool_decide_eq_true Hb].
    apply orb_prop in Hb as [->%bool_decide_eq_true| ->%bool_decide_eq_true].
    + rewrite (proj1 (cmp_yes s Hl)) in Hv. case_bool_decide; congruence.
    + rewrite (proj1 (cmp_mod s Hl)) in Hv. case_bool_decide; congruence.
  - apply andb_prop in Hd as [->%bool_decide_eq_true ->%bool_decide_eq_true].
    rewrite (proj2 (cmp_no s Hl)) in Hv. by case_bool_decide.
  - destruct Hl as [L1 L2]. simpl in Hv.
    apply orb_prop in Hd as [Hd|Hd]; [apply IHl|apply IHr]; try done;
      intros E; rewrite E in Hv; by destruct (calc_value Sg l), (calc_value Sg r).
Qed.

End symbols.

(** The value depends on the contained symbols only. *)
Lemma contains_ok Sg Sg' e :
  (∀ s, expr_contains_symbol e s = true → Sg s = Sg' s) → calc_value Sg e = calc_value Sg' e.
Proof.
  assert (∀ s, Sg s = Sg' s → sym_get_string_value Sg s = sym_get_string_value Sg' s) as Hs.
  { intros s E. unfold sym_get_string_value, is_type. by rewrite E. }
  induction e as [s|e IH|a b|a b|l IHl r IHr|l IHl r IHr|l|a b]; intros H; cbn [calc_value expr_contains_symbol] in *; try done.
  - by rewrite (H s) by (by apply bool_decide_eq_true).
  - by rewrite IH.
  - rewrite (Hs a), (Hs b); [done|apply H; by rewrite (bool_decide_true (b = b)), orb_true_r|
      apply H; by rewrite (bool_decide_true (a = a))].
  - rewrite (Hs a), (Hs b); [done|apply H; by rewrite (bool_decide_true (b = b)), orb_true_r|
      apply H; by rewrite (bool_decide_true (a = a))].
  - rewrite IHl, IHr; [done|intros s E; apply H; by rewrite E, orb_true_r|intros s E; apply H; by rewrite E].
  - rewrite IHl, IHr; [done|intros s E; apply H; by rewrite E, orb_true_r|intros s E; apply H; by rewrite E].
Qed.

(** ** Release *)

Fixpoint negations (e : expr) : nat :=
  match e with
  | ENot l => S (negations l)
  | EAnd l r | EOr l r => negations l + negations r
  | _ => 0
  end.

(** Every E_NOT node is leaked, the others are released. *)
Lemma free_leaks e : dep e → (expr_free e + negations e = size e)%nat.
Proof. induction e; simpl; intros; try done; try (specialize (IHe ltac:(done)); lia);
  destruct H; specialize (IHe1 ltac:(done)); specialize (IHe2 ltac:(done)); lia.
Qed.
