(* ===== verification/KExprDups.v ===== *)
(** * Elimination of duplicates (kconfig/expr.c)

    [expr_eliminate_dups] keeps the value of every expression without the
    value 'm' and returns.  The first of its two passes keeps the value in
    general, the second does not. *)

From stdpp Require Import base numbers list option strings sets.
From S2P Require Import Prelude KExpr KExprEq KExprTrans.
Local Open Scope Z_scope.
Local Open Scope c_scope.

(** ** Slots *)

(** [p] leads from the root through nodes of type [j] only. *)
Fixpoint spine (j : junction) (p : path) (t : expr) : Prop :=
  match p with
  | [] => True
  | b :: p' => ∃ l r, kids j t = Some (l, r) ∧ spine j p' (if b then r else l)
  end.

Definition pick (b : bool) (l r : expr) : expr := if b then r else l.

Lemma get_two j b p l r : get (b :: p) (expr_alloc_two j l r) = get p (if b then r else l).
Proof. by destruct j. Qed.
Lemma put_two j b p x l r :
  put (b :: p) x (expr_alloc_two j l r) =
    if b then expr_alloc_two j l (put p x r) else expr_alloc_two j (put p x l) r.
Proof. by destruct j, b. Qed.

Lemma spine_get j p : ∀ t, spine j p t → ∃ e, get p t = Some e.
Proof.
  induction p as [|b p IH]; intros t H; [by eexists|].
  destruct H as (l & r & ->%kids_eq & H). rewrite get_two. by apply IH.
Qed.

Lemma spine_snoc j p b : ∀ t e l r,
  spine j p t → get p t = Some e → kids j e = Some (l, r) →
  spine j (p ++ [b]) t ∧ get (p ++ [b]) t = Some (if b then r else l).
Proof.
  induction p as [|b' p IH]; intros t e l r H Hg Hk; simpl.
  - injection Hg as ->. split; [by exists l, r|]. apply kids_eq in Hk as ->. destruct j; by destruct b.
  - destruct H as (l0 & r0 & ->%kids_eq & H). rewrite get_two in Hg.
    destruct (IH _ _ _ _ H Hg Hk) as [IH1 IH2]. split.
    + exists l0, r0. by rewrite kids_two.
    + by destruct j.
Qed.

Lemma spine_type j q b t :
  spine j (q ++ [b]) t → ∃ e, get q t = Some e ∧ of_type j e = true ∧ spine j q t.
Proof.
  revert t. induction q as [|b' q IH]; intros t H.
  - destruct H as (l & r & Hk & _). exists t. split; [done|]. split; [by eapply of_type_kids|done].
  - destruct H as (l & r & Hk & H). destruct (IH _ H) as (e & H1 & H2 & H3).
    exists e. rewrite (kids_eq _ _ _ _ Hk), get_two. split; [done|]. split; [done|].
    exists l, r. by rewrite kids_two.
Qed.

Lemma put_get j p : ∀ t e, spine j p t → get p t = Some e → put p e t = t.
Proof.
  induction p as [|b p IH]; intros t e H Hg; [by injection Hg as ->|].
  destruct H as (l & r & ->%kids_eq & H). rewrite get_two in Hg. rewrite put_two.
  destruct b; by rewrite (IH _ _ H Hg).
Qed.

Lemma get_put j p : ∀ t x, spine j p t → get p (put p x t) = Some x.
Proof.
  induction p as [|b p IH]; intros t x H; [done|].
  destruct H as (l & r & ->%kids_eq & H). rewrite put_two.
  destruct b; rewrite get_two; by apply IH.
Qed.

Lemma spine_put j p : ∀ t x, spine j p t → spine j p (put p x t).
Proof.
  induction p as [|b p IH]; intros t x H; [done|].
  destruct H as (l & r & ->%kids_eq & H). rewrite put_two.
  destruct b; eexists _, _; (split; [apply kids_two|]); by apply IH.
Qed.

(** Other slots of the spine stay in it when a leaf is replaced. *)
Lemma spine_other j p : ∀ t x e q,
  spine j p t → get p t = Some e → of_type j e = false → spine j q t → spine j q (put p x t).
Proof.
  induction p as [|b p IH]; intros t x e q H Hg Ht Hq.
  - injection Hg as ->. destruct q as [|b q]; [done|]. destruct Hq as (l & r & Hk & _).
    by rewrite (of_type_kids _ _ _ _ Hk) in Ht.
  - destruct H as (l & r & ->%kids_eq & H). rewrite get_two in Hg. rewrite put_two.
    destruct q as [|b' q]; [done|]. destruct Hq as (l0 & r0 & Hk & Hq).
    rewrite kids_two in Hk. injection Hk as <- <-.
    destruct b; eexists _, _; (split; [apply kids_two|]); destruct b'; (done || by eapply IH).
Qed.

Lemma put_put j p x y : ∀ t, spine j p t → put p y (put p x t) = put p y t.
Proof.
  induction p as [|b p IH]; intros t Hp; [done|].
  destruct Hp as (l & r & ->%kids_eq & Hp). rewrite !put_two.
  destruct b; rewrite put_two; by rewrite (IH _ Hp).
Qed.

(** Replacing a leaf by a leaf. *)
Lemma spine_leaf j p t x e q :
  spine j p t → get p t = Some e → of_type j e = false → of_type j x = false →
  spine j q t ↔ spine j q (put p x t).
Proof.
  intros Hp Hg He Hx. split; [by eapply spine_other|]. intros Hq.
  assert (put p e (put p x t) = t) as E by (by rewrite (put_put j), (put_get j)).
  rewrite <- E. eapply spine_other; [by apply spine_put|by apply (get_put j)|done|done].
Qed.

(** Whether a slot holds a leaf is a matter of the spine. *)
Lemma leaf_spine j p t e :
  spine j p t → get p t = Some e → of_type j e = true ↔ spine j (p ++ [false]) t.
Proof.
  intros Hp Hg. split.
  - unfold of_type. destruct (kids j e) as [[l r]|] eqn:K; [|done]. intros _.
    exact (proj1 (spine_snoc _ _ false _ _ _ _ Hp Hg K)).
  - intros H. destruct (spine_type _ _ _ _ H) as (e' & Hg' & Ht & _). congruence.
Qed.

(** Two slots side by side. *)
Inductive apart : path → path → Prop :=
  | apart_here b b' p q : b ≠ b' → apart (b :: p) (b' :: q)
  | apart_below b p q : apart p q → apart (b :: p) (b :: q).

Lemma leaves_apart j p : ∀ q t e1 e2,
  spine j p t → spine j q t → get p t = Some e1 → get q t = Some e2 →
  of_type j e1 = false → of_type j e2 = false → p ≠ q → apart p q.
Proof.
  induction p as [|b p IH]; intros q t e1 e2 Hp Hq G1 G2 T1 T2 Hne.
  - destruct q as [|b' q]; [done|]. destruct Hq as (l & r & Hk & _). injection G1 as ->.
    by rewrite (of_type_kids _ _ _ _ Hk) in T1.
  - destruct q as [|b' q].
    { destruct Hp as (l & r & Hk & _). injection G2 as ->. by rewrite (of_type_kids _ _ _ _ Hk) in T2. }
    destruct Hp as (l & r & ->%kids_eq & Hp), Hq as (l0 & r0 & Hk & Hq).
    rewrite kids_two in Hk. injection Hk as <- <-. rewrite get_two in G1, G2.
    destruct (decide (b = b')) as [->|Hb]; [|by constructor]. constructor 2.
    eapply IH; try done. congruence.
Qed.

Lemma put_apart j p q : apart p q → ∀ t x y,
  spine j p t → spine j q t → put q y (put p x t) = put p x (put q y t) ∧
  get q (put p x t) = get q t ∧ spine j q (put p x t).
Proof.
  induction 1 as [b b' p q Hb|b p q H IH]; intros t x y Hp Hq.
  - destruct Hp as (l & r & ->%kids_eq & Hp), Hq as (l0 & r0 & Hk & Hq).
    rewrite kids_two in Hk. injection Hk as <- <-.
    destruct b, b'; try done; rewrite !put_two, !get_two; (split; [done|]); (split; [done|]);
      eexists _, _; (split; [apply kids_two|done]).
  - destruct Hp as (l & r & ->%kids_eq & Hp), Hq as (l0 & r0 & Hk & Hq).
    rewrite kids_two in Hk. injection Hk as <- <-.
    destruct (IH _ x y Hp Hq) as (E1 & E2 & E3).
    destruct b; rewrite !put_two, !get_two, E1, E2; (split; [done|]); (split; [done|]);
      eexists _, _; (split; [apply kids_two|done]).
Qed.

(** ** Sizes *)

Lemma size_get j p : ∀ t e, spine j p t → get p t = Some e → (size e + length p ≤ size t)%nat.
Proof.
  induction p as [|b p IH]; intros t e H Hg; [injection Hg as ->; simpl; lia|].
  destruct H as (l & r & ->%kids_eq & H). rewrite get_two in Hg. rewrite size_two.
  pose proof (IH _ _ H Hg). destruct b; simpl; lia.
Qed.

Lemma size_put j p : ∀ t e x, spine j p t → get p t = Some e →
  (size (put p x t) + size e = size t + size x)%nat.
Proof.
  induction p as [|b p IH]; intros t e x H Hg; [injection Hg as ->; simpl; lia|].
  destruct H as (l & r & ->%kids_eq & H). rewrite get_two in Hg. rewrite put_two.
  pose proof (IH _ _ x H Hg). destruct b; rewrite !size_two; lia.
Qed.

(** The slots on the way to two leaves are not inside the leaves. *)
Lemma size_apart j p q : apart p q → ∀ t e1 e2,
  spine j p t → spine j q t → get p t = Some e1 → get q t = Some e2 →
  (length p + length q + 2 * size e1 + 2 * size e2 ≤ 2 * size t)%nat.
Proof.
  induction 1 as [b b' p q Hb|b p q H IH]; intros t e1 e2 Hp Hq G1 G2.
  - destruct Hp as (l & r & ->%kids_eq & Hp), Hq as (l0 & r0 & Hk & Hq).
    rewrite kids_two in Hk. injection Hk as <- <-. rewrite get_two in G1, G2. rewrite size_two.
    pose proof (size_get _ _ _ _ Hp G1). pose proof (size_get _ _ _ _ Hq G2).
    destruct b, b'; try done; simpl; lia.
  - destruct Hp as (l & r & ->%kids_eq & Hp), Hq as (l0 & r0 & Hk & Hq).
    rewrite kids_two in Hk. injection Hk as <- <-. rewrite get_two in G1, G2. rewrite size_two.
    pose proof (IH _ _ _ Hp Hq G1 G2). destruct b; simpl; lia.
Qed.

(** The second slot may also lie above the first. *)
Lemma size_leaf j p : ∀ q t e1,
  spine j p t → spine j q t → get p t = Some e1 → of_type j e1 = false →
  (length p + length q + 2 * size e1 ≤ 2 * size t)%nat.
Proof.
  induction p as [|b p IH]; intros q t e1 Hp Hq G1 T1.
  - injection G1 as ->. destruct q as [|b' q]; [simpl; lia|]. destruct Hq as (l & r & Hk & _).
    by rewrite (of_type_kids _ _ _ _ Hk) in T1.
  - pose proof (size_get _ _ _ _ Hp G1) as Hs. destruct q as [|b' q]; [simpl in *; lia|].
    destruct Hp as (l & r & ->%kids_eq & Hp), Hq as (l0 & r0 & Hk & Hq).
    rewrite kids_two in Hk. injection Hk as <- <-. rewrite get_two in G1. rewrite size_two.
    destruct (decide (b = b')) as [->|Hb].
    + pose proof (IH _ _ _ Hp Hq G1 T1). destruct b'; simpl; lia.
    + destruct (spine_get _ _ _ Hq) as [e2 G2]. pose proof (size_get _ _ _ _ Hp G1).
      pose proof (size_get _ _ _ _ Hq G2). destruct b, b'; try done; simpl; lia.
Qed.

(** ** Constants left behind *)

Definition is_const (e : expr) : bool := is_sym symbol_yes e || is_sym symbol_no e.
(** Some operand of a junction is a constant. *)
Fixpoint leftover (t : expr) : bool :=
  match t with
  | EAnd l r | EOr l r => is_const l || is_const r || leftover l || leftover r
  | _ => false
  end.

Lemma leftover_two j l r :
  leftover (expr_alloc_two j l r) = is_const l || is_const r || leftover l || leftover r.
Proof. by destruct j. Qed.

Lemma const_yn e : is_const e = true → expr_eliminate_yn e = e ∧ size e = 1%nat.
Proof. by destruct e. Qed.

(** [expr_eliminate_yn] removes it. *)
Lemma leftover_yn t : leftover t = true → (size (expr_eliminate_yn t) < size t)%nat.
Proof.
  induction t as [s|e IH|a b|a b|l IHl r IHr|l IHl r IHr|l|a b]; simpl; try done; intros H.
  - pose proof (yn_size l). pose proof (yn_size r). pose proof (size_pos l). pose proof (size_pos r).
    destruct (is_const l) eqn:Cl.
    { destruct (const_yn _ Cl) as [-> Hs]. unfold is_const in Cl. rewrite orb_comm in Cl.
      apply orb_prop in Cl as [Cl|Cl]; rewrite Cl; [simpl; lia|]. case_match; simpl; lia. }
    destruct (is_const r) eqn:Cr.
    { destruct (const_yn _ Cr) as [-> Hs]. repeat case_match; simpl; try lia.
      unfold is_const in Cr. by rewrite H6, H7 in Cr. }
    apply orb_prop in H as [H%IHl|H%IHr]; repeat case_match; simpl; lia.
  - pose proof (yn_size l). pose proof (yn_size r). pose proof (size_pos l). pose proof (size_pos r).
    destruct (is_const l) eqn:Cl.
    { destruct (const_yn _ Cl) as [-> Hs]. unfold is_const in Cl. rewrite orb_comm in Cl.
      apply orb_prop in Cl as [Cl|Cl]; rewrite Cl; [simpl; lia|]. case_match; simpl; lia. }
    destruct (is_const r) eqn:Cr.
    { destruct (const_yn _ Cr) as [-> Hs]. repeat case_match; simpl; try lia.
      unfold is_const in Cr. by rewrite H6, H7 in Cr. }
    apply orb_prop in H as [H%IHl|H%IHr]; repeat case_match; simpl; lia.
Qed.

Lemma leftover_const j p x : ∀ t, p ≠ [] → spine j p t → is_const x = true → leftover (put p x t) = true.
Proof.
  induction p as [|b p IH]; intros t Hne H Hx; [done|].
  destruct H as (l & r & ->%kids_eq & H). rewrite put_two.
  destruct p as [|b' p].
  - destruct b; rewrite leftover_two; simpl; rewrite Hx; [by rewrite orb_true_r|done].
  - assert (leftover (put (b' :: p) x (if b then r else l)) = true) as E by (by apply IH).
    destruct b; rewrite leftover_two, E, ?orb_true_r; done.
Qed.

Lemma leftover_inside j p x : ∀ t, spine j p t → leftover x = true → leftover (put p x t) = true.
Proof.
  induction p as [|b p IH]; intros t H Hx; [done|].
  destruct H as (l & r & ->%kids_eq & H). rewrite put_two. specialize (IH _ H Hx).
  destruct b; rewrite leftover_two, IH, ?orb_true_r; done.
Qed.

Lemma leftover_keep j p x : ∀ t e, spine j p t → get p t = Some e →
  (is_const e = true → is_const x = true) → (leftover e = true → leftover x = true) →
  leftover t = true → leftover (put p x t) = true.
Proof.
  induction p as [|b p IH]; intros t e H Hg Hc Hl Ht.
  { injection Hg as ->. by apply Hl. }
  destruct H as (l & r & ->%kids_eq & H). rewrite get_two in Hg. rewrite put_two.
  rewrite leftover_two in Ht.
  assert (is_const (if b then r else l) = true → is_const (put p x (if b then r else l)) = true) as Hc'.
  { destruct p as [|b' p]; [injection Hg as ->; done|]. destruct H as (l1 & r1 & Hk & _).
    intros E. apply kids_eq in Hk. rewrite Hk in E. by destruct j. }
  assert (leftover (if b then r else l) = true → leftover (put p x (if b then r else l)) = true) as Hl'
    by (intros E; by eapply IH).
  destruct b; rewrite leftover_two; rewrite !orb_true_iff in *; tauto.
Qed.

(** ** Values *)

Section dups.
Context (Sg : symbol → syminfo) (Hok : table_ok Sg).

Lemma value_put j p : ∀ t, spine j p t →
  ∃ R, ∀ x, calc_value Sg (put p x t) = tri_op j R (calc_value Sg x).
Proof.
  induction p as [|b p IH]; intros t H.
  { exists (tri_unit j). intros x. by rewrite tri_unit_l. }
  destruct H as (l & r & ->%kids_eq & H). destruct (IH _ H) as (R & HR).
  destruct b.
  - exists (tri_op j (calc_value Sg l) R). intros x. by rewrite put_two, calc_two, HR, tri_assoc.
  - exists (tri_op j (calc_value Sg r) R). intros x.
    by rewrite put_two, calc_two, HR, (tri_comm j _ (calc_value Sg r)), tri_assoc.
Qed.

Lemma value_put_two j p q : apart p q → ∀ t, spine j p t → spine j q t →
  ∃ R, ∀ x y, calc_value Sg (put q y (put p x t)) =
    tri_op j R (tri_op j (calc_value Sg x) (calc_value Sg y)).
Proof.
  induction 1 as [b b' p q Hb|b p q H IH]; intros t Hp Hq.
  - destruct Hp as (l & r & ->%kids_eq & Hp), Hq as (l0 & r0 & Hk & Hq).
    rewrite kids_two in Hk. injection Hk as <- <-.
    destruct (value_put _ _ _ Hp) as (R1 & H1), (value_put _ _ _ Hq) as (R2 & H2).
    exists (tri_op j R1 R2). intros x y. destruct b, b'; try done; rewrite !put_two, !calc_two, H1, H2.
    + rewrite tri_comm. apply tri_split.
    + apply tri_split.
  - destruct Hp as (l & r & ->%kids_eq & Hp), Hq as (l0 & r0 & Hk & Hq).
    rewrite kids_two in Hk. injection Hk as <- <-. destruct (IH _ Hp Hq) as (R & HR).
    destruct b.
    + exists (tri_op j (calc_value Sg l) R). intros x y. by rewrite !put_two, calc_two, HR, tri_assoc.
    + exists (tri_op j (calc_value Sg r) R). intros x y.
      by rewrite !put_two, calc_two, HR, (tri_comm j _ (calc_value Sg r)), tri_assoc.
Qed.

Lemma dep_get j p : ∀ t e, spine j p t → get p t = Some e → dep t → dep e.
Proof.
  induction p as [|b p IH]; intros t e H Hg Hd; [by injection Hg as <-|].
  destruct H as (l & r & ->%kids_eq & H). rewrite get_two in Hg. apply dep_two in Hd as [? ?].
  eapply IH; [done|done|by destruct b].
Qed.
Lemma dep_put j p x : ∀ t, spine j p t → dep t → dep x → dep (put p x t).
Proof.
  induction p as [|b p IH]; intros t H Hd Hx; [done|].
  destruct H as (l & r & ->%kids_eq & H). rewrite put_two. apply dep_two in Hd as [? ?].
  destruct b; apply dep_two; (split; [|]); try done; by apply IH.
Qed.
Lemma two_get j p : ∀ t e, spine j p t → get p t = Some e → two Sg t → two Sg e.
Proof.
  induction p as [|b p IH]; intros t e H Hg Hd; [by injection Hg as <-|].
  destruct H as (l & r & ->%kids_eq & H). rewrite get_two in Hg. apply two_two in Hd as [? ?].
  eapply IH; [done|done|by destruct b].
Qed.
Lemma two_put j p x : ∀ t, spine j p t → two Sg t → two Sg x → two Sg (put p x t).
Proof.
  induction p as [|b p IH]; intros t H Hd Hx; [done|].
  destruct H as (l & r & ->%kids_eq & H). rewrite put_two. apply two_two in Hd as [? ?].
  destruct b; apply two_two; (split; [|]); try done; by apply IH.
Qed.

(** What a pass keeps; [strict] says that the value is kept in general, not
    only without 'm'. *)
Record kept (strict : bool) (j : junction) (t t' : expr) (c c' : Z) : Prop := {
  kt_value : strict = true ∨ two Sg t → calc_value Sg t' = calc_value Sg t;
  kt_dep : dep t → dep t';
  kt_two : two Sg t → two Sg t';
  kt_size : (size t' ≤ size t)%nat;
  kt_spine q : spine j q t ↔ spine j q t';
  kt_count : c ≤ c';
  kt_left : leftover t = true ∨ c < c' → leftover t' = true;
  kt_same : c' = c → t' = t }.

Lemma kept_refl strict j t c : kept strict j t t c c.
Proof. split; try done. intros [?|?]; [done|lia]. Qed.

Lemma kept_trans strict j t1 t2 t3 c1 c2 c3 :
  kept strict j t1 t2 c1 c2 → kept strict j t2 t3 c2 c3 → kept strict j t1 t3 c1 c3.
Proof.
  intros [V1 D1 T1 S1 P1 C1 L1 E1] [V2 D2 T2 S2 P2 C2 L2 E2].
  split; [intros H; rewrite V2, V1; tauto|auto|auto|lia|intros q; by rewrite P1|lia| |intros; rewrite E2, E1; [done|lia|lia]].
  intros [H|H]; [tauto|]. destruct (decide (c1 < c2)); [tauto|]. apply L2. right. lia.
Qed.

Lemma kept_junction strict j e x c c' :
  is_junction e = Some j → kept strict j e x c c' → is_junction x = Some j.
Proof.
  intros (l & r & ->)%is_junction_kids K.
  destruct (proj1 (kt_spine _ _ _ _ _ _ K [false])) as (l' & r' & Hk & _).
  { exists l, r. by rewrite kids_two. }
  apply kids_eq in Hk as ->. by destruct j.
Qed.
Lemma other_type j j' e x :
  is_junction e = Some j' → is_junction x = Some j' → of_type j e = of_type j x.
Proof.
  intros (l & r & ->)%is_junction_kids (l' & r' & ->)%is_junction_kids. by destruct j, j'.
Qed.

(** A leaf of the spine was replaced by its own reduction. *)
Lemma kept_leaf strict j p t e x c c' j' :
  spine j p t → get p t = Some e → of_type j e = false → is_junction e = Some j' →
  kept strict j' e x c c' → kept strict j t (put p x t) c c'.
Proof.
  intros Hp Hg Ht Hj K. pose proof (kept_junction _ _ _ _ _ _ Hj K) as Hx.
  destruct K as [V D T S P C L Eq]. destruct (value_put _ _ _ Hp) as (R & HR). split.
  - intros H. rewrite HR, V, <- HR by (destruct H; [by left|right; by eapply two_get]).
    by erewrite put_get.
  - intros Hd. eapply dep_put; [done|done|]. apply D. by eapply dep_get.
  - intros Hd. eapply two_put; [done|done|]. apply T. by eapply two_get.
  - pose proof (size_put _ _ _ _ x Hp Hg). lia.
  - intros q. eapply spine_leaf; [done|done|done|]. by rewrite <- (other_type _ _ _ _ Hj Hx).
  - done.
  - intros [H|H].
    + eapply leftover_keep; [done|done| |tauto|done]. intros E. by destruct e.
    + eapply leftover_inside; [done|]. tauto.
  - intros ->%Eq. by eapply put_get.
Qed.

(** ** The first pass *)

Lemma root_of p q j t e1 : 
  spine j p t → spine j q t → p = [] → get p t = Some e1 → of_type j e1 = false → q = [].
Proof.
  intros _ Hq -> [= ->] Ht. destruct q as [|b q]; [done|]. destruct Hq as (l & r & Hk & _).
  by rewrite (of_type_kids _ _ _ _ Hk) in Ht.
Qed.

(** Two leaves were joined. *)
Lemma kept_join j p q t e1 e2 x c :
  spine j p t → spine j q t → get p t = Some e1 → get q t = Some e2 →
  of_type j e1 = false → of_type j e2 = false → p ≠ q → merged Sg j e1 e2 x →
  kept true j t (put q x (put p (ESymbol (unit_symbol j)) t)) c (c + 1).
Proof.
  intros Hp Hq G1 G2 T1 T2 Hne [V D S T Ty].
  pose proof (leaves_apart _ _ _ _ _ _ Hp Hq G1 G2 T1 T2 Hne) as Ha.
  destruct (put_apart _ _ _ Ha t (ESymbol (unit_symbol j)) x Hp Hq) as (Ec & Eg & Hq').
  destruct (value_put_two _ _ _ Ha _ Hp Hq) as (R & HR). split.
  - intros _. rewrite HR, calc_unit, tri_unit_l, V by done.
    rewrite <- HR. by rewrite (put_get _ _ _ _ Hp G1), (put_get _ _ _ _ Hq G2).
  - intros Hd. eapply dep_put; [done| |apply D; exact (dep_get _ _ _ _ Hp G1 Hd)]. by apply (dep_put _ _ _ _ Hp Hd).
  - intros Hd. eapply two_put; [done| |exact (T (two_get _ _ _ _ Hp G1 Hd) (two_get _ _ _ _ Hq G2 Hd))]. eapply two_put; [done|done|by apply two_unit].
  - pose proof (size_put _ _ _ _ (ESymbol (unit_symbol j)) Hp G1).
    assert (get q (put p (ESymbol (unit_symbol j)) t) = Some e2) as G2' by congruence.
    pose proof (size_put _ _ _ _ x Hq' G2'). pose proof (size_pos e2). simpl in *. lia.
  - intros r. rewrite (spine_leaf j p t (ESymbol (unit_symbol j)) e1) by (done || by destruct j).
    eapply spine_leaf; [done|by rewrite Eg|done|auto].
  - lia.
  - intros _. rewrite Ec. eapply leftover_const; [| |by destruct j].
    + intros ->. apply Hne. symmetry. exact (root_of _ _ _ _ _ Hp Hq eq_refl G1 T1).
    + eapply spine_other; done.
  - lia.
Qed.

Lemma deref_inv p t (c : Z) e c' : deref p t c = Ok (e, c') → get p t = Some e ∧ c' = c.
Proof. unfold deref. destruct (get p t); [|done]. by intros [= -> ->]. Qed.

Lemma dups1_kept n : ∀ j p q t c t' c',
  spine j p t → spine j q t → expr_eliminate_dups1 Sg n j p q t c = Ok (t', c') → kept true j t t' c c'.
Proof.
  induction n as [|n IH]; intros j p q t c t' c' Hp Hq E; [done|]. cbn [expr_eliminate_dups1] in E.
  apply bind_inv in E as (e1 & c1 & E1 & E). apply deref_inv in E1 as [G1 ->].
  apply bind_inv in E as (e2 & c2 & E2 & E). apply deref_inv in E2 as [G2 ->].
  destruct (of_type j e1) eqn:T1.
  { unfold of_type in T1. destruct (kids j e1) as [[l r]|] eqn:K1; [|done].
    apply bind_inv in E as (t1 & c1 & H1 & H2).
    destruct (spine_snoc _ _ false _ _ _ _ Hp G1 K1) as [S1 _].
    destruct (spine_snoc _ _ true _ _ _ _ Hp G1 K1) as [S2 _].
    pose proof (IH _ _ _ _ _ _ _ S1 Hq H1) as K. eapply kept_trans; [exact K|].
    by apply (IH _ _ _ _ _ _ _ (proj1 (kt_spine _ _ _ _ _ _ K _) S2) (proj1 (kt_spine _ _ _ _ _ _ K _) Hq)). }
  destruct (of_type j e2) eqn:T2.
  { unfold of_type in T2. destruct (kids j e2) as [[l r]|] eqn:K2; [|done].
    apply bind_inv in E as (t1 & c1 & H1 & H2).
    destruct (spine_snoc _ _ false _ _ _ _ Hq G2 K2) as [S1 _].
    destruct (spine_snoc _ _ true _ _ _ _ Hq G2 K2) as [S2 _].
    pose proof (IH _ _ _ _ _ _ _ Hp S1 H1) as K. eapply kept_trans; [exact K|].
    by apply (IH _ _ _ _ _ _ _ (proj1 (kt_spine _ _ _ _ _ _ K _) Hp) (proj1 (kt_spine _ _ _ _ _ _ K _) S2)). }
  case_bool_decide as Hpq; [unfold ret in E; injection E as <- <-; apply kept_refl|].
  apply bind_inv in E as (e1' & c1 & H1 & E).
  pose proof (leaves_apart _ _ _ _ _ _ Hp Hq G1 G2 T1 T2 Hpq) as Ha.
  (* the nested pass *)
  assert (kept true j t (put p e1' t) c c1 ∧ of_type j e1' = false) as [K T1'].
  { destruct (is_junction e1) as [j'|] eqn:J1.
    - pose proof (IH j' [] [] e1 c e1' c1 I I H1) as K. split; [by eapply kept_leaf|].
      by rewrite <- (other_type _ _ _ _ J1 (kept_junction _ _ _ _ _ _ J1 K)).
    - unfold ret in H1. injection H1 as <- <-. rewrite (put_get _ _ _ _ Hp G1).
      split; [apply kept_refl|done]. }
  apply bind_inv in E as (o & c2 & H2 & E).
  destruct (join_ok _ Hok _ _ _ _ _ _ _ H2) as [-> Ho]. destruct o as [x|].
  - apply bind_inv in E as (u & c3 & [= _ <-] & E). unfold ret in E. injection E as <- <-.
    eapply kept_trans; [exact K|].
    destruct (put_apart _ _ _ Ha t e1' x Hp Hq) as (_ & Eg & Hq').
    change (expr_alloc_symbol (unit_symbol j)) with (ESymbol (unit_symbol j)).
    assert (put q x (put p (ESymbol (unit_symbol j)) t)
      = put q x (put p (ESymbol (unit_symbol j)) (put p e1' t))) as ->.
    { by rewrite (put_put j). }
    eapply (kept_join _ _ _ _ e1' e2).
    + by apply spine_put.
    + done.
    + by eapply get_put.
    + congruence.
    + done.
    + done.
    + done.
    + by apply Ho.
  - unfold ret in E. injection E as <- <-. done.
Qed.

(** ** The second pass *)

Lemma value_get j p t e :
  spine j p t → get p t = Some e → ∃ R, calc_value Sg t = tri_op j R (calc_value Sg e).
Proof.
  intros Hp Hg. destruct (value_put _ _ _ Hp) as (R & HR). exists R.
  by rewrite <- HR, (put_get _ _ _ _ Hp Hg).
Qed.

(** An operand was replaced whose negation is a part of another one. *)
Lemma kept_zero j p q t e1 e2 Q c :
  spine j p t → spine j q t → get p t = Some e1 → get q t = Some e2 →
  of_type j e1 = false → p ≠ q →
  calc_value Sg e2 = tri_op j (tri_not (calc_value Sg e1)) Q →
  kept false j t (put p (ESymbol (zero_symbol j)) t) c (c + 1).
Proof.
  intros Hp Hq G1 G2 T1 Hne HQ. destruct (value_put _ _ _ Hp) as (R & HR).
  assert (s_tri (Sg (zero_symbol j)) = tri_not (tri_unit j)) as Hz.
  { destruct Hok. by destruct j. }
  split.
  - intros [?|H2]; [done|]. rewrite HR. simpl. rewrite Hz.
    destruct (value_get _ _ _ _ Hq G2) as (R2 & E2). rewrite HQ in E2.
    pose proof (HR e1) as E1. rewrite (put_get _ _ _ _ Hp G1) in E1.
    pose proof (two_value _ _ (two_get _ _ _ _ Hp G1 H2)) as N1.
    pose proof (two_value _ _ H2) as N.
    destruct j, (calc_value Sg e1), (calc_value Sg t), R, R2, Q; done.
  - intros Hd. by eapply dep_put.
  - intros Hd. eapply two_put; [done|done|]. simpl. rewrite Hz. by destruct j.
  - pose proof (size_put _ _ _ _ (ESymbol (zero_symbol j)) Hp G1). pose proof (size_pos e1). simpl in *. lia.
  - intros r. eapply spine_leaf; [done|done|done|by destruct j].
  - lia.
  - intros _. eapply leftover_const; [|done|by destruct j].
    intros ->. apply Hne. symmetry. exact (root_of _ _ _ _ _ Hp Hq eq_refl G1 T1).
  - lia.
Qed.

Lemma dual_dual j : dual (dual j) = j.
Proof. by destruct j. Qed.
Lemma leaf_dual j e j' : of_type j e = false → is_junction e = Some j' → dual j' = j.
Proof. intros H (l & r & ->)%is_junction_kids. by destruct j, j'. Qed.
Lemma kept_leaf_type strict j p t t' e e' c c' :
  kept strict j t t' c c' → spine j p t → get p t = Some e → get p t' = Some e' →
  of_type j e = of_type j e'.
Proof.
  intros K Hp Hg Hg'. apply eq_true_iff_eq.
  assert (spine j p t') as Hp' by (by apply (kt_spine _ _ _ _ _ _ K)).
  rewrite (leaf_spine _ _ _ _ Hp Hg), (leaf_spine _ _ _ _ Hp' Hg').
  apply (kt_spine _ _ _ _ _ _ K).
Qed.

(** The step at a leaf: [x1'] is the reduced operand. *)
Lemma dups2_step n j j' p q t x1' x2 c tmp tmp1 tmp1' tmp2' c' :
  spine j p t → spine j q t → get p t = Some x1' → get q t = Some x2 →
  of_type j x1' = false → is_junction x1' = Some j' → p ≠ q →
  dep x1' → (2 * height x1' + 2 ≤ n)%nat →
  expr_transform Sg n (ENot x1') = Ok tmp1 →
  extract_eq_top n (dual j') tmp1 x2 c = Ok ((tmp, tmp1', tmp2'), c') →
  is_sym (unit_symbol (dual j')) tmp1' = true →
  c' = c ∧ kept false j t (put p (ESymbol (zero_symbol (dual j'))) t) c (c + 1).
Proof.
  intros Hp Hq G1 G2 T1 J1 Hne D1 Hn HT HE Hu%is_sym_true.
  rewrite (leaf_dual _ _ _ T1 J1) in *.
  destruct (extract_top_sound _ Hok _ _ _ _ _ _ _ _ _ HE) as (-> & E1 & E2). split; [done|].
  destruct (transform_ok Sg Hok n (ENot x1')) as (? & HT' & K);
    [done|unfold deep; simpl; lia|]. rewrite HT in HT'. injection HT' as <-.
  eapply kept_zero; [done|done|done|done|done|done|].
  rewrite E2. f_equal. rewrite (kp_value _ _ _ K) in E1. simpl in E1. rewrite E1, Hu, calc_unit by done.
  by rewrite tri_unit_r.
Qed.

(** ** Both passes return *)

Definition fuel_for (n : nat) (p q : path) (t : expr) : Prop :=
  (14 * size t ≤ n + length p + length q)%nat.

Lemma fuel_pos j n p q t : spine j p t → spine j q t → fuel_for n p q t → (0 < n)%nat.
Proof.
  intros Hp Hq Hn. destruct (spine_get _ _ _ Hp) as [e1 G1], (spine_get _ _ _ Hq) as [e2 G2].
  pose proof (size_get _ _ _ _ Hp G1). pose proof (size_get _ _ _ _ Hq G2).
  pose proof (size_pos e1). unfold fuel_for in Hn. lia.
Qed.
Lemma fuel_left n p q t b : fuel_for (S n) p q t → fuel_for n (p ++ [b]) q t.
Proof. unfold fuel_for. rewrite length_app. simpl. lia. Qed.
Lemma fuel_right n p q t b : fuel_for (S n) p q t → fuel_for n p (q ++ [b]) t.
Proof. unfold fuel_for. rewrite length_app. simpl. lia. Qed.
Lemma fuel_less n p q t t' : fuel_for n p q t → (size t' ≤ size t)%nat → fuel_for n p q t'.
Proof. unfold fuel_for. lia. Qed.

Lemma deref_ok p t e (c : Z) : get p t = Some e → deref p t c = Ok (e, c).
Proof. unfold deref. by intros ->. Qed.

Lemma dups1_total n : ∀ j p q t c,
  spine j p t → spine j q t → dep t → fuel_for n p q t →
  ∃ t' c', expr_eliminate_dups1 Sg n j p q t c = Ok (t', c').
Proof.
  induction n as [|n IH]; intros j p q t c Hp Hq Dt Hn.
  { pose proof (fuel_pos _ _ _ _ _ Hp Hq Hn). lia. }
  destruct (spine_get _ _ _ Hp) as [e1 G1], (spine_get _ _ _ Hq) as [e2 G2].
  cbn [expr_eliminate_dups1].
  rewrite (bind_ok _ _ _ _ _ (deref_ok _ _ _ _ G1)), (bind_ok _ _ _ _ _ (deref_ok _ _ _ _ G2)).
  destruct (of_type j e1) eqn:T1.
  { unfold of_type in T1. destruct (kids j e1) as [[l r]|] eqn:K1; [|done].
    destruct (spine_snoc _ _ false _ _ _ _ Hp G1 K1) as [S1 _].
    destruct (spine_snoc _ _ true _ _ _ _ Hp G1 K1) as [S2 _].
    destruct (IH j (p ++ [false]) q t c S1 Hq Dt (fuel_left _ _ _ _ _ Hn)) as (t1 & c1 & E).
    pose proof (dups1_kept _ _ _ _ _ _ _ _ S1 Hq E) as [_ D _ Sz P _ _ _].
    rewrite (bind_ok _ _ _ _ _ E). apply IH; [by apply P|by apply P|auto|].
    eapply fuel_less; [by apply fuel_left|done]. }
  destruct (of_type j e2) eqn:T2.
  { unfold of_type in T2. destruct (kids j e2) as [[l r]|] eqn:K2; [|done].
    destruct (spine_snoc _ _ false _ _ _ _ Hq G2 K2) as [S1 _].
    destruct (spine_snoc _ _ true _ _ _ _ Hq G2 K2) as [S2 _].
    destruct (IH j p (q ++ [false]) t c Hp S1 Dt (fuel_right _ _ _ _ _ Hn)) as (t1 & c1 & E).
    pose proof (dups1_kept _ _ _ _ _ _ _ _ Hp S1 E) as [_ D _ Sz P _ _ _].
    rewrite (bind_ok _ _ _ _ _ E). apply IH; [by apply P|by apply P|auto|].
    eapply fuel_less; [by apply fuel_right|done]. }
  case_bool_decide as Hpq; [by eexists _, _|].
  pose proof (leaves_apart _ _ _ _ _ _ Hp Hq G1 G2 T1 T2 Hpq) as Ha.
  pose proof (size_apart _ _ _ Ha _ _ _ Hp Hq G1 G2) as Hs. unfold fuel_for in Hn.
  pose proof (dep_get _ _ _ _ Hp G1 Dt) as D1. pose proof (dep_get _ _ _ _ Hq G2 Dt) as D2.
  assert (∃ e1' c1, (match is_junction e1 with
      | Some j' => expr_eliminate_dups1 Sg n j' [] [] e1 | None => ret e1 end) c = Ok (e1', c1)
    ∧ dep e1' ∧ (size e1' ≤ size e1)%nat) as (e1' & c1 & E1 & D1' & Hs').
  { destruct (is_junction e1) as [j'|]; [|by exists e1, c].
    pose proof (size_pos e2). destruct (IH j' [] [] e1 c) as (e' & c1 & E); [done|done|done|unfold fuel_for; simpl; lia|].
    pose proof (dups1_kept _ _ [] [] _ _ _ _ I I E) as [_ D _ Sz _ _ _ _]. eauto 6. }
  rewrite (bind_ok _ _ _ _ _ E1).
  destruct (join_total Sg j n e1' e2 c1 D1' D2) as (o & E2); [lia|].
  rewrite (bind_ok _ _ _ _ _ E2). destruct o as [x|]; by eexists _, _.
Qed.

(** The end of the second pass at a leaf. *)
Lemma dups2_leaf n j j' p q t x1 c :
  spine j p t → spine j q t → get p t = Some x1 → of_type j x1 = false →
  is_junction x1 = Some j' → p ≠ q → dep t → fuel_for (S n) p q t →
  (fuel_for n [] [] x1 → ∃ x1' c1, expr_eliminate_dups2 Sg n j' [] [] x1 c = Ok (x1', c1) ∧
     kept false j' x1 x1' c c1) →
  ∃ t' c',
    (x1' <- expr_eliminate_dups2 Sg n j' [] [] x1;;
     let t2 := put p x1' t in
     x2 <- deref q t2;;
     c1 <- lift (expr_copy x1');;
     tmp1 <- lift (expr_transform Sg n (expr_alloc_one c1));;
     tmp2 <- lift (expr_copy x2);;
     '(_, tmp1', _) <- extract_eq_top n (dual j') tmp1 tmp2;;
     if is_sym (unit_symbol (dual j')) tmp1' then
       incr_count;;;
       ret (put p (expr_alloc_symbol (zero_symbol (dual j'))) t2)
     else ret t2) c = Ok (t', c') ∧ kept false j t t' c c'.
Proof.
  intros Hp Hq G1 T1 J1 Hne Dt Hn IH. unfold fuel_for in Hn.
  pose proof (size_leaf _ _ _ _ _ Hp Hq G1 T1) as Hs. pose proof (size_get _ _ _ _ Hp G1) as Hg.
  assert (0 < length p)%nat.
  { destruct p; [|simpl; lia]. destruct Hne. symmetry. exact (root_of _ _ _ _ _ Hp Hq eq_refl G1 T1). }
  destruct IH as (x1' & c1 & E1 & K1); [unfold fuel_for; simpl; lia|].
  rewrite (bind_ok _ _ _ _ _ E1). cbv zeta.
  pose proof (kept_junction _ _ _ _ _ _ J1 K1) as J1'.
  pose proof (kept_leaf _ _ _ _ _ _ _ _ _ Hp G1 T1 J1 K1) as K. set (t2 := put p x1' t) in *.
  assert (spine j p t2) as Hp2 by (by apply K). assert (spine j q t2) as Hq2 by (by apply K).
  assert (get p t2 = Some x1') as G1' by (by apply (get_put j)).
  destruct (spine_get _ _ _ Hq2) as [x2 G2].
  assert (dep t2) as D2 by (apply (kt_dep _ _ _ _ _ _ K); done).
  pose proof (dep_get _ _ _ _ Hp2 G1' D2) as D1. pose proof (dep_get _ _ _ _ Hq2 G2 D2) as Dx2.
  pose proof (kt_size _ _ _ _ _ _ K). pose proof (kt_size _ _ _ _ _ _ K1).
  pose proof (size_get _ _ _ _ Hq2 G2). pose proof (height_size x1').
  rewrite (bind_ok _ _ _ _ _ (deref_ok _ _ _ _ G2)), (expr_copy_ok _ D1), (expr_copy_ok _ Dx2).
  rewrite (bind_ok _ _ _ _ _ eq_refl).
  destruct (transform_ok Sg Hok n (ENot x1')) as (tmp1 & E2 & Kt);
    [done|unfold deep; simpl; lia|].
  change (expr_alloc_one x1') with (ENot x1'). rewrite E2, !(bind_ok _ _ _ _ _ eq_refl).
  pose proof (normal_size _ _ (kp_normal _ _ _ Kt)). pose proof (kp_leaves _ _ _ Kt) as Hl. simpl in Hl.
  pose proof (leaves_size x1').
  destruct (extract_top_total n (dual j') tmp1 x2 c1) as ([[tmp tmp1'] tmp2'] & E3);
    [by apply (kp_dep _ _ _ Kt)|done|lia|].
  rewrite (bind_ok _ _ _ _ _ E3).
  destruct (is_sym (unit_symbol (dual j')) tmp1') eqn:Hu; [|eexists _, _; split; [done|exact K]].
  eexists _, _. split; [done|]. eapply kept_trans; [exact K|].
  eapply (dups2_step n); [done|done|done|done| |done|done|done|lia|done|done|done].
  by rewrite <- (other_type _ _ _ _ J1 J1').
Qed.

Lemma dups2_ok n : ∀ j p q t c,
  spine j p t → spine j q t → dep t → fuel_for n p q t →
  ∃ t' c', expr_eliminate_dups2 Sg n j p q t c = Ok (t', c') ∧ kept false j t t' c c'.
Proof.
  induction n as [|n IH]; intros j p q t c Hp Hq Dt Hn.
  { pose proof (fuel_pos _ _ _ _ _ Hp Hq Hn). lia. }
  destruct (spine_get _ _ _ Hp) as [e1 G1], (spine_get _ _ _ Hq) as [e2 G2].
  cbn [expr_eliminate_dups2]. rewrite (bind_ok _ _ _ _ _ (deref_ok _ _ _ _ G1)).
  destruct (of_type j e1) eqn:T1.
  { unfold of_type in T1. destruct (kids j e1) as [[l r]|] eqn:K1; [|done].
    destruct (spine_snoc _ _ false _ _ _ _ Hp G1 K1) as [S1 _].
    destruct (spine_snoc _ _ true _ _ _ _ Hp G1 K1) as [S2 _].
    destruct (IH j (p ++ [false]) q t c S1 Hq Dt (fuel_left _ _ _ _ _ Hn)) as (t1 & c1 & E & K).
    pose proof K as [_ D _ Sz P _ _ _]. rewrite (bind_ok _ _ _ _ _ E).
    destruct (IH j (p ++ [true]) q t1 c1) as (t2 & c2 & E' & K');
      [by apply P|by apply P|auto|eapply fuel_less; [by apply fuel_left|done]|].
    exists t2, c2. split; [done|]. by eapply kept_trans. }
  rewrite (bind_ok _ _ _ _ _ (deref_ok _ _ _ _ G2)).
  assert (∃ t1 c1, (if of_type j e2 then
      t0 <- expr_eliminate_dups2 Sg n j p (q ++ [false]) t;;
      expr_eliminate_dups2 Sg n j p (q ++ [true]) t0 else ret t) c = Ok (t1, c1) ∧
    kept false j t t1 c c1) as (t1 & c1 & E1 & K1).
  { destruct (of_type j e2) eqn:T2; [|exists t, c; split; [done|apply kept_refl]].
    unfold of_type in T2. destruct (kids j e2) as [[l r]|] eqn:K2; [|done].
    destruct (spine_snoc _ _ false _ _ _ _ Hq G2 K2) as [S1 _].
    destruct (spine_snoc _ _ true _ _ _ _ Hq G2 K2) as [S2 _].
    destruct (IH j p (q ++ [false]) t c Hp S1 Dt (fuel_right _ _ _ _ _ Hn)) as (t1 & c1 & E & K).
    pose proof K as [_ D _ Sz P _ _ _]. rewrite (bind_ok _ _ _ _ _ E).
    destruct (IH j p (q ++ [true]) t1 c1) as (t2 & c2 & E' & K');
      [by apply P|by apply P|auto|eapply fuel_less; [by apply fuel_right|done]|].
    exists t2, c2. split; [done|]. by eapply kept_trans. }
  rewrite (bind_ok _ _ _ _ _ E1).
  case_bool_decide as Hpq; [by eexists _, _|].
  pose proof K1 as [_ D _ Sz P _ _ _].
  destruct (spine_get j p t1) as [x1 H1]; [by apply P|].
  rewrite (bind_ok _ _ _ _ _ (deref_ok _ _ _ _ H1)).
  destruct (is_junction x1) as [j'|] eqn:J1; [|by eexists _, _].
  assert (of_type j x1 = false) as T1' by (by rewrite <- (kept_leaf_type _ _ _ _ _ _ _ _ _ K1 Hp G1 H1)).
  destruct (dups2_leaf n j j' p q t1 x1 c1) as (t2 & c2 & E2 & K2);
    [by apply P|by apply P|done|done|done|done|auto|..].
  { eapply fuel_less; [exact Hn|done]. } 
  { intros Hf. apply (IH j' [] [] x1 c1); [done|done| |done]. eapply dep_get; [|done|auto]. by apply P. }
  exists t2, c2. split; [exact E2|]. by eapply kept_trans.
Qed.

(** ** The loop *)

(** One round of the loop: both passes. *)
Lemma round_ok n e c :
  dep e → (14 * size e ≤ n)%nat →
  ∃ e' c', (match is_junction e with
            | Some j => e' <- expr_eliminate_dups1 Sg n j [] [] e;; expr_eliminate_dups2 Sg n j [] [] e'
            | None => ret e
            end) c = Ok (e', c') ∧ ∃ j, kept false j e e' c c'.
Proof.
  intros De Hn. destruct (is_junction e) as [j|].
  2: { exists e, c. split; [done|]. exists JAnd. apply kept_refl. }
  destruct (dups1_total n j [] [] e c) as (e1 & c1 & E1); [done|done|done|unfold fuel_for; simpl; lia|].
  pose proof (dups1_kept _ _ [] [] _ _ _ _ I I E1) as [V D T S P C L Q].
  destruct (dups2_ok n j [] [] e1 c1) as (e2 & c2 & E2 & K2); [done|done|auto|unfold fuel_for; simpl; lia|].
  exists e2, c2. rewrite (bind_ok _ _ _ _ _ E1). split; [done|]. exists j.
  eapply kept_trans; [|done]. split; auto.
Qed.

Lemma dups_loop_ok n m : ∀ e c,
  dep e → (14 * size e ≤ n)%nat → (size e < m)%nat →
  ∃ e', eliminate_dups_loop Sg n m e c = Ok (e', 0) ∧ dep e' ∧ (size e' ≤ size e)%nat ∧
    (two Sg e → two Sg e' ∧ calc_value Sg e' = calc_value Sg e) ∧
    ∀ m' c', eliminate_dups_loop Sg n (S m') e' c' = Ok (e', 0).
Proof.
  induction m as [|m IH]; intros e c De Hn Hm; [lia|]. cbn [eliminate_dups_loop].
  rewrite (bind_ok _ _ _ _ _ eq_refl).
  destruct (round_ok n e 0 De Hn) as (e1 & c1 & E1 & j & [V D T S P C L Q]).
  rewrite (bind_ok _ _ _ _ _ E1), (bind_ok _ _ _ _ _ eq_refl). case_bool_decide as Hc.
  - subst c1. assert (e1 = e) as -> by auto. exists e. do 4 (split; [done|]). intros m' c'.
    cbn [eliminate_dups_loop].
    by rewrite (bind_ok _ _ _ _ _ eq_refl), (bind_ok _ _ _ _ _ E1), (bind_ok _ _ _ _ _ eq_refl).
  - assert (size (expr_eliminate_yn e1) < size e1)%nat by (apply leftover_yn, L; right; lia).
    destruct (IH (expr_eliminate_yn e1) c1) as (e' & E & De' & Hs & V' & F); [auto using yn_dep|lia|lia|].
    exists e'. split; [done|]. split; [done|]. split; [lia|]. split; [|done].
    intros H2. destruct V' as [T' V']; [apply two_yn; auto|]. split; [done|].
    rewrite V', yn_value by done. auto.
Qed.
End dups.
