(* ===== verification/KExprThm.v ===== *)
(** * Theorems on dependency expressions (kconfig/expr.c) *)

From stdpp Require Import base numbers list option strings sets.
From S2P Require Import Prelude KExpr KExprEq KExprTrans KExprDups.
Local Open Scope Z_scope.

(** ** Constants *)

Lemma leftover_free e : leftover (expr_eliminate_yn e) = false.
Proof.
  induction e as [s|e IH|a b|a b|l IHl r IHr|l IHl r IHr|l|a b]; simpl; try done;
    repeat case_match; try done; cbn [leftover]; unfold is_const;
    by repeat match goal with H : _ = _ |- _ => rewrite H; clear H end.
Qed.

(** C34: [expr_eliminate_yn] keeps the value of every expression, returns one
    in which no operand of && or || is a constant 'y' or 'n', and changes
    nothing when it is applied again. *)
Theorem eliminate_yn_correct Sg e :
  table_ok Sg →
  calc_value Sg (expr_eliminate_yn e) = calc_value Sg e ∧
  leftover (expr_eliminate_yn e) = false ∧
  expr_eliminate_yn (expr_eliminate_yn e) = expr_eliminate_yn e ∧
  (expr_eliminate_yn e = e ↔ leftover e = false).
Proof.
  intros H. split; [by apply yn_value|]. split; [apply leftover_free|].
  assert (∀ x, leftover x = false → expr_eliminate_yn x = x) as Hid.
  { induction x as [s|x IH|a b|a b|l IHl r IHr|l IHl r IHr|l|a b]; simpl; try done; unfold is_const;
      rewrite !orb_false_iff; intros [[[[A B] [C D]] Hl%IHl] Hr%IHr]; by rewrite Hl, Hr, A, B, C, D. }
  split; [apply Hid, leftover_free|]. split; [|apply Hid]. intros <-. apply leftover_free.
Qed.

Definition yn_example : expr := EAnd (ESymbol symbol_yes) (EOr (ESymbol 6%positive) (ESymbol symbol_no)).
Lemma eliminate_yn_correct_witness :
  expr_eliminate_yn yn_example = ESymbol 6%positive ∧
  calc_value plain_table (expr_eliminate_yn yn_example) = Tyes.
Proof.
  split; [reflexivity|].
  rewrite (proj1 (eliminate_yn_correct plain_table yn_example plain_ok)). reflexivity.
Defined.

(** ** Comparison *)

(** C33: [expr_eq] returns for every two expressions without E_CHOICE and
    E_RANGE (with a depth of three times their size), leaves [trans_count] as
    it was, and answers [true] only if both have the same value in every
    symbol table. *)
Theorem expr_eq_correct n e1 e2 c :
  dep e1 → dep e2 → (3 * (size e1 + size e2) ≤ n)%nat →
  ∃ b, expr_eq n e1 e2 c = Ok (b, c) ∧
    (b = true → ∀ Sg, table_ok Sg → calc_value Sg e1 = calc_value Sg e2).
Proof.
  intros D1 D2 Hn. destruct (expr_eq_total n e1 e2 c D1 D2) as [b E]; [lia|].
  exists b. split; [done|]. intros -> Sg HS. by apply (proj2 (eq_sound Sg HS n) _ _ _ _ _ E).
Qed.

Definition eq_left : expr := EAnd (EAnd (ESymbol 4%positive) (ESymbol 6%positive)) (ESymbol 7%positive).
Definition eq_right : expr := EAnd (ESymbol 7%positive) (EAnd (ESymbol 6%positive) (ESymbol 4%positive)).
Lemma expr_eq_correct_witness :
  expr_eq 40 eq_left eq_right 5 = Ok (true, 5) ∧
  ∃ b, expr_eq 40 eq_left eq_right 5 = Ok (b, 5) ∧
    (b = true → ∀ Sg, table_ok Sg → calc_value Sg eq_left = calc_value Sg eq_right).
Proof.
  split; [vm_compute; reflexivity|].
  apply expr_eq_correct; [simpl; tauto|simpl; tauto|simpl; lia].
Defined.

(** ** Normal form *)

(** C32: [expr_transform] returns, keeps the value of the expression, and its
    result is in normal form: negation stands only before symbols that are no
    constants, and no boolean symbol is compared with 'y', 'm' or 'n'.  A
    result that is transformed again stays as it is. *)
Theorem transform_correct Sg n e :
  table_ok Sg → dep e → (2 * height e ≤ n)%nat →
  ∃ e', expr_transform Sg n e = Ok e' ∧ calc_value Sg e' = calc_value Sg e ∧
    normal Sg e' ∧ expr_transform Sg n e' = Ok e'.
Proof.
  intros HS De Hn. destruct (transform_ok Sg HS n e De) as (e' & E & K); [unfold deep; case_match; lia|].
  exists e'. split; [done|]. split; [apply K|]. split; [apply K|].
  apply transform_normal; [by apply K|apply K|]. pose proof (kp_height _ _ _ K). lia.
Qed.

Definition transform_example : expr :=
  ENot (EAnd (ENot (ESymbol 6%positive)) (EOr (EEqual 4%positive symbol_no) (ESymbol 7%positive))).
Lemma transform_correct_witness :
  expr_transform plain_table 20 transform_example =
    Ok (EOr (ESymbol 6%positive) (EAnd (ESymbol 4%positive) (ENot (ESymbol 7%positive)))) ∧
  ∃ e', expr_transform plain_table 20 transform_example = Ok e' ∧
    calc_value plain_table e' = calc_value plain_table transform_example ∧
    normal plain_table e' ∧ expr_transform plain_table 20 e' = Ok e'.
Proof.
  split; [vm_compute; reflexivity|].
  apply transform_correct; [apply plain_ok|simpl; tauto|simpl; lia].
Defined.

(** ** Duplicates *)

(** C31: [expr_eliminate_dups] returns (with a depth of fourteen times the size
    of the expression and one round more than its size), restores
    [trans_count], never makes the expression larger, keeps its value when no
    symbol in it has the value 'm', and applied again it changes nothing. *)
Theorem eliminate_dups_correct Sg n m e c :
  table_ok Sg → dep e → (14 * size e ≤ n)%nat → (size e < m)%nat →
  ∃ e', expr_eliminate_dups Sg n m e c = Ok (e', c) ∧ (size e' ≤ size e)%nat ∧
    (two Sg e → calc_value Sg e' = calc_value Sg e) ∧
    expr_eliminate_dups Sg n m e' c = Ok (e', c).
Proof.
  intros HS De Hn Hm. destruct (dups_loop_ok Sg HS n m e c De Hn Hm) as (e' & E & _ & Hs & V & F).
  exists e'. unfold expr_eliminate_dups. rewrite !(bind_ok _ _ _ _ _ eq_refl), (bind_ok _ _ _ _ _ E).
  split; [done|]. split; [done|]. split; [tauto|]. destruct m as [|m]; [lia|].
  by rewrite (bind_ok _ _ _ _ _ (F m c)).
Qed.

(** (T = y || T = m) && (A && A) *)
Definition dups_example : expr :=
  EAnd (EOr (EEqual 6%positive symbol_yes) (EEqual 6%positive symbol_mod))
       (EAnd (ESymbol 4%positive) (ESymbol 4%positive)).
Lemma eliminate_dups_correct_witness :
  expr_eliminate_dups plain_table 200 20 dups_example 3 =
    Ok (EAnd (EUnequal 6%positive symbol_no) (ESymbol 4%positive), 3) ∧
  ∃ e', expr_eliminate_dups plain_table 200 20 dups_example 3 = Ok (e', 3) ∧
    (size e' ≤ size dups_example)%nat ∧
    (two plain_table dups_example → calc_value plain_table e' = calc_value plain_table dups_example) ∧
    expr_eliminate_dups plain_table 200 20 e' 3 = Ok (e', 3).
Proof.
  split; [vm_compute; reflexivity|].
  apply eliminate_dups_correct; [apply plain_ok|simpl; tauto|simpl; lia|simpl; lia].
Defined.

(** (T || U) && (!T && !U), the example of the comment in the second pass. *)
Definition mod_example : expr :=
  EAnd (EOr (ESymbol 6%positive) (ESymbol 7%positive))
       (EAnd (ENot (ESymbol 6%positive)) (ENot (ESymbol 7%positive))).

(** The second pass of [expr_eliminate_dups] rewrites
    (FOO || BAR) && (!FOO && !BAR) to 'n', as its comment says; with FOO = m
    and BAR = n the value of the expression is 'm', so the value changes. *)
Theorem eliminate_dups_changes_mod :
  table_ok (demo_table true true Tmod Tno) ∧
  expr_eliminate_dups (demo_table true true Tmod Tno) 200 20 mod_example 0 =
    Ok (ESymbol symbol_no, 0) ∧
  calc_value (demo_table true true Tmod Tno) mod_example = Tmod.
Proof. split; [apply demo_table_ok|]. split; vm_compute; reflexivity. Qed.

(** ** Dependencies *)

(** For 'y' and 'n', [expr_trans_compare] builds an expression that tests
    whether the given one (or NULL, which counts as 'y') has that value, when
    no symbol in it has the value 'm'. *)
Theorem trans_compare_correct Sg e sym t equal :
  table_ok Sg → (∀ x, e = Some x → logical_expr Sg x ∧ two Sg x) →
  (sym = symbol_yes ∧ t = Tyes) ∨ (sym = symbol_no ∧ t = Tno) →
  ∃ x, expr_trans_compare e equal sym = Some x ∧
    expr_calc_value Sg (Some x) = test equal (expr_calc_value Sg e) t.
Proof.
  intros HS He Hs. destruct e as [e|].
  - destruct (He e eq_refl). by apply trans_compare_ok.
  - eexists. split; [done|].
    destruct Hs as [[-> ->]|[-> ->]], equal; simpl; by rewrite ?(tb_yes _ HS), ?(tb_no _ HS).
Qed.

Lemma trans_compare_correct_witness :
  ∃ x, expr_trans_compare (Some dups_example) false symbol_no = Some x ∧
    expr_calc_value plain_table (Some x) = Tyes.
Proof.
  apply (trans_compare_correct plain_table (Some dups_example) symbol_no Tno false plain_ok).
  - intros x [= <-]. split; simpl; unfold logical; vm_compute; intuition congruence.
  - right; split; reflexivity.
Defined.

(** The value of an expression depends only on the symbols
    [expr_contains_symbol] finds in it, and if [expr_depends_symbol] says that
    a logical expression depends on a symbol, the expression is 'n' whenever
    the symbol is. *)
Theorem dependency_tests Sg Sg' e s :
  table_ok Sg → logical_expr Sg e →
  (∀ x, expr_contains_symbol e x = true → Sg x = Sg' x) →
  calc_value Sg e = calc_value Sg' e ∧
  (expr_depends_symbol e s = true → s_tri (Sg s) = Tno → calc_value Sg e = Tno).
Proof.
  intros HS Hl Hc. split; [by apply contains_ok|]. intros Hd Hs.
  destruct (decide (calc_value Sg e = Tno)) as [?|Hn]; [done|].
  by destruct (depends_ok Sg HS e s Hl Hd Hn).
Qed.

Definition dep_example : expr := EAnd (EUnequal 6%positive symbol_no) (ESymbol 4%positive).
Lemma dependency_tests_witness :
  calc_value (demo_table true true Tmod Tyes) dep_example =
    calc_value (demo_table true false Tmod Tno) dep_example ∧
  expr_depends_symbol dep_example 6%positive = true.
Proof.
  split; [|reflexivity].
  apply (dependency_tests (demo_table true true Tmod Tyes) (demo_table true false Tmod Tno)
    dep_example 6%positive (demo_table_ok _ _ _ _)).
  - vm_compute. tauto.
  - intros x Hx. simpl in Hx.
    apply orb_prop in Hx as [Hx|Hx]; [apply orb_prop in Hx as [Hx|Hx]|];
      apply bool_decide_eq_true in Hx as <-; reflexivity.
Defined.

(** [expr_free] gives back every node of an expression but the negations,
    which it leaks. *)
Theorem free_leaks_negations e :
  dep e → (expr_free e + negations e = size e)%nat.
Proof. apply free_leaks. Qed.

Lemma free_leaks_negations_witness : (expr_free transform_example + 2 = size transform_example)%nat.
Proof. apply (free_leaks_negations transform_example). simpl. tauto. Defined.
