(* ===== verification/CString.v ===== *)
(** * Characters and strings of C

    Bytes of a string, and the functions of <string.h>, <ctype.h> and
    <stdlib.h> that the build tools use. *)

From stdpp Require Import base numbers list option strings.
From Stdlib Require Import Ascii.
From S2P Require Import Prelude.
Local Open Scope Z_scope.

Definition bytes (s : string) : list Z := (λ a, Z.of_nat (nat_of_ascii a)) <$> String.list_ascii_of_string s.
(** The bytes of a C string before its NUL. *)
Fixpoint cstr (l : list Z) : list Z :=
  match l with
  | [] => []
  | c :: l' => if bool_decide (c = 0) then [] else c :: cstr l'
  end.
Definition streq (l : list Z) (s : string) : bool := bool_decide (cstr l = bytes s).
Fixpoint is_prefix (p l : list Z) : bool :=
  match p, l with
  | [], _ => true
  | a :: p', b :: l' => bool_decide (a = b) && is_prefix p' l'
  | _ :: _, [] => false
  end.
Fixpoint is_infix (p l : list Z) : bool :=
  is_prefix p l || match l with [] => false | _ :: l' => is_infix p l' end.
Definition strstr (l : list Z) (s : string) : bool := is_infix (bytes s) (cstr l).
Definition toupper (c : Z) : Z := if bool_decide (97 ≤ c ≤ 122) then c - 32 else c.

(** ** Characters *)

Definition isspace (c : Z) : bool := bool_decide (c = 32) || bool_decide (9 ≤ c ≤ 13).
Definition isdigit (c : Z) : bool := bool_decide (48 ≤ c ≤ 57).
Definition isalpha (c : Z) : bool := bool_decide (65 ≤ c ≤ 90) || bool_decide (97 ≤ c ≤ 122).
Definition isalnum (c : Z) : bool := isalpha c || isdigit c.
Definition tolower (c : Z) : Z := if bool_decide (65 ≤ c ≤ 90) then c + 32 else c.

(** ** Numbers *)

Definition digit_of (c : Z) : option Z :=
  if isdigit c then Some (c - 48)
  else if bool_decide (97 ≤ c ≤ 122) then Some (c - 87)
  else if bool_decide (65 ≤ c ≤ 90) then Some (c - 55)
  else None.
Fixpoint digits (base acc : Z) (l : list Z) : Z * list Z :=
  match l with
  | [] => (acc, l)
  | c :: l' =>
      match digit_of c with
      | Some d => if bool_decide (d < base) then digits base (acc * base + d) l' else (acc, l)
      | None => (acc, l)
      end
  end.
Definition is_hex (l : list Z) : bool :=
  match l with
  | 48 :: x :: d :: _ =>
      (bool_decide (x = 120) || bool_decide (x = 88)) &&
      match digit_of d with Some v => bool_decide (v < 16) | None => false end
  | _ => false
  end.
Fixpoint drop_spaces (l : list Z) : list Z :=
  match l with [] => [] | c :: l' => if isspace c then drop_spaces l' else l end.
Definition clamp (z : Z) : Z := Z.max INT_MIN (Z.min INT_MAX z).
(** [strtol] with base 10 or 16, of a 32-bit [long]. *)
Definition strtol_base (base : Z) (l : list Z) : Z :=
  let l1 := drop_spaces l in
  let '(neg, l2) := match l1 with
                    | 45 :: r => (true, r)
                    | 43 :: r => (false, r)
                    | _ => (false, l1)
                    end in
  let l3 := if bool_decide (base = 16) && is_hex l2 then drop 2 l2 else l2 in
  let v := fst (digits base 0 l3) in
  clamp (if neg then - v else v).

(** ** Printed numbers *)

Definition digit_char (d : Z) : ascii := ascii_of_nat (Z.to_nat (if bool_decide (d < 10) then 48 + d else 87 + d)).
(** At most [fuel] digits. *)
Fixpoint num_string (base : Z) (fuel : nat) (z : Z) : string :=
  match fuel with
  | O => EmptyString
  | S fuel' =>
      ((if bool_decide (z < base) then EmptyString else num_string base fuel' (z / base)) +:+
       String (digit_char (z mod base)) EmptyString)%string
  end.
(** [%d] and [0x%x] of an [int]. *)
Definition print_d (z : Z) : string :=
  if bool_decide (z < 0) then String "-" (num_string 10 11 (- z)) else num_string 10 11 z.
Definition print_x (z : Z) : string := ("0x" +:+ num_string 16 8 (wrapu32 z))%string.

Lemma bytes_app s t : bytes (s +:+ t) = bytes s ++ bytes t.
Proof. induction s as [|a s IH]; [done|]. change (String a s +:+ t) with (String a (s +:+ t)). unfold bytes in *. cbn [String.list_ascii_of_string fmap list_fmap app]. f_equal. apply IH. Qed.

Lemma digit_char_ok base d : 2 ≤ base ≤ 16 → 0 ≤ d < base →
  digit_of (Z.of_nat (nat_of_ascii (digit_char d))) = Some d.
Proof.
  intros Hb Hd. assert (Forall (λ x, digit_of (Z.of_nat (nat_of_ascii (digit_char (Z.of_nat x)))) = Some (Z.of_nat x)) (seq 0 16))
    as H by (by repeat constructor). rewrite Forall_forall in H.
  specialize (H (Z.to_nat d)). rewrite Z2Nat.id in H by lia. apply H, elem_of_seq. lia.
Qed.

(** The digits of a printed number are read back. *)
Lemma digits_num base fuel : 2 ≤ base ≤ 16 → ∀ z acc rest, 0 ≤ z < base ^ Z.of_nat fuel → (0 < fuel)%nat →
  ∃ k, 0 < k ∧ digits base acc (bytes (num_string base fuel z) ++ rest) = digits base (acc * base ^ k + z) rest.
Proof.
  intros Hb. induction fuel as [|fuel IH]; intros z acc rest Hz Hf; [lia|]. cbn [num_string].
  rewrite bytes_app, <- app_assoc. pose proof (Z.mod_pos_bound z base ltac:(lia)) as Hm.
  assert (∀ a, digits base a (bytes (String (digit_char (z mod base)) EmptyString) ++ rest) =
    digits base (a * base + z mod base) rest) as Hlast.
  { intros a. simpl. rewrite (digit_char_ok base) by lia. by rewrite bool_decide_true by lia. }
  case_bool_decide as H.
  - exists 1. split; [lia|]. rewrite Z.pow_1_r, Z.mod_small in * by lia. simpl. apply Hlast.
  - assert (0 ≤ z / base < base ^ Z.of_nat fuel) as Hq.
    { split; [apply Z.div_pos; lia|]. apply Z.div_lt_upper_bound; [lia|].
      rewrite Nat2Z.inj_succ, Z.pow_succ_r in Hz by lia. lia. }
    destruct fuel as [|fuel]; [simpl in Hq; pose proof (Z.div_str_pos z base); lia|].
    destruct (IH (z / base) acc (bytes (String (digit_char (z mod base)) EmptyString) ++ rest) Hq) as (k & Hk & E); [lia|].
    exists (k + 1). split; [lia|]. rewrite E, Hlast. f_equal. rewrite Z.pow_add_r, Z.pow_1_r by lia.
    pose proof (Z.div_mod z base ltac:(lia)). lia.
Qed.
Lemma digits_num_end base fuel z : 2 ≤ base ≤ 16 → 0 ≤ z < base ^ Z.of_nat fuel → (0 < fuel)%nat →
  digits base 0 (bytes (num_string base fuel z)) = (z, []).
Proof.
  intros Hb Hz Hf. destruct (digits_num base fuel Hb z 0 [] Hz Hf) as (k & Hk & E). rewrite app_nil_r in E.
  rewrite E. simpl. by rewrite Z.add_0_l.
Qed.

(** The first character of a printed number is a digit. *)
Lemma num_string_head base fuel z : 2 ≤ base ≤ 16 → 0 ≤ z < base ^ Z.of_nat fuel → (0 < fuel)%nat →
  ∃ c r, bytes (num_string base fuel z) = c :: r ∧ (48 ≤ c ≤ 57 ∨ 97 ≤ c).
Proof.
  intros Hb. revert z. induction fuel as [|fuel IH]; intros z Hz Hf; [lia|]. cbn [num_string]. rewrite bytes_app.
  pose proof (Z.mod_pos_bound z base ltac:(lia)) as Hm. case_bool_decide as H.
  - eexists _, _. split; [done|]. rewrite Z.mod_small by lia.
    unfold digit_char. case_bool_decide; rewrite nat_ascii_embedding by lia; lia.
  - assert (0 ≤ z / base < base ^ Z.of_nat fuel) as Hq.
    { split; [apply Z.div_pos; lia|]. apply Z.div_lt_upper_bound; [lia|].
      rewrite Nat2Z.inj_succ, Z.pow_succ_r in Hz by lia. lia. }
    destruct fuel as [|fuel]; [simpl in Hq; pose proof (Z.div_str_pos z base); lia|].
    destruct (IH (z / base) Hq ltac:(lia)) as (c & r & E & Hc). rewrite E. by eexists _, _.
Qed.

Lemma strtol_print_d z : int_range z → strtol_base 10 (bytes (print_d z)) = z.
Proof.
  unfold_ranges. intros Hz. unfold print_d.
  assert (∀ y, 0 ≤ y ≤ 2 ^ 31 → digits 10 0 (bytes (num_string 10 11 y)) = (y, [])) as Hd
    by (intros; apply digits_num_end; lia).
  case_bool_decide as H.
  - change (bytes (String "-" ?s)) with (45 :: bytes s). unfold strtol_base. cbn [drop_spaces].
    change (isspace 45) with false. cbv iota. rewrite bool_decide_false by done. cbn [andb]. rewrite Hd by lia. unfold clamp. unfold_ranges. simpl fst. lia.
  - destruct (num_string_head 10 11 z) as (c & r & E & Hc); [lia..|]. specialize (Hd z ltac:(lia)). rewrite E in *.
    unfold strtol_base. cbn [drop_spaces]. unfold isspace. rewrite !bool_decide_false by lia. cbn [orb andb].
    assert (c ≠ 45 ∧ c ≠ 43) as [H45 H43] by lia.
    assert (match c with 45 => (true, r) | 43 => (false, r) | _ => (false, c :: r) end = (false, c :: r)) as Em.
    { destruct (decide (c = 45)); [done|]. destruct (decide (c = 43)); [done|]. by repeat (case_match; try done). }
    rewrite Em, Hd. unfold clamp. unfold_ranges. simpl fst. lia.
Qed.

Lemma digits_start base c r z : digits base 0 (c :: r) = (z, []) → ∃ d, digit_of c = Some d ∧ d < base.
Proof. cbn [digits]. destruct (digit_of c) as [d|]; [|done]. case_bool_decide; [eauto|done]. Qed.
Lemma strtol_print_x z : 0 ≤ z ≤ INT_MAX → strtol_base 16 (bytes (print_x z)) = z.
Proof.
  unfold_ranges. intros Hz. unfold print_x. assert (wrapu32 z = z) as -> by (unfold wrapu32; apply Z.mod_small; lia).
  pose proof (digits_num_end 16 8 z ltac:(lia) ltac:(lia) ltac:(lia)) as Hd.
  destruct (num_string_head 16 8 z) as (c & r & E & _); [lia..|]. rewrite E in Hd.
  destruct (digits_start _ _ _ _ Hd) as (d & Ed & Hlt). rewrite bytes_app, E. change (bytes "0x") with [48; 120]. cbn [app].
  unfold strtol_base. cbn [drop_spaces]. change (isspace 48) with false. cbv beta iota zeta. unfold is_hex. rewrite Ed.
  rewrite !bool_decide_true by done. cbn [andb orb drop]. rewrite bool_decide_true by done. rewrite Hd. unfold clamp. unfold_ranges. simpl fst. lia.
Qed.
