(* ===== verification/Kallsyms.v ===== *)
(** * Symbol table compression of the kernel build
      (Vm/linux-2.6.19/scripts/kallsyms.c)

    kallsyms reads the symbols of the kernel, replaces frequent pairs of bytes
    by codes that no symbol uses, and writes the compressed names with the
    table of the codes as an assembler file.

    The static variables are the record [kstate].  The blocks the names lie in
    are lists of bytes with their capacity, and every access to them is
    checked.  The arrays [token_profit], [best_table] and [best_table_len] are
    zero where nothing was stored.  [FILE *in] is the sequence of what
    [fscanf] finds; the output is the sequence of the printed lines. *)

From stdpp Require Import base numbers list option strings gmap.
From Stdlib Require Import Ascii.
From S2P Require Import Prelude CString.
Local Open Scope Z_scope.
Local Open Scope c_scope.

(** ** Strings *)

Definition KSYM_NAME_LEN : nat := 127.

(** ** Data *)

Record sym_entry := SymEntry {
  addr : Z;
  len : nat;
  sym : list Z }.   (* the block: type, name, NUL *)

Record kstate := KState {
  table : list sym_entry;
  table_size : nat;
  table_cnt : nat;
  _stext : Z; _etext : Z; _sinittext : Z; _einittext : Z; _sextratext : Z; _eextratext : Z;
  all_symbols : bool;
  symbol_prefix_char : Z;
  token_profit : gmap Z Z;
  best_table : gmap Z (Z * Z);
  best_table_len : gmap Z nat }.

Definition init_state : kstate :=
  KState [] 0 0 0 0 0 0 0 0 false 0 ∅ ∅ ∅.

Definition set_table (t : list sym_entry) (s : kstate) : kstate :=
  KState t (table_size s) (table_cnt s) (_stext s) (_etext s) (_sinittext s) (_einittext s)
    (_sextratext s) (_eextratext s) (all_symbols s) (symbol_prefix_char s)
    (token_profit s) (best_table s) (best_table_len s).
Definition set_sizes (size cnt : nat) (s : kstate) : kstate :=
  KState (table s) size cnt (_stext s) (_etext s) (_sinittext s) (_einittext s)
    (_sextratext s) (_eextratext s) (all_symbols s) (symbol_prefix_char s)
    (token_profit s) (best_table s) (best_table_len s).
Definition set_profit (m : gmap Z Z) (s : kstate) : kstate :=
  KState (table s) (table_size s) (table_cnt s) (_stext s) (_etext s) (_sinittext s) (_einittext s)
    (_sextratext s) (_eextratext s) (all_symbols s) (symbol_prefix_char s)
    m (best_table s) (best_table_len s).
Definition set_best (b : gmap Z (Z * Z)) (l : gmap Z nat) (s : kstate) : kstate :=
  KState (table s) (table_size s) (table_cnt s) (_stext s) (_etext s) (_sinittext s) (_einittext s)
    (_sextratext s) (_eextratext s) (all_symbols s) (symbol_prefix_char s)
    (token_profit s) b l.
Definition set_options (all : bool) (prefix : Z) (s : kstate) : kstate :=
  KState (table s) (table_size s) (table_cnt s) (_stext s) (_etext s) (_sinittext s) (_einittext s)
    (_sextratext s) (_eextratext s) all prefix
    (token_profit s) (best_table s) (best_table_len s).

(** The limits of the text sections, by the name of the symbol. *)
Definition set_limit (name : list Z) (a : Z) (s : kstate) : option kstate :=
  let with_limits st et si ei sx ex :=
    Some (KState (table s) (table_size s) (table_cnt s) st et si ei sx ex
      (all_symbols s) (symbol_prefix_char s) (token_profit s) (best_table s) (best_table_len s)) in
  if streq name "_stext" then with_limits a (_etext s) (_sinittext s) (_einittext s) (_sextratext s) (_eextratext s)
  else if streq name "_etext" then with_limits (_stext s) a (_sinittext s) (_einittext s) (_sextratext s) (_eextratext s)
  else if streq name "_sinittext" then with_limits (_stext s) (_etext s) a (_einittext s) (_sextratext s) (_eextratext s)
  else if streq name "_einittext" then with_limits (_stext s) (_etext s) (_sinittext s) a (_sextratext s) (_eextratext s)
  else if streq name "_sextratext" then with_limits (_stext s) (_etext s) (_sinittext s) (_einittext s) a (_eextratext s)
  else if streq name "_eextratext" then with_limits (_stext s) (_etext s) (_sinittext s) (_einittext s) (_sextratext s) a
  else None.

Definition profit (m : gmap Z Z) (t : Z) : Z := default 0 (m !! t).
Definition entry (m : gmap Z (Z * Z)) (c : Z) : Z * Z := default (0, 0) (m !! c).
Definition entry_len (m : gmap Z nat) (c : Z) : nat := default 0%nat (m !! c).

(** ** Reading *)

(** [str] is a C string in a larger array that was not initialised. *)
Definition is_arm_mapping_symbol (str : list Z) : res bool :=
  let at_ (i : nat) (k : Z → res bool) :=
    match (str ++ [0]) !! i with Some c => k c | None => Err UninitRead end in
  at_ 0%nat (λ c0, if bool_decide (c0 ≠ 36) then Ok false else
  at_ 1%nat (λ c1,
    (* strchr also finds the NUL *)
    if bool_decide (c1 ∉ bytes "atd" ++ [0]) then Ok false else
  at_ 2%nat (λ c2, Ok (bool_decide (c2 = 0) || bool_decide (c2 = 46))))).

(** What one call of [fscanf] finds: the three fields, or something else. *)
Inductive scan := Fields (a : Z) (stype : Z) (str : list Z) | NoFields.

(** [None] is the result -1. *)
Definition read_symbol (i : scan) (s : kstate) : res (option sym_entry * kstate) :=
  match i with
  | NoFields => Ok (None, s)
  | Fields a stype str =>
      let name := match str with
                  | c :: rest =>
                      if bool_decide (symbol_prefix_char s ≠ 0) && bool_decide (c = symbol_prefix_char s)
                      then rest else str
                  | [] => str
                  end in
      let entry_ := SymEntry a (S (length str)) (stype :: str ++ [0]) in
      match set_limit name a s with
      | Some s' => Ok (Some entry_, s')
      | None =>
          if bool_decide (toupper stype = 65) then
            if negb (streq name "__kernel_syscall_via_break") && negb (streq name "__kernel_syscall_via_epc") &&
               negb (streq name "__kernel_sigtramp") && negb (streq name "__gp")
            then Ok (None, s) else Ok (Some entry_, s)
          else if bool_decide (toupper stype = 85) then Ok (None, s)
          else rbind (is_arm_mapping_symbol name) (λ arm,
               if (arm : bool) || bool_decide (head str = Some 36) then Ok (None, s)
               else Ok (Some entry_, s))
      end
  end.

(** A slot of the table that was not written yet is no entry of the list. *)
Fixpoint read_map (input : list scan) (s : kstate) : res kstate :=
  match input with
  | [] => Ok s
  | i :: input' =>
      let s1 := if bool_decide (table_size s ≤ table_cnt s)%nat
                then set_sizes (table_size s + 100 * 100) (table_cnt s) s else s in
      rbind (read_symbol i s1) (λ '(o, s2),
      match o with
      | Some e =>
          read_map input' (set_sizes (table_size s2) (S (table_cnt s2)) (set_table (table s2 ++ [e]) s2))
      | None => read_map input' s2
      end)
  end.

(** ** Choice of the symbols *)

Definition special_symbols : list string :=
  ["kallsyms_addresses"; "kallsyms_num_syms"; "kallsyms_names"; "kallsyms_markers";
   "kallsyms_token_table"; "kallsyms_token_index"; "_SDA_BASE_"; "_SDA2_BASE_"]%string.

(** An [unsigned char] of the entry is compared with the [char], which is
    signed, so that a prefix of 128 or more is never found. *)
Definition symbol_valid (s : kstate) (e : sym_entry) : bool :=
  let offset := if bool_decide (symbol_prefix_char s ≠ 0) && bool_decide (sym e !! 1%nat = Some (wrap8 (symbol_prefix_char s)))
                then 2%nat else 1%nat in
  let name := drop offset (sym e) in
  let a := addr e in
  if negb (all_symbols s) &&
     (bool_decide (a < _stext s) || bool_decide (a > _etext s)) &&
     (bool_decide (a < _sinittext s) || bool_decide (a > _einittext s)) &&
     (bool_decide (a < _sextratext s) || bool_decide (a > _eextratext s)) then false
  else if negb (all_symbols s) &&
     ((bool_decide (a = _etext s) && negb (streq name "_etext")) ||
      (bool_decide (a = _einittext s) && negb (streq name "_einittext")) ||
      (bool_decide (a = _eextratext s) && negb (streq name "_eextratext"))) then false
  else if strstr name "_compiled." then false
  else negb (existsb (streq name) special_symbols).

(** ** Counting pairs *)

Definition tok (a b : Z) : Z := a + Z.shiftl b 8.

(** [k] steps from index [i], adding [d]. *)
Fixpoint count_pairs (d : Z) (symbol : list Z) (k i : nat) (m : gmap Z Z) : res (gmap Z Z) :=
  match k with
  | O => Ok m
  | S k' =>
      match symbol !! i, symbol !! S i with
      | Some a, Some b => count_pairs d symbol k' (S i) (<[tok a b := profit m (tok a b) + d]> m)
      | _, _ => Err OutOfBounds
      end
  end.
Definition learn_symbol (symbol : list Z) (len : nat) : gmap Z Z → res (gmap Z Z) :=
  count_pairs 1 symbol (len - 1) 0.
Definition forget_symbol (symbol : list Z) (len : nat) : gmap Z Z → res (gmap Z Z) :=
  count_pairs (-1) symbol (len - 1) 0.

(** The loop from [i] on, [k] entries left. *)
Fixpoint build_loop (valid : sym_entry → bool) (k i pos : nat) (t : list sym_entry) (m : gmap Z Z)
    : res (nat * list sym_entry * gmap Z Z) :=
  match k with
  | O => Ok (pos, t, m)
  | S k' =>
      match t !! i with
      | None => Err OutOfBounds
      | Some e =>
          if valid e then
            let t' := if bool_decide (pos ≠ i) then <[pos := e]> t else t in
            match t' !! pos with
            | None => Err OutOfBounds
            | Some e' =>
                rbind (learn_symbol (sym e') (len e') m) (λ m', build_loop valid k' (S i) (S pos) t' m')
            end
          else build_loop valid k' (S i) pos t m
      end
  end.
Definition build_initial_tok_table (s : kstate) : res kstate :=
  rbind (build_loop (symbol_valid s) (table_cnt s) 0 0 (table s) (token_profit s)) (λ '(pos, t, m),
  Ok (set_profit m (set_sizes (table_size s) pos (set_table t s)))).

(** ** Replacing a pair *)

(** The first place of the pair in a list. *)
Fixpoint find_pair (c0 c1 : Z) (l : list Z) : option nat :=
  match l with
  | [] => None
  | a :: l' =>
      if bool_decide (a = c0) && bool_decide (head l' = Some c1) then Some 0%nat
      else S <$> find_pair c0 c1 l'
  end.
(** [memmem] for two bytes in the [size] bytes from [p]: the index in the block. *)
Definition memmem (block : list Z) (p size : nat) (str : Z * Z) : res (option nat) :=
  if bool_decide (p + size ≤ length block)%nat
  then Ok (Nat.add p <$> find_pair (fst str) (snd str) (take size (drop p block)))
  else Err OutOfBounds.
Definition memmove (block : list Z) (dst src n : nat) : res (list Z) :=
  if bool_decide (dst + n ≤ length block ∧ src + n ≤ length block)%nat
  then Ok (take dst block ++ take n (drop src block) ++ drop (dst + n) block)
  else Err OutOfBounds.
Definition store (block : list Z) (p : nat) (v : Z) : res (list Z) :=
  if bool_decide (p < length block)%nat then Ok (<[p := v]> block) else Err OutOfBounds.

(** The do loop: the block and the length it ends with. *)
Fixpoint replace_loop (fuel : nat) (str : Z * Z) (idx : Z) (block : list Z) (p1 p2 size len : nat)
    : res (list Z * nat) :=
  match fuel with
  | O => Err NoFuel
  | S fuel' =>
      rbind (store block p2 idx) (λ b1,
      let p2' := S p2 in
      let size' := (size - (p2' - p1))%nat in
      rbind (memmove b1 p2' (S p2') size') (λ b2,
      let len' := (len - 1)%nat in
      if bool_decide (size' < 2)%nat then Ok (b2, len')
      else rbind (memmem b2 p2' size' str) (λ found,
           match found with
           | Some p => replace_loop fuel' str idx b2 p2' p size' len'
           | None => Ok (b2, len')
           end)))
  end.

Definition compress_symbol (str : Z * Z) (idx : Z) (e : sym_entry) (m : gmap Z Z)
    : res (sym_entry * gmap Z Z) :=
  rbind (memmem (sym e) 0 (len e) str) (λ found,
  match found with
  | None => Ok (e, m)
  | Some p2 =>
      rbind (forget_symbol (sym e) (len e) m) (λ m1,
      rbind (replace_loop (len e) str idx (sym e) 0 p2 (len e) (len e)) (λ '(block, len'),
      rbind (learn_symbol block len' m1) (λ m2,
      Ok (SymEntry (addr e) len' block, m2))))
  end).

(** The entries from [i] on, [k] of them. *)
Fixpoint compress_loop (str : Z * Z) (idx : Z) (k i : nat) (t : list sym_entry) (m : gmap Z Z)
    : res (list sym_entry * gmap Z Z) :=
  match k with
  | O => Ok (t, m)
  | S k' =>
      match t !! i with
      | None => Err OutOfBounds
      | Some e => rbind (compress_symbol str idx e m) (λ '(e', m'),
                  compress_loop str idx k' (S i) (<[i := e']> t) m')
      end
  end.
Definition compress_symbols (str : Z * Z) (idx : Z) (s : kstate) : res kstate :=
  rbind (compress_loop str idx (table_cnt s) 0 (table s) (token_profit s)) (λ '(t, m),
  Ok (set_profit m (set_table t s))).

(** ** The table of codes *)

Definition best_step (m : gmap Z Z) (b : Z * Z) (i : Z) : Z * Z :=
  if bool_decide (snd b < profit m i) then (i, profit m i) else b.
Definition find_best_token (m : gmap Z Z) : Z :=
  fst (foldl (best_step m) (0, -10000) (seqZ 0 0x10000)).

Definition optimize_slot (i : Z) (s : kstate) : res kstate :=
  if bool_decide (entry_len (best_table_len s) i = 0%nat) then
    let best := find_best_token (token_profit s) in
    let str := (Z.land best 0xFF, Z.land (Z.shiftr best 8) 0xFF) in
    compress_symbols str i
      (set_best (<[i := str]> (best_table s)) (<[i := 2%nat]> (best_table_len s)) s)
  else Ok s.
(** From slot [k - 1] down to 0. *)
Fixpoint optimize_loop (k : nat) (s : kstate) : res kstate :=
  match k with
  | O => Ok s
  | S k' => rbind (optimize_slot (Z.of_nat k') s) (optimize_loop k')
  end.
Definition optimize_result : kstate → res kstate := optimize_loop 256.

Definition insert_char (b : gmap Z (Z * Z) * gmap Z nat) (c : Z) : gmap Z (Z * Z) * gmap Z nat :=
  (<[c := (c, snd (entry (fst b) c))]> (fst b), <[c := 1%nat]> (snd b)).
Definition insert_real_symbols_in_table (s : kstate) : kstate :=
  let b := foldl (λ b e, foldl insert_char b (take (len e) (sym e))) (∅, ∅)
             (take (table_cnt s) (table s)) in
  set_best (fst b) (snd b) s.

(** The result, or the exit code. *)
Definition optimize_token_table (s : kstate) : res (kstate + Z) :=
  rbind (build_initial_tok_table s) (λ s1,
  let s2 := insert_real_symbols_in_table s1 in
  if bool_decide (table_cnt s2 = 0%nat) then Ok (inr 1)
  else rbind (optimize_result s2) (λ s3, Ok (inl s3))).

(** ** Output *)

(** [fuel] bounds the depth of the recursion. *)
Fixpoint expand_symbol (fuel : nat) (b : gmap Z (Z * Z)) (bl : gmap Z nat) (data : list Z) : res (list Z) :=
  match fuel with
  | O => Err NoFuel
  | S fuel' =>
      (fix go (data : list Z) : res (list Z) :=
         match data with
         | [] => Ok []
         | c :: data' =>
             rbind (if bool_decide (fst (entry b c) = c) && bool_decide (entry_len bl c = 1%nat)
                    then Ok [c]
                    else expand_symbol fuel' b bl
                           (take (entry_len bl c) [fst (entry b c); snd (entry b c)])) (λ x,
             rbind (go data') (λ y, Ok (x ++ y)))
         end) data
  end.

(** The printed lines. *)
Inductive out :=
  | Text (s : string)
  | Globl (prefix : option Z) (label : string)
  | Label (prefix : option Z) (label : string)
  | PtrHex (a : Z)
  | PtrDec (n : Z)
  | Bytes (l : list Z)
  | Asciz (l : list Z)
  | Short (n : Z).

Definition output_label (s : kstate) (label : string) : list out :=
  let prefix := if bool_decide (symbol_prefix_char s ≠ 0) then Some (symbol_prefix_char s) else None in
  [Globl prefix label; Text "ALGN"; Label prefix label].

(** The names: entries from index [i] on; [markers] grows with every 256th. *)
Fixpoint write_names (i : Z) (off : Z) (l : list sym_entry) : list out * list Z :=
  match l with
  | [] => ([], [])
  | e :: l' =>
      let r := write_names (i + 1) (wrapu32 (off + Z.of_nat (len e) + 1)) l' in
      (Bytes (Z.of_nat (len e) :: take (len e) (sym e)) :: fst r,
       if bool_decide (Z.land i 0xFF = 0) then off :: snd r else snd r)
  end.

(** The tokens of the codes [cs]; [buf] has room for KSYM_NAME_LEN bytes and a NUL. *)
Fixpoint write_tokens (fuel : nat) (s : kstate) (off : Z) (cs : list Z) : res (list out * list Z) :=
  match cs with
  | [] => Ok ([], [])
  | c :: cs' =>
      rbind (expand_symbol fuel (best_table s) (best_table_len s)
               (take (entry_len (best_table_len s) c) [fst (entry (best_table s) c); snd (entry (best_table s) c)])) (λ buf,
      if bool_decide (KSYM_NAME_LEN < length buf)%nat then Err OutOfBounds
      else rbind (write_tokens fuel s (wrapu32 (off + Z.of_nat (length (cstr buf)) + 1)) cs') (λ r,
           Ok (Asciz (cstr buf) :: fst r, off :: snd r)))
  end.

Definition write_src (fuel : nat) (s : kstate) : res (list out) :=
  let entries := take (table_cnt s) (table s) in
  let names := write_names 0 0 entries in
  rbind (write_tokens fuel s 0 (seqZ 0 256)) (λ tokens,
  Ok ((Text <$> ["#include <asm/types.h>"; "#if BITS_PER_LONG == 64"; "#define PTR .quad";
         "#define ALGN .align 8"; "#else"; "#define PTR .long"; "#define ALGN .align 4";
         "#endif"; ".data"]%string) ++
      output_label s "kallsyms_addresses" ++ (PtrHex ∘ addr <$> entries) ++ [Text ""] ++
      output_label s "kallsyms_num_syms" ++ [PtrDec (Z.of_nat (table_cnt s)); Text ""] ++
      output_label s "kallsyms_names" ++ fst names ++ [Text ""] ++
      output_label s "kallsyms_markers" ++ (PtrDec <$> snd names) ++ [Text ""] ++
      output_label s "kallsyms_token_table" ++ fst tokens ++ [Text ""] ++
      output_label s "kallsyms_token_index" ++ (Short <$> snd tokens) ++ [Text ""])).

(** ** The program *)

(** The arguments after the program's name; [None] when [usage] exits. *)
Fixpoint parse_args (args : list (list Z)) (s : kstate) : res (option kstate) :=
  match args with
  | [] => Ok (Some s)
  | a :: args' =>
      if streq a "--all-symbols" then parse_args args' (set_options true (symbol_prefix_char s) s)
      else if is_prefix (bytes "--symbol-prefix=") a then
        let p := drop 16 (a ++ [0]) in
        match p !! 0%nat with
        | None => Err OutOfBounds
        | Some c =>
            if bool_decide (c = 34) || bool_decide (c = 39) then
              match p !! 2%nat with
              | None => Err OutOfBounds
              | Some c2 =>
                  parse_args args' (set_options (all_symbols s)
                    (if bool_decide (c2 = c) then default 0 (p !! 1%nat) else c) s)
              end
            else parse_args args' (set_options (all_symbols s) c s)
        end
      else Ok None
  end.

(** The output, or the exit code. *)
Definition kallsyms_main (fuel : nat) (args : list (list Z)) (input : list scan) : res (list out + Z) :=
  rbind (parse_args args init_state) (λ o,
  match o with
  | None => Ok (inr 1)
  | Some s =>
      rbind (rbind (read_map input s) optimize_token_table) (λ r,
      match r with
      | inr code => Ok (inr code)
      | inl s' => rbind (write_src fuel s') (λ l, Ok (inl l))
      end)
  end).
