(* ===== verification/KallsymsStr.v ===== *)
(** * Replacing and counting pairs (scripts/kallsyms.c)

    [compress_symbols] works in place in blocks whose unused end is zero.  On
    the names it is the function [replace_pair], it stays inside the blocks,
    and [token_profit] remains the number of occurrences of each pair. *)

From stdpp Require Import base numbers list option strings gmap.
From S2P Require Import Prelude CString Kallsyms.
Local Open Scope Z_scope.

(** ** Pairs in a list *)

Definition nonzero (l : list Z) : Prop := Forall (λ c, c ≠ 0) l.
Definition zeros (n : nat) : list Z := replicate n 0.

(** All pairs from left to right replaced by [idx]. *)
Fixpoint replace_pair (c0 c1 idx : Z) (l : list Z) : list Z :=
  match l with
  | [] => []
  | a :: l' =>
      match l' with
      | [] => [a]
      | b :: l'' =>
          if bool_decide (a = c0) && bool_decide (b = c1) then idx :: replace_pair c0 c1 idx l''
          else a :: replace_pair c0 c1 idx l'
      end
  end.

Lemma list_pair_ind (P : list Z → Prop) :
  P [] → (∀ a, P [a]) → (∀ a b l, P l → P (b :: l) → P (a :: b :: l)) → ∀ l, P l.
Proof.
  intros H0 H1 H2 l. enough (P l ∧ ∀ a, P (a :: l)) by tauto.
  induction l as [|b l [IH1 IH2]]; [auto|]. split; [done|]. auto.
Qed.

Lemma replace_cons c0 c1 idx a l :
  bool_decide (a = c0) && bool_decide (head l = Some c1) = false →
  replace_pair c0 c1 idx (a :: l) = a :: replace_pair c0 c1 idx l.
Proof.
  destruct l as [|b l]; [done|]. intros E.
  transitivity (if bool_decide (a = c0) && bool_decide (b = c1) then idx :: replace_pair c0 c1 idx l
                else a :: replace_pair c0 c1 idx (b :: l)); [done|].
  rewrite (bool_decide_ext (b = c1) (Some b = Some c1)) by naive_solver. simpl in E. by rewrite E.
Qed.

Lemma find_pair_some c0 c1 l k :
  find_pair c0 c1 l = Some k →
  ∃ u v, l = u ++ c0 :: c1 :: v ∧ k = length u ∧
    ∀ idx, replace_pair c0 c1 idx l = u ++ idx :: replace_pair c0 c1 idx v.
Proof.
  revert k. induction l as [|a l IH]; intros k; [done|]. cbn [find_pair].
  destruct (bool_decide (a = c0) && bool_decide (head l = Some c1)) eqn:E.
  - intros [= <-]. apply andb_prop in E as [->%bool_decide_eq_true H%bool_decide_eq_true].
    destruct l as [|b l]; [done|]. injection H as ->. exists [], l. split; [done|]. split; [done|].
    intros idx. cbn [replace_pair app]. rewrite !bool_decide_true by done. done.
  - destruct (find_pair c0 c1 l) as [k'|]; [|done]. intros [= <-].
    destruct (IH k' eq_refl) as (u & v & -> & -> & H). exists (a :: u), v. split; [done|]. split; [done|].
    intros idx. by rewrite replace_cons, H.
Qed.

Lemma find_pair_none c0 c1 idx l : find_pair c0 c1 l = None → replace_pair c0 c1 idx l = l.
Proof.
  induction l as [|a l IH]; [done|]. cbn [find_pair].
  destruct (bool_decide (a = c0) && bool_decide (head l = Some c1)) eqn:E; [done|].
  destruct (find_pair c0 c1 l); [done|]. intros _. rewrite replace_cons by done. f_equal. by apply IH.
Qed.

(** The pair is not found in zeros that follow. *)
Lemma find_pair_zeros c0 c1 l n :
  c0 ≠ 0 → c1 ≠ 0 → find_pair c0 c1 (l ++ zeros n) = find_pair c0 c1 l.
Proof.
  intros H0 H1. induction l as [|a l IH].
  - simpl. induction n as [|n IHn]; [done|]. cbn [zeros replicate find_pair].
    rewrite (bool_decide_false (0 = c0)) by done. fold (zeros n). by rewrite IHn.
  - rewrite <- app_comm_cons. cbn [find_pair]. rewrite IH.
    destruct l as [|b l]; [|done]. destruct n as [|n]; [done|]. simpl.
    rewrite (bool_decide_false (Some 0 = Some c1)) by naive_solver.
    done.
Qed.

Lemma find_pair_nonzero c0 c1 l k :
  nonzero l → find_pair c0 c1 l = Some k → c0 ≠ 0 ∧ c1 ≠ 0.
Proof.
  intros Hn (u & v & -> & _)%find_pair_some.
  apply Forall_app in Hn as [_ Hn]. by apply Forall_cons in Hn as [? [? _]%Forall_cons].
Qed.

Lemma replace_length c0 c1 idx l : (length (replace_pair c0 c1 idx l) ≤ length l)%nat.
Proof.
  induction l as [|a|a b l IH1 IH2] using list_pair_ind; [done|done|].
  cbn [replace_pair]. case_match; simpl in *; lia.
Qed.

Lemma replace_nonzero c0 c1 idx l : idx ≠ 0 → nonzero l → nonzero (replace_pair c0 c1 idx l).
Proof.
  intros Hi. induction l as [|a|a b l IH1 IH2] using list_pair_ind; [done|done|].
  intros [Ha [Hb Hl]%Forall_cons]%Forall_cons. cbn [replace_pair].
  case_match; apply Forall_cons; split; try done; [by apply IH1|]. apply IH2. by apply Forall_cons.
Qed.

(** ** The loop of one symbol *)

Lemma replace_loop_ok str idx fuel : ∀ pre rest z r k,
  nonzero rest → fst str ≠ 0 → snd str ≠ 0 → (r < z)%nat → (length rest ≤ fuel)%nat →
  find_pair (fst str) (snd str) rest = Some k →
  let R := replace_pair (fst str) (snd str) idx rest in
  replace_loop fuel str idx (pre ++ rest ++ zeros z) (length pre) (length pre + k)
    (length rest + r) (length pre + length rest) =
  Ok (pre ++ R ++ zeros (z + (length rest - length R)), (length pre + length R)%nat).
Proof.
  destruct str as [c0 c1]; simpl fst; simpl snd.
  induction fuel as [|fuel IH]; intros pre rest z r k Hn H0 H1 Hz Hf Hk R.
  { destruct rest; [done|]. simpl in Hf. lia. }
  destruct (find_pair_some _ _ _ _ Hk) as (u & v & Hrest & Hku & HR).
  assert (length rest = length u + 2 + length v)%nat as Hlen by (subst rest; rewrite length_app; simpl; lia).
  cbn [replace_loop]. unfold store. rewrite bool_decide_true.
  2: { rewrite !length_app. unfold zeros. rewrite length_replicate. lia. }
  cbn [rbind].
  assert (<[(length pre + k)%nat:=idx]> (pre ++ rest ++ zeros z) =
    (pre ++ u ++ [idx]) ++ c1 :: v ++ zeros z) as ->.
  { rewrite insert_app_r, Hku, Hrest, <- !app_assoc. f_equal.
    replace (length u) with (length u + 0)%nat by lia. by rewrite insert_app_r. }
  set (pre' := pre ++ u ++ [idx]).
  assert (S (length pre + k) = length pre') as -> by (unfold pre'; rewrite !length_app; simpl; lia).
  assert (length pre' = length pre + length u + 1)%nat as Hpre' by (unfold pre'; rewrite !length_app; simpl; lia).
  replace (length rest + r - (length pre' - length pre))%nat with (length v + S r)%nat by lia.
  unfold memmove. rewrite bool_decide_true.
  2: { rewrite length_app. simpl. rewrite length_app. unfold zeros. rewrite length_replicate. lia. }
  cbn [rbind].
  assert (take (length pre') (pre' ++ c1 :: v ++ zeros z) ++
      take (length v + S r) (drop (S (length pre')) (pre' ++ c1 :: v ++ zeros z)) ++
      drop (length pre' + (length v + S r)) (pre' ++ c1 :: v ++ zeros z) =
    pre' ++ v ++ zeros (S z)) as ->.
  { rewrite take_app_length. f_equal.
    assert (drop (S (length pre')) (pre' ++ c1 :: v ++ zeros z) = v ++ zeros z) as ->.
    { rewrite <- Nat.add_1_r. rewrite <- drop_drop, drop_app_length. done. }
    rewrite <- drop_drop, drop_app_length.
    replace (length v + S r)%nat with (S (length v + r)) at 2 by lia. cbn [drop].
    rewrite drop_app_add', take_app_add' by done.
    rewrite <- app_assoc. f_equal. unfold zeros. rewrite take_replicate, drop_replicate, <- replicate_add.
    f_equal. lia. }
  replace (length pre + length rest - 1)%nat with (length pre' + length v)%nat by lia.
  assert (R = u ++ idx :: replace_pair c0 c1 idx v) as HR' by apply HR.
  set (Rv := replace_pair c0 c1 idx v) in *.
  assert (length R = length u + 1 + length Rv)%nat as HlR by (rewrite HR', length_app; simpl; lia).
  pose proof (replace_length c0 c1 idx v) as Hlv. fold Rv in Hlv.
  assert (pre ++ R = pre' ++ Rv) as Hpre.
  { unfold pre'. rewrite HR', <- !app_assoc. done. }
  assert (Ok (pre ++ R ++ zeros (z + (length rest - length R)), (length pre + length R)%nat) =
    Ok (pre' ++ Rv ++ zeros (S z + (length v - length Rv)), (length pre' + length Rv)%nat)) as ->.
  { do 2 f_equal; [|lia]. rewrite !(app_assoc _ _ (zeros _)), Hpre. do 2 f_equal. lia. }
  assert (nonzero v) as Hv.
  { subst rest. apply Forall_app in Hn as [_ Hn]. by apply Forall_cons in Hn as [_ [_ ?]%Forall_cons]. }
  assert (v = Rv → Ok (pre' ++ v ++ zeros (S z), (length pre' + length v)%nat) =
    Ok (pre' ++ Rv ++ zeros (S z + (length v - length Rv)), (length pre' + length Rv)%nat)) as Hdone.
  { intros <-. rewrite Nat.sub_diag, Nat.add_0_r. done. }
  case_bool_decide as Hsize.
  { apply Hdone. destruct v; [done|simpl in Hsize; lia]. }
  unfold memmem. rewrite bool_decide_true.
  2: { rewrite !length_app. unfold zeros. rewrite length_replicate. lia. }
  cbn [rbind fst snd].
  assert (take (length v + S r) (drop (length pre') (pre' ++ v ++ zeros (S z))) = v ++ zeros (S r)) as ->.
  { rewrite drop_app_length, take_app_add'; [|done]. f_equal. unfold zeros. rewrite take_replicate. f_equal. lia. }
  rewrite find_pair_zeros by done.
  destruct (find_pair c0 c1 v) as [k'|] eqn:Ek; cbn [fmap option_fmap option_map].
  - apply (IH pre' v (S z) (S r) k'); [done|done|done|lia|lia|done].
  - apply Hdone. symmetry. by apply find_pair_none.
Qed.

(** ** Counting *)

(** The number of occurrences of the pair with the number [t]. *)
Fixpoint occ (t : Z) (l : list Z) : Z :=
  match l with
  | [] => 0
  | a :: l' =>
      match l' with
      | [] => 0
      | b :: _ => (if bool_decide (tok a b = t) then 1 else 0) + occ t l'
      end
  end.

Lemma occ_cons t a b l :
  occ t (a :: b :: l) = (if bool_decide (tok a b = t) then 1 else 0) + occ t (b :: l).
Proof. done. Qed.

Lemma occ_nonneg t l : 0 ≤ occ t l.
Proof.
  induction l as [|a|a b l IH1 IH2] using list_pair_ind; [done|done|].
  rewrite occ_cons. case_bool_decide; lia.
Qed.

Lemma profit_insert m t t' v :
  profit (<[t := v]> m) t' = if bool_decide (t = t') then v else profit m t'.
Proof.
  unfold profit. case_bool_decide as H; [subst; by rewrite lookup_insert_eq|by rewrite lookup_insert_ne].
Qed.

Lemma count_pairs_ok d : ∀ l pre post m,
  ∃ m', count_pairs d (pre ++ l ++ post) (length l - 1) (length pre) m = Ok m' ∧
    ∀ t, profit m' t = profit m t + d * occ t l.
Proof.
  induction l as [|a|a b l IH1 IH2] using list_pair_ind; intros pre post m.
  - exists m. split; [done|]. intros t. simpl. lia.
  - exists m. split; [done|]. intros t. simpl. lia.
  - replace (length (a :: b :: l) - 1)%nat with (S (length (b :: l) - 1)) by (simpl; lia).
    cbn [count_pairs].
    assert (∀ i, (pre ++ (a :: b :: l) ++ post) !! (length pre + i)%nat = ((a :: b :: l) ++ post) !! i) as Hi.
    { intros i. rewrite lookup_app_r by lia. f_equal. lia. }
    pose proof (Hi 0%nat) as H0. pose proof (Hi 1%nat) as H1. rewrite Nat.add_0_r in H0.
    rewrite Nat.add_1_r in H1. rewrite H0, H1. simpl lookup.
    destruct (IH2 (pre ++ [a]) post (<[tok a b:=profit m (tok a b) + d]> m)) as (m' & E & H).
    exists m'. split.
    + rewrite <- E, length_app, Nat.add_1_r. f_equal. by rewrite <- app_assoc.
    + intros t. rewrite H, profit_insert, occ_cons.
      case_bool_decide; [subst; lia|lia].
Qed.

(** ** One symbol *)

Definition content (e : sym_entry) : list Z := take (len e) (sym e).
(** The name lies in its block and the rest of the block is zero. *)
Definition in_block (e : sym_entry) : Prop := ∃ z, sym e = content e ++ zeros (S z).
Definition entry_ok (e : sym_entry) : Prop := in_block e ∧ nonzero (content e).

Lemma in_block_len e : in_block e → length (content e) = len e.
Proof.
  intros [z H]. unfold content in *. rewrite length_take. apply (f_equal length) in H.
  rewrite length_app, length_take in H. unfold zeros in H. rewrite length_replicate in H. lia.
Qed.
Lemma content_of a l z : content (SymEntry a (length l) (l ++ zeros z)) = l.
Proof. unfold content. simpl. by rewrite take_app_length. Qed.

Lemma count_content d e m :
  in_block e → ∃ m', count_pairs d (sym e) (len e - 1) 0 m = Ok m' ∧
    ∀ t, profit m' t = profit m t + d * occ t (content e).
Proof.
  intros He. pose proof (in_block_len e He) as Hl. destruct He as [z Hz].
  destruct (count_pairs_ok d (content e) [] (zeros (S z)) m) as (m' & E & H).
  exists m'. split; [|done]. rewrite <- E. simpl app. rewrite <- Hz, Hl. done.
Qed.

Lemma compress_symbol_ok str idx e m :
  entry_ok e → ∃ e' m', compress_symbol str idx e m = Ok (e', m') ∧
    in_block e' ∧ addr e' = addr e ∧ length (sym e') = length (sym e) ∧
    content e' = replace_pair (fst str) (snd str) idx (content e) ∧
    ∀ t, profit m' t = profit m t - occ t (content e) + occ t (content e').
Proof.
  intros [He Hn]. pose proof (in_block_len e He) as Hl. pose proof He as [z Hz].
  unfold compress_symbol, memmem. rewrite bool_decide_true.
  2: { rewrite Hz, length_app. lia. }
  cbn [rbind]. rewrite drop_0. change (take (len e) (sym e)) with (content e).
  destruct (find_pair (fst str) (snd str) (content e)) as [k|] eqn:Ek; cbn [fmap option_fmap option_map].
  2: { exists e, m. split; [done|]. split; [done|]. split; [done|]. split; [done|].
       split; [symmetry; by apply find_pair_none|]. intros t. lia. }
  destruct (find_pair_nonzero _ _ _ _ Hn Ek) as [H0 H1].
  destruct (count_content (-1) e m He) as (m1 & E1 & P1). unfold forget_symbol. rewrite E1. cbn [rbind].
  pose proof (replace_loop_ok str idx (len e) [] (content e) (S z) 0 k Hn H0 H1) as E2.
  simpl app in E2. simpl length in E2. rewrite <- Hz, Nat.add_0_r, Hl in E2.
  cbn [Nat.add] in E2 |- *. rewrite E2; [|lia|lia|done]. cbn [rbind].
  set (R := replace_pair (fst str) (snd str) idx (content e)) in *.
  set (e' := SymEntry (addr e) (length R) (R ++ zeros (S (z + (len e - length R))))).
  assert (in_block e') as He'.
  { exists (z + (len e - length R))%nat. unfold e'. by rewrite content_of. }
  destruct (count_content 1 e' m1 He') as (m2 & E3 & P3).
  unfold learn_symbol. simpl in E3. simpl. rewrite E3. cbn [rbind].
  assert (content e' = R) as HR by apply content_of.
  exists e', m2. split; [done|]. split; [done|]. split; [done|].
  pose proof (replace_length (fst str) (snd str) idx (content e)) as HlR. fold R in HlR.
  split; [rewrite Hz; unfold e'; simpl; rewrite !length_app; simpl; unfold zeros; rewrite !length_replicate; lia|].
  split; [done|]. intros t. rewrite P3, P1. lia.
Qed.
