(* ===== verification/KallsymsInv.v ===== *)
(** * Invariant of the compression (scripts/kallsyms.c)

    While the slots of the code table are filled, every name of the table
    still expands to what was read, and [token_profit] counts the pairs of the
    names as they are. *)

From stdpp Require Import base numbers list option strings gmap.
From S2P Require Import Prelude CString Kallsyms KallsymsStr.
Local Open Scope Z_scope.
Local Opaque find_best_token.

(** ** All names *)

Fixpoint total_occ (t : Z) (l : list sym_entry) : Z :=
  match l with [] => 0 | e :: l' => occ t (content e) + total_occ t l' end.
Fixpoint total_len (l : list sym_entry) : nat :=
  match l with [] => 0 | e :: l' => length (content e) + total_len l' end.

Lemma total_occ_app t l1 l2 : total_occ t (l1 ++ l2) = total_occ t l1 + total_occ t l2.
Proof. induction l1; simpl; lia. Qed.
Lemma total_occ_nonneg t l : 0 ≤ total_occ t l.
Proof. induction l as [|e l IH]; simpl; [lia|]. pose proof (occ_nonneg t (content e)). lia. Qed.

(** The entry after [compress_symbol]. *)
Definition compressed (str : Z * Z) (idx : Z) (e e' : sym_entry) : Prop :=
  in_block e' ∧ addr e' = addr e ∧ length (sym e') = length (sym e) ∧
  content e' = replace_pair (fst str) (snd str) idx (content e).

Lemma compress_loop_ok str idx : ∀ l pre post m,
  Forall entry_ok l → ∃ l' m',
    compress_loop str idx (length l) (length pre) (pre ++ l ++ post) m = Ok (pre ++ l' ++ post, m') ∧
    Forall2 (compressed str idx) l l' ∧
    ∀ t, profit m' t = profit m t - total_occ t l + total_occ t l'.
Proof.
  induction l as [|e l IH]; intros pre post m Hl.
  { exists [], m. split; [done|]. split; [done|]. intros t. simpl. lia. }
  apply Forall_cons in Hl as [He Hl]. cbn [length compress_loop].
  rewrite <- app_comm_cons, list_lookup_middle by done.
  destruct (compress_symbol_ok str idx e m He) as (e' & m1 & E1 & H1 & H2 & H3 & H4 & P1).
  rewrite E1. cbn [rbind].
  destruct (IH (pre ++ [e']) post m1 Hl) as (l' & m' & E & HF & P).
  exists (e' :: l'), m'. split; [|split; [by constructor|]].
  - assert (<[length pre := e']> (pre ++ e :: l ++ post) = (pre ++ [e']) ++ l ++ post) as ->.
    { replace (length pre) with (length pre + 0)%nat by lia. rewrite insert_app_r, <- app_assoc. done. }
    rewrite length_app in E. simpl in E. rewrite Nat.add_1_r in E. rewrite E, <- app_assoc. done.
  - intros t. rewrite P, P1. simpl. lia.
Qed.

(** ** Codes *)

(** [c] stands for the bytes [u]; [n] bounds the nesting. *)
Inductive Exp (b : gmap Z (Z * Z)) (bl : gmap Z nat) : nat → Z → list Z → Prop :=
  | Exp_char n c : fst (entry b c) = c → entry_len bl c = 1%nat → Exp b bl n c [c]
  | Exp_pair n c u v :
      entry_len bl c = 2%nat → Exp b bl n (fst (entry b c)) u → Exp b bl n (snd (entry b c)) v →
      Exp b bl (S n) c (u ++ v).

Lemma Exp_mono b bl n n' c u : Exp b bl n c u → (n ≤ n')%nat → Exp b bl n' c u.
Proof.
  intros H. revert n'. induction H as [n c H1 H2|n c u v H1 Hu IHu Hv IHv]; intros n' Hn; [by constructor|].
  destruct n' as [|n']; [lia|]. constructor; [done|apply IHu; lia|apply IHv; lia].
Qed.

Lemma entry_insert b i p c : entry (<[i := p]> b) c = if bool_decide (i = c) then p else entry b c.
Proof.
  unfold entry. case_bool_decide; [subst; by rewrite lookup_insert_eq|by rewrite lookup_insert_ne].
Qed.
Lemma entry_len_insert bl i n c :
  entry_len (<[i := n]> bl) c = if bool_decide (i = c) then n else entry_len bl c.
Proof.
  unfold entry_len. case_bool_decide; [subst; by rewrite lookup_insert_eq|by rewrite lookup_insert_ne].
Qed.

(** A new code does not change what the others stand for. *)
Lemma Exp_insert b bl i p n c u :
  entry_len bl i = 0%nat → Exp b bl n c u → Exp (<[i := p]> b) (<[i := 2%nat]> bl) n c u.
Proof.
  intros Hi. induction 1 as [n c H1 H2|n c u v H1 Hu IHu Hv IHv].
  - assert (i ≠ c) by (intros ->; congruence).
    constructor; rewrite ?entry_insert, ?entry_len_insert, bool_decide_false; done.
  - assert (i ≠ c) by (intros ->; congruence).
    constructor; rewrite ?entry_insert, ?entry_len_insert, bool_decide_false; done.
Qed.

Lemma expand_app f b bl l c :
  expand_symbol (S f) b bl (c :: l) =
  rbind (if bool_decide (fst (entry b c) = c) && bool_decide (entry_len bl c = 1%nat)
         then Ok [c]
         else expand_symbol f b bl (take (entry_len bl c) [fst (entry b c); snd (entry b c)])) (λ x,
  rbind (expand_symbol (S f) b bl l) (λ y, Ok (x ++ y))).
Proof. done. Qed.

Lemma expand_ok b bl n : ∀ l us,
  Forall2 (Exp b bl n) l us → expand_symbol (S n) b bl l = Ok (concat us).
Proof.
  induction n as [|n IH]; intros l us H; induction H as [|c u l us Hc Hl IHl]; try done;
    rewrite expand_app, IHl; inversion Hc as [? ? H1 H2|? ? u1 v1 H1 Hu Hv]; subst.
  - by rewrite !bool_decide_true.
  - by rewrite !bool_decide_true.
  - rewrite (bool_decide_false (entry_len bl c = 1%nat)), andb_false_r by lia.
    rewrite H1. cbn [take].
    rewrite (IH [fst (entry b c); snd (entry b c)] [u1; v1]) by (repeat constructor; done).
    simpl. by rewrite app_nil_r.
Qed.

(** Replacing pairs by their code keeps what a name stands for. *)
Lemma replace_exp b bl n i x y : ∀ l us,
  entry_len bl i = 0%nat → Forall2 (Exp b bl n) l us →
  ∃ us', Forall2 (Exp (<[i := (x, y)]> b) (<[i := 2%nat]> bl) (S n)) (replace_pair x y i l) us' ∧
    concat us' = concat us.
Proof.
  intros l us Hi. revert us.
  assert (∀ c u, Exp b bl n c u → Exp (<[i := (x, y)]> b) (<[i := 2%nat]> bl) (S n) c u) as Hk.
  { intros c u H. eapply Exp_mono; [by apply Exp_insert|lia]. }
  induction l as [|a|a c l IH1 IH2] using list_pair_ind; intros us H.
  - apply Forall2_nil_inv_l in H as ->. by exists [].
  - apply Forall2_cons_inv_l in H as (u & us' & Ha & ->%Forall2_nil_inv_l & ->).
    exists [u]. split; [repeat constructor; by apply Hk|done].
  - pose proof H as H'. apply Forall2_cons_inv_l in H as (u & us1 & Ha & H & ->).
    destruct (bool_decide (a = x) && bool_decide (c = y)) eqn:E.
    + apply Forall2_cons_inv_l in H as (v & us2 & Hc & H & ->).
      destruct (IH1 _ H) as (us' & F & Hcat).
      apply andb_prop in E as [->%bool_decide_eq_true ->%bool_decide_eq_true].
      exists ((u ++ v) :: us'). split; [|simpl; by rewrite Hcat, app_assoc].
      cbn [replace_pair]. rewrite !bool_decide_true by done. simpl. constructor; [|done].
      constructor; [by rewrite entry_len_insert, bool_decide_true|..];
        rewrite entry_insert, bool_decide_true by done; by apply Exp_insert.
    + destruct (IH2 _ H) as (us' & F & Hcat). exists (u :: us').
      rewrite replace_cons; [split; [by constructor; [apply Hk|]|simpl; by rewrite Hcat]|].
      simpl. by rewrite (bool_decide_ext (Some c = Some y) (c = y)) by naive_solver.
Qed.

(** ** The invariant *)

Definition live (s : kstate) : list sym_entry := take (table_cnt s) (table s).
Definition is_byte (c : Z) : Prop := 0 ≤ c < 256.
Definition nz (s : kstate) : Prop := Forall (λ e, nonzero (content e)) (live s).

Definition decodes (s : kstate) (n : nat) (e o : sym_entry) : Prop :=
  addr e = addr o ∧ (len e ≤ len o)%nat ∧
  ∃ us, Forall2 (Exp (best_table s) (best_table_len s) n) (content e) us ∧ concat us = content o.

Record good (s : kstate) (orig : list sym_entry) (n : nat) : Prop := {
  gd_cnt : (table_cnt s ≤ length (table s))%nat;
  gd_block : Forall in_block (live s);
  gd_byte : Forall (λ e, Forall is_byte (content e)) (live s);
  gd_count t : profit (token_profit s) t = total_occ t (live s);
  gd_decodes : Forall2 (decodes s n) (live s) orig }.

Lemma replace_byte c0 c1 idx l : is_byte idx → Forall is_byte l → Forall is_byte (replace_pair c0 c1 idx l).
Proof.
  intros Hi. induction l as [|a|a b l IH1 IH2] using list_pair_ind; [done|done|].
  intros [Ha [Hb Hl]%Forall_cons]%Forall_cons. cbn [replace_pair].
  case_match; apply Forall_cons; split; try done; [by apply IH1|]. apply IH2. by apply Forall_cons.
Qed.

Definition chosen (s : kstate) : Z * Z :=
  let best := find_best_token (token_profit s) in (Z.land best 0xFF, Z.land (Z.shiftr best 8) 0xFF).

(** What filling a free slot does. *)
Record filled (i : Z) (s s' : kstate) : Prop := {
  fl_cnt : table_cnt s' = table_cnt s;
  fl_live : Forall2 (compressed (chosen s) i) (live s) (live s');
  fl_best : best_table s' = <[i := chosen s]> (best_table s);
  fl_len : best_table_len s' = <[i := 2%nat]> (best_table_len s) }.

Lemma Forall2_compose {A B C} (P : A → B → Prop) (Q : A → C → Prop) (R : B → C → Prop) l1 l2 l3 :
  (∀ a b c, a ∈ l1 → P a b → Q a c → R b c) → Forall2 P l1 l2 → Forall2 Q l1 l3 → Forall2 R l2 l3.
Proof.
  intros H HP. revert l3. induction HP as [|a b l1 l2 Hab HP IH]; intros l3 HQ.
  - apply Forall2_nil_inv_l in HQ as ->. constructor.
  - apply Forall2_cons_inv_l in HQ as (c & l3' & Hac & HQ & ->).
    constructor; [eapply H; [by left|done|done]|]. apply IH; [|done]. intros. eapply H; [by right|done|done].
Qed.

Lemma slot_ok i s orig n :
  is_byte i → good s orig n → nz s →
  ∃ s', optimize_slot i s = Ok s' ∧ good s' orig (S n) ∧ (i ≠ 0 → nz s') ∧
    (if bool_decide (entry_len (best_table_len s) i = 0%nat) then filled i s s' else s' = s).
Proof.
  intros Hi [G1 G2 G3 G4 G5] Hnz. unfold optimize_slot. case_bool_decide as Hfree.
  2: { exists s. split; [done|]. split; [|done]. split; try done. eapply Forall2_impl; [done|].
       intros e o (Ha & Hl & us & HF & Hc). split; [done|]. split; [done|]. exists us. split; [|done].
       eapply Forall2_impl; [done|]. intros c u Hcu. eapply Exp_mono; [done|lia]. }
  fold (chosen s). unfold compress_symbols. cbn [table_cnt table token_profit set_best].
  assert (Forall entry_ok (live s)) as Hok.
  { unfold nz in Hnz. rewrite Forall_forall in G2, Hnz |- *. intros e He. split; auto. }
  destruct (compress_loop_ok (chosen s) i (live s) [] (drop (table_cnt s) (table s)) (token_profit s) Hok)
    as (l' & m' & E & HF & P).
  assert (length (live s) = table_cnt s) as Hlen by (unfold live; rewrite length_take; lia).
  assert (length l' = table_cnt s) as Hlen' by (rewrite <- Hlen; symmetry; by eapply Forall2_length).
  rewrite Hlen in E. cbn [length app] in E. unfold live in E at 1. rewrite take_drop in E. rewrite E. cbn [rbind].
  eexists. split; [done|].
  match goal with |- good ?s0 _ _ ∧ _ => set (s' := s0) end.
  assert (live s' = l') as Hlive.
  { unfold live, s'. simpl. rewrite <- Hlen'. by rewrite take_app_length. }
  assert (filled i s s') as Hfill by (split; [done|by rewrite Hlive|done|done]).
  split; [|split; [|done]].
  - split.
    + unfold s'. simpl. rewrite length_app, Hlen'. lia.
    + rewrite Hlive. rewrite Forall_forall. intros e' He'. destruct (list_elem_of_lookup_1 _ _ He') as [k Hk].
      destruct (Forall2_lookup_r _ _ _ _ _ HF Hk) as (e & _ & Hc & _). done.
    + rewrite Hlive, Forall_forall. intros e' He'. destruct (list_elem_of_lookup_1 _ _ He') as [k Hk].
      destruct (Forall2_lookup_r _ _ _ _ _ HF Hk) as (e & Hke & _ & _ & _ & ->).
      apply replace_byte; [done|]. rewrite Forall_forall in G3. apply G3. by eapply list_elem_of_lookup_2.
    + intros t. rewrite Hlive. unfold s'. simpl. rewrite P, G4. lia.
    + rewrite Hlive. eapply (Forall2_compose (compressed (chosen s) i) (decodes s n)); [|done|done].
      intros e e' o He (Hb & Ha & _ & Hc) (Ha' & Hl & us & HFu & Hcat).
      split; [congruence|]. split.
      { rewrite <- (in_block_len e' Hb), Hc. etrans; [apply replace_length|].
        rewrite Forall_forall in G2. rewrite (in_block_len e (G2 e He)). exact Hl. }
      destruct (replace_exp _ _ _ i (fst (chosen s)) (snd (chosen s)) _ _ Hfree HFu) as (us' & HF' & Hcat').
      exists us'. rewrite Hc. split; [|congruence]. exact HF'.
  - intros Hi0. unfold nz. rewrite Hlive, Forall_forall. intros e' He'.
    destruct (list_elem_of_lookup_1 _ _ He') as [k Hk].
    destruct (Forall2_lookup_r _ _ _ _ _ HF Hk) as (e & Hke & _ & _ & _ & ->).
    apply replace_nonzero; [done|]. unfold nz in Hnz. rewrite Forall_forall in Hnz. apply Hnz. by eapply list_elem_of_lookup_2.
Qed.

Lemma loop_ok k : ∀ s orig n,
  (k ≤ 256)%nat → good s orig n → nz s →
  ∃ s', optimize_loop k s = Ok s' ∧ good s' orig (n + k).
Proof.
  induction k as [|k IH]; intros s orig n Hk G Hn.
  { exists s. by rewrite Nat.add_0_r. }
  cbn [optimize_loop].
  destruct (slot_ok (Z.of_nat k) s orig n) as (s1 & E & G1 & N1 & _); [unfold is_byte; lia|done|done|].
  rewrite E. cbn [rbind]. destruct k as [|k].
  { exists s1. split; [done|]. by rewrite Nat.add_1_r. }
  destruct (IH s1 orig (S n)) as (s' & E' & G'); [lia|done|apply N1; lia|].
  exists s'. split; [done|]. by rewrite <- Nat.add_succ_comm.
Qed.
