(* ===== verification/KallsymsThm.v ===== *)
(** * Theorems on the symbol table compression (scripts/kallsyms.c) *)

From stdpp Require Import base numbers list option strings gmap.
From S2P Require Import Prelude CString Kallsyms KallsymsStr KallsymsInv.
Local Open Scope Z_scope.
Local Opaque find_best_token.

(** ** Reading *)

(** [%c] and [%s] deliver bytes that are no NUL. *)
Definition char_ok (c : Z) : Prop := is_byte c ∧ c ≠ 0.
Definition scan_ok (i : scan) : Prop :=
  match i with Fields _ stype str => char_ok stype ∧ Forall char_ok str | NoFields => True end.

#[export] Instance scan_ok_dec i : Decision (scan_ok i).
Proof. destruct i; unfold scan_ok, char_ok, is_byte; apply _. Defined.

Definition read_ok (e : sym_entry) : Prop := entry_ok e ∧ Forall is_byte (content e).
Record fresh (s : kstate) : Prop := {
  fr_cnt : table_cnt s = length (table s);
  fr_entries : Forall read_ok (table s);
  fr_profit : token_profit s = ∅ }.

Lemma read_entry_ok a stype str :
  char_ok stype → Forall char_ok str → read_ok (SymEntry a (S (length str)) (stype :: str ++ [0])).
Proof.
  intros H1 H2. set (e := SymEntry _ _ _).
  assert (content e = stype :: str) as Hc by apply (content_of a (stype :: str) 1).
  split; [split|]; rewrite ?Hc.
  - exists 0%nat. by rewrite Hc.
  - apply Forall_cons; split; [apply H1|]. eapply Forall_impl; [done|]. by intros c [_ ?].
  - apply Forall_cons; split; [apply H1|]. eapply Forall_impl; [done|]. by intros c [? _].
Qed.

Lemma set_limit_same name a s s' :
  set_limit name a s = Some s' →
  table s' = table s ∧ table_cnt s' = table_cnt s ∧ token_profit s' = token_profit s.
Proof. unfold set_limit. repeat case_match; intros [= <-]; done. Qed.

Lemma read_symbol_ok i s o s' :
  scan_ok i → read_symbol i s = Ok (o, s') →
  (∀ e, o = Some e → read_ok e) ∧
  table s' = table s ∧ table_cnt s' = table_cnt s ∧ token_profit s' = token_profit s.
Proof.
  destruct i as [a stype str|]; cbn [read_symbol scan_ok]; [|intros _ [= <- <-]; done].
  intros [H1 H2]. pose proof (read_entry_ok a stype str H1 H2) as He. cbv zeta.
  match goal with |- context [set_limit ?n a s] => set (name := n) end.
  destruct (set_limit name a s) as [s1|] eqn:El.
  { intros [= <- <-]. split; [by intros e [= <-]|]. by eapply set_limit_same. }
  intros E. assert (∀ e, o = Some e → e = SymEntry a (S (length str)) (stype :: str ++ [0])) as Ho.
  { repeat case_match; try (unfold rbind in E; repeat case_match); naive_solver. }
  assert (s' = s) as ->.
  { repeat case_match; try (unfold rbind in E; repeat case_match); naive_solver. }
  split; [|done]. by intros e ->%Ho.
Qed.

Lemma read_map_fresh input : ∀ s s', Forall scan_ok input → fresh s → read_map input s = Ok s' → fresh s'.
Proof.
  induction input as [|i input IH]; intros s s' Hi Hs E; [by injection E as <-|].
  apply Forall_cons in Hi as [H1 H2]. cbn [read_map] in E. cbv zeta in E.
  match type of E with rbind (read_symbol i ?x) _ = _ => set (s1 := x) in * end.
  assert (table s1 = table s ∧ table_cnt s1 = table_cnt s ∧ token_profit s1 = token_profit s) as (T1 & C1 & P1)
    by (unfold s1; by case_bool_decide).
  destruct (read_symbol i s1) as [[o s2]|] eqn:Er; [|done]. cbn [rbind] in E.
  destruct (read_symbol_ok _ _ _ _ H1 Er) as (He & T2 & C2 & P2). destruct Hs as [F1 F2 F3].
  destruct o as [e|]; (eapply IH; [done| |exact E]); split; simpl.
  - rewrite length_app, C2, T2, C1, T1. simpl. lia.
  - rewrite T2, T1. apply Forall_app. split; [done|]. constructor; [by apply He|done].
  - congruence.
  - congruence.
  - congruence.
  - congruence.
Qed.

Definition start (all : bool) (prefix : Z) : kstate := set_options all prefix init_state.
Lemma fresh_start all prefix : fresh (start all prefix).
Proof. split; done. Qed.

(** ** The first table *)

Lemma lookup_snoc_app {A} (l k : list A) x : ((l ++ [x]) ++ k) !! length l = Some x.
Proof. rewrite <- app_assoc. by apply list_lookup_middle. Qed.

Lemma build_loop_ok valid : ∀ rest front junk m,
  Forall in_block rest → ∃ t' m',
    build_loop valid (length rest) (length front + length junk) (length front) (front ++ junk ++ rest) m =
      Ok ((length front + length (List.filter valid rest))%nat, t', m') ∧
    take (length front + length (List.filter valid rest)) t' = front ++ List.filter valid rest ∧
    length t' = length (front ++ junk ++ rest) ∧
    ∀ t, profit m' t = profit m t + total_occ t (List.filter valid rest).
Proof.
  induction rest as [|e rest IH]; intros front junk m Hb.
  { exists (front ++ junk ++ []), m. simpl. rewrite Nat.add_0_r, take_app_length, app_nil_r.
    split; [done|]. split; [by rewrite app_nil_r|]. split; [done|]. intros t. lia. }
  apply Forall_cons in Hb as [He Hb]. cbn [length build_loop List.filter].
  rewrite app_assoc, <- length_app, list_lookup_middle by done.
  destruct (valid e).
  - assert ((if bool_decide (length front ≠ length (front ++ junk)) then
        <[length front := e]> ((front ++ junk) ++ e :: rest) else (front ++ junk) ++ e :: rest) =
      (front ++ [e]) ++ (drop 1 (junk ++ [e])) ++ rest) as ->.
    { rewrite length_app. case_bool_decide as Hj.
      - destruct junk as [|x junk]; [simpl in Hj; lia|]. rewrite <- !app_assoc.
        replace (length front) with (length front + 0)%nat by lia. rewrite insert_app_r. simpl.
        by rewrite drop_0, <- app_assoc.
      - destruct junk as [|x junk]; [|simpl in Hj; lia]. simpl. by rewrite app_nil_r, <- app_assoc. }
    rewrite lookup_snoc_app.
    destruct (count_content 1 e m He) as (m1 & E1 & P1). unfold learn_symbol. rewrite E1. cbn [rbind].
    destruct (IH (front ++ [e]) (drop 1 (junk ++ [e])) m1 Hb) as (t' & m' & E & HT & HL & P).
    exists t', m'. cbn [length total_occ].
    assert (length (front ++ [e]) = S (length front)) as L1 by (rewrite length_app; simpl; lia).
    assert (length (drop 1 (junk ++ [e])) = length junk) as L2 by (rewrite length_drop, length_app; simpl; lia).
    split; [|split; [|split]].
    + rewrite L1, L2 in E. rewrite length_app, Nat.add_succ_r. exact E.
    + rewrite L1 in HT. rewrite Nat.add_succ_r, <- Nat.add_succ_l, HT, <- app_assoc. done.
    + rewrite HL, !(length_app _ (_ ++ _)), !length_app, L2. simpl. lia.
    + intros t. rewrite P, P1. lia.
  - destruct (IH front (junk ++ [e]) m Hb) as (t' & m' & E & HT & HL & P).
    exists t', m'. split; [|split; [done|split; [|done]]].
    + rewrite <- E, length_app, <- !app_assoc. f_equal. rewrite length_app. simpl. lia.
    + rewrite HL, !length_app. simpl. lia.
Qed.

Definition chars (s : kstate) : list Z := concat (content <$> live s).

Lemma insert_chars l : ∀ b,
  (∀ c, entry_len (snd (foldl insert_char b l)) c = if bool_decide (c ∈ l) then 1%nat else entry_len (snd b) c) ∧
  (∀ c, c ∈ l → fst (entry (fst (foldl insert_char b l)) c) = c) ∧
  (∀ c, c ∉ l → fst (foldl insert_char b l) !! c = fst b !! c).
Proof.
  induction l as [|x l IH]; intros b; cbn [foldl].
  { split; [done|]. split; [by intros c ?%elem_of_nil|done]. }
  destruct (IH (insert_char b x)) as (H1 & H2 & H3). split; [|split].
  - intros c. rewrite H1. unfold insert_char. simpl. rewrite entry_len_insert.
    repeat case_bool_decide; set_solver.
  - intros c Hc. destruct (decide (c ∈ l)) as [Hl|Hl]; [by apply H2|].
    apply elem_of_cons in Hc as [->|]; [|done]. unfold entry. rewrite H3 by done. simpl.
    by rewrite lookup_insert_eq.
  - intros c Hc. apply not_elem_of_cons in Hc as [Hx Hl]. rewrite H3 by done. simpl. by rewrite lookup_insert_ne.
Qed.

Lemma foldl_concat {A B} (f : B → A → B) (ls : list (list A)) b :
  foldl (λ b l, foldl f b l) b ls = foldl f b (concat ls).
Proof. revert b. induction ls as [|l ls IH]; intros b; [done|]. simpl. by rewrite foldl_app, IH. Qed.

Lemma insert_real_ok s :
  let s' := insert_real_symbols_in_table s in
  live s' = live s ∧ table s' = table s ∧ table_cnt s' = table_cnt s ∧ token_profit s' = token_profit s ∧
  (∀ c, entry_len (best_table_len s') c = if bool_decide (c ∈ chars s) then 1%nat else 0%nat) ∧
  (∀ c, c ∈ chars s → fst (entry (best_table s') c) = c).
Proof.
  assert (foldl (λ b e, foldl insert_char b (take (len e) (sym e))) (∅, ∅) (take (table_cnt s) (table s)) =
    foldl insert_char (∅, ∅) (chars s)) as E.
  { unfold chars. rewrite <- foldl_concat, foldl_fmap. done. }
  intros s'. unfold s', insert_real_symbols_in_table. rewrite E.
  destruct (insert_chars (chars s) (∅, ∅)) as (H1 & H2 & _).
  do 4 (split; [done|]). split; [|done]. intros c. simpl. rewrite H1. done.
Qed.

Lemma concat_singletons (l : list Z) : concat ((λ c, [c]) <$> l) = l.
Proof. induction l as [|c l IH]; [done|]. rewrite fmap_cons. cbn [concat app]. f_equal. exact IH. Qed.

(** The state before the slots are filled. *)
Lemma prepared s :
  fresh s → ∃ s1, build_initial_tok_table s = Ok s1 ∧
    let s2 := insert_real_symbols_in_table s1 in
    live s2 = List.filter (symbol_valid s) (table s) ∧
    table_cnt s2 = length (List.filter (symbol_valid s) (table s)) ∧
    good s2 (List.filter (symbol_valid s) (table s)) 0 ∧ nz s2 ∧
    (∀ c, entry_len (best_table_len s2) c = if bool_decide (c ∈ chars s2) then 1%nat else 0%nat).
Proof.
  intros [F1 F2 F3]. set (orig := List.filter (symbol_valid s) (table s)).
  assert (Forall in_block (table s)) as Hb by (eapply Forall_impl; [done|]; by intros e [[? _] _]).
  destruct (build_loop_ok (symbol_valid s) (table s) [] [] ∅ Hb) as (t' & m' & E & HT & HL & P).
  simpl in E, HT, HL. fold orig in E, HT, P.
  unfold build_initial_tok_table. rewrite F1, F3, E. cbn [rbind].
  set (s1 := set_profit m' (set_sizes (table_size s) (length orig) (set_table t' s))).
  exists s1. split; [done|]. set (s2 := insert_real_symbols_in_table s1).
  destruct (insert_real_ok s1) as (L & T & C & Pr & Hlen & Hfst). fold s2 in L, T, C, Pr, Hlen, Hfst.
  assert (live s1 = orig) as L1 by exact HT. rewrite L1 in L.
  assert (chars s2 = chars s1) as Hch by (unfold chars; by rewrite L, L1).
  assert (Forall read_ok orig) as Hr.
  { rewrite Forall_forall in F2 |- *. intros e He. apply F2. apply list_elem_of_In, List.filter_In in He as [He _].
    by apply list_elem_of_In. }
  split; [done|]. split; [done|]. rewrite Hch. split; [|split; [|done]].
  - split.
    + rewrite T, C. unfold s1. simpl. rewrite HL. unfold orig. apply List.filter_length_le.
    + rewrite L. eapply Forall_impl; [done|]. by intros e [[? _] _].
    + rewrite L. eapply Forall_impl; [done|]. by intros e [_ ?].
    + intros t. rewrite L, Pr. unfold s1. simpl. by rewrite P.
    + rewrite L. apply Forall_Forall2_diag. rewrite Forall_forall. intros e He.
      split; [done|]. split; [done|]. exists ((λ c, [c]) <$> content e). split.
      * apply Forall2_fmap_r, Forall_Forall2_diag. rewrite Forall_forall. intros c Hc.
        assert (c ∈ chars s1) as Hin.
        { unfold chars. rewrite L1. apply list_elem_of_In, in_concat.
          exists (content e). split; [apply list_elem_of_In; by apply list_elem_of_fmap_2|by apply list_elem_of_In]. }
        constructor; [by apply Hfst|]. rewrite Hlen. by rewrite bool_decide_true.
      * apply concat_singletons.
  - unfold nz. rewrite L. eapply Forall_impl; [done|]. by intros e [[_ ?] _].
Qed.

(** ** Round trip *)

(** C18: Every valid symbol that was read is in the compressed table, in the
    order it was read and with its address; its compressed name is not longer
    than the name with its type, lies in its block, and [expand_symbol] turns
    it back into them. *)
Theorem kallsyms_round_trip all prefix input s :
  Forall scan_ok input → read_map input (start all prefix) = Ok s →
  List.filter (symbol_valid s) (table s) ≠ [] →
  ∃ s', optimize_token_table s = Ok (inl s') ∧
    Forall2 (λ e o, addr e = addr o ∧ (len e ≤ len o)%nat ∧ (len e < length (sym e))%nat ∧
        expand_symbol 257 (best_table s') (best_table_len s') (content e) = Ok (content o))
      (live s') (List.filter (symbol_valid s) (table s)).
Proof.
  intros Hi Hr Hne. pose proof (read_map_fresh _ _ _ Hi (fresh_start all prefix) Hr) as Hf.
  destruct (prepared s Hf) as (s1 & E1 & HL & HC & G & N & _). cbv zeta in *.
  set (orig := List.filter (symbol_valid s) (table s)) in *.
  unfold optimize_token_table. rewrite E1. cbn [rbind].
  rewrite bool_decide_false.
  2: { rewrite HC. by destruct orig. }
  destruct (loop_ok 256 _ orig 0 ltac:(lia) G N) as (s' & E & G').
  unfold optimize_result. rewrite E. exists s'. split; [done|].
  pose proof (gd_block _ _ _ G') as Hb. rewrite Forall_forall in Hb.
  apply Forall2_same_length_lookup. pose proof (gd_decodes _ _ _ G') as HD.
  split; [by eapply Forall2_length|]. intros i e o He Ho.
  destruct (Forall2_lookup_lr _ _ _ _ _ _ HD He Ho) as (Ha & Hl & us & HF & Hc).
  split; [done|]. split; [done|]. split.
  - destruct (Hb e) as [z Hz]; [by eapply list_elem_of_lookup_2|]. rewrite Hz, length_app.
    rewrite (in_block_len e); [unfold zeros; rewrite length_replicate; lia|].
    apply Hb. by eapply list_elem_of_lookup_2.
  - rewrite <- Hc. by apply expand_ok.
Qed.

(** Three symbols, of which one is absolute and one a linker symbol. *)
Definition small_map : list scan :=
  [Fields 8 84 (bytes "_stext"); Fields 16 84 (bytes "foo_bar"); Fields 20 65 (bytes "absolute");
   Fields 24 116 (bytes "kallsyms_names"); Fields 32 84 (bytes "foo_baz"); Fields 64 84 (bytes "_etext")].
Definition small_state : kstate :=
  match read_map small_map (start false 0) with Ok s => s | Err _ => init_state end.
Lemma small_map_ok : Forall scan_ok small_map.
Proof. apply (bool_decide_unpack _). vm_compute. exact I. Qed.

Lemma kallsyms_round_trip_witness :
  length (List.filter (symbol_valid small_state) (table small_state)) = 4%nat ∧
  ∃ s', optimize_token_table small_state = Ok (inl s') ∧
    Forall2 (λ e o, addr e = addr o ∧ (len e ≤ len o)%nat ∧ (len e < length (sym e))%nat ∧
        expand_symbol 257 (best_table s') (best_table_len s') (content e) = Ok (content o))
      (live s') (List.filter (symbol_valid small_state) (table small_state)).
Proof.
  split; [vm_compute; reflexivity|].
  apply (kallsyms_round_trip false 0 small_map small_state).
  - exact small_map_ok.
  - vm_compute. reflexivity.
  - vm_compute. discriminate.
Defined.

(** ** The choice of the pair *)

Transparent find_best_token.

Lemma best_fold m l : ∀ b p,
  let r := foldl (best_step m) (b, p) l in
  p ≤ snd r ∧ (∀ i, i ∈ l → profit m i ≤ snd r) ∧ (r = (b, p) ∨ fst r ∈ l ∧ snd r = profit m (fst r)).
Proof.
  induction l as [|i l IH]; intros b p; cbn [foldl].
  { split; [done|]. split; [by intros i ?%elem_of_nil|by left]. }
  unfold best_step at 2 4 6 8 10 12. cbn [snd].
  case_bool_decide as Hi.
  - destruct (IH i (profit m i)) as (H1 & H2 & H3). split; [lia|]. split.
    + intros x [->|Hx]%elem_of_cons; [done|by apply H2].
    + right. destruct H3 as [->|[? ?]]; [split; [by left|done]|split; [by right|done]].
  - destruct (IH b p) as (H1 & H2 & H3). split; [done|]. split.
    + intros x [->|Hx]%elem_of_cons; [lia|by apply H2].
    + destruct H3 as [->|[? ?]]; [by left|right; split; [by right|done]].
Qed.

Lemma best_fold_same m l b p : (∀ i, i ∈ l → profit m i ≤ p) → foldl (best_step m) (b, p) l = (b, p).
Proof.
  induction l as [|i l IH]; intros H; [done|]. cbn [foldl]. unfold best_step at 2. cbn [snd].
  rewrite bool_decide_false; [|specialize (H i ltac:(by left)); lia]. apply IH. intros x Hx. apply H. by right.
Qed.

Lemma best_of m N :
  0 < N → (∀ t, 0 ≤ profit m t) →
  let best := fst (foldl (best_step m) (0, -10000) (seqZ 0 N)) in
  0 ≤ best < N ∧ ∀ t, 0 ≤ t < N → profit m t ≤ profit m best.
Proof.
  intros HN Hp. pose proof (best_fold m (seqZ 0 N) 0 (-10000)) as (_ & H2 & H3).
  set (r := foldl _ _ _) in *.
  assert (fst r ∈ seqZ 0 N ∧ snd r = profit m (fst r)) as [Hin E].
  { destruct H3 as [Hr|?]; [|done]. exfalso. specialize (H2 0 ltac:(apply elem_of_seqZ; lia)).
    specialize (Hp 0). rewrite Hr in H2. cbn [snd] in H2. lia. }
  apply elem_of_seqZ in Hin. split; [lia|]. intros t Ht. rewrite <- E. apply H2. apply elem_of_seqZ. lia.
Qed.

Lemma best_of_zero m N :
  0 < N → (∀ t, profit m t = 0) → fst (foldl (best_step m) (0, -10000) (seqZ 0 N)) = 0.
Proof.
  intros HN Hp. rewrite (seqZ_cons 0 N) by lia. cbn [foldl].
  unfold best_step at 2. cbn [snd]. rewrite Hp, bool_decide_true by lia.
  rewrite best_fold_same; [done|]. intros i _. rewrite Hp. lia.
Qed.

Lemma find_best_spec m :
  (∀ t, 0 ≤ profit m t) → 0 ≤ find_best_token m < 0x10000 ∧
  ∀ t, 0 ≤ t < 0x10000 → profit m t ≤ profit m (find_best_token m).
Proof. exact (best_of m 0x10000 eq_refl). Qed.

Lemma find_best_zero m : (∀ t, profit m t = 0) → find_best_token m = 0.
Proof. exact (best_of_zero m 0x10000 eq_refl). Qed.
Opaque find_best_token.

Lemma tok_split t : 0 ≤ t < 0x10000 →
  is_byte (Z.land t 0xFF) ∧ is_byte (Z.land (Z.shiftr t 8) 0xFF) ∧
  tok (Z.land t 0xFF) (Z.land (Z.shiftr t 8) 0xFF) = t.
Proof.
  intros Ht. change 0xFF with (Z.ones 8). rewrite !Z.land_ones, Z.shiftr_div_pow2 by lia.
  unfold tok, is_byte. rewrite Z.shiftl_mul_pow2 by lia. change (2 ^ 8) with 256.
  rewrite (Z.mod_small (t / 256)) by (split; [apply Z.div_pos; lia|apply Z.div_lt_upper_bound; lia]).
  pose proof (Z.mod_pos_bound t 256 ltac:(lia)). pose proof (Z.div_mod t 256 ltac:(lia)).
  assert (0 ≤ t / 256 < 256) by (split; [apply Z.div_pos; lia|apply Z.div_lt_upper_bound; lia]). lia.
Qed.
Lemma tok_bytes a b : is_byte a → is_byte b → 0 ≤ tok a b < 0x10000.
Proof. unfold is_byte, tok. intros. rewrite Z.shiftl_mul_pow2 by lia. change (2 ^ 8) with 256. lia. Qed.
Lemma tok_inj a b a' b' :
  is_byte a → is_byte b → is_byte a' → is_byte b' → tok a b = tok a' b' → a = a' ∧ b = b'.
Proof. unfold is_byte, tok. intros ????. rewrite !Z.shiftl_mul_pow2 by lia. change (2 ^ 8) with 256. lia. Qed.

(** No pair found, no occurrence counted; pairs consist of bytes. *)
Lemma find_none_occ x y l :
  is_byte x → is_byte y → Forall is_byte l → find_pair x y l = None → occ (tok x y) l = 0.
Proof.
  intros Hx Hy. induction l as [|a|a b l IH1 IH2] using list_pair_ind; intros Hl Hf; [done|done|].
  apply Forall_cons in Hl as [Ha Hl]. pose proof Hl as [Hb _]%Forall_cons.
  rewrite occ_cons. cbn [find_pair] in Hf.
  destruct (bool_decide (a = x) && bool_decide (head (b :: l) = Some y)) eqn:E; [done|].
  rewrite IH2; [|done|].
  - rewrite bool_decide_false; [done|]. intros Ht. apply tok_inj in Ht as [-> ->]; try done.
    simpl in E. by rewrite !bool_decide_true in E.
  - cbn [find_pair]. match type of Hf with fmap _ ?o = None => destruct o eqn:Eo end; [done|]. done.
Qed.
Lemma occ_range t l : Forall is_byte l → occ t l ≠ 0 → 0 ≤ t < 0x10000.
Proof.
  induction l as [|a|a b l IH1 IH2] using list_pair_ind; intros Hl Ho; [done|done|].
  apply Forall_cons in Hl as [Ha Hl]. pose proof Hl as [Hb _]%Forall_cons.
  rewrite occ_cons in Ho. case_bool_decide as Ht; [rewrite <- Ht; by apply tok_bytes|]. by apply IH2.
Qed.

Lemma total_occ_range t l :
  Forall (λ e, Forall is_byte (content e)) l → total_occ t l ≠ 0 → 0 ≤ t < 0x10000.
Proof.
  induction l as [|e l IH]; intros Hl Ho; [done|]. apply Forall_cons in Hl as [He Hl]. simpl in Ho.
  destruct (decide (occ t (content e) = 0)) as [E|E]; [|by eapply occ_range]. apply IH; [done|]. lia.
Qed.

Section slot.
Context (s : kstate) (orig : list sym_entry) (n : nat) (G : good s orig n).

Lemma counts_nonneg t : 0 ≤ profit (token_profit s) t.
Proof using G. rewrite (gd_count _ _ _ G). apply total_occ_nonneg. Qed.

Lemma chosen_best :
  is_byte (fst (chosen s)) ∧ is_byte (snd (chosen s)) ∧
  ∀ t, total_occ t (live s) ≤ total_occ (tok (fst (chosen s)) (snd (chosen s))) (live s).
Proof using G.
  destruct (find_best_spec _ counts_nonneg) as [Hr Hb]. unfold chosen. cbn [fst snd].
  destruct (tok_split _ Hr) as (H1 & H2 & H3). split; [exact H1|]. split; [exact H2|]. rewrite H3.
  intros t. destruct (decide (total_occ t (live s) = 0)) as [->|Ht]; [apply total_occ_nonneg|].
  rewrite <- !(gd_count _ _ _ G). apply Hb. eapply total_occ_range; [apply G|done].
Qed.
End slot.

(** C19: Filling a free slot of the code table takes a pair of bytes that
    occurs in the names at least as often as any other pair (the counts in
    [token_profit] are exact), enters it in the slot, and replaces it in every
    name from left to right; nothing else changes. *)
Theorem slot_greedy i s orig n :
  is_byte i → good s orig n → nz s → entry_len (best_table_len s) i = 0%nat →
  ∃ x y s', optimize_slot i s = Ok s' ∧
    (∀ t, profit (token_profit s) t = total_occ t (live s) ∧
      total_occ t (live s) ≤ total_occ (tok x y) (live s)) ∧
    best_table s' = <[i := (x, y)]> (best_table s) ∧
    best_table_len s' = <[i := 2%nat]> (best_table_len s) ∧
    Forall2 (λ e e', addr e' = addr e ∧ content e' = replace_pair x y i (content e)) (live s) (live s') ∧
    ∀ t, profit (token_profit s') t = total_occ t (live s').
Proof.
  intros Hi G N Hfree. destruct (slot_ok i s orig n Hi G N) as (s' & E & G' & _ & HF).
  rewrite bool_decide_true in HF by done. destruct HF as [_ HL HB HN].
  exists (fst (chosen s)), (snd (chosen s)), s'. split; [done|]. split.
  { intros t. split; [apply G|]. by eapply chosen_best. }
  split; [by rewrite HB, <- surjective_pairing|]. split; [done|]. split; [|apply G'].
  eapply Forall2_impl; [exact HL|]. intros e e' (_ & ? & _ & ?). done.
Qed.

Definition prepared_state : kstate :=
  match build_initial_tok_table small_state with
  | Ok s => insert_real_symbols_in_table s
  | Err _ => init_state
  end.
Lemma small_fresh : fresh small_state.
Proof.
  apply (read_map_fresh small_map (start false 0)); [exact small_map_ok|apply fresh_start|].
  vm_compute. reflexivity.
Qed.
Lemma slot_greedy_witness :
  ∃ x y s', optimize_slot 255 prepared_state = Ok s' ∧
    (∀ t, profit (token_profit prepared_state) t = total_occ t (live prepared_state) ∧
      total_occ t (live prepared_state) ≤ total_occ (tok x y) (live prepared_state)) ∧
    best_table s' = <[255 := (x, y)]> (best_table prepared_state) ∧
    best_table_len s' = <[255 := 2%nat]> (best_table_len prepared_state) ∧
    Forall2 (λ e e', addr e' = addr e ∧ content e' = replace_pair x y 255 (content e))
      (live prepared_state) (live s') ∧
    ∀ t, profit (token_profit s') t = total_occ t (live s').
Proof.
  destruct (prepared small_state small_fresh) as (s1 & E1 & _ & _ & G & N & _).
  assert (prepared_state = insert_real_symbols_in_table s1) as E.
  { unfold prepared_state. rewrite E1. reflexivity. }
  rewrite <- E in G, N.
  apply (slot_greedy 255 prepared_state (List.filter (symbol_valid small_state) (table small_state)) 0).
  - unfold is_byte. lia.
  - exact G.
  - exact N.
  - vm_compute. reflexivity.
Defined.

(** ** When the pairs run out *)

Definition no_pairs (s : kstate) : Prop := ∀ t, total_occ t (live s) = 0.

Lemma replace_shorter x y i l :
  is_byte x → is_byte y → Forall is_byte l → occ (tok x y) l ≠ 0 →
  (length (replace_pair x y i l) < length l)%nat.
Proof.
  intros Hx Hy Hl Ho. destruct (find_pair x y l) as [k|] eqn:E.
  - destruct (find_pair_some _ _ _ _ E) as (u & v & -> & _ & ->). pose proof (replace_length x y i v).
    rewrite !length_app. simpl. lia.
  - by rewrite (find_none_occ x y l) in Ho.
Qed.

Lemma compressed_len str i l l' : Forall2 (compressed str i) l l' → (total_len l' ≤ total_len l)%nat.
Proof.
  induction 1 as [|e e' l l' (_ & _ & _ & E) HF IH]; [done|]. simpl. rewrite E.
  pose proof (replace_length (fst str) (snd str) i (content e)). lia.
Qed.
Lemma compressed_shorter str i l l' :
  is_byte (fst str) → is_byte (snd str) → Forall (λ e, Forall is_byte (content e)) l →
  Forall2 (compressed str i) l l' → total_occ (tok (fst str) (snd str)) l ≠ 0 →
  (total_len l' < total_len l)%nat.
Proof.
  intros Hx Hy Hl HF. induction HF as [|e e' l l' H HF IH]; intros Ho; [done|].
  apply Forall_cons in Hl as [He Hl]. simpl in Ho |- *. pose proof (compressed_len _ _ _ _ HF) as HL.
  destruct H as (_ & _ & _ & ->).
  destruct (decide (occ (tok (fst str) (snd str)) (content e) = 0)) as [E|E].
  - assert (total_len l' < total_len l)%nat by (apply IH; [done|lia]).
    pose proof (replace_length (fst str) (snd str) i (content e)). lia.
  - pose proof (replace_shorter _ _ i _ Hx Hy He E). lia.
Qed.

Lemma no_pairs_chosen s orig n : good s orig n → no_pairs s → chosen s = (0, 0).
Proof.
  intros G H. unfold chosen. rewrite find_best_zero; [done|]. intros t. by rewrite (gd_count _ _ _ G).
Qed.

(** The pair of zeros is in no name. *)
Lemma zero_pair i l l' :
  Forall (λ e, nonzero (content e)) l → Forall2 (compressed (0, 0) i) l l' →
  total_len l' = total_len l ∧ ∀ t, total_occ t l' = total_occ t l.
Proof.
  intros N HL. revert N. induction HL as [|e e' l l' (_ & _ & _ & Ec) HL IH]; intros N; [done|].
  apply Forall_cons in N as [He N]. destruct (IH N) as [IH1 IH2]. cbn [fst snd] in Ec.
  assert (content e' = content e) as E.
  { rewrite Ec. apply find_pair_none. destruct (find_pair 0 0 (content e)) eqn:Ef; [|done].
    by destruct (find_pair_nonzero _ _ _ _ He Ef). }
  simpl. rewrite E, IH1. split; [done|]. intros t. by rewrite IH2.
Qed.

(** Filling a slot uses up a byte of the names, or there is no pair left. *)
Lemma slot_uses i s orig n s' :
  good s orig n → nz s → filled i s s' →
  (no_pairs s ∧ chosen s = (0, 0) ∧ no_pairs s') ∨ (total_len (live s') < total_len (live s))%nat.
Proof.
  intros G N [_ HL _ _]. destruct (chosen_best s orig n G) as (Hx & Hy & Hb).
  destruct (decide (total_occ (tok (fst (chosen s)) (snd (chosen s))) (live s) = 0)) as [E|E].
  - assert (no_pairs s) as Hn.
    { intros t. pose proof (total_occ_nonneg t (live s)). specialize (Hb t). lia. }
    pose proof (no_pairs_chosen s orig n G Hn) as Hc. left. split; [done|]. split; [done|].
    rewrite Hc in HL. intros t. rewrite <- (Hn t). by apply (zero_pair i).
  - right. exact (compressed_shorter _ _ _ _ Hx Hy (gd_byte _ _ _ G) HL E).
Qed.

Definition free (k : nat) (s : kstate) : nat :=
  length (List.filter (λ i, bool_decide (entry_len (best_table_len s) i = 0%nat)) (seqZ 1 (Z.of_nat k - 1))).

Lemma free_step k s s' :
  (1 ≤ k)%nat → best_table_len s' = <[Z.of_nat k := 2%nat]> (best_table_len s) →
  entry_len (best_table_len s) (Z.of_nat k) = 0%nat → free (S k) s = S (free k s').
Proof.
  intros Hk E H0. unfold free. replace (Z.of_nat (S k) - 1) with ((Z.of_nat k - 1) + 1) by lia.
  rewrite seqZ_app by lia. rewrite List.filter_app, length_app.
  replace (1 + (Z.of_nat k - 1)) with (Z.of_nat k) by lia.
  rewrite (seqZ_cons (Z.of_nat k) 1) by lia. cbn [List.filter].
  rewrite bool_decide_true by done. simpl. rewrite Nat.add_1_r. f_equal. f_equal.
  apply List.filter_ext_in. intros i Hi%list_elem_of_In%elem_of_seqZ.
  rewrite E, entry_len_insert, (bool_decide_false (Z.of_nat k = i)) by lia. done.
Qed.
Lemma free_same k s :
  (1 ≤ k)%nat → entry_len (best_table_len s) (Z.of_nat k) ≠ 0%nat → free (S k) s = free k s.
Proof.
  intros Hk H0. unfold free. replace (Z.of_nat (S k) - 1) with ((Z.of_nat k - 1) + 1) by lia.
  rewrite seqZ_app by lia. rewrite List.filter_app, length_app.
  replace (1 + (Z.of_nat k - 1)) with (Z.of_nat k) by lia.
  rewrite (seqZ_cons (Z.of_nat k) 1) by lia. cbn [List.filter].
  rewrite bool_decide_false by done. simpl. lia.
Qed.

Lemma no_bytes_no_pairs s : total_len (live s) = 0%nat → no_pairs s.
Proof.
  unfold no_pairs. generalize (live s). intros l Hl t. induction l as [|e l IH]; [done|].
  simpl in *. rewrite IH by lia. destruct (content e); [done|simpl in Hl; lia].
Qed.

(** Code 0 ends up as the pair of itself. *)
Lemma runs_out k : ∀ s orig n s',
  (k < 256)%nat → good s orig n → nz s → entry_len (best_table_len s) 0 = 0%nat →
  no_pairs s ∨ (total_len (live s) ≤ free (S k) s)%nat → optimize_loop (S k) s = Ok s' →
  entry (best_table s') 0 = (0, 0) ∧ entry_len (best_table_len s') 0 = 2%nat.
Proof.
  induction k as [|k IH]; intros s orig n s' Hk G N H0 Hf E; cbn [optimize_loop] in E.
  - destruct (slot_ok 0 s orig n) as (s1 & E1 & _ & _ & HF); [unfold is_byte; lia|done|done|].
    change (Z.of_nat 0) with 0 in E. rewrite E1 in E. cbn [rbind optimize_loop] in E. injection E as <-.
    rewrite bool_decide_true in HF by done. destruct HF as [_ _ HB HN].
    assert (no_pairs s) as Hn.
    { destruct Hf as [?|Hf]; [done|]. apply no_bytes_no_pairs. unfold free in Hf. simpl in Hf. lia. }
    rewrite HB, HN, (no_pairs_chosen s orig n G Hn), entry_insert, entry_len_insert. done.
  - destruct (slot_ok (Z.of_nat (S k)) s orig n) as (s1 & E1 & G1 & N1 & HF);
      [unfold is_byte; lia|done|done|]. rewrite E1 in E. cbn [rbind] in E.
    assert (nz s1) as Hn1 by (apply N1; lia).
    case_bool_decide as Hfree.
    + apply (IH s1 orig (S n) s'); [lia|done|done|..|done].
      * rewrite (fl_len _ _ _ HF), entry_len_insert, bool_decide_false by lia. done.
      * rewrite (free_step (S k) s s1) in Hf; [|lia|apply HF|done].
        destruct (slot_uses _ _ _ _ _ G N HF) as [(_ & _ & ?)|Hless]; [by left|].
        destruct Hf as [Hf|Hf]; [|right; lia].
        exfalso. clear -Hless Hf HF G N.
        pose proof (no_pairs_chosen _ _ _ G Hf) as Hc. destruct HF as [_ HL _ _]. rewrite Hc in HL.
        destruct (zero_pair _ _ _ N HL). lia.
    + subst s1. rewrite (free_same (S k) s) in Hf; [|lia|done].
      by apply (IH s orig (S n) s'); [lia|..].
Qed.

(** The bytes in use are few when the names are short. *)
Lemma free_start s :
  (∀ c, entry_len (best_table_len s) c = if bool_decide (c ∈ chars s) then 1%nat else 0%nat) →
  (255 ≤ free 256 s + length (chars s))%nat.
Proof.
  intros H. unfold free. change (Z.of_nat 256 - 1) with 255.
  set (p := λ i : Z, bool_decide (entry_len (best_table_len s) i = 0%nat)).
  assert (length (List.filter (λ i, negb (p i)) (seqZ 1 255)) ≤ length (chars s))%nat as Hu.
  { apply submseteq_length, NoDup_submseteq.
    - apply NoDup_ListNoDup, List.NoDup_filter, NoDup_ListNoDup, NoDup_seqZ.
    - intros i Hi%list_elem_of_In%List.filter_In. destruct Hi as [_ Hi]. unfold p in Hi. rewrite H in Hi.
      destruct (decide (i ∈ chars s)); [done|]. by rewrite (bool_decide_false (i ∈ chars s)) in Hi. }
  pose proof (List.filter_length p (seqZ 1 255)) as Hl. rewrite length_seqZ in Hl.
  change (Z.to_nat 255) with 255%nat in Hl. lia.
Qed.
Lemma chars_len s : length (chars s) = total_len (live s).
Proof.
  unfold chars. induction (live s) as [|e l IH]; [done|]. rewrite fmap_cons. simpl. rewrite length_app. lia.
Qed.

Lemma expand_zero fuel b bl data :
  entry b 0 = (0, 0) → entry_len bl 0 = 2%nat → data ≠ [] → Forall (λ c, c = 0) data →
  expand_symbol fuel b bl data = Err NoFuel.
Proof.
  intros Hb Hl. revert data. induction fuel as [|fuel IH]; intros data Hne Hd; [done|].
  destruct data as [|c data]; [done|]. apply Forall_cons in Hd as [-> Hd].
  rewrite expand_app, Hl, Hb, (bool_decide_false (2%nat = 1%nat)), andb_false_r by done.
  cbn [fst snd take]. rewrite IH; [done|done|by repeat constructor].
Qed.

(** When the valid symbols (with their types) have together at most 127
    bytes, the pairs run out before the slots do, slot 0 becomes the pair of
    itself, and [write_src] recurses without end in [expand_symbol]: it does
    not return with any bound on the depth. *)
Theorem small_map_never_written s :
  fresh s → List.filter (symbol_valid s) (table s) ≠ [] →
  (total_len (List.filter (symbol_valid s) (table s)) ≤ 127)%nat →
  ∃ s', optimize_token_table s = Ok (inl s') ∧ ∀ fuel, write_src fuel s' = Err NoFuel.
Proof.
  intros Hf Hne Hlen. destruct (prepared s Hf) as (s1 & E1 & HL & HC & G & N & Hc). cbv zeta in *.
  set (orig := List.filter (symbol_valid s) (table s)) in *. set (s2 := insert_real_symbols_in_table s1) in *.
  unfold optimize_token_table. rewrite E1. cbn [rbind]. fold s2.
  rewrite bool_decide_false by (rewrite HC; by destruct orig).
  destruct (loop_ok 256 s2 orig 0 ltac:(lia) G N) as (s' & E & _).
  unfold optimize_result. rewrite E. exists s'. split; [done|]. intros fuel.
  pose proof (free_start s2 Hc) as Hfr. rewrite chars_len, HL in Hfr.
  destruct (runs_out 255 s2 orig 0 s' ltac:(lia) G N) as [HB HN]; [|right; rewrite HL; lia|done|].
  - rewrite Hc, bool_decide_false; [done|]. intros (l & Hl & H0)%list_elem_of_In%in_concat.
    apply list_elem_of_In, list_elem_of_fmap in Hl as (e & -> & He). unfold nz in N. rewrite Forall_forall in N.
    specialize (N e He). unfold nonzero in N. rewrite Forall_forall in N.
    by apply (N 0); [apply list_elem_of_In|].
  - unfold write_src. rewrite (seqZ_cons 0 256) by lia. cbn [write_tokens].
    rewrite HB, HN. cbn [fst snd take]. by rewrite expand_zero; [..|repeat constructor].
Qed.

Lemma small_map_never_written_witness :
  ∃ s', optimize_token_table small_state = Ok (inl s') ∧ ∀ fuel, write_src fuel s' = Err NoFuel.
Proof.
  apply (small_map_never_written small_state).
  - exact small_fresh.
  - vm_compute. discriminate.
  - apply (bool_decide_unpack _). vm_compute. exact I.
Defined.
