(* ===== verification/Sumversion.v ===== *)
(** * Source version sums of modules
      (Vm/linux-2.6.19/scripts/mod/sumversion.c, file helpers of modpost.c)

    modpost records in a module a checksum of its source files, taken without
    comments and white space.  A byte is a number below 256, a word a number
    below 2^32; [md4_ctx] keeps its block as the 64 bytes of memory, of which
    the processor (i386) reads words with the low byte first.

    The files are a parameter: what [open] and [mmap] deliver for a name.  A
    mapped file ends with zeros up to the end of its last page, and an access
    after that faults. *)

From stdpp Require Import base numbers list option strings.
From Stdlib Require Import Ascii.
From S2P Require Import Prelude CString Kallsyms.
Local Open Scope Z_scope.

(** ** MD4 *)

Definition u32 (x : Z) : Z := x mod 2^32.

Definition lshift (x s : Z) : Z :=
  let x := Z.land x 0xFFFFFFFF in
  Z.lor (Z.land (Z.shiftl x s) 0xFFFFFFFF) (Z.shiftr x (32 - s)).
Definition F (x y z : Z) : Z := Z.lor (Z.land x y) (Z.land (Z.lxor x 0xFFFFFFFF) z).
Definition G (x y z : Z) : Z := Z.lor (Z.lor (Z.land x y) (Z.land x z)) (Z.land y z).
Definition H (x y z : Z) : Z := Z.lxor (Z.lxor x y) z.
Definition ROUND1 (a b c d k s : Z) : Z := lshift (u32 (a + F b c d + k)) s.
Definition ROUND2 (a b c d k s : Z) : Z := lshift (u32 (a + G b c d + k + 0x5A827999)) s.
Definition ROUND3 (a b c d k s : Z) : Z := lshift (u32 (a + H b c d + k + 0x6ED9EBA1)) s.

Definition words4 : Type := Z * Z * Z * Z.

Definition md4_transform (hash : words4) (ins : list Z) : words4 :=
  let i (k : nat) := default 0 (ins !! k) in
  let '(a0, b0, c0, d0) := hash in
  let a := a0 in let b := b0 in let c := c0 in let d := d0 in

  let a := ROUND1 a b c d (i 0%nat) 3 in
  let d := ROUND1 d a b c (i 1%nat) 7 in
  let c := ROUND1 c d a b (i 2%nat) 11 in
  let b := ROUND1 b c d a (i 3%nat) 19 in
  let a := ROUND1 a b c d (i 4%nat) 3 in
  let d := ROUND1 d a b c (i 5%nat) 7 in
  let c := ROUND1 c d a b (i 6%nat) 11 in
  let b := ROUND1 b c d a (i 7%nat) 19 in
  let a := ROUND1 a b c d (i 8%nat) 3 in
  let d := ROUND1 d a b c (i 9%nat) 7 in
  let c := ROUND1 c d a b (i 10%nat) 11 in
  let b := ROUND1 b c d a (i 11%nat) 19 in
  let a := ROUND1 a b c d (i 12%nat) 3 in
  let d := ROUND1 d a b c (i 13%nat) 7 in
  let c := ROUND1 c d a b (i 14%nat) 11 in
  let b := ROUND1 b c d a (i 15%nat) 19 in

  let a := ROUND2 a b c d (i 0%nat) 3 in
  let d := ROUND2 d a b c (i 4%nat) 5 in
  let c := ROUND2 c d a b (i 8%nat) 9 in
  let b := ROUND2 b c d a (i 12%nat) 13 in
  let a := ROUND2 a b c d (i 1%nat) 3 in
  let d := ROUND2 d a b c (i 5%nat) 5 in
  let c := ROUND2 c d a b (i 9%nat) 9 in
  let b := ROUND2 b c d a (i 13%nat) 13 in
  let a := ROUND2 a b c d (i 2%nat) 3 in
  let d := ROUND2 d a b c (i 6%nat) 5 in
  let c := ROUND2 c d a b (i 10%nat) 9 in
  let b := ROUND2 b c d a (i 14%nat) 13 in
  let a := ROUND2 a b c d (i 3%nat) 3 in
  let d := ROUND2 d a b c (i 7%nat) 5 in
  let c := ROUND2 c d a b (i 11%nat) 9 in
  let b := ROUND2 b c d a (i 15%nat) 13 in

  let a := ROUND3 a b c d (i 0%nat) 3 in
  let d := ROUND3 d a b c (i 8%nat) 9 in
  let c := ROUND3 c d a b (i 4%nat) 11 in
  let b := ROUND3 b c d a (i 12%nat) 15 in
  let a := ROUND3 a b c d (i 2%nat) 3 in
  let d := ROUND3 d a b c (i 10%nat) 9 in
  let c := ROUND3 c d a b (i 6%nat) 11 in
  let b := ROUND3 b c d a (i 14%nat) 15 in
  let a := ROUND3 a b c d (i 1%nat) 3 in
  let d := ROUND3 d a b c (i 9%nat) 9 in
  let c := ROUND3 c d a b (i 5%nat) 11 in
  let b := ROUND3 b c d a (i 13%nat) 15 in
  let a := ROUND3 a b c d (i 3%nat) 3 in
  let d := ROUND3 d a b c (i 11%nat) 9 in
  let c := ROUND3 c d a b (i 7%nat) 11 in
  let b := ROUND3 b c d a (i 15%nat) 15 in

  (u32 (a0 + a), u32 (b0 + b), u32 (c0 + c), u32 (d0 + d)).

(** ** Memory of words *)

Definition le32 (w : Z) : list Z :=
  [w mod 256; (w / 2^8) mod 256; (w / 2^16) mod 256; (w / 2^24) mod 256].
(** The words in memory, as the processor reads them. *)
Fixpoint words (l : list Z) : list Z :=
  match l with
  | a :: b :: c :: d :: l' => (a + 2^8 * b + 2^16 * c + 2^24 * d) :: words l'
  | _ => []
  end.
(** [ntohl] and [htonl] turn the bytes of a word around. *)
Definition ntohl (w : Z) : Z :=
  match le32 w with
  | [a; b; c; d] => d + 2^8 * c + 2^16 * b + 2^24 * a
  | _ => 0
  end.
(** [le32_to_cpu_array] on [n] words of memory. *)
Fixpoint le32_to_cpu_array (n : nat) (l : list Z) : list Z :=
  match n, l with
  | S n', a :: b :: c :: d :: l' => d :: c :: b :: a :: le32_to_cpu_array n' l'
  | _, _ => l
  end.
Definition cpu_to_le32_array (h : words4) : words4 :=
  let '(a, b, c, d) := h in (ntohl a, ntohl b, ntohl c, ntohl d).

(** [memcpy] of [d] to the offset [off]. *)
Definition blit (off : nat) (d : list Z) (block : list Z) : list Z :=
  take off block ++ d ++ drop (off + length d) block.

(** ** The context *)

Record md4_ctx := Md4Ctx {
  hash : words4;
  block : list Z;
  byte_count : Z }.

Definition md4_transform_helper (ctx : md4_ctx) : md4_ctx :=
  let block' := le32_to_cpu_array 16 (block ctx) in
  Md4Ctx (md4_transform (hash ctx) (words block')) block' (byte_count ctx).

(** [block] is not initialised. *)
Definition md4_init (mctx : md4_ctx) : md4_ctx :=
  Md4Ctx (0x67452301, 0xefcdab89, 0x98badcfe, 0x10325476) (block mctx) 0.

(** The while loop, with the data that is left. *)
Fixpoint update_loop (fuel : nat) (ctx : md4_ctx) (data : list Z) : md4_ctx * list Z :=
  match fuel with
  | O => (ctx, data)
  | S fuel' =>
      if bool_decide (64 ≤ length data)%nat then
        update_loop fuel'
          (md4_transform_helper (Md4Ctx (hash ctx) (blit 0 (take 64 data) (block ctx)) (byte_count ctx)))
          (drop 64 data)
      else (ctx, data)
  end.

Definition md4_update (mctx : md4_ctx) (data : list Z) : md4_ctx :=
  let avail := (64 - Z.to_nat (Z.land (byte_count mctx) 0x3f))%nat in
  let count := (byte_count mctx + Z.of_nat (length data)) mod 2^64 in
  if bool_decide (length data < avail)%nat then
    Md4Ctx (hash mctx) (blit (64 - avail) data (block mctx)) count
  else
    let ctx1 := Md4Ctx (hash mctx) (blit (64 - avail) (take avail data) (block mctx)) count in
    let '(ctx2, rest) := update_loop (length data) (md4_transform_helper ctx1) (drop avail data) in
    Md4Ctx (hash ctx2) (blit 0 rest (block ctx2)) (byte_count ctx2).

(** The digit of a number below 16, upper case. *)
Definition hex_digit (d : Z) : Z := if bool_decide (d < 10) then 48 + d else 55 + d.
(** [%08X]. *)
Definition hex8 (w : Z) : list Z :=
  (λ k : Z, hex_digit ((w / 16 ^ k) mod 16)) <$> [7; 6; 5; 4; 3; 2; 1; 0].

(** The string in [out], of at most [len - 1] characters. *)
Definition md4_final_ascii (mctx : md4_ctx) (len : nat) : md4_ctx * list Z :=
  let offset := Z.to_nat (Z.land (byte_count mctx) 0x3f) in
  let padding := 56 - (Z.of_nat offset + 1) in
  let b1 := blit offset [0x80] (block mctx) in
  let '(ctx, p, padding) :=
    if bool_decide (padding < 0) then
      let b2 := blit (S offset) (replicate (Z.to_nat (padding + 8)) 0) b1 in
      (md4_transform_helper (Md4Ctx (hash mctx) b2 (byte_count mctx)), 0%nat, 56)
    else (Md4Ctx (hash mctx) b1 (byte_count mctx), S offset, padding) in
  let b3 := blit p (replicate (Z.to_nat padding) 0) (block ctx) in
  let b4 := blit 56 (le32 (u32 (Z.shiftl (byte_count ctx) 3))) b3 in
  let b5 := blit 60 (le32 (u32 (Z.shiftr (byte_count ctx) 29))) b4 in
  let b6 := le32_to_cpu_array 14 b5 in
  let h := cpu_to_le32_array (md4_transform (hash ctx) (words b6)) in
  let '(h0, h1, h2, h3) := h in
  (Md4Ctx h b6 (byte_count ctx), take (len - 1) (hex8 h0 ++ hex8 h1 ++ hex8 h2 ++ hex8 h3)).

Definition add_char (c : Z) (md : md4_ctx) : md4_ctx := md4_update md [c].

(** ** Files *)

Definition PAGE_SIZE : Z := 4096.
(** The memory of a mapped file. *)
Definition mapping (file : list Z) : list Z :=
  file ++ replicate (Z.to_nat ((- Z.of_nat (length file)) mod PAGE_SIZE)) 0.
Definition byte_at (mem : list Z) (i : nat) : res Z :=
  match mem !! i with Some c => Ok c | None => Err OutOfBounds end.

(** [i] is the index of the string's opening quote in [file]; [k] characters
    are left of its loop.  The result is the number the function returns. *)
Fixpoint parse_string_loop (k : nat) (mem : list Z) (base i : nat) (md : md4_ctx) : res (nat * md4_ctx) :=
  match k with
  | O => Ok (i, md)
  | S k' =>
      rbind (byte_at mem (base + i)) (λ c,
      rbind (byte_at mem (base + i - 1)) (λ prev,
      if bool_decide (c = 34) && bool_decide (prev ≠ 92) then Ok (i, add_char c md)
      else parse_string_loop k' mem base (S i) (add_char c md)))
  end.
Definition parse_string (mem : list Z) (base len : nat) (md : md4_ctx) : res (nat * md4_ctx) :=
  rbind (byte_at mem base) (λ c0, parse_string_loop (len - 1) mem base 1 (add_char c0 md)).

Fixpoint parse_comment_loop (k : nat) (mem : list Z) (base i : nat) : res nat :=
  match k with
  | O => Ok i
  | S k' =>
      rbind (byte_at mem (base + i - 1)) (λ prev,
      rbind (byte_at mem (base + i)) (λ c,
      if bool_decide (prev = 42) && bool_decide (c = 47) then Ok i
      else parse_comment_loop k' mem base (S i)))
  end.
Definition parse_comment (mem : list Z) (base len : nat) : res nat :=
  parse_comment_loop (len - 2) mem base 2.

(** The loop over the file from index [i]. *)
Fixpoint parse_loop (fuel : nat) (mem : list Z) (i len : nat) (md : md4_ctx) : res md4_ctx :=
  match fuel with
  | O => Err NoFuel
  | S fuel' =>
      if bool_decide (len ≤ i)%nat then Ok md else
      rbind (byte_at mem i) (λ c,
      rbind (if bool_decide (c = 92) && bool_decide (i + 1 < len)%nat
             then rbind (byte_at mem (i + 1)) (λ c', Ok (bool_decide (c' = 10)))
             else Ok false) (λ continued,
      if (continued : bool) then parse_loop fuel' mem (i + 1 + 1) len md
      else if isspace c then parse_loop fuel' mem (i + 1) len md
      else if bool_decide (c = 34) then
        rbind (parse_string mem i (len - i) md) (λ '(n, md'),
        parse_loop fuel' mem (i + n + 1) len md')
      else
        rbind (if bool_decide (c = 47)
               then rbind (byte_at mem (i + 1)) (λ c', Ok (bool_decide (c' = 42)))
               else Ok false) (λ comment,
        if (comment : bool) then
          rbind (parse_comment mem i (len - i)) (λ n, parse_loop fuel' mem (i + n + 1) len md)
        else parse_loop fuel' mem (i + 1) len (add_char c md))))
  end.

Section files.
(** The content of a file, if it can be opened. *)
Context (fs : list Z → option (list Z)).

(** [mmap] refuses an empty file. *)
Definition grab_file (name : list Z) : option (list Z) :=
  match fs name with
  | Some [] => None
  | o => o
  end.

Definition parse_file (fname : list Z) (md : md4_ctx) : res (bool * md4_ctx) :=
  match grab_file fname with
  | None => Ok (false, md)
  | Some file => rbind (parse_loop (S (length file)) (mapping file) 0 (length file) md) (λ md', Ok (true, md'))
  end.

(** [get_next_line] from [pos]: the line and the new position, or NULL.  [k]
    is the number of bytes left, [acc] the line so far, reversed. *)
Fixpoint next_line (k : nat) (file : list Z) (pos : nat) (skip : bool) (acc : list Z) : option (list Z * nat) :=
  match k with
  | O => None
  | S k' =>
      match file !! pos with
      | None => None
      | Some c =>
          if skip && isspace c then next_line k' file (S pos) skip acc
          else if bool_decide (c ≠ 10) then
            if bool_decide (4095 < length acc + 1)%nat then None
            else next_line k' file (S pos) false (c :: acc)
          else Some (reverse acc, pos)
      end
  end.
Definition get_next_line (file : list Z) (pos : nat) : option (list Z * nat) :=
  next_line (length file - pos) file pos true [].

Fixpoint strrchr_from (i : nat) (c : Z) (l : list Z) : option nat :=
  match l with
  | [] => None
  | x :: l' =>
      match strrchr_from (S i) c l' with
      | Some k => Some k
      | None => if bool_decide (x = c) then Some i else None
      end
  end.
Definition strrchr (l : list Z) (c : Z) : option nat := strrchr_from 0 c l.
(** The index of the first occurrence of [p] in [l]. *)
Fixpoint strstr_at (i : nat) (l p : list Z) : option nat :=
  if is_prefix p l then Some i
  else match l with [] => None | _ :: l' => strstr_at (S i) l' p end.

Fixpoint until_space (l : list Z) : list Z :=
  match l with
  | [] => []
  | c :: l' => if isspace c then [] else c :: until_space l'
  end.

(** [strstr(line, dir) + strlen(dir) - 1 == strrchr(line, '/')], with NULL the
    address 0. *)
Definition same_dir (line dir : list Z) : bool :=
  match strstr_at 0 line dir, strrchr line 47 with
  | Some k, Some r => bool_decide (Z.of_nat k + Z.of_nat (length dir) - 1 = Z.of_nat r)
  | Some _, None => false
  | None, None => bool_decide (length dir = 1)%nat
  | None, Some _ => false
  end.

(** The loop over the lines of the .cmd file from [pos]: the result of the
    function, and the context. *)
Fixpoint deps_loop (fuel : nat) (file : list Z) (pos : nat) (check_files : bool) (dir : list Z)
    (md : md4_ctx) : res (bool * md4_ctx) :=
  match fuel with
  | O => Err NoFuel
  | S fuel' =>
      match get_next_line file pos with
      | None => Ok (true, md)
      | Some (line, pos') =>
          if is_prefix (bytes "deps_") (cstr line) then deps_loop fuel' file pos' true dir md
          else if negb check_files then deps_loop fuel' file pos' false dir md
          else match last (cstr line) with
               | None => Err OutOfBounds
               | Some c =>
                   if bool_decide (c ≠ 92) then Ok (true, md)
                   else
                     let name := until_space (cstr line) in
                     if same_dir name dir then
                       rbind (parse_file name md) (λ '(ok, md'),
                       if (ok : bool) then deps_loop fuel' file pos' true dir md' else Ok (false, md'))
                     else deps_loop fuel' file pos' true dir md
               end
      end
  end.

Definition parse_source_files (objfile : list Z) (md : md4_ctx) : res (bool * md4_ctx) :=
  let '(dir, cmd) :=
    match strrchr objfile 47 with
    | Some k => (take (S k) objfile, take (S k) objfile ++ bytes "." ++ drop (S k) objfile ++ bytes ".cmd")
    | None => ([], bytes "." ++ objfile ++ bytes ".cmd")
    end in
  match grab_file cmd with
  | None => Ok (false, md)
  | Some file => deps_loop (S (length file)) file 0 false dir md
  end.

(** The first occurrence of [c] in a C string that starts at [i]; [k] bytes of
    memory are left. *)
Fixpoint strchr_mem (k : nat) (mem : list Z) (i : nat) (c : Z) : res (option nat) :=
  match k with
  | O => Err OutOfBounds
  | S k' =>
      rbind (byte_at mem i) (λ x,
      if bool_decide (x = c) then Ok (Some i)
      else if bool_decide (x = 0) then Ok None
      else strchr_mem k' mem (S i) c)
  end.
Definition strchr (mem : list Z) (i : nat) (c : Z) : res (option nat) :=
  strchr_mem (length mem - i) mem i c.

(** [strsep] at spaces: the pieces in order. *)
Fixpoint split_spaces (acc l : list Z) : list (list Z) :=
  match l with
  | [] => [reverse acc]
  | c :: l' => if bool_decide (c = 32) then reverse acc :: split_spaces [] l' else split_spaces (c :: acc) l'
  end.

(** The files of the module; [None] when one of them fails. *)
Fixpoint sources_loop (names : list (list Z)) (md : md4_ctx) : res (option md4_ctx) :=
  match names with
  | [] => Ok (Some md)
  | fname :: names' =>
      if bool_decide (fname = []) then sources_loop names' md
      else rbind (parse_source_files fname md) (λ '(ok, md'),
           if (ok : bool) then sources_loop names' md' else Ok None)
  end.

Definition PATH_MAX : nat := 64 * 64.

(** What is left in [sum]; [None] when it is not written. *)
Definition get_src_version (modverdir : option (list Z)) (modname : list Z) (md0 : md4_ctx) (sumlen : nat)
    : res (option (list Z)) :=
  let dir := default (bytes ".") modverdir in
  let basename := match strrchr modname 47 with Some k => drop (S k) modname | None => modname end in
  let stem := if bool_decide (length basename < 2)%nat then basename else take (length basename - 2) basename in
  let filelist := dir ++ bytes "/" ++ stem ++ bytes ".mod" in
  if bool_decide (PATH_MAX < length filelist)%nat then Err OutOfBounds else
  match grab_file filelist with
  | None => Ok None
  | Some file =>
      rbind (strchr (mapping file) 0 10) (λ o,
      match o with
      | None => Ok None
      | Some k =>
          rbind (strchr (mapping file) (S k) 10) (λ o',
          match o' with
          | None => Ok None
          | Some e =>
              let sources := take (e - S k) (drop (S k) (mapping file)) in
              rbind (sources_loop (split_spaces [] sources) (md4_init md0)) (λ r,
              match r with
              | None => Ok None
              | Some md => Ok (Some (snd (md4_final_ascii md sumlen)))
              end)
          end)
      end)
  end.
End files.

(** ** Revision numbers *)

(** The length of the C string at [i]. *)
Definition strlen_at (mem : list Z) (i : nat) : res nat :=
  if bool_decide (0 ∈ drop i mem) then Ok (length (cstr (drop i mem))) else Err OutOfBounds.
(** The number of bytes of a class from [i] on; [k] bytes of memory are left. *)
Fixpoint span_at (k : nat) (p : Z → bool) (mem : list Z) (i : nat) : res nat :=
  match k with
  | O => Err OutOfBounds
  | S k' => rbind (byte_at mem i) (λ c, if p c then rbind (span_at k' p mem (S i)) (λ n, Ok (S n)) else Ok O)
  end.

Definition strip_rcs_crap (version : list Z) : res (option (list Z)) :=
  if negb (is_prefix (bytes "$Revision") (cstr version)) then Ok None
  else
    rbind (strlen_at version 0) (λ n1,
    rbind (strlen_at version (n1 + 1)) (λ n2,
    let full_len := (n1 + n2 + 2)%nat in
    rbind (byte_at version 9) (λ c,
    let len := if bool_decide (c = 58) || bool_decide (c = 36) then 10%nat else 9%nat in
    rbind (span_at (length version - len) isspace version len) (λ sp,
    let len := (len + sp)%nat in
    rbind (memmove version 0 len (full_len - len)) (λ v1,
    let full_len := (full_len - len)%nat in
    rbind (span_at (length v1) (λ c, bool_decide (c ≠ 0) && negb (isspace c)) v1 0) (λ len,
    rbind (strlen_at v1 0) (λ n,
    rbind (memmove v1 len n (full_len - n)) (λ v2, Ok (Some v2))))))))).

(** What open, lseek and write do with the file of the module; [write] stores
    at most [rw_bytes] bytes. *)
Record rewriting := Rewriting { rw_open : bool; rw_seek : bool; rw_bytes : nat }.
Inductive warning := OpenFailed | SeekFailed | WriteFailed.
(** Bytes stored at an offset; what is between the end of a file and the
    offset is zero. *)
Definition put_at (offset : nat) (data file : list Z) : list Z :=
  take offset (file ++ replicate offset 0) ++ data ++ drop (offset + length data) file.
Definition write_version (io : rewriting) (file sum : list Z) (offset : nat) : list Z * list warning :=
  if negb (rw_open io) then (file, [OpenFailed])
  else if negb (rw_seek io) then (file, [SeekFailed])
  else
    let data := cstr sum ++ [0] in
    let n := Nat.min (rw_bytes io) (length data) in
    (put_at offset (take n data) file, if bool_decide (n ≠ length data) then [WriteFailed] else []).

(** The memory at [version], the file and the warnings. *)
Definition maybe_frob_rcs_version (io : rewriting) (file version : list Z) (offset : nat) : res (list Z * list Z * list warning) :=
  rbind (strip_rcs_crap version) (λ o,
  match o with
  | None => Ok (version, file, [])
  | Some v => let '(file', w) := write_version io file v offset in Ok (v, file', w)
  end).
