(* ===== verification/SumversionThm.v ===== *)
(** * Theorems on source version sums (scripts/mod/sumversion.c)

    The digest is computed piece by piece; it equals a reference on the whole
    text.  The text a file contributes is what is left without comments and
    white space. *)

From stdpp Require Import base numbers list option strings.
From S2P Require Import Prelude CString Kallsyms Sumversion.
Local Open Scope Z_scope.

(** ** Memory *)

Ltac llen := rewrite ?length_app, ?length_take, ?length_drop, ?length_replicate; cbn [length];
  rewrite ?length_app, ?length_take, ?length_drop, ?length_replicate; cbn [length]; lia.

Lemma blit_length off d b :
  (off + length d ≤ length b)%nat → length (blit off d b) = length b.
Proof. unfold blit. intros. llen. Qed.
Lemma blit_take off d b :
  (off + length d ≤ length b)%nat → take (off + length d) (blit off d b) = take off b ++ d.
Proof.
  intros Hl. unfold blit. rewrite app_assoc, take_app_le by llen. apply take_ge. llen.
Qed.

Lemma swap_length n : ∀ l, length (le32_to_cpu_array n l) = length l.
Proof.
  induction n as [|n IH]; intros l; [done|]. destruct l as [|a [|b [|c [|d l]]]]; simpl; try done.
  by rewrite IH.
Qed.
Lemma swap_app n : ∀ l k, length l = (4 * n)%nat →
  le32_to_cpu_array n (l ++ k) = le32_to_cpu_array n l ++ k.
Proof.
  induction n as [|n IH]; intros l k Hl; [by destruct l|].
  destruct l as [|a [|b [|c [|d l]]]]; simpl in Hl; try lia. simpl. rewrite IH by lia. done.
Qed.
Lemma words_app n : ∀ l k, length l = (4 * n)%nat → words (l ++ k) = words l ++ words k.
Proof.
  induction n as [|n IH]; intros l k Hl; [by destruct l|].
  destruct l as [|a [|b [|c [|d l]]]]; simpl in Hl; try lia. simpl. rewrite IH by lia. done.
Qed.
Lemma words_le32 w : 0 ≤ w < 2^32 → words (le32 w) = [w].
Proof.
  intros Hw. unfold le32. cbn [words]. f_equal.
  assert (w / 2^24 < 256) by (apply Z.div_lt_upper_bound; lia).
  assert (0 ≤ w / 2^24) by (apply Z.div_pos; lia).
  rewrite (Z.mod_small (w / 2^24)) by lia.
  pose proof (Z.div_mod w 256 ltac:(lia)). pose proof (Z.div_mod (w / 2^8) 256 ltac:(lia)).
  pose proof (Z.div_mod (w / 2^16) 256 ltac:(lia)).
  assert (w / 2^16 = w / 2^8 / 256) by (rewrite Z.div_div by lia; done).
  assert (w / 2^24 = w / 2^16 / 256) by (rewrite Z.div_div by lia; done).
  change (2^8) with 256 in *. lia.
Qed.
Lemma u32_range x : 0 ≤ u32 x < 2^32.
Proof. unfold u32. apply Z.mod_pos_bound. lia. Qed.

(** ** The reference *)

Definition iv : words4 := (0x67452301, 0xefcdab89, 0x98badcfe, 0x10325476).

(** [n] blocks of 64 bytes; the bytes of each word are turned around. *)
Fixpoint comp (n : nat) (h : words4) (l : list Z) : words4 :=
  match n with
  | O => h
  | S n' => comp n' (md4_transform h (words (le32_to_cpu_array 16 (take 64 l)))) (drop 64 l)
  end.

Definition padded (m : list Z) : list Z :=
  m ++ 0x80 :: replicate (Z.to_nat ((55 - Z.of_nat (length m)) mod 64)) 0.

(** The digest of a whole message: it is padded to 56 bytes more than full
    blocks, and the last block ends with the number of bits. *)
Definition md4_digest (m : list Z) : list Z :=
  let p := padded m in
  let n := (length p / 64)%nat in
  let count := Z.of_nat (length m) mod 2^64 in
  let last_words := words (le32_to_cpu_array 14 (drop (64 * n) p)) ++
                    [u32 (Z.shiftl count 3); u32 (Z.shiftr count 29)] in
  let '(a, b, c, d) := cpu_to_le32_array (md4_transform (comp n iv p) last_words) in
  hex8 a ++ hex8 b ++ hex8 c ++ hex8 d.

Lemma comp_app n : ∀ k h l l',
  length l = (64 * n)%nat → comp (n + k) h (l ++ l') = comp k (comp n h l) l'.
Proof.
  induction n as [|n IH]; intros k h l l' Hl; [by destruct l|].
  cbn [Nat.add comp]. rewrite take_app_le, drop_app_le by lia. apply IH. llen.
Qed.
Lemma comp_prefix n : ∀ h l l', length l = (64 * n)%nat → comp n h (l ++ l') = comp n h l.
Proof.
  intros h l l' Hl. rewrite <- (Nat.add_0_r n) at 1. by rewrite comp_app.
Qed.

(** ** The context stands for the bytes it was given *)

Record holds (n : nat) (full rest : list Z) (ctx : md4_ctx) : Prop := {
  hd_full : length full = (64 * n)%nat;
  hd_rest : (length rest < 64)%nat;
  hd_block : length (block ctx) = 64%nat;
  hd_hash : hash ctx = comp n iv full;
  hd_take : take (length rest) (block ctx) = rest;
  hd_count : byte_count ctx = Z.of_nat (length (full ++ rest)) mod 2^64 }.
Definition represents (ctx : md4_ctx) (m : list Z) : Prop :=
  ∃ n full rest, m = full ++ rest ∧ holds n full rest ctx.

Lemma count_offset x : Z.to_nat (Z.land (Z.of_nat x mod 2^64) 0x3f) = (x mod 64)%nat.
Proof.
  change 0x3f with (Z.ones 6). rewrite Z.land_ones by lia. change (2^6) with 64.
  rewrite Z.mod_mod_divide by (exists (2^58); lia).
  change 64 with (Z.of_nat 64). rewrite <- Nat2Z.inj_mod. apply Nat2Z.id.
Qed.
Lemma offset_rest n full rest ctx :
  holds n full rest ctx → Z.to_nat (Z.land (byte_count ctx) 0x3f) = length rest.
Proof.
  intros [H1 H2 _ _ _ ->]. rewrite count_offset, length_app, H1.
  rewrite (Nat.mul_comm 64), Nat.add_comm, Nat.Div0.mod_add. by apply Nat.mod_small.
Qed.

Lemma update_loop_ok fuel : ∀ ctx data,
  length (block ctx) = 64%nat → (length data ≤ fuel)%nat →
  ∃ n full rest ctx', update_loop fuel ctx data = (ctx', rest) ∧ data = full ++ rest ∧
    length full = (64 * n)%nat ∧ (length rest < 64)%nat ∧ length (block ctx') = 64%nat ∧
    hash ctx' = comp n (hash ctx) full ∧ byte_count ctx' = byte_count ctx.
Proof.
  induction fuel as [|fuel IH]; intros ctx data Hb Hf.
  { destruct data; [|simpl in Hf; lia]. exists 0%nat, [], [], ctx. simpl. repeat split; (done || lia). }
  cbn [update_loop]. case_bool_decide as Hd.
  2: { exists 0%nat, [], data, ctx. simpl. repeat split; (done || lia). }
  set (ctx1 := md4_transform_helper _).
  assert (blit 0 (take 64 data) (block ctx) = take 64 data) as Hblit.
  { unfold blit. rewrite drop_ge by llen. by rewrite app_nil_r. }
  destruct (IH ctx1 (drop 64 data)) as (n & full & rest & ctx' & E & Ed & H1 & H2 & H3 & H4 & H5).
  { unfold ctx1. cbn [md4_transform_helper block]. rewrite swap_length, Hblit. llen. }
  { llen. }
  exists (S n), (take 64 data ++ full), rest, ctx'. split; [done|].
  split; [by rewrite <- app_assoc, <- Ed, take_drop|]. split; [llen|]. split; [done|]. split; [done|].
  split; [|done]. rewrite H4. cbn [comp]. rewrite take_app_le, drop_app_le by llen.
  rewrite take_take, Nat.min_id, drop_ge by llen. simpl app.
  unfold ctx1. cbn [md4_transform_helper hash block]. by rewrite Hblit.
Qed.

(** Bytes that were given to [md4_update] are remembered. *)
Lemma update_ok ctx m data : represents ctx m → represents (md4_update ctx data) (m ++ data).
Proof.
  intros (n & full & rest & -> & Hh). pose proof (offset_rest _ _ _ _ Hh) as Ho.
  destruct Hh as [H1 H2 H3 H4 H5 H6]. unfold md4_update. rewrite Ho.
  set (count := (byte_count ctx + Z.of_nat (length data)) mod 2^64).
  assert (count = Z.of_nat (length (full ++ rest ++ data)) mod 2^64) as Hc.
  { unfold count. rewrite H6, Zplus_mod_idemp_l. f_equal. rewrite !length_app. lia. }
  replace (64 - (64 - length rest))%nat with (length rest) by lia. case_bool_decide as Hd.
  - exists n, full, (rest ++ data). split; [by rewrite app_assoc|]. split; cbn [block hash byte_count].
    + done.
    + llen.
    + rewrite blit_length; [done|llen].
    + done.
    + rewrite length_app, blit_take by lia. by rewrite H5.
    + done.
  - set (d1 := take (64 - length rest) data). set (d2 := drop (64 - length rest) data).
    set (ctx1 := Md4Ctx (hash ctx) (blit (length rest) d1 (block ctx)) count).
    assert (length d1 = 64 - length rest)%nat as Hl1 by (unfold d1; llen).
    assert (blit (length rest) d1 (block ctx) = rest ++ d1) as Hb.
    { rewrite <- (take_ge _ 64) by (rewrite blit_length; lia).
      replace 64%nat with (length rest + length d1)%nat by lia. rewrite blit_take by lia. by rewrite H5. }
    destruct (update_loop_ok (length data) (md4_transform_helper ctx1) d2)
      as (k & full' & rest' & ctx2 & E & Ed & F1 & F2 & F3 & F4 & F5).
    { cbn [md4_transform_helper block ctx1]. rewrite swap_length, Hb. llen. }
    { unfold d2. llen. }
    rewrite E. exists (n + (1 + k))%nat, (full ++ (rest ++ d1) ++ full'), rest'.
    split; [rewrite <- !app_assoc, <- Ed; unfold d1, d2; by rewrite take_drop|].
    split; cbn [block hash byte_count].
    + llen.
    + done.
    + rewrite blit_length; [done|simpl; lia].
    + rewrite F4, comp_app, <- H4 by done. rewrite comp_app by llen. f_equal.
      cbn [comp]. rewrite take_ge by llen. cbn [md4_transform_helper hash block ctx1]. by rewrite Hb.
    + apply (blit_take 0 rest'). lia.
    + rewrite F5. cbn [md4_transform_helper byte_count ctx1]. rewrite Hc. do 2 f_equal.
      rewrite <- !app_assoc. rewrite <- Ed. unfold d1, d2. by rewrite take_drop.
Qed.

Lemma init_ok ctx : length (block ctx) = 64%nat → represents (md4_init ctx) [].
Proof. intros Hb. exists 0%nat, [], []. split; [done|]. split; try done. simpl. lia. Qed.

(** ** The end *)

(** The last block: 56 bytes and the count. *)
Lemma last_words_ok (B b : list Z) lo hi :
  length B = 56%nat → length b = 64%nat → take 56 b = B → 0 ≤ lo < 2^32 → 0 ≤ hi < 2^32 →
  words (le32_to_cpu_array 14 (blit 60 (le32 hi) (blit 56 (le32 lo) b))) =
  words (le32_to_cpu_array 14 B) ++ [lo; hi].
Proof.
  intros HB Hb Ht Hlo Hhi.
  assert (blit 60 (le32 hi) (blit 56 (le32 lo) b) = B ++ le32 lo ++ le32 hi) as ->.
  { unfold blit at 1. assert (length (blit 56 (le32 lo) b) = 64%nat) as Hl by (rewrite blit_length; simpl; lia).
    change (60 + length (le32 hi))%nat with 64%nat. rewrite drop_ge, app_nil_r by lia.
    pose proof (blit_take 56 (le32 lo) b ltac:(simpl; lia)) as E. simpl length in E. simpl Nat.add in E.
    rewrite E, Ht. by rewrite <- app_assoc. }
  rewrite swap_app by done. rewrite (words_app 14) by (rewrite swap_length; lia).
  f_equal. rewrite (words_app 1) by done. by rewrite !words_le32.
Qed.

Lemma final_ok ctx m len :
  represents ctx m → snd (md4_final_ascii ctx len) = take (len - 1) (md4_digest m).
Proof.
  intros (n & full & rest & -> & Hh). pose proof (offset_rest _ _ _ _ Hh) as Ho.
  destruct Hh as [H1 H2 H3 H4 H5 H6]. unfold md4_final_ascii, md4_digest. rewrite Ho.
  set (o := length rest) in *.
  assert (take (S o) (blit o [128] (block ctx)) = rest ++ [128]) as Hb1.
  { pose proof (blit_take o [128] (block ctx) ltac:(simpl; lia)) as E. simpl in E.
    rewrite Nat.add_1_r in E. by rewrite E, H5. }
  assert (length (blit o [128] (block ctx)) = 64%nat) as Hl1 by (rewrite blit_length; simpl; lia).
  assert (Z.of_nat (length (full ++ rest)) = 64 * Z.of_nat n + Z.of_nat o) as Hlen by (rewrite length_app; lia).
  assert ((55 - Z.of_nat (length (full ++ rest))) mod 64 = (55 - Z.of_nat o) mod 64) as Hpad.
  { rewrite Hlen. replace (55 - (64 * Z.of_nat n + Z.of_nat o)) with (55 - Z.of_nat o + (- Z.of_nat n) * 64) by lia.
    by rewrite Z.mod_add by lia. }
  case_bool_decide as Hp.
  - (* the count does not fit in the block *)
    assert ((55 - Z.of_nat o) mod 64 = 119 - Z.of_nat o) as Hz.
    { replace (55 - Z.of_nat o) with (119 - Z.of_nat o + (-1) * 64) by lia.
      rewrite Z.mod_add by lia. apply Z.mod_small. lia. }
    set (b2 := blit (S o) (replicate (Z.to_nat (56 - (Z.of_nat o + 1) + 8)) 0) (blit o [128] (block ctx))).
    assert (b2 = rest ++ [128] ++ replicate (63 - o) 0) as Hb2.
    { assert (length b2 = 64%nat) as L2 by (unfold b2; rewrite blit_length; [done|llen]).
      rewrite <- (take_ge b2 64) by lia. unfold b2.
      replace (Z.to_nat (56 - (Z.of_nat o + 1) + 8)) with (63 - o)%nat by lia.
      pose proof (blit_take (S o) (replicate (63 - o) 0) (blit o [128] (block ctx)) ltac:(llen)) as E.
      rewrite length_replicate in E. replace (S o + (63 - o))%nat with 64%nat in E by lia.
      rewrite E, Hb1. by rewrite <- app_assoc. }
    assert (padded (full ++ rest) = (full ++ b2) ++ replicate 56 0) as Hpd.
    { unfold padded. rewrite Hpad, Hz, Hb2.
      replace (Z.to_nat (119 - Z.of_nat o)) with ((63 - o) + 56)%nat by lia.
      rewrite replicate_add, <- !app_assoc. done. }
    assert (length (full ++ b2) = 64 * (n + 1))%nat as Hfl by (rewrite Hb2; llen).
    assert (length (padded (full ++ rest)) / 64 = n + 1)%nat as ->.
    { rewrite Hpd, length_app, Hfl, length_replicate, Nat.mul_comm, Nat.div_add_l by lia.
      change (56 / 64)%nat with 0%nat. lia. }
    rewrite Hpd, <- Hfl, drop_app_length, comp_prefix by done.
    rewrite (last_words_ok (replicate 56 0)); [|done|..].
    2: { rewrite blit_length; [|cbn [md4_transform_helper block]; rewrite swap_length, Hb2; llen].
         cbn [md4_transform_helper block]. rewrite swap_length, Hb2. llen. }
    2: { rewrite <- (length_replicate 56 0) at 1. apply (blit_take 0).
         cbn [md4_transform_helper block]. rewrite swap_length, Hb2. llen. }
    2, 3: apply u32_range.
    cbn [md4_transform_helper hash byte_count block]. rewrite comp_app, <- H4, H6 by done.
    cbn [comp]. rewrite (take_ge b2) by (rewrite Hb2; llen).
    by destruct (cpu_to_le32_array _) as [[[? ?] ?] ?].
  - assert ((55 - Z.of_nat o) mod 64 = 55 - Z.of_nat o) as Hz by (apply Z.mod_small; lia).
    set (B := rest ++ 128 :: replicate (55 - o) 0).
    assert (length B = 56%nat) as HB by (unfold B; llen).
    assert (padded (full ++ rest) = full ++ B) as Hpd.
    { unfold padded, B. rewrite Hpad, Hz, <- app_assoc.
      by replace (Z.to_nat (55 - Z.of_nat o)) with (55 - o)%nat by lia. }
    assert (length (padded (full ++ rest)) / 64 = n)%nat as ->.
    { rewrite Hpd, length_app, H1, HB, Nat.mul_comm, Nat.div_add_l by lia. change (56 / 64)%nat with 0%nat. lia. }
    rewrite Hpd, <- H1, drop_app_length, comp_prefix by done.
    rewrite (last_words_ok B); [|done|..].
    2: { rewrite blit_length; cbn [block]; [done|llen]. }
    2: { cbn [block]. replace (Z.to_nat (56 - (Z.of_nat o + 1))) with (55 - o)%nat by lia.
         pose proof (blit_take (S o) (replicate (55 - o) 0) (blit o [128] (block ctx)) ltac:(llen)) as E.
         rewrite length_replicate in E. replace (S o + (55 - o))%nat with 56%nat in E by lia.
         rewrite E, Hb1. unfold B. by rewrite <- app_assoc. }
    2, 3: apply u32_range.
    cbn [hash byte_count]. rewrite H4, H6. by destruct (cpu_to_le32_array _) as [[[? ?] ?] ?].
Qed.

(** C35: The version sum does not depend on how the text is cut into pieces:
    [md4_init], any sequence of [md4_update]s and [md4_final_ascii] give the
    digest of all the bytes in order (cut to the length of the buffer), for
    every previous content of the context. *)
Theorem md4_streaming ctx0 chunks len :
  length (block ctx0) = 64%nat →
  snd (md4_final_ascii (foldl md4_update (md4_init ctx0) chunks) len) =
  take (len - 1) (md4_digest (concat chunks)).
Proof.
  intros Hb. apply final_ok.
  assert (∀ ctx m, represents ctx m → represents (foldl md4_update ctx chunks) (m ++ concat chunks)) as Hf.
  { induction chunks as [|c chunks IH]; intros ctx m Hm; [by rewrite app_nil_r|]. cbn [foldl concat].
    rewrite app_assoc. apply IH. by apply update_ok. }
  exact (Hf _ [] (init_ok _ Hb)).
Qed.

Definition blank_ctx : md4_ctx := Md4Ctx (0, 0, 0, 0) (replicate 64 0) 0.
Lemma md4_streaming_witness :
  snd (md4_final_ascii (foldl md4_update (md4_init blank_ctx) [bytes "a"; []; bytes "bc"]) 33) =
  take 32 (md4_digest (bytes "abc")).
Proof. exact (md4_streaming blank_ctx [bytes "a"; []; bytes "bc"] 33 eq_refl). Defined.

(** ** The text of a file *)

Inductive mode :=
  | Code
  | Skip             (* the newline after a backslash *)
  | Open             (* the star that opens a comment *)
  | Str (prev : Z)   (* in a string *)
  | Com (prev : Z).  (* in a comment *)

(** The bytes that count. *)
Fixpoint strip (m : mode) (l : list Z) : list Z :=
  match l with
  | [] => []
  | c :: l' =>
      match m with
      | Code =>
          if bool_decide (c = 92) && bool_decide (head l' = Some 10) then strip Skip l'
          else if isspace c then strip Code l'
          else if bool_decide (c = 34) then c :: strip (Str c) l'
          else if bool_decide (c = 47) && bool_decide (head l' = Some 42) then strip Open l'
          else c :: strip Code l'
      | Skip => strip Code l'
      | Open => strip (Com c) l'
      | Str prev => c :: strip (if bool_decide (c = 34) && bool_decide (prev ≠ 92) then Code else Str c) l'
      | Com prev => strip (if bool_decide (prev = 42) && bool_decide (c = 47) then Code else Com c) l'
      end
  end.

Definition add_all (md : md4_ctx) (l : list Z) : md4_ctx := foldl (λ md c, add_char c md) md l.

Lemma add_all_ok l : ∀ md m, represents md m → represents (add_all md l) (m ++ l).
Proof.
  induction l as [|c l IH]; intros md m H; [by rewrite app_nil_r|].
  replace (m ++ c :: l) with ((m ++ [c]) ++ l) by (by rewrite <- app_assoc). apply IH. by apply update_ok.
Qed.

(** A slash at the end of a file of whole pages is followed by no memory. *)
Definition page_ok (file : list Z) : Prop :=
  last file ≠ Some 47 ∨ Z.of_nat (length file) mod PAGE_SIZE ≠ 0.

Section text.
Context (file : list Z).

Lemma byte_ok i c : file !! i = Some c → byte_at (mapping file) i = Ok c.
Proof.
  intros E. unfold byte_at, mapping. by rewrite lookup_app_l, E by (by eapply lookup_lt_Some).
Qed.
Lemma byte_after i c :
  page_ok file → file !! i = Some c → c = 47 → length file = S i → byte_at (mapping file) (S i) = Ok 0.
Proof.
  intros Hp Hi -> Hl. unfold byte_at, mapping. rewrite lookup_app_r, Hl, Nat.sub_diag by lia.
  assert (0 < Z.to_nat ((- Z.of_nat (S i)) mod PAGE_SIZE))%nat as Hz.
  { destruct Hp as [Hp|Hp].
    - destruct Hp. rewrite last_lookup, Hl. done.
    - rewrite Hl in Hp. unfold PAGE_SIZE in *.
      pose proof (Z.mod_pos_bound (- Z.of_nat (S i)) 4096 ltac:(lia)).
      destruct (decide ((- Z.of_nat (S i)) mod 4096 = 0)) as [E|E]; [|lia].
      destruct Hp. apply Z.mod_opp_l_z in E; [|lia]. by rewrite Z.opp_involutive in E. }
  destruct (Z.to_nat _); [lia|done].
Qed.
Lemma drop_at i c : file !! i = Some c → drop i file = c :: drop (S i) file.
Proof. intros. by apply drop_S. Qed.
Lemma lookup_in i : (i < length file)%nat → ∃ c, file !! i = Some c.
Proof. apply lookup_lt_is_Some_2. Qed.

Lemma parse_string_loop_ok base k : ∀ i md prev,
  (base + i + k = length file)%nat → (1 ≤ i)%nat → file !! (base + i - 1)%nat = Some prev →
  ∃ n cs, parse_string_loop k (mapping file) base i md = Ok (n, add_all md cs) ∧
    strip (Str prev) (drop (base + i) file) = cs ++ strip Code (drop (base + n + 1) file).
Proof.
  induction k as [|k IH]; intros i md prev Hk Hi Hp.
  { exists i, []. split; [done|]. by rewrite !drop_ge by lia. }
  destruct (lookup_in (base + i)) as [c Hc]; [lia|]. cbn [parse_string_loop].
  rewrite (byte_ok _ _ Hc). cbn [rbind]. rewrite (byte_ok _ _ Hp). cbn [rbind].
  rewrite (drop_at _ _ Hc). cbn [strip].
  destruct (bool_decide (c = 34) && bool_decide (prev ≠ 92)).
  - exists i, [c]. split; [done|]. simpl. by rewrite Nat.add_1_r.
  - destruct (IH (S i) (add_char c md) c) as (n & cs & E & Hs); [lia|lia|by replace (base + S i - 1)%nat with (base + i)%nat by lia|].
    exists n, (c :: cs). split; [done|]. simpl. f_equal. by rewrite <- Hs, Nat.add_succ_r.
Qed.

Lemma parse_comment_loop_ok base k : ∀ i prev,
  (base + i + k = length file)%nat → (1 ≤ i)%nat → file !! (base + i - 1)%nat = Some prev →
  ∃ n, parse_comment_loop k (mapping file) base i = Ok n ∧
    strip (Com prev) (drop (base + i) file) = strip Code (drop (base + n + 1) file).
Proof.
  induction k as [|k IH]; intros i prev Hk Hi Hp.
  { exists i. split; [done|]. by rewrite !drop_ge by lia. }
  destruct (lookup_in (base + i)) as [c Hc]; [lia|]. cbn [parse_comment_loop].
  rewrite (byte_ok _ _ Hp). cbn [rbind]. rewrite (byte_ok _ _ Hc). cbn [rbind].
  rewrite (drop_at _ _ Hc). cbn [strip].
  destruct (bool_decide (prev = 42) && bool_decide (c = 47)).
  - exists i. split; [done|]. by rewrite Nat.add_1_r.
  - destruct (IH (S i) c) as (n & E & Hs); [lia|lia|by replace (base + S i - 1)%nat with (base + i)%nat by lia|].
    exists n. split; [done|]. by rewrite <- Hs, Nat.add_succ_r.
Qed.

(** What follows an index, as the list and as the memory. *)
Lemma head_drop i c : file !! i = Some c → head (drop (S i) file) = file !! S i.
Proof.
  intros _. destruct (file !! S i) as [c'|] eqn:E; [by rewrite (drop_at _ _ E)|].
  apply lookup_ge_None in E. by rewrite drop_ge.
Qed.

Lemma parse_loop_ok : page_ok file → ∀ fuel i md,
  (length file - i < fuel)%nat →
  parse_loop fuel (mapping file) i (length file) md = Ok (add_all md (strip Code (drop i file))).
Proof.
  intros Hp. induction fuel as [|fuel IH]; intros i md Hf; [lia|]. cbn [parse_loop].
  case_bool_decide as Hi; [by rewrite drop_ge|].
  destruct (lookup_in i) as [c Hc]; [lia|]. rewrite (byte_ok _ _ Hc), (drop_at _ _ Hc). cbn [rbind strip].
  rewrite (head_drop _ _ Hc), !Nat.add_1_r.
  assert ((if bool_decide (c = 92) && bool_decide (S i < length file)%nat
      then rbind (byte_at (mapping file) (S i)) (λ c', Ok (bool_decide (c' = 10))) else Ok false) =
    Ok (bool_decide (c = 92) && bool_decide (file !! S i = Some 10))) as ->.
  { destruct (bool_decide (c = 92)); [|done]. cbn [andb].
    destruct (file !! S i) as [c'|] eqn:E.
    - rewrite bool_decide_true by (by eapply lookup_lt_Some). rewrite (byte_ok _ _ E). cbn [rbind].
      f_equal. apply bool_decide_ext. naive_solver.
    - apply lookup_ge_None in E. by rewrite (bool_decide_false (S i < _)%nat) by lia. }
  cbn [rbind]. destruct (bool_decide (c = 92) && bool_decide (file !! S i = Some 10)) eqn:E1.
  { apply andb_prop in E1 as [_ E1%bool_decide_eq_true]. rewrite (drop_at _ _ E1). cbn [strip].
    rewrite <- IH by lia. done. }
  destruct (isspace c); [apply IH; lia|].
  destruct (decide (c = 34)) as [->|E2].
  { rewrite !(bool_decide_true (34 = 34)) by done. unfold parse_string. rewrite (byte_ok _ _ Hc). cbn [rbind].
    destruct (parse_string_loop_ok i (length file - i - 1) 1 (add_char 34 md) 34) as (n & cs & E & Hs);
      [lia|lia|by replace (i + 1 - 1)%nat with i by lia|].
    rewrite E. cbn [rbind]. rewrite <- Nat.add_1_r, IH by lia. rewrite Nat.add_1_r in Hs |- *.
    rewrite Hs, Nat.add_1_r. f_equal. unfold add_all. cbn [foldl]. by rewrite foldl_app. }
  rewrite !(bool_decide_false (c = 34)) by done.
  assert ((if bool_decide (c = 47) then rbind (byte_at (mapping file) (S i)) (λ c', Ok (bool_decide (c' = 42)))
      else Ok false) = Ok (bool_decide (c = 47) && bool_decide (file !! S i = Some 42))) as ->.
  { destruct (decide (c = 47)) as [E3|E3]; [rewrite !(bool_decide_true (c = 47)) by done|
      by rewrite !(bool_decide_false (c = 47))].
    cbn [andb]. destruct (file !! S i) as [c'|] eqn:E.
    - rewrite (byte_ok _ _ E). cbn [rbind]. f_equal. apply bool_decide_ext. naive_solver.
    - apply lookup_ge_None in E. rewrite (byte_after i c Hp Hc E3) by lia. done. }
  cbn [rbind]. destruct (bool_decide (c = 47) && bool_decide (file !! S i = Some 42)) eqn:E4.
  - apply andb_prop in E4 as [_ E4%bool_decide_eq_true]. rewrite (drop_at _ _ E4). cbn [strip].
    assert (S i < length file)%nat by (by eapply lookup_lt_Some).
    unfold parse_comment.
    destruct (parse_comment_loop_ok i (length file - i - 2) 2 42) as (n & E & Hs);
      [lia|lia|by replace (i + 2 - 1)%nat with (S i) by lia|].
    rewrite E. cbn [rbind]. rewrite IH by lia.
    replace (S (S i)) with (i + 2)%nat by lia. by rewrite Hs, Nat.add_1_r.
  - rewrite IH by lia. done.
Qed.
End text.

(** C36: [parse_file] adds to the sum exactly the bytes of the file outside
    comments and white space, with strings as they stand: the sum after it is
    the digest of the earlier bytes followed by the stripped text. *)
Theorem file_sum fs fname file md m len :
  fs fname = Some file → file ≠ [] → page_ok file → represents md m →
  ∃ md', parse_file fs fname md = Ok (true, md') ∧ represents md' (m ++ strip Code file) ∧
    snd (md4_final_ascii md' len) = take (len - 1) (md4_digest (m ++ strip Code file)).
Proof.
  intros Hf Hne Hp Hm. exists (add_all md (strip Code file)).
  assert (represents (add_all md (strip Code file)) (m ++ strip Code file)) as Hr by (by apply add_all_ok).
  split; [|split; [done|by apply final_ok]].
  unfold parse_file, grab_file. rewrite Hf. destruct file as [|c file]; [done|].
  rewrite parse_loop_ok by (done || lia). done.
Qed.

Definition demo_file : list Z := bytes "int /* a */ x = y;".
Lemma file_sum_witness :
  strip Code demo_file = bytes "intx=y;" ∧
  ∃ md', parse_file (λ _, Some demo_file) (bytes "a.c") (md4_init blank_ctx) = Ok (true, md') ∧
    represents md' ([] ++ strip Code demo_file) ∧
    snd (md4_final_ascii md' 33) = take (33 - 1) (md4_digest ([] ++ strip Code demo_file)).
Proof.
  split; [reflexivity|]. apply file_sum.
  - reflexivity.
  - discriminate.
  - left. vm_compute. discriminate.
  - apply init_ok. reflexivity.
Defined.

(** The sum differs from what the comments and the language say.  The
    digest is not the one of RFC 1320 that the file names, since the words are
    read with [ntohl], high byte first: the sum of the empty text is not
    31D6CFE0D16AE931B73C59D7E0C089C0.  "/*/" counts as a whole comment, so the
    text of a comment that starts so is summed; a quote after an escaped
    backslash does not end the string; and a file of whole pages that ends with
    a slash makes [parse_file] read after its mapping. *)
Theorem version_sum_divergences md :
  snd (md4_final_ascii (md4_init blank_ctx) 33) = bytes "533BB7E5866E52F63B9ACCB31401D77F" ∧
  strip Code (bytes "/*/ text */") = bytes "text*/" ∧
  strip (Str 34) [92; 92; 34; 32; 97] = [92; 92; 34; 32; 97] ∧
  parse_loop (S (64 * 64)) (mapping (replicate (64 * 64 - 1) 32 ++ [47])) 0 (64 * 64) md = Err OutOfBounds.
Proof.
  split; [vm_compute; reflexivity|]. split; [reflexivity|]. split; [reflexivity|]. vm_compute. reflexivity.
Qed.

(** ** Revision numbers *)

Lemma span_at_ok p l c r : Forall (λ c, p c = true) l → p c = false → ∀ k pre, (length l < k)%nat →
  span_at k p (pre ++ l ++ c :: r) (length pre) = Ok (length l).
Proof.
  intros HF Hc. induction HF as [|x l Hx HF IH]; intros k pre Hk; (destruct k as [|k]; [simpl in Hk; lia|]); cbn [span_at]; unfold byte_at.
  - rewrite lookup_app_r, Nat.sub_diag by lia. simpl. by rewrite Hc.
  - rewrite lookup_app_r, Nat.sub_diag by lia. simpl. rewrite Hx. specialize (IH k (pre ++ [x])).
    rewrite length_app, <- app_assoc in IH. simpl in IH, Hk. replace (length pre + 1)%nat with (S (length pre)) in IH by lia.
    by rewrite IH by lia.
Qed.
Lemma cstr_ends l r : 0 ∉ l → cstr (l ++ 0 :: r) = l.
Proof. induction l as [|c l IH]; [done|]. intros [Hc Hl]%not_elem_of_cons. simpl. rewrite bool_decide_false by done. by rewrite IH. Qed.
Lemma strlen_at_ok pre l r : 0 ∉ l → strlen_at (pre ++ l ++ 0 :: r) (length pre) = Ok (length l).
Proof.
  intros Hl. unfold strlen_at. rewrite drop_app_length, bool_decide_true by (apply elem_of_app; right; left). by rewrite cstr_ends.
Qed.

(** A piece of memory moved over what is before it. *)
Lemma memmove_down pre gap l rest : ∃ rest',
  memmove (pre ++ gap ++ l ++ rest) (length pre) (length pre + length gap) (length l) = Ok (pre ++ l ++ rest') ∧ length rest' = (length gap + length rest)%nat.
Proof.
  unfold memmove. rewrite bool_decide_true by (rewrite !length_app; lia). eexists.
  assert (drop (length pre + length gap) (pre ++ gap ++ l ++ rest) = l ++ rest) as ->.
  { rewrite app_assoc, drop_app_length' by (by rewrite length_app). done. }
  rewrite !take_app_length. split; [done|].
  rewrite length_drop, !length_app. lia.
Qed.

(** The revision is what is between the keyword and the next space. *)
Lemma strip_rcs_ok s sp ver junk next tail :
  (s = 58 ∨ s = 36) → Forall (λ c, isspace c = true) sp → ver ≠ [] → Forall (λ c, bool_decide (c ≠ 0) && negb (isspace c) = true) ver →
  0 ∉ junk → 0 ∉ next → (junk = [] ∨ ∃ c r, junk = c :: r ∧ isspace c = true) →
  ∃ rest, strip_rcs_crap (bytes "$Revision" ++ s :: sp ++ ver ++ junk ++ 0 :: next ++ 0 :: tail) =
    Ok (Some (ver ++ 0 :: next ++ 0 :: rest)).
Proof.
  intros Hs Hsp Hv Hver Hjunk Hnext Hj. assert (0 ∉ ver) as H0v.
  { intros Hin. rewrite Forall_forall in Hver. by apply Hver in Hin. }
  assert (0 ∉ sp) as H0s.
  { intros Hin. rewrite Forall_forall in Hsp. by apply Hsp in Hin. }
  set (R := bytes "$Revision"). set (v := R ++ s :: sp ++ ver ++ junk ++ 0 :: next ++ 0 :: tail).
  assert (v = (R ++ s :: sp ++ ver ++ junk) ++ 0 :: next ++ 0 :: tail) as Hv1 by (unfold v; rewrite <- !app_assoc; simpl; by rewrite <- !app_assoc).
  assert (0 ∉ R ++ s :: sp ++ ver ++ junk) as H0.
  { rewrite elem_of_app, elem_of_cons, !elem_of_app. intros [Hin|[Hin|[?|[?|?]]]]; [|by destruct Hs; subst|done..].
    revert Hin. apply (bool_decide_unpack _). vm_compute. exact I. }
  pose proof (cstr_ends _ (next ++ 0 :: tail) H0) as Hc1. rewrite <- Hv1 in Hc1.
  assert (length R = 9%nat) as HR by reflexivity.
  unfold strip_rcs_crap. rewrite Hc1. fold R.
  assert (is_prefix R (R ++ s :: sp ++ ver ++ junk) = true) as -> by reflexivity. cbn [negb].
  set (n1 := length (R ++ s :: sp ++ ver ++ junk)).
  assert (strlen_at v 0 = Ok n1) as -> by (rewrite Hv1; apply (strlen_at_ok []), H0). cbn [rbind].
  assert (strlen_at v (n1 + 1) = Ok (length next)) as ->.
  { rewrite Hv1, cons_middle, app_assoc. replace (n1 + 1)%nat with (length ((R ++ s :: sp ++ ver ++ junk) ++ [0])) by (unfold n1; rewrite length_app; simpl; lia).
    by apply strlen_at_ok. }
  cbn [rbind]. assert (byte_at v 9 = Ok s) as -> by reflexivity. cbn [rbind].
  assert (bool_decide (s = 58) || bool_decide (s = 36) = true) as -> by (by destruct Hs; subst). cbv iota zeta.
  destruct ver as [|c0 ver']; [done|]. inversion_clear Hver as [|? ? Hc0 Hver']. set (ver := c0 :: ver') in *.
  assert (span_at (length v - 10) isspace v 10 = Ok (length sp)) as ->.
  { unfold v. rewrite cons_middle, app_assoc. apply (span_at_ok isspace sp c0 _ Hsp); [|].
    - apply andb_true_iff in Hc0 as [_ Hc0]. by apply negb_true_iff in Hc0.
    - rewrite !length_app. unfold ver. simpl. lia. }
  cbn [rbind]. set (l := ver ++ junk ++ 0 :: next ++ [0]). set (gap := R ++ s :: sp).
  assert (length gap = 10 + length sp)%nat as Hgap by (unfold gap; rewrite length_app, HR; simpl; lia).
  assert (length l = n1 + length next + 2 - (10 + length sp))%nat as Hl.
  { unfold l, n1. rewrite !length_app. simpl. rewrite !length_app. simpl. rewrite !length_app. lia. }
  rewrite <- Hl, <- Hgap. destruct (memmove_down [] gap l tail) as (rest1 & E1 & _).
  rewrite !app_nil_l in E1. change (length (@nil Z)) with 0%nat in E1. rewrite Nat.add_0_l in E1.
  assert (v = gap ++ l ++ tail) as -> by (unfold v, gap, l; rewrite <- !app_assoc; simpl; by rewrite <- !app_assoc).
  rewrite E1. cbn [rbind]. assert (l ++ rest1 = ver ++ junk ++ (0 :: next ++ [0]) ++ rest1) as Hl1 by (unfold l; by rewrite <- !app_assoc).
  assert (span_at (length (l ++ rest1)) (λ c, bool_decide (c ≠ 0) && negb (isspace c)) (l ++ rest1) 0 = Ok (length ver)) as ->.
  { rewrite Hl1. set (k := length _). assert (length ver < k)%nat as Hk by (unfold k; rewrite !length_app; simpl; lia). clearbody k.
    destruct Hj as [->|(c & r & -> & Hc)]; simpl app at 2; apply (span_at_ok _ ver _ _ (Forall_cons_2 _ _ _ Hc0 Hver')) with (pre := []); try done.
    by rewrite Hc, andb_false_r. }
  cbn [rbind]. assert (strlen_at (l ++ rest1) 0 = Ok (length ver + length junk)%nat) as ->.
  { rewrite Hl1, <- length_app, (app_assoc ver). apply (strlen_at_ok []). by intros [?|?]%elem_of_app. }
  cbn [rbind]. rewrite Hl1. replace (length l - (length ver + length junk))%nat with (length (0 :: next ++ [0])) by (unfold l; rewrite !length_app; lia).
  destruct (memmove_down ver junk (0 :: next ++ [0]) rest1) as (rest & E2 & _). rewrite E2. cbn [rbind]. exists rest.
  simpl. by rewrite <- app_assoc.
Qed.

(** A version "$Revision: 1.2 $" is cut down to "1.2", in memory, where the
    string that follows moves up behind it, and in the file at its offset; a
    file that cannot be opened or positioned stays as it is, and any other
    version is left alone. *)
Lemma rcs_version_cleaned io file s sp ver junk next tail offset :
  (s = 58 ∨ s = 36) → Forall (λ c, isspace c = true) sp → ver ≠ [] → Forall (λ c, bool_decide (c ≠ 0) && negb (isspace c) = true) ver →
  0 ∉ junk → 0 ∉ next → (junk = [] ∨ ∃ c r, junk = c :: r ∧ isspace c = true) →
  ∃ rest, maybe_frob_rcs_version io file (bytes "$Revision" ++ s :: sp ++ ver ++ junk ++ 0 :: next ++ 0 :: tail) offset =
    Ok (ver ++ 0 :: next ++ 0 :: rest,
        if rw_open io && rw_seek io then put_at offset (take (rw_bytes io) (ver ++ [0])) file else file,
        if negb (rw_open io) then [OpenFailed] else if negb (rw_seek io) then [SeekFailed]
        else if bool_decide (rw_bytes io < length ver + 1)%nat then [WriteFailed] else []).
Proof.
  intros Hs Hsp Hv Hver Hjunk Hnext Hj. destruct (strip_rcs_ok s sp ver junk next tail Hs Hsp Hv Hver Hjunk Hnext Hj) as [rest E].
  exists rest. unfold maybe_frob_rcs_version. rewrite E. cbn [rbind]. unfold write_version.
  rewrite cstr_ends by (intros Hin; rewrite Forall_forall in Hver; by apply Hver in Hin).
  destruct (rw_open io), (rw_seek io); cbn [negb andb]; try done.
  rewrite length_app. cbn [length]. destruct (decide (rw_bytes io < length ver + 1)%nat) as [Hlt|Hge].
  - rewrite (bool_decide_true (_ < _)%nat), bool_decide_true by lia. by rewrite Nat.min_l by lia.
  - rewrite (bool_decide_false (_ < _)%nat), bool_decide_false by lia. rewrite Nat.min_r by lia.
    rewrite (take_ge _ (length ver + 1)), (take_ge _ (rw_bytes io)) by (rewrite length_app; cbn [length]; lia). done.
Qed.
