(* ===== verification/Fixdep.v ===== *)
(** * Dependencies of objects (Vm/linux-2.6.19/scripts/basic/fixdep.c)

    fixdep reads the dependencies of an object as the compiler lists them and
    prints them for make, with the files under include/config of all symbols
    CONFIG_... that the sources use.  The buffer of the symbols that were met,
    its size and the standard output are the record [fix]; a function that may
    end the program returns in the monad [F].  Files are mapped into memory
    ([mapping] of Sumversion). *)

From stdpp Require Import base numbers list option strings.
From S2P Require Import Prelude CString Sumversion.
Local Open Scope Z_scope.

(** ** State and results *)

(** What is under a name; [NoMap] is a file that mmap refuses. *)
Inductive file := Missing | NoMap | Text (text : list Z).

(** [str_config] up to [len_config], and [size_config]. *)
Record fix_state := Fix {
  f_config : list Z;
  f_size : Z;
  f_out : list Z }.
Inductive fresult (A : Type) :=
  | FOk (a : A) (s : fix_state)
  | FExit (code : Z) (s : fix_state)
  | FFault (f : fault).
Arguments FOk {A} _ _.
Arguments FExit {A} _ _.
Arguments FFault {A} _.

Definition F (A : Type) : Type := fix_state → fresult A.
Definition fret {A} (a : A) : F A := λ s, FOk a s.
Definition fbind {A B} (m : F A) (k : A → F B) : F B := λ s,
  match m s with FOk a s' => k a s' | FExit c s' => FExit c s' | FFault f => FFault f end.
Definition fexit {A} (code : Z) : F A := λ s, FExit code s.
Definition flift {A} (r : res A) : F A := λ s, match r with Ok a => FOk a s | Err f => FFault f end.
Definition fget {A} (f : fix_state → A) : F A := λ s, FOk (f s) s.
Definition fmod (f : fix_state → fix_state) : F unit := λ s, FOk tt (f s).
Declare Scope fix_scope.
Notation "x <- m ;; k" := (fbind m (λ x, k)) (at level 20, m at level 99, k at level 200) : fix_scope.
Notation "m ;;; k" := (fbind m (λ _, k)) (at level 100, k at level 200, right associativity) : fix_scope.
Local Open Scope fix_scope.

Definition set_config (l : list Z) : F unit := fmod (λ s, Fix l (f_size s) (f_out s)).
Definition set_size (z : Z) : F unit := fmod (λ s, Fix (f_config s) z (f_out s)).
Definition printf (l : list Z) : F unit := fmod (λ s, Fix (f_config s) (f_size s) (f_out s ++ l)).
Definition nl : list Z := [10].

(** ** Words of memory *)

(** Four bytes as an unsigned word, little-endian; [ntohl] swaps the bytes. *)
Definition word_of (b0 b1 b2 b3 : Z) : Z := b0 + 256 * (b1 + 256 * (b2 + 256 * b3)).
Definition word_at (mem : list Z) (i : nat) : res Z :=
  rbind (byte_at mem i) (λ b0, rbind (byte_at mem (i + 1)) (λ b1,
  rbind (byte_at mem (i + 2)) (λ b2, rbind (byte_at mem (i + 3)) (λ b3, Ok (word_of b0 b1 b2 b3))))).
Definition ntohl (z : Z) : Z :=
  word_of (Z.shiftr z 24 mod 256) (Z.shiftr z 16 mod 256) (Z.shiftr z 8 mod 256) (z mod 256).
Definition INT_CONF : Z := ntohl 0x434f4e46.
Definition INT_ONFI : Z := ntohl 0x4f4e4649.
Definition INT_NFIG : Z := ntohl 0x4e464947.
Definition INT_FIG_ : Z := ntohl 0x4649475f.

Definition PATH_MAX : nat := Sumversion.PATH_MAX.

Section fixdep.
(** [realloc] of a size succeeds; the files. *)
Context (realloc_ok : Z → bool) (fs : list Z → file).

(** ** The symbols that were met *)

(** Twenty doublings reach the largest size below the overflow. *)
Fixpoint grow_loop (k : nat) (len : Z) : F unit :=
  match k with
  | O => flift (Err NoFuel)
  | S k' =>
      size <- fget f_size;;
      used <- fget (λ s, Z.of_nat (length (f_config s)));;
      if bool_decide (used + len > size) then
        let size' := wrap32 ((if bool_decide (size = 0) then 2048 else size) * 2) in
        if realloc_ok size' then set_size size';;; grow_loop k' len else fexit 1
      else fret tt
  end.
Definition grow_config (len : Z) : F unit := grow_loop 21 len.

(** [pconfig] from [i] on, [k] turns before [plast]. *)
Fixpoint defined_from (k i : nat) (config name : list Z) : bool :=
  match k with
  | O => false
  | S k' =>
      (bool_decide (config !! (i - 1)%nat = Some 10) && bool_decide (config !! (i + length name)%nat = Some 10) &&
       bool_decide (take (length name) (drop i config) = name)) ||
      defined_from k' (S i) config name
  end.
Definition is_defined_config (config name : list Z) : bool :=
  defined_from (length config - length name - 1) 1 config name.

Definition define_config (name : list Z) : F unit :=
  grow_config (Z.of_nat (length name) + 1);;;
  config <- fget f_config;;
  set_config (config ++ name ++ [10]).
Definition clear_config : F unit := set_config [];;; define_config [].

(** The path of a symbol's file. *)
Definition config_path (m : list Z) : list Z := (λ c, if bool_decide (c = 95) then 47 else tolower c) <$> m.
Definition use_config (m : list Z) : F unit :=
  config <- fget f_config;;
  if is_defined_config config m then fret tt
  else
    define_config m;;;
    flift (if bool_decide (length m < PATH_MAX)%nat then Ok tt else Err OutOfBounds);;;
    printf (bytes "    $(wildcard include/config/" ++ config_path m ++ bytes ".h) \" ++ nl).

(** ** Sources *)

Definition wordchar (c : Z) : bool := isalnum c || bool_decide (c = 95).
(** The end of the name from [q] on, or none before [len]. *)
Fixpoint name_end (k : nat) (mem : list Z) (q : nat) : option nat :=
  match k with
  | O => None
  | S k' =>
      match mem !! q with
      | Some c => if wordchar c then name_end k' mem (S q) else Some q
      | None => None
      end
  end.
(** The label [conf]. *)
Definition conf (mem : list Z) (len p : nat) : F unit :=
  if bool_decide (len < p + 7)%nat then fret tt
  else if negb (bool_decide (take 7 (drop p mem) = bytes "CONFIG_")) then fret tt
  else
    match name_end (len - (p + 7)) mem (p + 7) with
    | Some q => use_config (take (q - (p + 7)) (drop (p + 7) mem))
    | None => fret tt
    end.
Fixpoint words_loop (k : nat) (mem : list Z) (len m : nat) : F unit :=
  match k with
  | O => flift (Err NoFuel)
  | S k' =>
      if bool_decide (m < len)%nat then
        w <- flift (word_at mem m);;
        (if bool_decide (w = INT_CONF) then conf mem len m
         else if bool_decide (w = INT_ONFI) then conf mem len (m - 1)
         else if bool_decide (w = INT_NFIG) then conf mem len (m - 2)
         else if bool_decide (w = INT_FIG_) then conf mem len (m - 3)
         else fret tt);;;
        words_loop k' mem len (m + 4)
      else fret tt
  end.
Definition parse_config_file (mem : list Z) (len : nat) : F unit := words_loop (S len) mem len 4.

(** ** Dependencies *)

(** Zero when [s] ends in [sub]. *)
Definition strrcmp (s sub : list Z) : bool :=
  bool_decide (length s < length sub)%nat || bool_decide (drop (length s - length sub) s ≠ sub).

Definition do_config_file (filename : list Z) : F unit :=
  match fs filename with
  | Missing => fexit 2
  | NoMap | Text [] => fret tt
  | Text text => parse_config_file (mapping text) (length text)
  end.

Definition is_sep (c : Z) : bool := bool_decide (c = 32) || bool_decide (c = 92) || bool_decide (c = 10).
(** From [i] on the first index below [len] whose byte is not (or is) one of
    those; [k] bytes are left. *)
Fixpoint skip_while (f : Z → bool) (k : nat) (mem : list Z) (i : nat) : nat :=
  match k with
  | O => i
  | S k' => match mem !! i with Some c => if f c then skip_while f k' mem (S i) else i | None => i end
  end.
(** Back to the character after the last letter or digit before [p]. *)
Fixpoint back_to_alnum (mem : list Z) (p : nat) : res nat :=
  match p with
  | O => Err OutOfBounds
  | S p' => rbind (byte_at mem p') (λ c, if isalnum c then Ok p else back_to_alnum mem p')
  end.
(** [memcpy(s, m, p - m)] into [PATH_MAX] bytes, as a C string. *)
Definition copy_name (mem : list Z) (m p : nat) : res (list Z) :=
  if bool_decide (p < m)%nat then Err OutOfBounds
  else if bool_decide (p - m < PATH_MAX)%nat then Ok (cstr (take (p - m) (drop m mem)))
  else Err OutOfBounds.

Fixpoint deps_from (k : nat) (mem : list Z) (len m : nat) : F unit :=
  match k with
  | O => flift (Err NoFuel)
  | S k' =>
      if bool_decide (m < len)%nat then
        let m1 := skip_while is_sep (len - m) mem m in
        let p := skip_while (λ c, bool_decide (c ≠ 32)) (len - m1) mem m1 in
        p1 <- flift (if bool_decide (p = len) then back_to_alnum mem p else Ok p);;
        s <- flift (copy_name mem m1 p1);;
        (if strrcmp s (bytes "include/linux/autoconf.h") && strrcmp s (bytes "arch/um/include/uml-config.h") &&
            strrcmp s (bytes ".ver")
         then printf (bytes "  " ++ s ++ bytes " \" ++ nl);;; do_config_file s
         else fret tt);;;
        deps_from k' mem len (p1 + 1)
      else fret tt
  end.
Definition parse_dep_file (target mem : list Z) (len : nat) : F unit :=
  o <- flift (strchr mem 0 58);;
  match o with
  | None => fexit 1
  | Some p =>
      flift (copy_name mem 0 p);;;
      printf (bytes "deps_" ++ target ++ bytes " := \" ++ nl);;;
      clear_config;;;
      deps_from (S len) mem len (p + 1);;;
      printf (nl ++ target ++ bytes ": $(deps_" ++ target ++ bytes ")" ++ nl ++ nl);;;
      printf (bytes "$(deps_" ++ target ++ bytes "):" ++ nl)
  end.
Definition print_deps (depfile target : list Z) : F unit :=
  match fs depfile with
  | Missing => fexit 2
  | NoMap | Text [] => fret tt
  | Text text => parse_dep_file target (mapping text) (length text)
  end.

Definition print_cmdline (target cmdline : list Z) : F unit :=
  printf (bytes "cmd_" ++ target ++ bytes " := " ++ cmdline ++ nl ++ nl).
Definition traps : F unit :=
  w <- flift (word_at (bytes "CONF" ++ [0]) 0);;
  if bool_decide (w ≠ INT_CONF) then fexit 2 else fret tt.
Definition main (argv : list (list Z)) : F Z :=
  traps;;;
  match argv with
  | [_; depfile; target; cmdline] =>
      print_cmdline target cmdline;;;
      print_deps depfile target;;;
      fret 0
  | _ => fexit 1
  end.
End fixdep.
