(* ===== verification/FixdepInv.v ===== *)
(** * Reference definitions for fixdep, and its buffer of names

    The buffer is the list of the names that were met, each between newlines;
    the search for aligned words finds what a search at every byte finds. *)

From stdpp Require Import base numbers list option strings.
From S2P Require Import Prelude CString Sumversion Fixdep.
Local Open Scope Z_scope.

(** ** The buffer of the names *)

Definition config_of (names : list (list Z)) : list Z := 10 :: concat ((λ n, n ++ [10]) <$> names).
Definition plain_name (n : list Z) : Prop := 10 ∉ n.

Lemma config_of_snoc names n : config_of (names ++ [n]) = config_of names ++ n ++ [10].
Proof. unfold config_of. by rewrite fmap_app, concat_app, <- app_comm_cons; simpl; rewrite app_nil_r. Qed.

Lemma config_of_app names ns : config_of (names ++ ns) = config_of names ++ concat ((λ n, n ++ [10]) <$> ns).
Proof. unfold config_of. by rewrite fmap_app, concat_app. Qed.

(** The test of [is_defined_config] at one place. *)
Definition hit (config name : list Z) (i : nat) : bool :=
  bool_decide (config !! (i - 1)%nat = Some 10) && bool_decide (config !! (i + length name)%nat = Some 10) &&
  bool_decide (take (length name) (drop i config) = name).
Lemma defined_from_hit k i config name :
  defined_from k i config name = true ↔ ∃ j, (i ≤ j < i + k)%nat ∧ hit config name j = true.
Proof.
  revert i. induction k as [|k IH]; intros i; cbn [defined_from].
  - split; [done|]. intros (j & Hj & _). lia.
  - fold (hit config name i). rewrite orb_true_iff, IH. split.
    + intros [H|(j & Hj & H)]; [exists i|exists j]; (split; [lia|done]).
    + intros (j & Hj & H). destruct (decide (j = i)) as [->|]; [by left|]. right. exists j. split; [lia|done].
Qed.
Lemma is_defined_hit config name :
  is_defined_config config name = true ↔ ∃ j, (0 < j)%nat ∧ hit config name j = true.
Proof.
  unfold is_defined_config. rewrite defined_from_hit. split; intros (j & Hj & H); exists j; (split; [|done]); [lia|].
  split; [lia|]. unfold hit in H. apply andb_true_iff in H as [[_ H]%andb_true_iff _].
  apply bool_decide_eq_true, lookup_lt_Some in H. lia.
Qed.

(** A piece without newlines between two newlines. *)
Lemma delimited n n' l l' : plain_name n → plain_name n' → n ++ 10 :: l = n' ++ 10 :: l' → n = n' ∧ l = l'.
Proof.
  intros Hn. revert n'. induction n as [|c n IH]; intros [|c' n'] Hn' H; simpl in H.
  - by injection H as ->.
  - injection H as <- _. exfalso. apply Hn'. left.
  - injection H as -> _. exfalso. apply Hn. left.
  - injection H as -> H. apply not_elem_of_cons in Hn as [_ Hn]. apply not_elem_of_cons in Hn' as [_ Hn'].
    destruct (IH Hn n' Hn' H) as [-> ->]. done.
Qed.
Lemma hit_split config name j : (0 < j)%nat → hit config name j = true ↔
  ∃ l r, config = l ++ 10 :: name ++ 10 :: r ∧ S (length l) = j.
Proof.
  intros Hj. unfold hit. rewrite !andb_true_iff, !bool_decide_eq_true. split.
  - intros [[H1 H2] H3]. apply list_elem_of_split_length in H1 as (l & r & -> & Hl). exists l.
    assert (drop j (l ++ 10 :: r) = r) as Hd by (rewrite drop_app_ge by lia; by replace (j - length l)%nat with 1%nat by lia).
    rewrite Hd in H3. rewrite lookup_app_r in H2 by lia. replace (j + length name - length l)%nat with (S (length name)) in H2 by lia.
    simpl in H2. apply list_elem_of_split_length in H2 as (n' & r' & -> & Hn). rewrite take_app_length' in H3 by done. subst n'.
    exists r'. split; [done|lia].
  - intros (l & r & -> & Hl). split; [split|].
    + rewrite lookup_app_r by lia. by replace (j - 1 - length l)%nat with 0%nat by lia.
    + rewrite lookup_app_r by lia. replace (j + length name - length l)%nat with (S (length name)) by lia. simpl.
      by rewrite lookup_app_r, Nat.sub_diag by lia.
    + rewrite cons_middle, app_assoc, drop_app_length' by (rewrite length_app; simpl; lia). by rewrite take_app_length.
Qed.
Lemma is_defined_ok names n : Forall plain_name names → plain_name n →
  is_defined_config (config_of names) n = bool_decide (n ∈ names).
Proof.
  intros HF Hn. apply eq_bool_prop_intro. rewrite !Is_true_true, bool_decide_eq_true, is_defined_hit.
  assert ((∃ l r, config_of names = l ++ 10 :: n ++ 10 :: r) ↔ n ∈ names) as <-.
  { induction HF as [|m names Hm HF IH].
    - split; [|by intros ?%elem_of_nil]. intros (l & r & H). unfold config_of in H. simpl in H.
      apply (f_equal length) in H. rewrite length_app in H. simpl in H. rewrite length_app in H. simpl in H. lia.
    - assert (config_of (m :: names) = 10 :: m ++ config_of names) as E by (unfold config_of; simpl; by rewrite <- app_assoc).
      rewrite elem_of_cons, <- IH, E. split.
      + intros ([|c l] & r & H); simpl in H.
        * injection H as H. left. symmetry. by apply (delimited m n (concat ((λ n, n ++ [10]) <$> names)) r Hm Hn).
        * injection H as _ H. right. apply app_eq_inv in H as [(k & Hk & H)|(k & Hk & H)].
          -- destruct k as [|c' k]; [by exists [], r; rewrite app_nil_r in Hk|]. simpl in H. injection H as <- H.
             exfalso. apply Hm. rewrite Hk. apply elem_of_app. right. left.
          -- by exists k, r.
      + intros [->|(l & r & H)]; [by exists [], (concat ((λ n, n ++ [10]) <$> names))|].
        exists (10 :: m ++ l), r. rewrite H. simpl. by rewrite <- app_assoc. }
  split.
  - intros (j & Hj & H). apply hit_split in H as (l & r & H & _); [|done]. eauto.
  - intros (l & r & H). exists (S (length l)). split; [lia|]. apply hit_split; [lia|]. eauto.
Qed.

(** ** The names that a text uses *)

(** The longest start of letters, digits and underscores. *)
Fixpoint span_word (l : list Z) : list Z * list Z :=
  match l with
  | [] => ([], [])
  | c :: l' => if wordchar c then let '(n, r) := span_word l' in (c :: n, r) else ([], l)
  end.
(** The name after CONFIG_ at the beginning; a name that reaches the end of
    the text does not count. *)
Definition name_here (text : list Z) : option (list Z) :=
  if bool_decide (take 7 text = bytes "CONFIG_") then
    let '(n, r) := span_word (drop 7 text) in match r with [] => None | _ => Some n end
  else None.
Fixpoint used_names (text : list Z) : list (list Z) :=
  match text with
  | [] => []
  | _ :: text' => option_list (name_here text) ++ used_names text'
  end.

Lemma span_word_app l n r : span_word l = (n, r) → l = n ++ r ∧ Forall (λ c, wordchar c = true) n.
Proof.
  revert n r. induction l as [|c l IH]; intros n r H; simpl in H; [by injection H as <- <-|].
  destruct (wordchar c) eqn:Hc; [|by injection H as <- <-]. destruct (span_word l) as [n' r'] eqn:E. injection H as <- <-.
  destruct (IH n' r' eq_refl) as [-> HF]. split; [done|by constructor].
Qed.
Lemma name_end_ok l pre tail : name_end (length l) (pre ++ l ++ tail) (length pre) =
  match span_word l with (_, []) => None | (n, _) => Some (length pre + length n)%nat end.
Proof.
  revert pre. induction l as [|c l IH]; intros pre; [done|]. cbn [length name_end span_word].
  rewrite lookup_app_r, Nat.sub_diag by lia. simpl. destruct (wordchar c); [|f_equal; simpl; lia].
  specialize (IH (pre ++ [c])). rewrite length_app, <- app_assoc in IH. simpl in IH. replace (length pre + 1)%nat with (S (length pre)) in IH by lia.
  rewrite IH. destruct (span_word l) as [n [|]]; [done|]. f_equal. simpl. lia.
Qed.
Lemma name_here_long text n : name_here text = Some n → (7 < length text)%nat ∧ take 7 text = bytes "CONFIG_" ∧ (7 + length n < length text)%nat ∧
  Forall (λ c, wordchar c = true) n.
Proof.
  unfold name_here. case_bool_decide as Ht; [|done]. destruct (span_word (drop 7 text)) as [n' r] eqn:E. destruct r as [|c r]; [done|]. intros [= ->].
  apply span_word_app in E as [E HF]. assert (length (drop 7 text) = length n + S (length r))%nat as Hl by (rewrite E, length_app; done).
  rewrite length_drop in Hl. split; [lia|]. split; [done|]. split; [lia|done].
Qed.
Lemma used_short text : (length text < 8)%nat → used_names text = [].
Proof.
  induction text as [|c text IH]; [done|]. intros Hl. cbn [used_names].
  destruct (name_here (c :: text)) as [n|] eqn:E; [apply name_here_long in E as [E _]; lia|]. simpl in *. apply IH. lia.
Qed.
Lemma used_step text o : (o < length text)%nat → used_names (drop o text) = option_list (name_here (drop o text)) ++ used_names (drop (S o) text).
Proof.
  intros Ho. destruct (lookup_lt_is_Some_2 text o Ho) as [c E]. by rewrite (drop_S text c o E).
Qed.
Lemma used_words text n : n ∈ used_names text → Forall (λ c, wordchar c = true) n.
Proof.
  induction text as [|c text IH]; [by intros ?%elem_of_nil|]. cbn [used_names]. intros [H|H]%elem_of_app; [|auto].
  destruct (name_here (c :: text)) as [n'|] eqn:E; simpl in H; [|by apply elem_of_nil in H]. apply list_elem_of_singleton in H as ->.
  by apply name_here_long in E as (_ & _ & _ & H).
Qed.
Lemma word_plain n : Forall (λ c, wordchar c = true) n → plain_name n.
Proof. intros HF Hin. rewrite Forall_forall in HF. by apply HF in Hin. Qed.

(** ** Words of memory *)

Lemma word_of_inj a b c d a' b' c' d' :
  0 ≤ a < 256 → 0 ≤ b < 256 → 0 ≤ c < 256 → 0 ≤ d < 256 → 0 ≤ a' < 256 → 0 ≤ b' < 256 → 0 ≤ c' < 256 → 0 ≤ d' < 256 →
  word_of a b c d = word_of a' b' c' d' → [a; b; c; d] = [a'; b'; c'; d'].
Proof. unfold word_of. intros. f_equal; [lia|f_equal; [lia|f_equal; [lia|f_equal; lia]]]. Qed.

Section scan.
Context (realloc_ok : Z → bool) (text : list Z).
Let mem : list Z := mapping text.
Let len : nat := length text.

Lemma mem_drop p k : (p + k ≤ len)%nat → take k (drop p mem) = take k (drop p text).
Proof using.
  intros H. unfold mem, mapping. rewrite drop_app_le by (unfold len in *; lia). rewrite take_app_le; [done|].
  rewrite length_drop. unfold len in *. lia.
Qed.
Lemma conf_name p s : conf realloc_ok mem len p s =
  match name_here (drop p text) with Some n => use_config realloc_ok n s | None => FOk tt s end.
Proof using.
  unfold conf. case_bool_decide as Hl.
  { destruct (name_here (drop p text)) as [n|] eqn:E; [|done]. apply name_here_long in E as [E _]. rewrite length_drop in E. unfold len in *. lia. }
  rewrite mem_drop by lia. unfold name_here. case_bool_decide as Ht; [|done]. cbn [negb].
  assert (drop p text = bytes "CONFIG_" ++ drop (p + 7) text) as Hd.
  { rewrite <- Ht, <- drop_drop. by rewrite take_drop. }
  assert (mem = take (p + 7) text ++ drop (p + 7) text ++ replicate (Z.to_nat ((- Z.of_nat (length text)) mod PAGE_SIZE)) 0) as Hm.
  { unfold mem, mapping. by rewrite app_assoc, take_drop. }
  assert (length (take (p + 7) text) = p + 7)%nat as Htl by (rewrite length_take; unfold len in *; lia).
  pose proof (name_end_ok (drop (p + 7) text) (take (p + 7) text) (replicate (Z.to_nat ((- Z.of_nat (length text)) mod PAGE_SIZE)) 0)) as He.
  rewrite Htl, length_drop, <- Hm in He. fold len in He. rewrite He.
  replace (drop 7 (drop p text)) with (drop (p + 7) text) by (rewrite drop_drop; f_equal; lia).
  destruct (span_word (drop (p + 7) text)) as [n [|c r]] eqn:E; [done|]. apply span_word_app in E as [E _].
  replace (p + 7 + length n - (p + 7))%nat with (length n) by lia. f_equal.
  rewrite Hm, E, drop_app_length' by done. by rewrite <- app_assoc, take_app_length.
Qed.

Definition INT (j : nat) : Z := match j with 0%nat => INT_CONF | 1%nat => INT_ONFI | 2%nat => INT_NFIG | _ => INT_FIG_ end.
Lemma byte_in i c : text !! i = Some c → byte_at mem i = Ok c.
Proof using. intros E. unfold byte_at, mem, mapping. by rewrite lookup_app_l, E by by eapply lookup_lt_Some. Qed.
(** A name that begins at [m - j] shows in the word at [m]. *)
Lemma word_shows m j n : (j < 4)%nat → (j ≤ m)%nat → name_here (drop (m - j) text) = Some n → word_at mem m = Ok (INT j).
Proof using.
  intros Hj Hm Hn. apply name_here_long in Hn as (_ & Ht & _).
  assert (∀ i c, bytes "CONFIG_" !! (j + i)%nat = Some c → byte_at mem (m + i) = Ok c) as Hb.
  { intros i c Hc. rewrite <- Ht in Hc. apply lookup_take_Some in Hc as [Hc _]. rewrite lookup_drop in Hc.
    apply byte_in. rewrite <- Hc. f_equal. lia. }
  unfold word_at. replace (byte_at mem m) with (byte_at mem (m + 0)) by (f_equal; lia).
  destruct j as [|[|[|[|j]]]]; [..|lia]; cbn [INT]; rewrite (Hb 0%nat _ eq_refl), (Hb 1%nat _ eq_refl), (Hb 2%nat _ eq_refl), (Hb 3%nat _ eq_refl); done.
Qed.
End scan.

(** ** The loops *)

Section loops.
Context (realloc_ok : Z → bool).

Fixpoint uses (ns : list (list Z)) : F unit :=
  match ns with
  | [] => fret tt
  | n :: ns' => λ s, fbind (use_config realloc_ok n) (λ _, uses ns') s
  end.
Lemma uses_app a b s : uses (a ++ b) s = fbind (uses a) (λ _, uses b) s.
Proof using.
  revert s. induction a as [|n a IH]; intros s; [done|]. simpl. unfold fbind. destruct (use_config realloc_ok n s); [|done..]. by rewrite IH.
Qed.

Lemma word_exists text m : (m < length text)%nat → (4 | m)%nat → ∃ w, word_at (mapping text) m = Ok w.
Proof using.
  intros Hm [q Hq]. assert (m + 3 < length (mapping text))%nat as Hlen.
  { unfold mapping, PAGE_SIZE. rewrite length_app, length_replicate.
    set (l := Z.of_nat (length text)). assert (Z.of_nat (length text + Z.to_nat ((- l) mod 4096)) mod 4 = 0)%Z as H0.
    { rewrite Nat2Z.inj_add, Z2Nat.id by (apply Z.mod_pos_bound; lia). fold l.
      rewrite (Z.mod_eq (- l) 4096) by lia. replace (l + (- l - 4096 * (- l / 4096))) with ((- (1024 * (- l / 4096))) * 4) by lia.
      apply Z.mod_mul. lia. }
    set (L := (length text + Z.to_nat ((- l) mod 4096))%nat) in *. assert (m < L)%nat by lia.
    pose proof (Z.div_mod (Z.of_nat L) 4 ltac:(lia)). lia. }
  assert (∀ i, (i < 4)%nat → ∃ c, byte_at (mapping text) (m + i) = Ok c) as Hb.
  { intros i Hi. destruct (lookup_lt_is_Some_2 (mapping text) (m + i)) as [c E]; [lia|]. exists c. unfold byte_at. by rewrite E. }
  unfold word_at. replace (byte_at (mapping text) m) with (byte_at (mapping text) (m + 0)) by (f_equal; lia).
  destruct (Hb 0%nat ltac:(lia)) as [c0 E0], (Hb 1%nat ltac:(lia)) as [c1 E1], (Hb 2%nat ltac:(lia)) as [c2 E2], (Hb 3%nat ltac:(lia)) as [c3 E3].
  exists (word_of c0 c1 c2 c3). rewrite E0. simpl. by rewrite E1, E2, E3.
Qed.

(** One turn looks at four places. *)
Definition look (text : list Z) (w : Z) (m : nat) : F unit :=
  if bool_decide (w = INT_CONF) then conf realloc_ok (mapping text) (length text) m
  else if bool_decide (w = INT_ONFI) then conf realloc_ok (mapping text) (length text) (m - 1)
  else if bool_decide (w = INT_NFIG) then conf realloc_ok (mapping text) (length text) (m - 2)
  else if bool_decide (w = INT_FIG_) then conf realloc_ok (mapping text) (length text) (m - 3)
  else fret tt.
Definition here (text : list Z) (o : nat) : list (list Z) := option_list (name_here (drop o text)).
Lemma INT_inj i j : (i < 4)%nat → (j < 4)%nat → INT i = INT j → i = j.
Proof using. intros Hi Hj. destruct i as [|[|[|[|]]]], j as [|[|[|[|]]]]; try lia; by vm_compute. Qed.
Lemma look_ok text w m s : (3 < m)%nat → word_at (mapping text) m = Ok w →
  look text w m s = uses (here text (m - 3) ++ here text (m - 2) ++ here text (m - 1) ++ here text m) s.
Proof using.
  intros Hm Hw. assert (∀ j, (j < 4)%nat → w ≠ INT j → here text (m - j) = []) as Hno.
  { intros j Hj Hne. unfold here. destruct (name_here (drop (m - j) text)) as [n|] eqn:E; [|done].
    apply word_shows in E; [|done|lia]. rewrite Hw in E. congruence. }
  assert (∀ j s, conf realloc_ok (mapping text) (length text) (m - j) s = uses (here text (m - j)) s) as Hyes.
  { intros j s'. rewrite conf_name. unfold here. destruct (name_here _) as [n|]; [|done]. simpl. unfold fbind.
    by destruct (use_config realloc_ok n s') as [[]| |]. }
  assert (∀ i j, (i < 4)%nat → (j < 4)%nat → i ≠ j → w = INT i → w ≠ INT j) as Hother.
  { intros i j Hi Hj Hne -> H. by apply INT_inj in H. }
  replace (here text m) with (here text (m - 0)) by (f_equal; lia). unfold look. case_bool_decide as H0.
  { replace m with (m - 0)%nat at 1 by lia. rewrite (Hno 1%nat), (Hno 2%nat), (Hno 3%nat) by (lia || by apply (Hother 0%nat); [lia..|]). apply Hyes. }
  rewrite (Hno 0%nat) by (lia || done). rewrite app_nil_r. case_bool_decide as H1.
  { rewrite (Hno 2%nat), (Hno 3%nat) by (lia || by apply (Hother 1%nat); [lia..|]). apply Hyes. }
  rewrite (Hno 1%nat), app_nil_r by (lia || done). case_bool_decide as H2.
  { rewrite (Hno 3%nat) by (lia || by apply (Hother 2%nat); [lia..|]). apply Hyes. }
  rewrite (Hno 2%nat), app_nil_r by (lia || done). case_bool_decide as H3; [apply Hyes|]. by rewrite (Hno 3%nat) by (lia || done).
Qed.

Lemma words_loop_ok text k m s : (3 < m)%nat → (4 | m)%nat → (length text < 4 * k + m)%nat →
  words_loop realloc_ok (S k) (mapping text) (length text) m s = uses (used_names (drop (m - 3) text)) s.
Proof using.
  revert m s. induction k as [|k IH]; intros m s Hm Hd Hk; cbn [words_loop]; case_bool_decide as Hlt; [lia| | |].
  - by rewrite used_short by (rewrite length_drop; lia).
  - destruct (word_exists text m Hlt Hd) as [w Hw]. unfold fbind at 1, flift. rewrite Hw. fold (look text w m).
    unfold fbind. rewrite (look_ok text w m s Hm Hw). change (fbind (uses (here text (m - 3) ++ here text (m - 2) ++ here text (m - 1) ++ here text m))
      (λ _, words_loop realloc_ok (S k) (mapping text) (length text) (m + 4)) s = uses (used_names (drop (m - 3) text)) s).
    rewrite (used_step text (m - 3)) by lia. replace (S (m - 3)) with (m - 2)%nat by lia.
    rewrite (used_step text (m - 2)) by lia. replace (S (m - 2)) with (m - 1)%nat by lia.
    rewrite (used_step text (m - 1)) by lia. replace (S (m - 1)) with m by lia. rewrite (used_step text m) by lia.
    replace (S m) with (m + 4 - 3)%nat by lia. unfold here. rewrite !app_assoc, uses_app. unfold fbind.
    destruct (uses _ s); [|done..]. apply IH; [lia| |lia]. apply Nat.divide_add_r; [done|by exists 1%nat].
  - by rewrite used_short by (rewrite length_drop; lia).
Qed.
Lemma parse_config_ok text s : parse_config_file realloc_ok (mapping text) (length text) s = uses (used_names (drop 1 text)) s.
Proof using. apply (words_loop_ok text (length text) 4); [lia|by exists 1%nat|lia]. Qed.
End loops.
