(* ===== verification/FixdepThm.v ===== *)
(** * Dependencies of objects: the properties of fixdep *)

From stdpp Require Import base numbers list option strings.
From S2P Require Import Prelude CString Sumversion Fixdep FixdepInv.
Local Open Scope Z_scope.
Local Open Scope fix_scope.

(** ** What is printed *)

(** The names that are new, in the order they are met. *)
Fixpoint fresh_names (names ns : list (list Z)) : list (list Z) :=
  match ns with
  | [] => []
  | n :: ns' => if bool_decide (n ∈ names) then fresh_names names ns' else n :: fresh_names (names ++ [n]) ns'
  end.
Definition wildcard (n : list Z) : list Z := bytes "    $(wildcard include/config/" ++ config_path n ++ bytes ".h) \" ++ nl.
Definition file_names (f : file) : list (list Z) := match f with Text text => used_names (drop 1 text) | _ => [] end.

Definition excluded (d : list Z) : bool :=
  negb (strrcmp d (bytes "include/linux/autoconf.h") && strrcmp d (bytes "arch/um/include/uml-config.h") && strrcmp d (bytes ".ver")).
(** The names after the dependencies, and what is printed for them. *)
Fixpoint deps_names (fs : list Z → file) (names : list (list Z)) (ds : list (list Z)) : list (list Z) :=
  match ds with
  | [] => names
  | d :: ds' => deps_names fs (if excluded d then names else names ++ fresh_names names (file_names (fs d))) ds'
  end.
Fixpoint deps_out (fs : list Z → file) (names : list (list Z)) (ds : list (list Z)) : list Z :=
  match ds with
  | [] => []
  | d :: ds' =>
      if excluded d then deps_out fs names ds'
      else
        let new := fresh_names names (file_names (fs d)) in
        bytes "  " ++ d ++ bytes " \" ++ nl ++ concat (wildcard <$> new) ++ deps_out fs (names ++ new) ds'
  end.
Definition target_out (target : list Z) (deps : list Z) : list Z :=
  bytes "deps_" ++ target ++ bytes " := \" ++ nl ++ deps ++
  nl ++ target ++ bytes ": $(deps_" ++ target ++ bytes ")" ++ nl ++ nl ++ bytes "$(deps_" ++ target ++ bytes "):" ++ nl.
Definition cmd_out (target cmdline : list Z) : list Z := bytes "cmd_" ++ target ++ bytes " := " ++ cmdline ++ nl ++ nl.

Lemma fresh_app names a b : fresh_names names (a ++ b) = fresh_names names a ++ fresh_names (names ++ fresh_names names a) b.
Proof.
  revert names. induction a as [|n a IH]; intros names; [simpl; by rewrite app_nil_r|]. simpl. case_bool_decide; [apply IH|].
  simpl. rewrite IH. by rewrite <- app_assoc.
Qed.
Lemma fresh_in names ns n : n ∈ names ++ fresh_names names ns ↔ n ∈ names ∨ n ∈ ns.
Proof.
  revert names. induction ns as [|m ns IH]; intros names; simpl.
  - rewrite app_nil_r, elem_of_nil. tauto.
  - rewrite elem_of_cons. case_bool_decide as Hm; [rewrite IH; intuition congruence|].
    specialize (IH (names ++ [m])). rewrite <- app_assoc in IH. simpl in IH. rewrite IH, elem_of_app, list_elem_of_singleton. tauto.
Qed.
Lemma fresh_nodup names ns : NoDup names → NoDup (names ++ fresh_names names ns).
Proof.
  revert names. induction ns as [|m ns IH]; intros names Hn; simpl; [by rewrite app_nil_r|]. case_bool_decide as Hm; [by apply IH|].
  rewrite cons_middle, app_assoc. apply IH, NoDup_app. split; [done|]. split; [|apply NoDup_singleton].
  intros x Hx ->%list_elem_of_singleton. done.
Qed.
Lemma deps_names_in fs ds names n : n ∈ deps_names fs names ds ↔
  n ∈ names ∨ ∃ d, d ∈ ds ∧ excluded d = false ∧ n ∈ file_names (fs d).
Proof.
  revert names. induction ds as [|d ds IH]; intros names; simpl.
  - split; [by left|]. intros [H|(d & Hd & _)]; [done|by apply elem_of_nil in Hd].
  - rewrite IH. destruct (excluded d) eqn:Ex.
    + split; [intros [H|(d' & Hd & He)]; [by left|right; exists d'; split; [by right|done]]|].
      intros [H|(d' & Hd & He & Hn)]; [by left|]. apply elem_of_cons in Hd as [->|Hd]; [congruence|]. right. by exists d'.
    + rewrite fresh_in. split.
      * intros [[H|H]|(d' & Hd & He)]; [by left|right; exists d; split; [left|done]|right; exists d'; split; [by right|done]].
      * intros [H|(d' & Hd & He & Hn)]; [by left; left|]. apply elem_of_cons in Hd as [->|Hd]; [by left; right|]. right. by exists d'.
Qed.

(** Every name is printed. *)
Lemma wildcard_printed fs ds names n : n ∈ deps_names fs names ds → n ∉ names → ∃ a b, deps_out fs names ds = a ++ wildcard n ++ b.
Proof.
  revert names. induction ds as [|d ds IH]; intros names Hn Hno; [done|]. cbn [deps_names deps_out] in *. destruct (excluded d); [by apply IH|].
  set (new := fresh_names names (file_names (fs d))) in *. destruct (decide (n ∈ new)) as [Hin|Hin].
  - apply list_elem_of_split in Hin as (l1 & l2 & ->). rewrite fmap_app, concat_app. cbn [fmap list_fmap concat].
    eexists (bytes "  " ++ d ++ bytes " \" ++ nl ++ concat (wildcard <$> l1)), _. by rewrite <- !app_assoc.
  - destruct (IH (names ++ new) Hn) as (a & b & ->); [by intros [?|?]%elem_of_app|].
    eexists (bytes "  " ++ d ++ bytes " \" ++ nl ++ concat (wildcard <$> new) ++ a), b. by rewrite <- !app_assoc.
Qed.

(** ** The buffer grows *)

Section run.
Context (realloc_ok : Z → bool) (fs : list Z → file) (Hre : ∀ z, realloc_ok z = true).

(** The sizes of the buffer. *)
Definition size_ok (z : Z) : Prop := z = 0 ∨ ∃ j, 12 ≤ j ≤ 30 ∧ z = 2 ^ j.
(** The largest buffer that is made. *)
Definition config_max : Z := 2 ^ 30.
Lemma grow_step k len s : grow_loop realloc_ok (S k) len s =
  if bool_decide (Z.of_nat (length (f_config s)) + len > f_size s) then
    let size' := wrap32 ((if bool_decide (f_size s = 0) then 2048 else f_size s) * 2) in
    if realloc_ok size' then grow_loop realloc_ok k len (Fix (f_config s) size' (f_out s)) else FExit 1 s
  else FOk tt s.
Proof using. cbn [grow_loop]. unfold fbind, fget. case_bool_decide; [|done]. by destruct (realloc_ok _). Qed.
Lemma grow_ok k j len s : 12 ≤ j ≤ 30 → f_size s = 2 ^ j → 30 - j < Z.of_nat k → Z.of_nat (length (f_config s)) + len ≤ config_max →
  ∃ z, size_ok z ∧ grow_loop realloc_ok k len s = FOk tt (Fix (f_config s) z (f_out s)).
Proof using Hre.
  revert j s. induction k as [|k IH]; intros j s Hj Hs Hk Hl; [lia|]. rewrite grow_step.
  case_bool_decide as Hgt.
  - cbv zeta. destruct (decide (j = 30)) as [->|Hne]; [unfold config_max in *; lia|]. rewrite bool_decide_false by (rewrite Hs; pose proof (Z.pow_pos_nonneg 2 j); lia).
    cbv zeta. rewrite Hs, Hre. replace (2 ^ j * 2) with (2 ^ (j + 1)) by (rewrite Z.pow_add_r by lia; lia).
    assert (2 ^ (j + 1) ≤ 2 ^ 30) by (apply Z.pow_le_mono_r; lia). pose proof (Z.pow_pos_nonneg 2 (j + 1)).
    rewrite wrap32_id by (unfold_ranges; lia).
    destruct (IH (j + 1) (Fix (f_config s) (2 ^ (j + 1)) (f_out s))) as (z & Hz & E); [lia|done|lia|done|]. exists z. by rewrite E.
  - exists (f_size s). split; [right; by exists j|]. by destruct s.
Qed.
Lemma grow_config_ok len s : size_ok (f_size s) → 0 < Z.of_nat (length (f_config s)) + len ≤ config_max →
  ∃ z, size_ok z ∧ grow_config realloc_ok len s = FOk tt (Fix (f_config s) z (f_out s)).
Proof using Hre.
  intros [Hs|(j & Hj & Hs)] Hl; unfold grow_config.
  - rewrite grow_step, Hs, bool_decide_true by lia. rewrite (bool_decide_true (0 = 0)) by done. cbv zeta. rewrite Hre. change (wrap32 (2048 * 2)) with (2 ^ 12).
    destruct (grow_ok 20 12 len (Fix (f_config s) (2 ^ 12) (f_out s))) as (z & Hz & E); [lia|done|lia|simpl; lia|]. exists z. by rewrite E.
  - eapply grow_ok; [done|done|lia|lia].
Qed.

(** ** Names *)

(** The buffer holds the names. *)
Record holds (names : list (list Z)) (s : fix_state) : Prop := {
  ho_config : f_config s = config_of names;
  ho_size : size_ok (f_size s);
  ho_plain : Forall plain_name names }.
(** A name fits into the path and the buffer. *)
Definition fits (names : list (list Z)) : Prop := Z.of_nat (length (config_of names)) ≤ config_max.
Definition short (n : list Z) : Prop := (length n < PATH_MAX)%nat.

Lemma define_ok names n s : holds names s → plain_name n → fits (names ++ [n]) →
  ∃ s', define_config realloc_ok n s = FOk tt s' ∧ holds (names ++ [n]) s' ∧ f_out s' = f_out s.
Proof using Hre.
  intros [Hc Hz Hp] Hn Hf. unfold define_config. unfold fits in Hf. rewrite config_of_snoc, !length_app in Hf. cbn [length] in Hf.
  destruct (grow_config_ok (Z.of_nat (length n) + 1) s) as (z & Hz' & E); [done| |].
  { rewrite Hc. lia. }
  unfold fbind. rewrite E.
  simpl. eexists. split; [reflexivity|]. split; [|done]. constructor; simpl; [by rewrite Hc, config_of_snoc|done|].
  apply Forall_app. split; [done|by constructor].
Qed.
Lemma use_ok names n s : holds names s → plain_name n → short n → fits (names ++ fresh_names names [n]) →
  ∃ s', use_config realloc_ok n s = FOk tt s' ∧ holds (names ++ fresh_names names [n]) s' ∧
    f_out s' = f_out s ++ concat (wildcard <$> fresh_names names [n]).
Proof using Hre.
  intros HH Hn Hs Hf. unfold use_config. unfold fbind at 1, fget. rewrite (ho_config _ _ HH), is_defined_ok by (apply HH || done).
  simpl in *. case_bool_decide as Hin.
  - exists s. by rewrite !app_nil_r.
  - destruct (define_ok names n s HH Hn Hf) as (s1 & E1 & H1 & O1). unfold fbind. rewrite E1. unfold flift.
    rewrite bool_decide_true by done. unfold printf, fmod. eexists. split; [reflexivity|]. split; [by destruct H1; constructor|].
    simpl. by rewrite app_nil_r, O1.
Qed.
Lemma uses_ok names ns s : holds names s → Forall plain_name ns → Forall short ns → fits (names ++ fresh_names names ns) →
  ∃ s', uses realloc_ok ns s = FOk tt s' ∧ holds (names ++ fresh_names names ns) s' ∧
    f_out s' = f_out s ++ concat (wildcard <$> fresh_names names ns).
Proof using Hre.
  revert names s. induction ns as [|n ns IH]; intros names s HH Hp Hs Hf.
  - exists s. simpl. by rewrite !app_nil_r.
  - inversion_clear Hp as [|? ? Hn Hp']. inversion_clear Hs as [|? ? Hn' Hs']. change (n :: ns) with ([n] ++ ns) in Hf |- *.
    rewrite fresh_app, app_assoc in Hf |- *. destruct (use_ok names n s HH Hn Hn') as (s1 & E1 & H1 & O1).
    { unfold fits in *. rewrite config_of_app in Hf. rewrite length_app in Hf. lia. }
    destruct (IH (names ++ fresh_names names [n]) s1 H1 Hp' Hs' Hf) as (s2 & E2 & H2 & O2).
    exists s2. rewrite uses_app. split; [|split; [done|]].
    + unfold fbind. cbn [uses app]. unfold fbind. rewrite E1. simpl. by rewrite E2.
    + rewrite O2, O1, fmap_app, concat_app. by rewrite !app_assoc.
Qed.

Lemma do_config_ok names d s : holds names s → fs d ≠ Missing → Forall short (file_names (fs d)) →
  fits (names ++ fresh_names names (file_names (fs d))) →
  ∃ s', do_config_file realloc_ok fs d s = FOk tt s' ∧ holds (names ++ fresh_names names (file_names (fs d))) s' ∧
    f_out s' = f_out s ++ concat (wildcard <$> fresh_names names (file_names (fs d))).
Proof using Hre.
  intros HH Hd Hs Hf. unfold do_config_file. destruct (fs d) as [| |[|c text]]; [done|exists s; simpl; by rewrite !app_nil_r..|].
  rewrite parse_config_ok. apply uses_ok; [done| |done|done]. apply Forall_forall. intros n Hn. by eapply word_plain, used_words.
Qed.

(** ** The list of the compiler *)

Lemma skip_while_ok f l1 l2 pre tail : Forall (λ c, f c = true) l1 → (match l2 with [] => True | c :: _ => f c = false end) →
  skip_while f (length (l1 ++ l2)) (pre ++ (l1 ++ l2) ++ tail) (length pre) = (length pre + length l1)%nat.
Proof using.
  intros HF Hl2. revert pre. induction HF as [|c l1 Hc HF IH]; intros pre.
  - rewrite Nat.add_0_r. destruct l2 as [|c l2]; [done|]. cbn [app length skip_while]. rewrite lookup_app_r, Nat.sub_diag by lia. simpl. by rewrite Hl2.
  - cbn [app length skip_while]. rewrite lookup_app_r, Nat.sub_diag by lia. simpl. rewrite Hc. specialize (IH (pre ++ [c])).
    assert (length (pre ++ [c]) = S (length pre)) as Hl by (rewrite length_app; simpl; lia). rewrite Hl, <- app_assoc in IH.
    etransitivity; [exact IH|]. lia.
Qed.
Lemma back_ok pre c junk tail : isalnum c = true → Forall (λ c, isalnum c = false) junk →
  back_to_alnum (pre ++ c :: junk ++ tail) (length pre + S (length junk)) = Ok (S (length pre)).
Proof using.
  intros Hc HF. revert tail. induction junk as [|x junk IH] using rev_ind; intros tail.
  - replace (length pre + S (length (A:=Z) []))%nat with (S (length pre)) by (simpl; lia). cbn [back_to_alnum]. unfold byte_at.
    rewrite lookup_app_r, Nat.sub_diag by lia. simpl. by rewrite Hc.
  - apply Forall_app in HF as [HF Hx]. rewrite Forall_singleton in Hx. rewrite length_app. cbn [length].
    replace (length pre + S (length junk + 1))%nat with (S (length pre + S (length junk))) by lia. cbn [back_to_alnum]. unfold byte_at.
    rewrite lookup_app_r by lia. replace (length pre + S (length junk) - length pre)%nat with (S (length junk)) by lia. simpl.
    rewrite <- (app_assoc junk [x] tail), lookup_app_r, Nat.sub_diag by lia. simpl. rewrite Hx. apply (IH HF).
Qed.

Lemma cstr_plain d : 0 ∉ d → cstr d = d.
Proof using.
  induction d as [|c d IH]; [done|]. intros [Hc Hd]%not_elem_of_cons. cbn [cstr]. rewrite bool_decide_false by done. by rewrite IH.
Qed.
Lemma copy_ok l d r : 0 ∉ d → short d → copy_name (l ++ d ++ r) (length l) (length l + length d) = Ok d.
Proof using.
  intros H0 Hs. unfold copy_name, short in *. rewrite bool_decide_false by lia. rewrite bool_decide_true by lia.
  rewrite drop_app_length. replace (length l + length d - length l)%nat with (length d) by lia. by rewrite take_app_length, cstr_plain.
Qed.
Lemma strchr_ok l c r : c ∉ l → 0 ∉ l → strchr (l ++ c :: r) 0 c = Ok (Some (length l)).
Proof using.
  unfold strchr. rewrite Nat.sub_0_r. intros Hc H0.
  assert (∀ pre, strchr_mem (length (l ++ c :: r)) (pre ++ l ++ c :: r) (length pre) c = Ok (Some (length pre + length l)%nat)) as H; [|apply (H [])].
  induction l as [|x l IH]; intros pre; cbn [app length strchr_mem]; unfold byte_at; rewrite lookup_app_r, Nat.sub_diag by lia; simpl.
  - rewrite bool_decide_true by done. f_equal. f_equal. lia.
  - apply not_elem_of_cons in Hc as [Hx Hc]. apply not_elem_of_cons in H0 as [Hx0 H0]. rewrite !bool_decide_false by congruence.
    specialize (IH Hc H0 (pre ++ [x])). assert (length (pre ++ [x]) = S (length pre)) as Hl by (rewrite length_app; simpl; lia).
    rewrite Hl, <- app_assoc in IH. etransitivity; [exact IH|]. f_equal. f_equal. lia.
Qed.

(** A name in the list. *)
Record dep_ok (d : list Z) : Prop := {
  dk_nul : 0 ∉ d;
  dk_space : 32 ∉ d;
  dk_first : match d with [] => False | c :: _ => is_sep c = false end;
  dk_short : short d }.
(** The names with spaces, backslashes and newlines before them; a space after
    each but the last, and at most one character behind the last. *)
Inductive listed : list Z → list (list Z) → Prop :=
  | listed_last sep d c tail : Forall (λ x, is_sep x = true) sep → dep_ok (d ++ [c]) → isalnum c = true →
      Forall (λ x, isalnum x = false ∧ x ≠ 32) tail → (length tail ≤ 1)%nat → listed (sep ++ (d ++ [c]) ++ tail) [d ++ [c]]
  | listed_cons sep d body ds : Forall (λ x, is_sep x = true) sep → dep_ok d → listed body ds →
      listed (sep ++ d ++ 32 :: body) (d :: ds).

(** The file of a name can be opened, and its symbols are not too long. *)
Definition dep_file (d : list Z) : Prop := excluded d = false → fs d ≠ Missing ∧ Forall short (file_names (fs d)).
Lemma deps_names_grow names ds : ∃ more, deps_names fs names ds = names ++ more.
Proof using.
  revert names. induction ds as [|d ds IH]; intros names; [exists []; by rewrite app_nil_r|]. simpl. destruct (excluded d); [apply IH|].
  destruct (IH (names ++ fresh_names names (file_names (fs d)))) as [more ->]. rewrite <- app_assoc. eauto.
Qed.
Lemma one_dep names d ds s (k : F unit) Q : holds names s → dep_file d → fits (deps_names fs names (d :: ds)) →
  (∀ s', holds (if excluded d then names else names ++ fresh_names names (file_names (fs d))) s' →
     f_out s' ++ deps_out fs (if excluded d then names else names ++ fresh_names names (file_names (fs d))) ds = f_out s ++ deps_out fs names (d :: ds) →
     ∃ s'', k s' = FOk tt s'' ∧ Q s'') →
  ∃ s'', ((if strrcmp d (bytes "include/linux/autoconf.h") && strrcmp d (bytes "arch/um/include/uml-config.h") && strrcmp d (bytes ".ver")
    then printf (bytes "  " ++ d ++ bytes " \" ++ nl);;; do_config_file realloc_ok fs d else fret tt);;; k) s = FOk tt s'' ∧ Q s''.
Proof using Hre.
  intros HH Hd Hf Hk. unfold dep_file in Hd. cbn [deps_names deps_out] in *. revert Hd Hf Hk. unfold excluded.
  destruct (strrcmp d (bytes "include/linux/autoconf.h") && _ && _); cbn [negb].
  - intros Hd Hf Hk. destruct (Hd eq_refl) as [Hm Hs]. set (s1 := Fix (f_config s) (f_size s) (f_out s ++ bytes "  " ++ d ++ bytes " \" ++ nl)).
    destruct (do_config_ok names d s1) as (s2 & E & H2 & O2); [by destruct HH; constructor|done|done| |].
    { destruct (deps_names_grow (names ++ fresh_names names (file_names (fs d))) ds) as [more Hm']. rewrite Hm' in Hf.
      unfold fits in *. rewrite config_of_app, length_app in Hf. lia. }
    destruct (Hk s2 H2) as (s3 & E3 & HQ); [rewrite O2; unfold s1; cbn [f_out]; by rewrite <- !app_assoc|].
    exists s3. split; [|done]. unfold fbind, printf, fmod. fold s1. by rewrite E.
  - intros _ Hf Hk. destruct (Hk s HH eq_refl) as (s3 & E3 & HQ). by exists s3.
Qed.

Lemma skip_seps sep d pre tail l : Forall (λ x, is_sep x = true) sep → dep_ok d → l = sep ++ d ++ tail →
  ∀ z, skip_while is_sep (length l) (pre ++ l ++ z) (length pre) = length (pre ++ sep).
Proof using.
  intros Hs Hd -> z. rewrite skip_while_ok; [by rewrite length_app|done|]. pose proof (dk_first _ Hd). by destruct d.
Qed.
Lemma skip_name d l1 l2 pre z : 32 ∉ d → l1 = d → (match l2 with [] => True | c :: _ => c = 32 end) →
  skip_while (λ c, bool_decide (c ≠ 32)) (length (l1 ++ l2)) (pre ++ (l1 ++ l2) ++ z) (length pre) = length (pre ++ d).
Proof using.
  intros H32 -> Hl2. rewrite skip_while_ok; [by rewrite length_app| |].
  - apply Forall_forall. intros x Hx. apply bool_decide_eq_true. by intros ->.
  - destruct l2 as [|c l2]; [done|]. by apply bool_decide_eq_false; intros [].
Qed.

Definition deps_ok (ds : list (list Z)) : Prop := Forall dep_file ds.
Lemma deps_from_ok body ds : listed body ds → ∀ pre z k names s,
  holds names s → deps_ok ds → fits (deps_names fs names ds) → (length body < k)%nat →
  ∃ s', deps_from realloc_ok fs k (pre ++ body ++ z) (length (pre ++ body)) (length pre) s = FOk tt s' ∧
    holds (deps_names fs names ds) s' ∧ f_out s' = f_out s ++ deps_out fs names ds.
Proof using Hre.
  intros HL. induction HL as [sep d c tail Hsep Hd Hc Htail Ht1|sep d body ds Hsep Hd HL IH]; intros pre z k names s HH Hds Hf Hk;
    (destruct k as [|k]; [lia|]); cbn [deps_from].
  - set (d' := d ++ [c]) in *. inversion_clear Hds as [|? ? Hdf _]. rewrite bool_decide_true by (unfold d'; rewrite !length_app; simpl; lia).
    replace (length (pre ++ sep ++ d' ++ tail) - length pre)%nat with (length (sep ++ d' ++ tail)) by (rewrite !length_app; lia).
    rewrite (skip_seps sep d' pre tail) by done.
    replace (length (pre ++ sep ++ d' ++ tail) - length (pre ++ sep))%nat with (length ((d' ++ tail) ++ [])) by (rewrite !length_app; simpl; lia).
    replace (pre ++ (sep ++ d' ++ tail) ++ z) with ((pre ++ sep) ++ ((d' ++ tail) ++ []) ++ z) by (rewrite app_nil_r; by rewrite <- !app_assoc).
    rewrite (skip_name (d' ++ tail)); [| |done|done].
    2: { rewrite not_elem_of_app. split; [apply Hd|]. intros Hin. rewrite Forall_forall in Htail. by apply Htail in Hin as [_ []]. }
    rewrite bool_decide_true by (by rewrite <- !app_assoc).
    assert (back_to_alnum ((pre ++ sep) ++ ((d' ++ tail) ++ []) ++ z) (length ((pre ++ sep) ++ d' ++ tail)) = Ok (length (pre ++ sep) + length d')%nat) as Hb.
    { replace ((pre ++ sep) ++ ((d' ++ tail) ++ []) ++ z) with (((pre ++ sep) ++ d) ++ c :: tail ++ z)
        by (unfold d'; rewrite app_nil_r; by rewrite <- !app_assoc).
      replace (length ((pre ++ sep) ++ d' ++ tail)) with (length ((pre ++ sep) ++ d) + S (length tail))%nat
        by (unfold d'; rewrite !length_app; simpl; lia).
      rewrite back_ok; [unfold d'; rewrite !length_app; simpl; f_equal; lia|done|]. eapply Forall_impl; [exact Htail|]. by intros x []. }
    unfold fbind at 1, flift. rewrite Hb. unfold fbind at 1, flift.
    replace ((pre ++ sep) ++ ((d' ++ tail) ++ []) ++ z) with ((pre ++ sep) ++ d' ++ tail ++ z) by (rewrite app_nil_r; by rewrite <- !app_assoc).
    rewrite copy_ok by apply Hd. apply (one_dep names d' [] s _ (λ s', holds (deps_names fs names [d']) s' ∧ f_out s' = f_out s ++ deps_out fs names [d'])); [done|done|done|].
    intros s' H' O'. exists s'. split; [|split; [done|]].
    + destruct k as [|k]; [rewrite !length_app in Hk; unfold d' in Hk; rewrite length_app in Hk; simpl in Hk; lia|]. cbn [deps_from].
      by rewrite bool_decide_false by (rewrite !length_app in *; lia).
    + by rewrite <- O', app_nil_r.
  - inversion_clear Hds as [|? ? Hdf Hds']. pose proof (dk_first _ Hd) as Hfst. rewrite bool_decide_true by (rewrite !length_app; simpl; lia).
    replace (length (pre ++ sep ++ d ++ 32%Z :: body) - length pre)%nat with (length (sep ++ d ++ 32%Z :: body)) by (rewrite !length_app; lia).
    rewrite (skip_seps sep d pre (32%Z :: body)) by done.
    replace (length (pre ++ sep ++ d ++ 32%Z :: body) - length (pre ++ sep))%nat with (length (d ++ 32%Z :: body)) by (rewrite !length_app; simpl; lia).
    replace (pre ++ (sep ++ d ++ 32%Z :: body) ++ z) with ((pre ++ sep) ++ (d ++ 32%Z :: body) ++ z) by (by rewrite <- !app_assoc).
    rewrite (skip_name d) by (done || apply Hd).
    rewrite bool_decide_false by (rewrite !length_app; simpl; lia). unfold fbind at 1, flift. unfold fbind at 1, flift.
    rewrite <- (app_assoc d), (length_app _ d), copy_ok by apply Hd. rewrite <- length_app.
    apply (one_dep names d ds s _ (λ s', holds (deps_names fs names (d :: ds)) s' ∧ f_out s' = f_out s ++ deps_out fs names (d :: ds))); [done|done|done|].
    intros s' H' O'. specialize (IH ((pre ++ sep) ++ d ++ [32]) z k _ s' H' Hds' Hf).
    replace (length ((pre ++ sep) ++ d) + 1)%nat with (length ((pre ++ sep) ++ d ++ [32])) by (rewrite !length_app; simpl; lia).
    replace (length (pre ++ sep ++ d ++ 32%Z :: body)) with (length (((pre ++ sep) ++ d ++ [32]) ++ body)) by (rewrite !length_app; simpl; lia).
    replace ((pre ++ sep) ++ d ++ (32%Z :: body) ++ z) with (((pre ++ sep) ++ d ++ [32]) ++ body ++ z) by (by rewrite <- !app_assoc).
    destruct IH as (s'' & E & H'' & O''); [rewrite !length_app in Hk; simpl in Hk; lia|]. exists s''. split; [exact E|]. split; [exact H''|].
    by rewrite O'', O'.
Qed.

(** ** The program *)

Lemma clear_config_ok s : size_ok (f_size s) → ∃ s', clear_config realloc_ok s = FOk tt s' ∧ holds [] s' ∧ f_out s' = f_out s.
Proof using Hre.
  intros Hz. unfold clear_config, define_config. destruct (grow_config_ok (Z.of_nat (length (A:=Z) []) + 1) (Fix [] (f_size s) (f_out s))) as (z & Hz' & E);
    [done|simpl; unfold config_max; lia|].
  unfold fbind, set_config, fmod. rewrite E. unfold fget. simpl. eexists. split; [reflexivity|]. split; [|done]. by constructor.
Qed.
Lemma traps_ok s : traps s = FOk tt s.
Proof using. reflexivity. Qed.
(** The list of the dependencies of a target. *)
Record dep_list (text : list Z) (ds : list (list Z)) : Prop := {
  dl_text : ∃ name body, text = name ++ 58 :: body ∧ 58 ∉ name ∧ 0 ∉ name ∧ short name ∧ listed body ds;
  dl_files : deps_ok ds;
  dl_fits : fits (deps_names fs [] ds) }.
Lemma parse_dep_file_ok text ds target s : dep_list text ds → size_ok (f_size s) →
  ∃ s', parse_dep_file realloc_ok fs target (mapping text) (length text) s = FOk tt s' ∧
    f_config s' = config_of (deps_names fs [] ds) ∧ f_out s' = f_out s ++ target_out target (deps_out fs [] ds).
Proof using Hre.
  intros [(name & body & -> & H58 & H0 & Hs & HL) Hds Hf] Hz. unfold parse_dep_file.
  set (z := replicate (Z.to_nat ((- Z.of_nat (length (name ++ 58 :: body))) mod PAGE_SIZE)) 0).
  assert (mapping (name ++ 58 :: body) = (name ++ [58]) ++ body ++ z) as Hm by (unfold mapping; fold z; by rewrite <- !app_assoc).
  rewrite Hm. unfold fbind at 1, flift. rewrite <- (app_assoc name). cbn [app]. rewrite strchr_ok by done.
  unfold fbind at 1, flift. pose proof (copy_ok [] name (58 :: body ++ z) H0 Hs) as Hc. simpl in Hc. rewrite Hc.
  unfold fbind at 1, printf, fmod. set (s1 := Fix _ _ _). destruct (clear_config_ok s1 Hz) as (s2 & E2 & H2 & O2). unfold fbind at 1. rewrite E2.
  destruct (deps_from_ok body ds HL (name ++ [58]) z (S (length (name ++ 58 :: body))) [] s2 H2 Hds Hf) as (s3 & E3 & H3 & O3).
  { rewrite length_app. simpl. lia. }
  rewrite <- !app_assoc in E3. cbn [app] in E3. rewrite (length_app name [58]) in E3. cbn [length] in E3.
  unfold fbind at 1. rewrite E3. unfold fbind. eexists. split; [reflexivity|]. cbn [f_config f_out]. split; [apply H3|].
  rewrite O3, O2. unfold s1, target_out. cbn [f_out]. by rewrite <- !app_assoc.
Qed.
Lemma main_ok prog depfile target cmdline text ds : fs depfile = Text text → dep_list text ds →
  ∃ s', main realloc_ok fs [prog; depfile; target; cmdline] (Fix [] 0 []) = FOk 0 s' ∧
    f_config s' = config_of (deps_names fs [] ds) ∧ f_out s' = cmd_out target cmdline ++ target_out target (deps_out fs [] ds).
Proof using Hre.
  intros Hd HL. unfold main. unfold fbind at 1. rewrite traps_ok. unfold print_cmdline, print_deps. rewrite Hd.
  destruct text as [|c text]; [destruct HL as [([|] & body & H & _) _ _]; discriminate H|].
  set (s1 := Fix [] 0 (cmd_out target cmdline)). destruct (parse_dep_file_ok (c :: text) ds target s1 HL) as (s2 & E & Hc & Ho); [by left|].
  exists s2. split; [|done]. unfold fbind, printf, fmod. cbn [f_config f_size f_out]. change ([] ++ ?l) with l. fold (cmd_out target cmdline).
  change (Fix [] 0 (cmd_out target cmdline)) with s1. rewrite E. done.
Qed.
End run.

Lemma deps_names_nodup fs ds names : NoDup names → NoDup (deps_names fs names ds).
Proof. revert names. induction ds as [|d ds IH]; intros names Hn; [done|]. simpl. destruct (excluded d); [by apply IH|]. by apply IH, fresh_nodup. Qed.

(** C26: For the list of a compiler (a target, a colon, names with spaces,
    backslashes and newlines between them) fixdep ends with status 0 and prints
    the command, every dependency but autoconf.h, uml-config.h and version
    files, after it a wildcard for each symbol that it is the first to use, and
    the rules; the symbols that were met are, each once, those that a search for
    CONFIG_ at every byte but the first of the dependencies finds. *)
Theorem fixdep_reference realloc_ok fs prog depfile target cmdline text ds :
  (∀ z, realloc_ok z = true) → fs depfile = Text text → dep_list fs text ds →
  ∃ s names, main realloc_ok fs [prog; depfile; target; cmdline] (Fix [] 0 []) = FOk 0 s ∧
    f_out s = cmd_out target cmdline ++ target_out target (deps_out fs [] ds) ∧
    f_config s = config_of names ∧ NoDup names ∧
    ∀ n, n ∈ names ↔ ∃ d, d ∈ ds ∧ excluded d = false ∧ n ∈ file_names (fs d).
Proof.
  intros Hre Hd HL. destruct (main_ok realloc_ok fs Hre prog depfile target cmdline text ds Hd HL) as (s & E & Hc & Ho).
  exists s, (deps_names fs [] ds). split; [done|]. split; [done|]. split; [done|]. split; [apply deps_names_nodup, NoDup_nil_2|].
  intros n. rewrite deps_names_in, elem_of_nil. tauto.
Qed.

(** ** An example *)

Definition demo_source : list Z := bytes "#ifdef CONFIG_FOO_BAR" ++ nl ++ bytes "x = CONFIG_X + CONFIG_FOO_BAR;" ++ nl.
Definition demo_list : list Z := bytes "a.o: a.c \" ++ nl ++ bytes "  include/linux/autoconf.h b.h" ++ nl.
Definition demo_files (source name : list Z) : file :=
  if bool_decide (name = bytes "a.d") then Text demo_list
  else if bool_decide (name = bytes "a.c") then Text source
  else Text [].
Definition demo_deps : list (list Z) := [bytes "a.c"; bytes "include/linux/autoconf.h"; bytes "b.h"].
Definition dep_ok_b (d : list Z) : bool :=
  bool_decide (0 ∉ d) && bool_decide (32 ∉ d) && match d with [] => false | c :: _ => negb (is_sep c) end &&
  bool_decide (length d < PATH_MAX)%nat.
Lemma dep_ok_decided d : dep_ok_b d = true → dep_ok d.
Proof.
  unfold dep_ok_b. intros [[[H1 H2]%andb_true_iff H3]%andb_true_iff H4]%andb_true_iff. apply bool_decide_eq_true in H1, H2, H4.
  constructor; [done|done| |done]. destruct d; [done|]. by apply negb_true_iff in H3.
Qed.
Definition all_short (source : list Z) : bool :=
  forallb (λ d, forallb (λ n, bool_decide (length n < PATH_MAX)%nat) (file_names (demo_files source d))) demo_deps.
Lemma demo_listed source : all_short source = true → fits (deps_names (demo_files source) [] demo_deps) →
  dep_list (demo_files source) demo_list demo_deps.
Proof.
  intros Hs Hf. constructor.
  - exists (bytes "a.o"), (bytes " a.c \" ++ nl ++ bytes "  include/linux/autoconf.h b.h" ++ nl). split; [reflexivity|].
    split; [apply (bool_decide_unpack _); vm_compute; exact I|]. split; [apply (bool_decide_unpack _); vm_compute; exact I|].
    split; [apply (bool_decide_unpack _); vm_compute; exact I|].
    change (listed ([32] ++ bytes "a.c" ++ 32 :: ((bytes "\" ++ nl ++ bytes "  ") ++ bytes "include/linux/autoconf.h" ++ 32 :: ([] ++ (bytes "b." ++ [104]) ++ nl))) demo_deps).
    repeat (apply listed_cons; [by repeat constructor|apply dep_ok_decided; vm_compute; reflexivity|]).
    apply (listed_last [] (bytes "b.") 104 nl); [done|apply dep_ok_decided; vm_compute; reflexivity|reflexivity|by repeat constructor|reflexivity].
  - unfold all_short in Hs. rewrite forallb_forall in Hs. apply Forall_forall. intros d Hd _. split.
    { repeat (apply elem_of_cons in Hd as [->|Hd]; [discriminate|]). by apply elem_of_nil in Hd. }
    apply list_elem_of_In, Hs in Hd. rewrite forallb_forall in Hd. apply Forall_forall.
    intros n Hn. apply list_elem_of_In, Hd in Hn. by apply bool_decide_eq_true in Hn.
  - exact Hf.
Qed.
Lemma fixdep_reference_witness : ∃ s,
  main (λ _, true) (demo_files demo_source) [bytes "fixdep"; bytes "a.d"; bytes "a.o"; bytes "gcc"] (Fix [] 0 []) = FOk 0 s ∧
  f_out s = bytes "cmd_a.o := gcc" ++ nl ++ nl ++ bytes "deps_a.o := \" ++ nl ++ bytes "  a.c \" ++ nl ++
    bytes "    $(wildcard include/config/foo/bar.h) \" ++ nl ++ bytes "    $(wildcard include/config/x.h) \" ++ nl ++
    bytes "  b.h \" ++ nl ++ nl ++ bytes "a.o: $(deps_a.o)" ++ nl ++ nl ++ bytes "$(deps_a.o):" ++ nl.
Proof.
  destruct (fixdep_reference (λ _, true) (demo_files demo_source) (bytes "fixdep") (bytes "a.d") (bytes "a.o") (bytes "gcc") demo_list demo_deps)
    as (s & names & E & Ho & _); [reflexivity|reflexivity| |].
  { apply demo_listed; [vm_compute; reflexivity|]. unfold fits. vm_compute. intros H. discriminate H. }
  exists s. split; [exact E|]. rewrite Ho. vm_compute. reflexivity.
Defined.

(** ** What is missed *)

(** A symbol at the very beginning of a file, or whose name ends the file, is
    not seen; a list that ends with blanks behind a space makes [memcpy] copy a
    negative number of bytes. *)
Definition run_on (list source : list Z) : fresult Z :=
  main (λ _, true) (λ n, if bool_decide (n = bytes "a.d") then Text list else Text source)
    [bytes "fixdep"; bytes "a.d"; bytes "a.o"; bytes "gcc"] (Fix [] 0 []).
Definition met (r : fresult Z) : option (list Z) := match r with FOk _ s => Some (f_config s) | _ => None end.
Lemma fixdep_misses :
  met (run_on (bytes "a.o: a.c" ++ nl) (bytes "CONFIG_A CONFIG_B" ++ nl)) = Some (config_of [bytes "B"]) ∧
  met (run_on (bytes "a.o: a.c" ++ nl) (bytes " CONFIG_A CONFIG_B")) = Some (config_of [bytes "A"]) ∧
  run_on (bytes "a.o: a.c " ++ nl) [] = FFault OutOfBounds ∧ run_on (bytes "a.o:" ++ nl) [] = FFault OutOfBounds.
Proof. repeat split; vm_compute; reflexivity. Qed.
