(* ===== verification/Unifdef.v ===== *)
(** * Removal of conditional lines (Vm/linux-2.6.19/scripts/unifdef.c)

    unifdef copies C text and removes the parts whose #if conditions are known
    from the command line.  The static variables are the record [ust]; a
    function that may end the program returns in the monad [U], whose outcomes
    are a value, an exit, an abort or a fault.  A pointer into a string is the
    rest of the string, which ends where the NUL is.  The input is the sequence
    of what [fgets] delivers, the output the sequence of what is printed. *)

From stdpp Require Import base numbers list option strings.
From S2P Require Import Prelude CString Kallsyms Sumversion.
Local Open Scope Z_scope.

(** ** Data *)

Inductive directive :=
  | TRUEI | FALSEI | IF | TRUE | FALSE | ELIF | ELTRUE | ELFALSE | ELSE | ENDIF.
Inductive Linetype :=
  | LT (d : directive)
  | LT_DODGY (d : directive)   (* not on one line *)
  | LT_PLAIN
  | LT_EOF.

Inductive Ifstate :=
  | IS_OUTSIDE
  | IS_FALSE_PREFIX
  | IS_TRUE_PREFIX
  | IS_PASS_MIDDLE
  | IS_FALSE_MIDDLE
  | IS_TRUE_MIDDLE
  | IS_PASS_ELSE
  | IS_FALSE_ELSE
  | IS_TRUE_ELSE
  | IS_FALSE_TRAILER.

Inductive Comment_state :=
  | NO_COMMENT | C_COMMENT | CXX_COMMENT | STARTING_COMMENT | FINISHING_COMMENT
  | CHAR_LITERAL | STRING_LITERAL.
Inductive Line_state := LS_START | LS_HASH | LS_DIRTY.

#[export] Instance directive_eq_dec : EqDecision directive.
Proof. solve_decision. Defined.
#[export] Instance Linetype_eq_dec : EqDecision Linetype.
Proof. solve_decision. Defined.
#[export] Instance Ifstate_eq_dec : EqDecision Ifstate.
Proof. solve_decision. Defined.
#[export] Instance Comment_state_eq_dec : EqDecision Comment_state.
Proof. solve_decision. Defined.
#[export] Instance Line_state_eq_dec : EqDecision Line_state.
Proof. solve_decision. Defined.

Definition MAXDEPTH : nat := 64.
Definition MAXLINE : nat := 64 * 64.
Definition MAXSYMS : nat := 64 * 64.
Definition EDITSLOP : nat := 10.

(** The options that matter; debugging only prints. *)
Record options := Options {
  complement : bool;
  iocccok : bool;
  killconsts : bool;
  lnblank : bool;
  lnnum : bool;
  symlist : bool;
  text : bool }.

(** symname, value and ignore at one index. *)
Record usym := Usym {
  symname : list Z;
  value : option (list Z);
  ignore : bool }.
(** The tables and nsyms; entries that were never written are zero. *)
Record symtab := Symtab {
  syms : list usym;
  nsyms : nat }.

Inductive uout :=
  | OLine (l : list Z)      (* a line of the input, as it is in tline *)
  | OHashLine (n : Z)       (* #line n *)
  | OBlank
  | OSym (name : list Z).

(** The line parser. *)
Record lexer := Lexer {
  incomment : Comment_state;
  linestate : Line_state;
  keepthis : bool;
  tline : list Z;
  keyword : nat }.
(** The state machine. *)
Record machine := Machine {
  ifstate : list Ifstate;
  ignoring : list bool;
  stifline : list Z;
  depth : nat;
  delcount : Z;
  exitstat : Z;
  linenum : Z }.
Record ust := Ust {
  u_o : options;
  u_syms : symtab;
  u_input : list (list Z);
  u_lex : lexer;
  u_m : machine;
  u_out : list uout }.

Definition init_lexer : lexer := Lexer NO_COMMENT LS_START false [] 0.
Definition init_machine : machine :=
  Machine (replicate MAXDEPTH IS_OUTSIDE) (replicate MAXDEPTH false) (replicate MAXDEPTH 0) 0 0 0 0.
Definition no_options : options := Options false false false false false false false.
Definition init_ust (input : list (list Z)) : ust :=
  Ust no_options (Symtab [] 0) input init_lexer init_machine [].

(** ** The monad *)

Inductive uresult (A : Type) :=
  | UOk (a : A) (s : ust)
  | UExit (code : Z) (s : ust)
  | UAbort
  | UFault (f : fault).
Arguments UOk {A} _ _.
Arguments UExit {A} _ _.
Arguments UAbort {A}.
Arguments UFault {A} _.

Definition U (A : Type) : Type := ust → uresult A.
Definition uret {A} (a : A) : U A := λ s, UOk a s.
Definition ubind {A B} (m : U A) (k : A → U B) : U B := λ s,
  match m s with
  | UOk a s' => k a s'
  | UExit c s' => UExit c s'
  | UAbort => UAbort
  | UFault f => UFault f
  end.
Definition uexit {A} (code : Z) : U A := λ s, UExit code s.
Definition uabort {A} : U A := λ _, UAbort.
Definition ufault {A} (f : fault) : U A := λ _, UFault f.
Definition uget {A} (f : ust → A) : U A := λ s, UOk (f s) s.
Definition umod (f : ust → ust) : U unit := λ s, UOk tt (f s).

Declare Scope u_scope.
Notation "x <- m ;; k" := (ubind m (λ x, k))
  (at level 20, m at level 99, k at level 200) : u_scope.
Notation "m ;;; k" := (ubind m (λ _, k))
  (at level 100, k at level 200, right associativity) : u_scope.
Local Open Scope u_scope.

Definition set_lex (f : lexer → lexer) : U unit :=
  umod (λ s, Ust (u_o s) (u_syms s) (u_input s) (f (u_lex s)) (u_m s) (u_out s)).
Definition set_m (f : machine → machine) : U unit :=
  umod (λ s, Ust (u_o s) (u_syms s) (u_input s) (u_lex s) (f (u_m s)) (u_out s)).
Definition emit (l : list uout) : U unit :=
  umod (λ s, Ust (u_o s) (u_syms s) (u_input s) (u_lex s) (u_m s) (u_out s ++ l)).

Definition set_incomment (c : Comment_state) : U unit :=
  set_lex (λ x, Lexer c (linestate x) (keepthis x) (tline x) (keyword x)).
Definition set_linestate (l : Line_state) : U unit :=
  set_lex (λ x, Lexer (incomment x) l (keepthis x) (tline x) (keyword x)).
Definition set_keepthis (b : bool) : U unit :=
  set_lex (λ x, Lexer (incomment x) (linestate x) b (tline x) (keyword x)).
Definition set_tline (l : list Z) : U unit :=
  set_lex (λ x, Lexer (incomment x) (linestate x) (keepthis x) l (keyword x)).
Definition set_keyword (k : nat) : U unit :=
  set_lex (λ x, Lexer (incomment x) (linestate x) (keepthis x) (tline x) k).

(** ** Diagnostics and the stack *)

(** [stifline[depth]] is read for the message. *)
Definition error {A} : U A :=
  d <- uget (λ s, depth (u_m s));;
  if bool_decide (d < MAXDEPTH)%nat then uexit 2 else ufault OutOfBounds.

Definition ignoreoff : U unit :=
  d <- uget (λ s, depth (u_m s));;
  match d with
  | O => uabort
  | S d' => set_m (λ m, Machine (ifstate m) (<[d := default false (ignoring m !! d')]> (ignoring m))
                     (stifline m) (depth m) (delcount m) (exitstat m) (linenum m))
  end.
Definition ignoreon : U unit :=
  set_m (λ m, Machine (ifstate m) (<[depth m := true]> (ignoring m)) (stifline m) (depth m)
                (delcount m) (exitstat m) (linenum m)).
Definition nest : U unit :=
  set_m (λ m, Machine (ifstate m) (ignoring m) (stifline m) (S (depth m)) (delcount m) (exitstat m) (linenum m));;;
  d <- uget (λ s, depth (u_m s));;
  if bool_decide (MAXDEPTH ≤ d)%nat then error
  else set_m (λ m, Machine (ifstate m) (ignoring m) (<[d := linenum m]> (stifline m)) (depth m)
                     (delcount m) (exitstat m) (linenum m)).
Definition unnest : U unit :=
  d <- uget (λ s, depth (u_m s));;
  match d with
  | O => uabort
  | S d' => set_m (λ m, Machine (ifstate m) (ignoring m) (stifline m) d' (delcount m) (exitstat m) (linenum m))
  end.
Definition state (st : Ifstate) : U unit :=
  set_m (λ m, Machine (<[depth m := st]> (ifstate m)) (ignoring m) (stifline m) (depth m)
                (delcount m) (exitstat m) (linenum m)).

(** ** Output *)

Definition flushline (keep : bool) : U unit :=
  s <- uget id;;
  if symlist (u_o s) then uret tt
  else if xorb keep (complement (u_o s)) then
    emit ((if lnnum (u_o s) && bool_decide (delcount (u_m s) > 0) then [OHashLine (linenum (u_m s))] else [])
          ++ [OLine (tline (u_lex s))]);;;
    set_m (λ m, Machine (ifstate m) (ignoring m) (stifline m) (depth m) 0 (exitstat m) (linenum m))
  else
    emit (if lnblank (u_o s) then [OBlank] else []);;;
    set_m (λ m, Machine (ifstate m) (ignoring m) (stifline m) (depth m) (delcount m + 1) 1 (linenum m)).

(** The replacement is cut to the room after the keyword. *)
Definition keywordedit (replacement : string) : U unit :=
  x <- uget u_lex;;
  set_tline (take (keyword x) (tline x) ++
             take (MAXLINE + EDITSLOP - keyword x - 1) (bytes replacement));;;
  flushline true.

(** ** The state machine *)

Definition Eelif : U unit := error.
Definition Eelse : U unit := error.
Definition Eendif : U unit := error.
Definition Eeof : U unit := error.
Definition Eioccc : U unit := error.
Definition print_ : U unit := flushline true.
Definition drop_ : U unit := flushline false.
Definition Strue : U unit := drop_;;; ignoreoff;;; state IS_TRUE_PREFIX.
Definition Sfalse : U unit := drop_;;; ignoreoff;;; state IS_FALSE_PREFIX.
Definition Selse : U unit := drop_;;; state IS_TRUE_ELSE.
Definition Pelif : U unit := print_;;; ignoreoff;;; state IS_PASS_MIDDLE.
Definition Pelse : U unit := print_;;; state IS_PASS_ELSE.
Definition Pendif : U unit := print_;;; unnest.
Definition Dfalse : U unit := drop_;;; ignoreoff;;; state IS_FALSE_TRAILER.
Definition Delif : U unit := drop_;;; ignoreoff;;; state IS_FALSE_MIDDLE.
Definition Delse : U unit := drop_;;; state IS_FALSE_ELSE.
Definition Dendif : U unit := drop_;;; unnest.
Definition Fdrop : U unit := nest;;; Dfalse.
Definition Fpass : U unit := nest;;; Pelif.
Definition Ftrue : U unit := nest;;; Strue.
Definition Ffalse : U unit := nest;;; Sfalse.
Definition pedantic : U unit :=
  ok <- uget (λ s, iocccok (u_o s));; if (ok : bool) then uret tt else Eioccc.
Definition Oiffy : U unit := pedantic;;; Fpass;;; ignoreon.
Definition Oif : U unit := pedantic;;; Fpass.
Definition Oelif : U unit := pedantic;;; Pelif.
Definition Idrop : U unit := Fdrop;;; ignoreon.
Definition Itrue : U unit := Ftrue;;; ignoreon.
Definition Ifalse : U unit := Ffalse;;; ignoreon.
(** strncpy of four characters over the four of "elif". *)
Definition Mpass : U unit :=
  x <- uget u_lex;;
  set_tline (take (keyword x) (tline x) ++ bytes "if  " ++ drop (keyword x + 4) (tline x));;;
  Pelif.
Definition newline : string := String (Ascii.ascii_of_nat 10) EmptyString.
Definition Mtrue : U unit := keywordedit ("else" ++ newline);;; state IS_TRUE_MIDDLE.
Definition Melif : U unit := keywordedit ("endif" ++ newline);;; state IS_FALSE_TRAILER.
Definition Melse : U unit := keywordedit ("endif" ++ newline);;; state IS_FALSE_ELSE.
Definition done_ : U unit :=
  c <- uget (λ s, incomment (u_lex s));;
  if bool_decide (c ≠ NO_COMMENT) then error
  else e <- uget (λ s, exitstat (u_m s));; uexit e.

Definition trans_row (st : Ifstate) : list (U unit) :=
  match st with
  | IS_OUTSIDE =>
    [ Itrue; Ifalse;Fpass; Ftrue; Ffalse;Eelif; Eelif; Eelif; Eelse; Eendif;
      Oiffy; Oiffy; Fpass; Oif;   Oif;   Eelif; Eelif; Eelif; Eelse; Eendif;
      print_; done_ ]
  | IS_FALSE_PREFIX =>
    [ Idrop; Idrop; Fdrop; Fdrop; Fdrop; Mpass; Strue; Sfalse;Selse; Dendif;
      Idrop; Idrop; Fdrop; Fdrop; Fdrop; Mpass; Eioccc;Eioccc;Eioccc;Eioccc;
      drop_;  Eeof ]
  | IS_TRUE_PREFIX =>
    [ Itrue; Ifalse;Fpass; Ftrue; Ffalse;Dfalse;Dfalse;Dfalse;Delse; Dendif;
      Oiffy; Oiffy; Fpass; Oif;   Oif;   Eioccc;Eioccc;Eioccc;Eioccc;Eioccc;
      print_; Eeof ]
  | IS_PASS_MIDDLE =>
    [ Itrue; Ifalse;Fpass; Ftrue; Ffalse;Pelif; Mtrue; Delif; Pelse; Pendif;
      Oiffy; Oiffy; Fpass; Oif;   Oif;   Pelif; Oelif; Oelif; Pelse; Pendif;
      print_; Eeof ]
  | IS_FALSE_MIDDLE =>
    [ Idrop; Idrop; Fdrop; Fdrop; Fdrop; Pelif; Mtrue; Delif; Pelse; Pendif;
      Idrop; Idrop; Fdrop; Fdrop; Fdrop; Eioccc;Eioccc;Eioccc;Eioccc;Eioccc;
      drop_;  Eeof ]
  | IS_TRUE_MIDDLE =>
    [ Itrue; Ifalse;Fpass; Ftrue; Ffalse;Melif; Melif; Melif; Melse; Pendif;
      Oiffy; Oiffy; Fpass; Oif;   Oif;   Eioccc;Eioccc;Eioccc;Eioccc;Pendif;
      print_; Eeof ]
  | IS_PASS_ELSE =>
    [ Itrue; Ifalse;Fpass; Ftrue; Ffalse;Eelif; Eelif; Eelif; Eelse; Pendif;
      Oiffy; Oiffy; Fpass; Oif;   Oif;   Eelif; Eelif; Eelif; Eelse; Pendif;
      print_; Eeof ]
  | IS_FALSE_ELSE =>
    [ Idrop; Idrop; Fdrop; Fdrop; Fdrop; Eelif; Eelif; Eelif; Eelse; Dendif;
      Idrop; Idrop; Fdrop; Fdrop; Fdrop; Eelif; Eelif; Eelif; Eelse; Eioccc;
      drop_;  Eeof ]
  | IS_TRUE_ELSE =>
    [ Itrue; Ifalse;Fpass; Ftrue; Ffalse;Eelif; Eelif; Eelif; Eelse; Dendif;
      Oiffy; Oiffy; Fpass; Oif;   Oif;   Eelif; Eelif; Eelif; Eelse; Eioccc;
      print_; Eeof ]
  | IS_FALSE_TRAILER =>
    [ Idrop; Idrop; Fdrop; Fdrop; Fdrop; Dfalse;Dfalse;Dfalse;Delse; Dendif;
      Idrop; Idrop; Fdrop; Fdrop; Fdrop; Dfalse;Dfalse;Dfalse;Delse; Eioccc;
      drop_;  Eeof ]
  end.

(** The numbers of the enumeration. *)
Definition directive_num (d : directive) : nat :=
  match d with
  | TRUEI => 0 | FALSEI => 1 | IF => 2 | TRUE => 3 | FALSE => 4
  | ELIF => 5 | ELTRUE => 6 | ELFALSE => 7 | ELSE => 8 | ENDIF => 9
  end.
Definition linetype_num (l : Linetype) : nat :=
  match l with
  | LT d => directive_num d
  | LT_DODGY d => 10 + directive_num d
  | LT_PLAIN => 20
  | LT_EOF => 21
  end.
Definition trans_table (st : Ifstate) (l : Linetype) : U unit :=
  nth (linetype_num l) (trans_row st) uabort.

(** ** Comments *)

Definition starts (p : string) (cp : list Z) : bool := is_prefix (bytes p) cp.
Definition endsym (c : Z) : bool := negb (isalpha c) && negb (isdigit c) && bool_decide (c ≠ 95).

(** Lines that are not parsed for comments. *)
Fixpoint skip_spaces (cp : list Z) : U (list Z) :=
  match cp with
  | c :: cp' =>
      if isspace c then
        (if bool_decide (c = 10) then set_linestate LS_START else uret tt);;; skip_spaces cp'
      else uret cp
  | [] => uret cp
  end.

Definition esc_newline : string := String (Ascii.ascii_of_nat 92) newline.

(** The while loop.  [fuel] is twice the length of the rest, for the states
    that are left without reading. *)
Fixpoint skip_loop (fuel : nat) (cp : list Z) : U (list Z) :=
  match fuel with
  | O => ufault NoFuel
  | S fuel' =>
      match cp with
      | [] => uret cp
      | c :: cp' =>
          if starts esc_newline cp then skip_loop fuel' (drop 2 cp)
          else
            ic <- uget (λ s, incomment (u_lex s));;
            match ic with
            | NO_COMMENT =>
                if starts ("/" ++ esc_newline) cp then set_incomment STARTING_COMMENT;;; skip_loop fuel' (drop 3 cp)
                else if starts "/*" cp then set_incomment C_COMMENT;;; skip_loop fuel' (drop 2 cp)
                else if starts "//" cp then set_incomment CXX_COMMENT;;; skip_loop fuel' (drop 2 cp)
                else if bool_decide (c = 39) then
                  set_incomment CHAR_LITERAL;;; set_linestate LS_DIRTY;;; skip_loop fuel' cp'
                else if bool_decide (c = 34) then
                  set_incomment STRING_LITERAL;;; set_linestate LS_DIRTY;;; skip_loop fuel' cp'
                else if bool_decide (c = 10) then set_linestate LS_START;;; skip_loop fuel' cp'
                else if bool_decide (c = 32) || bool_decide (c = 9) then skip_loop fuel' cp'
                else uret cp
            | CXX_COMMENT =>
                (if bool_decide (c = 10) then set_incomment NO_COMMENT;;; set_linestate LS_START else uret tt);;;
                skip_loop fuel' cp'
            | CHAR_LITERAL | STRING_LITERAL =>
                if (bool_decide (ic = CHAR_LITERAL) && bool_decide (c = 39)) ||
                   (bool_decide (ic = STRING_LITERAL) && bool_decide (c = 34)) then
                  set_incomment NO_COMMENT;;; skip_loop fuel' cp'
                else if bool_decide (c = 92) then
                  skip_loop fuel' (if bool_decide (cp' = []) then cp' else drop 2 cp)
                else if bool_decide (c = 10) then error
                else skip_loop fuel' cp'
            | C_COMMENT =>
                if starts ("*" ++ esc_newline) cp then set_incomment FINISHING_COMMENT;;; skip_loop fuel' (drop 3 cp)
                else if starts "*/" cp then set_incomment NO_COMMENT;;; skip_loop fuel' (drop 2 cp)
                else skip_loop fuel' cp'
            | STARTING_COMMENT =>
                if bool_decide (c = 42) then set_incomment C_COMMENT;;; skip_loop fuel' cp'
                else if bool_decide (c = 47) then set_incomment CXX_COMMENT;;; skip_loop fuel' cp'
                else set_incomment NO_COMMENT;;; set_linestate LS_DIRTY;;; skip_loop fuel' cp
            | FINISHING_COMMENT =>
                if bool_decide (c = 47) then set_incomment NO_COMMENT;;; skip_loop fuel' cp'
                else set_incomment C_COMMENT;;; skip_loop fuel' cp
            end
      end
  end.

Definition skipcomment (cp : list Z) : U (list Z) :=
  s <- uget id;;
  if text (u_o s) || default false (ignoring (u_m s) !! depth (u_m s)) then skip_spaces cp
  else skip_loop (2 * length cp + 2) cp.

(** ** Symbols *)

Fixpoint skipsym (cp : list Z) : list Z :=
  match cp with
  | [] => []
  | c :: cp' => if endsym c then cp else skipsym cp'
  end.

Fixpoint strlcmp (s t : list Z) (n : nat) : Z :=
  let c := default 0 (head s) in
  match n, t with
  | S n', b :: t' => if bool_decide (c ≠ b) then c - b else strlcmp (tail s) t' n'
  | _, _ => c
  end.

Fixpoint findsym_loop (i : nat) (l : list usym) (str : list Z) (n : nat) : option nat :=
  match l with
  | [] => None
  | y :: l' => if bool_decide (strlcmp (symname y) str n = 0) then Some i else findsym_loop (S i) l' str n
  end.
Definition findsym (str : list Z) : U (option nat) :=
  let n := (length str - length (skipsym str))%nat in
  if bool_decide (n = 0)%nat then uret None
  else
    s <- uget id;;
    if symlist (u_o s) then emit [OSym (take n str)];;; uret (Some 0%nat)
    else uret (findsym_loop 0 (take (nsyms (u_syms s)) (syms (u_syms s))) str n).

Definition set_sym (i : nat) (y : usym) : U unit :=
  umod (λ s, let l := syms (u_syms s) in
             Ust (u_o s) (Symtab (if bool_decide (i < length l)%nat then <[i := y]> l else l ++ [y]) (nsyms (u_syms s)))
               (u_input s) (u_lex s) (u_m s) (u_out s)).
Definition add_nsyms : U unit :=
  umod (λ s, Ust (u_o s) (Symtab (syms (u_syms s)) (S (nsyms (u_syms s))))
               (u_input s) (u_lex s) (u_m s) (u_out s)).

Definition addsym (ignorethis definethis : bool) (sym : list Z) : U unit :=
  found <- findsym sym;;
  n <- uget (λ s, nsyms (u_syms s));;
  symind <- match found with
            | Some i => uret i
            | None => if bool_decide (MAXSYMS ≤ n)%nat then uexit 2 else add_nsyms;;; uret n
            end;;
  let val := skipsym sym in
  let name := take (length sym - length val) sym in
  if (definethis : bool) then
    match val with
    | [] => set_sym symind (Usym sym (Some []) ignorethis)
    | c :: val' => if bool_decide (c = 61) then set_sym symind (Usym name (Some val') ignorethis) else uexit 2
    end
  else if bool_decide (val = []) then set_sym symind (Usym sym None ignorethis) else uexit 2.

(** An index of findsym in the tables, whose unused entries are zero. *)
Definition sym_at (i : nat) : U usym := uget (λ s, default (Usym [] None false) (syms (u_syms s) !! i)).

(** ** Expressions *)

Definition b2z (b : bool) : Z := if b then 1 else 0.
Definition op_lt (a b : Z) : Z := b2z (bool_decide (a < b)).
Definition op_gt (a b : Z) : Z := b2z (bool_decide (b < a)).
Definition op_le (a b : Z) : Z := b2z (bool_decide (a ≤ b)).
Definition op_ge (a b : Z) : Z := b2z (bool_decide (b ≤ a)).
Definition op_eq (a b : Z) : Z := b2z (bool_decide (a = b)).
Definition op_ne (a b : Z) : Z := b2z (bool_decide (a ≠ b)).
Definition op_or (a b : Z) : Z := b2z (bool_decide (a ≠ 0) || bool_decide (b ≠ 0)).
Definition op_and (a b : Z) : Z := b2z (bool_decide (a ≠ 0) && bool_decide (b ≠ 0)).

Definition eval_ops : list (list (string * (Z → Z → Z))) :=
  [ [("||", op_or)]; [("&&", op_and)]; [("==", op_eq); ("!=", op_ne)];
    [("<=", op_le); (">=", op_ge); ("<", op_lt); (">", op_gt)] ]%string.

(** [strtol] with base 0: the number and the rest.  A [long] has 32 bits, as on
    the i386 machine the kernel is built for. *)
Definition strtol (l : list Z) : Z * list Z :=
  let l1 := drop_spaces l in
  let '(neg, l2) := match l1 with
                    | 45 :: r => (true, r)
                    | 43 :: r => (false, r)
                    | _ => (false, l1)
                    end in
  let '(base, l3) := if is_hex l2 then (16, drop 2 l2)
                     else if bool_decide (head l2 = Some 48) then (8, l2) else (10, l2) in
  match digit_of (default 0 (head l3)) with
  | Some d => if bool_decide (d < base)
              then let '(v, r) := digits base 0 l3 in (clamp (if neg then - v else v), r)
              else (0, l)
  | None => (0, l)
  end.

(** The value and the rest; [None] is LT_IF, which leaves both as they were.
    [ops] are the operators from the current level on. *)
Fixpoint eval_table (fuel : nat) (ops : list (list (string * (Z → Z → Z)))) (cp : list Z)
    : U (option (Z * list Z)) :=
  match fuel with
  | O => ufault NoFuel
  | S fuel' =>
      match ops with
      | [] => eval_unary fuel' cp
      | level :: ops' =>
          first <- eval_table fuel' ops' cp;;
          match first with
          | None => uret None
          | Some (v, cp1) => eval_rest fuel' level ops' v cp1
          end
      end
  end
with eval_rest (fuel : nat) (level : list (string * (Z → Z → Z))) (ops' : list (list (string * (Z → Z → Z))))
    (v : Z) (cp : list Z) : U (option (Z * list Z)) :=
  match fuel with
  | O => ufault NoFuel
  | S fuel' =>
      cp1 <- skipcomment cp;;
      match list_find (λ o : string * (Z → Z → Z), starts (fst o) cp1 = true) level with
      | None => uret (Some (v, cp1))
      | Some (_, (str, fn)) =>
          r <- eval_table fuel' ops' (drop (String.length str) cp1);;
          match r with
          | None => uret None
          | Some (v', cp2) => eval_rest fuel' level ops' (fn v v') cp2
          end
      end
  end
with eval_unary (fuel : nat) (cp0 : list Z) : U (option (Z * list Z)) :=
  match fuel with
  | O => ufault NoFuel
  | S fuel' =>
      cp <- skipcomment cp0;;
      let c := default 0 (head cp) in
      if bool_decide (c = 33) then
        r <- eval_unary fuel' (tail cp);;
        uret match r with None => None | Some (v, cp1) => Some (b2z (bool_decide (v = 0)), cp1) end
      else if bool_decide (c = 40) then
        r <- eval_table fuel' eval_ops (tail cp);;
        match r with
        | None => uret None
        | Some (v, cp1) =>
            cp2 <- skipcomment cp1;;
            uret (if bool_decide (head cp2 = Some 41) then Some (v, tail cp2) else None)
        end
      else if isdigit c then uret (Some (fst (strtol cp), skipsym cp))
      else if starts "defined" cp && endsym (default 0 (cp !! 7%nat)) then
        cp1 <- skipcomment (drop 7 cp);;
        if bool_decide (head cp1 ≠ Some 40) then uret None
        else
          cp2 <- skipcomment (tail cp1);;
          found <- findsym cp2;;
          match found with
          | None => uret None
          | Some i =>
              y <- sym_at i;;
              cp3 <- skipcomment (skipsym cp2);;
              if bool_decide (head cp3 ≠ Some 41) then uret None
              else set_keepthis false;;;
                   uret (Some (b2z (bool_decide (value y ≠ None)), tail cp3))
          end
      else if negb (endsym c) then
        found <- findsym cp;;
        match found with
        | None => uret None
        | Some i =>
            y <- sym_at i;;
            match value y with
            | None => set_keepthis false;;; uret (Some (0, skipsym cp))
            | Some l =>
                let '(v, ep) := strtol l in
                if bool_decide (ep ≠ []) || bool_decide (l = []) then uret None
                else set_keepthis false;;; uret (Some (v, skipsym cp))
            end
        end
      else uret None
  end.

(** The type of the line, and the rest of it. *)
Definition ifeval (cp : list Z) : U (directive * list Z) :=
  kill <- uget (λ s, killconsts (u_o s));;
  set_keepthis (negb kill);;;
  r <- eval_table (8 * length cp + 16) eval_ops cp;;
  keep <- uget (λ s, keepthis (u_lex s));;
  uret match r with
       | None => (IF, cp)
       | Some (v, cp') => (if (keep : bool) then IF else if bool_decide (v ≠ 0) then TRUE else FALSE, cp')
       end.

(** ** Lines *)

Definition set_line (l : list Z) (rest : list (list Z)) : U unit :=
  umod (λ s, Ust (u_o s) (u_syms s) rest
    (Lexer (incomment (u_lex s)) (linestate (u_lex s)) (keepthis (u_lex s)) l (keyword (u_lex s)))
    (u_m s) (u_out s)).

Definition known_if (d : directive) : bool :=
  match d with TRUE | FALSE | TRUEI | FALSEI => true | _ => false end.
Definition known_elif (d : directive) : bool :=
  match d with ELTRUE | ELFALSE => true | _ => false end.
(** [ifeval(&cp) - LT_IF + LT_ELIF]. *)
Definition elif_of (d : directive) : directive :=
  match d with TRUE => ELTRUE | FALSE => ELFALSE | _ => ELIF end.

(** The part of getline for a line that starts with a hash: the directive
    ([None] for LT_PLAIN) and the rest of the line. *)
Definition directive_line (kw : list Z) : U (option directive * list Z) :=
  let cp := skipsym kw in
  let kwlen := (length kw - length cp)%nat in
  (if starts esc_newline cp then Eioccc else uret tt);;;
  let kw_is (s : string) := bool_decide (strlcmp (bytes s) kw kwlen = 0) in
  if kw_is "ifdef" || kw_is "ifndef" then
    cp1 <- skipcomment cp;;
    cursym <- findsym cp1;;
    match cursym with
    | None => uret (Some IF, skipsym cp1)
    | Some i =>
        y <- sym_at i;;
        let positive := negb (bool_decide (kw !! 2%nat = Some 110)) in
        let holds := if bool_decide (value y = None) then negb positive else positive in
        uret (Some (if ignore y then (if holds then TRUEI else FALSEI)
                    else if holds then TRUE else FALSE), skipsym cp1)
    end
  else if kw_is "if" then r <- ifeval cp;; uret (Some (fst r), snd r)
  else if kw_is "elif" then r <- ifeval cp;; uret (Some (elif_of (fst r)), snd r)
  else if kw_is "else" then uret (Some ELSE, cp)
  else if kw_is "endif" then uret (Some ENDIF, cp)
  else set_linestate LS_DIRTY;;; uret (None, cp).

(** The rest of a line that is not parsed: to its end. *)
Fixpoint skip_rest (fuel : nat) (cp : list Z) : U unit :=
  match fuel with
  | O => ufault NoFuel
  | S fuel' => match cp with
               | [] => uret tt
               | _ :: cp' => cp1 <- skipcomment cp';; skip_rest fuel' cp1
               end
  end.

(** The part of getline after fgets. *)
Definition parse_line (l : list Z) : U Linetype :=
  wascomment <- uget (λ s, incomment (u_lex s));;
  cp0 <- skipcomment l;;
  ls0 <- uget (λ s, linestate (u_lex s));;
  cp <- (if bool_decide (ls0 = LS_START) then
           match cp0 with
           | [] => uret cp0
           | c :: cp' => if bool_decide (c = 35) then set_linestate LS_HASH;;; skipcomment cp'
                         else set_linestate LS_DIRTY;;; uret cp0
           end
         else uret cp0);;
  ic <- uget (λ s, incomment (u_lex s));;
  ls <- uget (λ s, linestate (u_lex s));;
  r <- (if bool_decide (ic = NO_COMMENT) && bool_decide (ls = LS_HASH) then
          set_keyword (length l - length cp);;;
          d <- directive_line cp;;
          cp1 <- skipcomment (snd d);;
          retval <- (if bool_decide (cp1 ≠ []) then
                       set_linestate LS_DIRTY;;;
                       uret match fst d with
                            | None => None
                            | Some x => Some (if known_if x then IF else if known_elif x then ELIF else x)
                            end
                     else uret (fst d));;
          ic1 <- uget (λ s, incomment (u_lex s));;
          lt <- match retval with
                | None => uret LT_PLAIN
                | Some x =>
                    if bool_decide (wascomment ≠ NO_COMMENT) || bool_decide (ic1 ≠ NO_COMMENT) then
                      (if bool_decide (ic1 ≠ NO_COMMENT) then set_linestate LS_DIRTY else uret tt);;;
                      uret (LT_DODGY x)
                    else uret (LT x)
                end;;
          ls1 <- uget (λ s, linestate (u_lex s));;
          if bool_decide (ls1 = LS_HASH) then uabort else uret (lt, cp1)
        else uret (LT_PLAIN, cp));;
  ls2 <- uget (λ s, linestate (u_lex s));;
  (if bool_decide (ls2 = LS_DIRTY) then skip_rest (S (length (snd r))) (snd r) else uret tt);;;
  uret (fst r).

Definition getline : U Linetype :=
  input <- uget u_input;;
  match input with
  | [] => uret LT_EOF
  | l :: rest => set_line l rest;;; parse_line l
  end.

(** ** The program *)

Definition count_line : U unit :=
  set_m (λ m, Machine (ifstate m) (ignoring m) (stifline m) (depth m) (delcount m) (exitstat m) (linenum m + 1)).
Definition process_line : U unit :=
  count_line;;;
  lineval <- getline;;
  st <- uget (λ s, default IS_OUTSIDE (ifstate (u_m s) !! depth (u_m s)));;
  trans_table st lineval.
Fixpoint process (fuel : nat) : U unit :=
  match fuel with
  | O => ufault NoFuel
  | S fuel' => process_line;;; process fuel'
  end.

(** What getopt finds, with the argument of the option. *)
Inductive opt :=
  | Opt_i (arg : list Z) | Opt_D (arg : list Z) | Opt_U (arg : list Z) | Opt_I (arg : list Z)
  | Opt_c | Opt_d | Opt_e | Opt_k | Opt_l | Opt_n | Opt_s | Opt_t | Opt_other.

Definition set_opts (f : options → options) : U unit :=
  umod (λ s, Ust (f (u_o s)) (u_syms s) (u_input s) (u_lex s) (u_m s) (u_out s)).
Definition do_opt (o : opt) : U unit :=
  match o with
  | Opt_i (68 :: arg) => addsym true true arg
  | Opt_i (85 :: arg) => addsym true false arg
  | Opt_i _ => uexit 2
  | Opt_D arg => addsym false true arg
  | Opt_U arg => addsym false false arg
  | Opt_I _ | Opt_d => uret tt
  | Opt_c => set_opts (λ x, Options true (iocccok x) (killconsts x) (lnblank x) (lnnum x) (symlist x) (text x))
  | Opt_e => set_opts (λ x, Options (complement x) true (killconsts x) (lnblank x) (lnnum x) (symlist x) (text x))
  | Opt_k => set_opts (λ x, Options (complement x) (iocccok x) true (lnblank x) (lnnum x) (symlist x) (text x))
  | Opt_l => set_opts (λ x, Options (complement x) (iocccok x) (killconsts x) true (lnnum x) (symlist x) (text x))
  | Opt_n => set_opts (λ x, Options (complement x) (iocccok x) (killconsts x) (lnblank x) true (symlist x) (text x))
  | Opt_s => set_opts (λ x, Options (complement x) (iocccok x) (killconsts x) (lnblank x) (lnnum x) true (text x))
  | Opt_t => set_opts (λ x, Options (complement x) (iocccok x) (killconsts x) (lnblank x) (lnnum x) (symlist x) true)
  | Opt_other => uexit 2
  end.
Fixpoint do_opts (l : list opt) : U unit :=
  match l with [] => uret tt | o :: l' => do_opt o;;; do_opts l' end.

(** [opened] is the text of the file, or of the standard input; [None] when
    the file cannot be opened or more than one is named. *)
Definition unifdef_main (opts : list opt) (opened : option (list (list Z))) : uresult unit :=
  match do_opts opts (init_ust (default [] opened)) with
  | UOk _ s =>
      match opened with
      | None => UExit 2 s
      | Some input => process (S (length input)) s
      end
  | o => o
  end.
