(* ===== verification/UnifdefStep.v ===== *)
(** * One line of unifdef (scripts/unifdef.c)

    The parser leaves the state machine alone, and each entry of the transition
    table prints or drops the line, perhaps edited, and changes the innermost
    group: the whole table is [act]. *)

From stdpp Require Import base numbers list option strings.
From S2P Require Import Prelude CString Kallsyms Sumversion Unifdef.
Local Open Scope Z_scope.
Local Open Scope u_scope.

(** ** The monad *)

Lemma ubind_ok {A B} (m : U A) (k : A → U B) s a s' : m s = UOk a s' → ubind m k s = k a s'.
Proof. unfold ubind. by intros ->. Qed.
Lemma ubind_inv {A B} (m : U A) (k : A → U B) s b s' :
  ubind m k s = UOk b s' → ∃ a s1, m s = UOk a s1 ∧ k a s1 = UOk b s'.
Proof. unfold ubind. destruct (m s) as [a s1| | |]; try done. eauto. Qed.

(** Take a successful sequence apart. *)
Ltac uinv :=
  repeat match goal with
  | H : ubind _ _ _ = UOk _ _ |- _ => apply ubind_inv in H as (? & ? & ? & H)
  | H : uret _ _ = UOk _ _ |- _ => unfold uret in H
  | H : uget _ _ = UOk _ _ |- _ => unfold uget in H
  | H : umod _ _ = UOk _ _ |- _ => unfold umod in H
  | H : uexit _ _ = UOk _ _ |- _ => discriminate H
  | H : uabort _ = UOk _ _ |- _ => discriminate H
  | H : ufault _ _ = UOk _ _ |- _ => discriminate H
  | H : UOk _ _ = UOk _ _ |- _ => injection H as; subst
  end.

(** ** Functions that leave the machine alone *)

(** What the parser leaves as it is, with the symbol list off. *)
Definition fixed (s : ust) : options * list (list Z) * machine * list uout * list Z :=
  (u_o s, u_input s, u_m s, u_out s, tline (u_lex s)).
Definition frames {A} (m : U A) : Prop := ∀ s a s',
  m s = UOk a s' → symlist (u_o s) = false → fixed s' = fixed s.

Lemma frames_ret {A} (a : A) : frames (uret a).
Proof. intros s a' s' [= <- <-] _. done. Qed.
Lemma frames_get {A} (f : ust → A) : frames (uget f).
Proof. intros s a' s' [= <- <-] _. done. Qed.
Lemma frames_exit {A} c : frames (@uexit A c).
Proof. by intros s a' s' [=]. Qed.
Lemma frames_fault {A} f : frames (@ufault A f).
Proof. by intros s a' s' [=]. Qed.
Lemma frames_abort {A} : frames (@uabort A).
Proof. by intros s a' s' [=]. Qed.
Lemma frames_bind {A B} (m : U A) (k : A → U B) : frames m → (∀ a, frames (k a)) → frames (ubind m k).
Proof.
  intros Hm Hk s b s' (a & s1 & H1 & H2)%ubind_inv Hs. pose proof (Hm _ _ _ H1 Hs) as E.
  rewrite <- E. apply (Hk a _ _ _ H2). injection E as -> _ _ _ _. done.
Qed.
Lemma frames_lex f : (∀ x, tline (f x) = tline x) → frames (set_lex f).
Proof. intros Hf s a' s' [= <- <-] _. unfold fixed. simpl. by rewrite Hf. Qed.
Lemma frames_error {A} : frames (@error A).
Proof.
  apply frames_bind; [apply frames_get|]. intros d. case_bool_decide; [apply frames_exit|apply frames_fault].
Qed.
Lemma frames_incomment c : frames (set_incomment c).
Proof. by apply frames_lex. Qed.
Lemma frames_linestate c : frames (set_linestate c).
Proof. by apply frames_lex. Qed.
Lemma frames_keepthis b : frames (set_keepthis b).
Proof. by apply frames_lex. Qed.
Lemma frames_keyword k : frames (set_keyword k).
Proof. by apply frames_lex. Qed.

Create HintDb uframe.
#[export] Hint Resolve frames_ret frames_get frames_exit frames_fault frames_abort frames_error
  frames_incomment frames_linestate frames_keepthis frames_keyword : uframe.

(** Close [frames] goals by the structure of the program. *)
Ltac frame :=
  repeat match goal with
  | |- frames (ubind _ _) => apply frames_bind; [|intros ?]
  | |- frames (match ?x with _ => _ end) => destruct x
  | |- frames (if ?b then _ else _) => destruct b
  | |- frames _ => solve [eauto with uframe]
  end.

Lemma frames_skip_spaces cp : frames (skip_spaces cp).
Proof. induction cp as [|c cp IH]; cbn [skip_spaces]; frame. Qed.
Lemma frames_skip_loop n : ∀ cp, frames (skip_loop n cp).
Proof.
  induction n as [|n IH]; intros cp; cbn [skip_loop]; [frame|].
  destruct cp as [|c cp]; frame.
Qed.
#[export] Hint Resolve frames_skip_spaces frames_skip_loop : uframe.
Lemma frames_skipcomment cp : frames (skipcomment cp).
Proof. unfold skipcomment. frame. Qed.
Lemma frames_findsym str : frames (findsym str).
Proof.
  unfold findsym. destruct (bool_decide _); [frame|].
  intros s a s' H Hs. apply ubind_inv in H as (x & s1 & [= <- <-] & H). unfold id in H.
  rewrite Hs in H. injection H as <- <-. done.
Qed.
#[export] Hint Resolve frames_skipcomment frames_findsym : uframe.

Lemma frames_eval n :
  (∀ ops cp, frames (eval_table n ops cp)) ∧
  (∀ level ops v cp, frames (eval_rest n level ops v cp)) ∧
  (∀ cp, frames (eval_unary n cp)).
Proof.
  induction n as [|n (IH1 & IH2 & IH3)]; [split; [|split]; intros; cbn; frame|].
  split; [|split].
  - intros ops cp. cbn [eval_table]. frame.
  - intros level ops v cp. cbn [eval_rest]. frame.
  - intros cp. cbn [eval_unary]. unfold sym_at. frame.
Qed.
Lemma frames_ifeval cp : frames (ifeval cp).
Proof. unfold ifeval. pose proof (proj1 (frames_eval (8 * length cp + 16))). frame. Qed.
#[export] Hint Resolve frames_ifeval : uframe.
Lemma frames_directive kw : frames (directive_line kw).
Proof. unfold directive_line, sym_at, Eioccc. cbv zeta. frame. Qed.
Lemma frames_skip_rest n : ∀ cp, frames (skip_rest n cp).
Proof. induction n as [|n IH]; intros cp; cbn [skip_rest]; frame. Qed.
#[export] Hint Resolve frames_directive frames_skip_rest : uframe.

Lemma frames_parse l : frames (parse_line l).
Proof. unfold parse_line. frame. Qed.

(** A result that can only have some form. *)
Definition yields {A} (P : A → Prop) (m : U A) : Prop := ∀ s a s', m s = UOk a s' → P a.
Lemma yields_ret {A} (P : A → Prop) a : P a → yields P (uret a).
Proof. by intros H s b s' [= <- <-]. Qed.
Lemma yields_bind {A B} (P : A → Prop) (Q : B → Prop) m k :
  yields P m → (∀ a, P a → yields Q (k a)) → yields Q (ubind m k).
Proof. intros Hm Hk s b s' (a & s1 & H1 & H2)%ubind_inv. by eapply Hk; [eapply Hm|]. Qed.
Lemma yields_any {A} (m : U A) : yields (λ _, True) m.
Proof. done. Qed.

(** The end of the file is only reported when there is no line. *)
Lemma parse_not_eof l : yields (λ lt, lt ≠ LT_EOF) (parse_line l).
Proof.
  unfold parse_line. do 6 (eapply yields_bind; [apply yields_any|intros ? _]).
  eapply yields_bind with (P := λ r, fst r ≠ LT_EOF).
  - destruct (_ && _); [|by apply yields_ret].
    do 3 (eapply yields_bind; [apply yields_any|intros ? _]).
    eapply yields_bind; [apply yields_any|intros retval _].
    eapply yields_bind; [apply yields_any|intros ? _].
    eapply yields_bind with (P := λ lt, lt ≠ LT_EOF).
    + destruct retval as [x|]; [|by apply yields_ret]. destruct (_ || _); [|by apply yields_ret].
      eapply yields_bind; [apply yields_any|intros ? _]. by apply yields_ret.
    + intros lt Hlt. eapply yields_bind; [apply yields_any|intros ? _].
      case_bool_decide; [done|]. by apply yields_ret.
  - intros r Hr. do 2 (eapply yields_bind; [apply yields_any|intros ? _]). by apply yields_ret.
Qed.

(** A line is read into [tline]; at the end of the input nothing happens. *)
Lemma getline_fixed s lt s' :
  getline s = UOk lt s' → symlist (u_o s) = false →
  match u_input s with
  | [] => lt = LT_EOF ∧ s' = s
  | l :: rest => lt ≠ LT_EOF ∧ fixed s' = (u_o s, rest, u_m s, u_out s, l)
  end.
Proof.
  unfold getline. intros (i & s1 & [= <- <-] & H)%ubind_inv Hs.
  destruct (u_input s) as [|l rest]; [by injection H as <- <-|].
  apply ubind_inv in H as (u & s1 & [= _ <-] & H). split; [by eapply parse_not_eof|].
  by apply frames_parse in H as ->.
Qed.

(** ** What the machine does with a line *)

(** How a line is printed. *)
Inductive role := Same | AsIf | AsElse | AsEndif.
Inductive change := Keep | Set_ (st : Ifstate) | Push (st : Ifstate) | Pop.

Definition render (k : nat) (l : list Z) (r : role) : list Z :=
  match r with
  | Same => l
  | AsIf => take k l ++ bytes "if  " ++ drop (k + 4) l
  | AsElse => take k l ++ take (MAXLINE + EDITSLOP - k - 1) (bytes ("else" ++ newline))
  | AsEndif => take k l ++ take (MAXLINE + EDITSLOP - k - 1) (bytes ("endif" ++ newline))
  end.

(** The printed lines of the input. *)
Definition lines (out : list uout) : list (list Z) :=
  omap (λ o, match o with OLine l => Some l | _ => None end) out.

(** The states of the open groups, innermost first. *)
Fixpoint groups (d : nat) (l : list Ifstate) : list Ifstate :=
  match d with
  | O => []
  | S d' => default IS_OUTSIDE (l !! d) :: groups d' l
  end.
Definition stack (s : ust) : list Ifstate := groups (depth (u_m s)) (ifstate (u_m s)).
Definition top (l : list Ifstate) : Ifstate := default IS_OUTSIDE (head l).

Definition changed (c : change) (l : list Ifstate) : list Ifstate :=
  match c with
  | Keep => l
  | Set_ st => st :: tail l
  | Push st => st :: l
  | Pop => tail l
  end.

(** The state is in order: the arrays have their sizes, the outermost state is
    IS_OUTSIDE, and the options for output are the plain ones. *)
Record fit (s : ust) : Prop := {
  ft_plain : complement (u_o s) = false ∧ symlist (u_o s) = false;
  ft_size : length (ifstate (u_m s)) = MAXDEPTH;
  ft_depth : (depth (u_m s) < MAXDEPTH)%nat;
  ft_bottom : ifstate (u_m s) !! 0%nat = Some IS_OUTSIDE }.

(** Inside a group, where the change needs one. *)
Definition room (c : change) (s : ust) : Prop :=
  match c with Set_ _ | Pop => depth (u_m s) ≠ 0%nat | _ => True end.

(** [f], if it succeeds, prints the line as [r] says, or drops it and sets the
    exit status, and changes the stack. *)
Definition does (f : U unit) (r : option role) (c : change) : Prop := ∀ s s',
  fit s → room c s → f s = UOk tt s' →
  fit s' ∧ stack s' = changed c (stack s) ∧ u_input s' = u_input s ∧
  exitstat (u_m s') = match r with Some _ => exitstat (u_m s) | None => 1 end ∧
  lines (u_out s') = lines (u_out s) ++
    match r with Some x => [render (keyword (u_lex s)) (tline (u_lex s)) x] | None => [] end.
(** The part of an action that does not print. *)
Definition silent (f : U unit) (c : change) : Prop := ∀ s s',
  fit s → room c s → f s = UOk tt s' →
  fit s' ∧ stack s' = changed c (stack s) ∧ u_input s' = u_input s ∧
  exitstat (u_m s') = exitstat (u_m s) ∧ u_out s' = u_out s ∧ u_lex s' = u_lex s.

Lemma groups_insert d i st l : (d < i)%nat → groups d (<[i := st]> l) = groups d l.
Proof.
  induction d as [|d IH]; intros H; [done|]. cbn [groups]. rewrite IH by lia.
  by rewrite list_lookup_insert_ne by lia.
Qed.
Lemma lines_app a b : lines (a ++ b) = lines a ++ lines b.
Proof. apply omap_app. Qed.
Lemma room_stack c s : room c s ↔ match c with Set_ _ | Pop => stack s ≠ [] | _ => True end.
Proof. unfold room, stack. destruct c, (depth (u_m s)); simpl; split; congruence. Qed.

Lemma silent_state st : silent (state st) (Set_ st).
Proof.
  intros s s' [Hp Hz Hd Hb] Hr [= <-]. simpl in Hr. unfold stack. simpl.
  destruct (depth (u_m s)) as [|d] eqn:E; [done|].
  split; [|split; [|done]].
  - constructor; simpl; rewrite ?E; try done; [by rewrite length_insert|].
    by rewrite list_lookup_insert_ne.
  - cbn [groups]. rewrite list_lookup_insert_eq by lia. simpl. by rewrite groups_insert by lia.
Qed.
Lemma silent_ignoreoff : silent ignoreoff Keep.
Proof.
  intros s s' Hf _ H. unfold ignoreoff in H. apply ubind_inv in H as (d & s1 & [= <- <-] & H).
  destruct (depth (u_m s)); [done|]. injection H as <-. destruct Hf. repeat split; done || tauto.
Qed.
Lemma silent_ignoreon : silent ignoreon Keep.
Proof. intros s s' Hf _ [= <-]. destruct Hf. repeat split; done || tauto. Qed.
Lemma silent_unnest : silent unnest Pop.
Proof.
  intros s s' Hf _ H. unfold unnest in H. apply ubind_inv in H as (d & s1 & [= <- <-] & H).
  unfold stack. destruct (depth (u_m s)) as [|d] eqn:E; [done|]. injection H as <-. destruct Hf.
  repeat split; simpl; done || tauto || lia.
Qed.
Lemma silent_pedantic : silent pedantic Keep.
Proof.
  intros s s' Hf _ H. unfold pedantic in H. apply ubind_inv in H as (d & s1 & [= <- <-] & H).
  destruct (iocccok (u_o s)); [by injection H as <-|].
  apply ubind_inv in H as (d & s1 & [= <- <-] & H). by case_bool_decide.
Qed.

(** The output of a line, as it is in [tline]. *)
Lemma flush_ok keep s s' :
  fit s → flushline keep s = UOk tt s' →
  fit s' ∧ stack s' = stack s ∧ u_input s' = u_input s ∧
  exitstat (u_m s') = (if keep then exitstat (u_m s) else 1) ∧
  lines (u_out s') = lines (u_out s) ++ (if keep then [tline (u_lex s)] else []).
Proof.
  intros [[Hc Hs] Hz Hd Hb] H. unfold flushline in H. apply ubind_inv in H as (x & s1 & [= <- <-] & H).
  unfold id in H. rewrite Hs, Hc, xorb_false_r in H.
  destruct keep; apply ubind_inv in H as (u & s1 & [= _ <-] & [= <-]);
    (split; [constructor; simpl; auto|]); do 3 (split; [done|]); simpl; rewrite !lines_app; f_equal.
  - by destruct (lnnum (u_o s) && _).
  - by destruct (lnblank (u_o s)).
Qed.

(** A line is printed or dropped, with an edit of [tline] before. *)
Lemma does_print : does print_ (Some Same) Keep.
Proof. intros s s' Hf _ H. apply flush_ok in H as (? & ? & ? & ? & ?); done. Qed.
Lemma does_drop : does drop_ None Keep.
Proof. intros s s' Hf _ H. apply flush_ok in H as (? & ? & ? & ? & ?); done. Qed.
Lemma does_keywordedit (t : string) r :
  (∀ k l, render k l r = take k l ++ take (MAXLINE + EDITSLOP - k - 1) (bytes t)) →
  does (keywordedit t) (Some r) Keep.
Proof.
  intros Ht s s' Hf _ H. unfold keywordedit in H. apply ubind_inv in H as (x & s1 & [= <- <-] & H).
  apply ubind_inv in H as (u & s1 & [= _ <-] & H). apply flush_ok in H as (? & ? & ? & ? & E); [|by destruct Hf].
  rewrite Ht. done.
Qed.

(** Sequences. *)
Lemma does_then f g r c : does f r Keep → silent g c → does (f;;; g) r c.
Proof.
  intros Hf Hg s s' Hs Hr (u & s1 & H1 & H2)%ubind_inv. destruct u.
  destruct (Hf _ _ Hs I H1) as (F1 & E1 & I1 & T1 & L1). assert (room c s1) as Hr1.
  { apply room_stack. rewrite E1. by apply room_stack in Hr. }
  destruct (Hg _ _ F1 Hr1 H2) as (F2 & E2 & I2 & T2 & O2 & _).
  rewrite E2, E1, I2, I1, T2, T1, O2, L1. done.
Qed.
Lemma does_after f g r c : does f r c → silent g Keep → does (f;;; g) r c.
Proof.
  intros Hf Hg s s' Hs Hr (u & s1 & H1 & H2)%ubind_inv. destruct u.
  destruct (Hf _ _ Hs Hr H1) as (F1 & E1 & I1 & T1 & L1). destruct (Hg _ _ F1 I H2) as (F2 & E2 & I2 & T2 & O2 & _).
  rewrite E2, E1, I2, I1, T2, T1, O2, L1. done.
Qed.
Lemma does_before f g r c : silent f Keep → does g r c → does (f;;; g) r c.
Proof.
  intros Hf Hg s s' Hs Hr (u & s1 & H1 & H2)%ubind_inv. destruct u.
  destruct (Hf _ _ Hs I H1) as (F1 & E1 & I1 & T1 & O1 & X1). assert (room c s1) as Hr1.
  { apply room_stack. rewrite E1. by apply room_stack in Hr. }
  destruct (Hg _ _ F1 Hr1 H2) as (F2 & E2 & I2 & T2 & O2). rewrite E2, E1, I2, I1, T2, T1, O2, X1, O1. done.
Qed.
Lemma silent_seq f g c : silent f Keep → silent g c → silent (f;;; g) c.
Proof.
  intros Hf Hg s s' Hs Hr (u & s1 & H1 & H2)%ubind_inv. destruct u.
  destruct (Hf _ _ Hs I H1) as (F1 & E1 & I1 & T1 & O1 & X1). assert (room c s1) as Hr1.
  { apply room_stack. rewrite E1. by apply room_stack in Hr. }
  destruct (Hg _ _ F1 Hr1 H2) as (F2 & E2 & I2 & T2 & O2 & X2). rewrite E2, E1, I2, I1, T2, T1, O2, O1, X2, X1. done.
Qed.

(** The first line of a group. *)
Lemma does_nest g r st : does g r (Set_ st) → does (nest;;; g) r (Push st).
Proof.
  intros Hg s s' [Hp Hz Hd Hb] _ (u & s1 & H1 & H2)%ubind_inv. unfold nest in H1.
  apply ubind_inv in H1 as (u' & s2 & [= _ <-] & H1). apply ubind_inv in H1 as (d & s2 & [= <- <-] & H1).
  simpl in H1. case_bool_decide as Hm; [unfold error in H1; apply ubind_inv in H1 as (d & s2 & [= <- <-] & H1);
    by case_bool_decide|]. injection H1 as _ <-.
  apply Hg in H2 as (F2 & E2 & I2 & T2 & O2); [|constructor; simpl; try done; lia|done].
  rewrite E2, I2, T2, O2. done.
Qed.

(** ** The transition functions *)

Create HintDb udoes.
#[export] Hint Resolve does_print does_drop does_then does_after does_before does_nest silent_seq
  silent_state silent_ignoreoff silent_ignoreon silent_unnest silent_pedantic : udoes.

Lemma does_Mpass : does Mpass (Some AsIf) (Set_ IS_PASS_MIDDLE).
Proof.
  intros s s' Hf Hr H. unfold Mpass in H. apply ubind_inv in H as (x & s1 & [= <- <-] & H).
  apply ubind_inv in H as (u & s1 & [= _ <-] & H).
  assert (does Pelif (Some Same) (Set_ IS_PASS_MIDDLE)) as Hp by (unfold Pelif; auto with udoes).
  apply Hp in H as (? & ? & ? & ? & ?); [done|by destruct Hf|done].
Qed.
Lemma does_Mtrue : does Mtrue (Some AsElse) (Set_ IS_TRUE_MIDDLE).
Proof. apply does_then; [by apply does_keywordedit|auto with udoes]. Qed.
Lemma does_Melif : does Melif (Some AsEndif) (Set_ IS_FALSE_TRAILER).
Proof. apply does_then; [by apply does_keywordedit|auto with udoes]. Qed.
Lemma does_Melse : does Melse (Some AsEndif) (Set_ IS_FALSE_ELSE).
Proof. apply does_then; [by apply does_keywordedit|auto with udoes]. Qed.
#[export] Hint Resolve does_Mpass does_Mtrue does_Melif does_Melse : udoes.

(** Whether plain lines are printed in a state. *)
Definition prints (st : Ifstate) : bool :=
  match st with
  | IS_OUTSIDE | IS_TRUE_PREFIX | IS_PASS_MIDDLE | IS_TRUE_MIDDLE | IS_PASS_ELSE | IS_TRUE_ELSE => true
  | _ => false
  end.

Definition act_if (st : Ifstate) (dodgy : bool) (d : directive) : option role * change :=
  if prints st then
    match dodgy, d with
    | false, (TRUEI | TRUE) => (None, Push IS_TRUE_PREFIX)
    | false, (FALSEI | FALSE) => (None, Push IS_FALSE_PREFIX)
    | _, _ => (Some Same, Push IS_PASS_MIDDLE)
    end
  else (None, Push IS_FALSE_TRAILER).
Definition act_elif (st : Ifstate) (dodgy : bool) (d : directive) : option (option role * change) :=
  match st, dodgy with
  | IS_FALSE_PREFIX, _ =>
      match d with
      | ELIF => Some (Some AsIf, Set_ IS_PASS_MIDDLE)
      | ELTRUE => if dodgy then None else Some (None, Set_ IS_TRUE_PREFIX)
      | _ => if dodgy then None else Some (None, Set_ IS_FALSE_PREFIX)
      end
  | IS_PASS_MIDDLE, true => Some (Some Same, Set_ IS_PASS_MIDDLE)
  | (IS_PASS_MIDDLE | IS_FALSE_MIDDLE), false =>
      Some match d with
           | ELIF => (Some Same, Set_ IS_PASS_MIDDLE)
           | ELTRUE => (Some AsElse, Set_ IS_TRUE_MIDDLE)
           | _ => (None, Set_ IS_FALSE_MIDDLE)
           end
  | IS_TRUE_MIDDLE, false => Some (Some AsEndif, Set_ IS_FALSE_TRAILER)
  | IS_TRUE_PREFIX, false | IS_FALSE_TRAILER, _ => Some (None, Set_ IS_FALSE_TRAILER)
  | _, _ => None
  end.
Definition act_else (st : Ifstate) (dodgy : bool) : option (option role * change) :=
  match st, dodgy with
  | IS_FALSE_PREFIX, false => Some (None, Set_ IS_TRUE_ELSE)
  | IS_TRUE_PREFIX, false | IS_FALSE_TRAILER, _ => Some (None, Set_ IS_FALSE_ELSE)
  | IS_PASS_MIDDLE, _ | IS_FALSE_MIDDLE, false => Some (Some Same, Set_ IS_PASS_ELSE)
  | IS_TRUE_MIDDLE, false => Some (Some AsEndif, Set_ IS_FALSE_ELSE)
  | _, _ => None
  end.
Definition act_endif (st : Ifstate) (dodgy : bool) : option (option role * change) :=
  match st, dodgy with
  | (IS_PASS_MIDDLE | IS_TRUE_MIDDLE | IS_PASS_ELSE), _ | IS_FALSE_MIDDLE, false => Some (Some Same, Pop)
  | (IS_FALSE_PREFIX | IS_TRUE_PREFIX | IS_FALSE_ELSE | IS_TRUE_ELSE | IS_FALSE_TRAILER), false =>
      Some (None, Pop)
  | _, _ => None
  end.
(** What happens in state [st] with a line; [None] ends the program. *)
Definition act (st : Ifstate) (lt : Linetype) : option (option role * change) :=
  let by_directive (dodgy : bool) (d : directive) :=
    match d with
    | TRUEI | FALSEI | IF | TRUE | FALSE => Some (act_if st dodgy d)
    | ELIF | ELTRUE | ELFALSE => act_elif st dodgy d
    | ELSE => act_else st dodgy
    | ENDIF => act_endif st dodgy
    end in
  match lt with
  | LT d => by_directive false d
  | LT_DODGY d => by_directive true d
  | LT_PLAIN => Some (if prints st then Some Same else None, Keep)
  | LT_EOF => None
  end.

(** Never successful. *)
Definition stops (f : U unit) : Prop := ∀ s s', f s ≠ UOk tt s'.
Lemma stops_error : stops error.
Proof. intros s s'. unfold error, ubind, uget. by case_bool_decide. Qed.
Lemma stops_done : stops done_.
Proof.
  intros s s'. unfold done_, ubind, uget. case_bool_decide; [apply stops_error|done].
Qed.
#[export] Hint Resolve stops_error stops_done : udoes.

Lemma trans_act st lt :
  match act st lt with
  | Some (r, c) => does (trans_table st lt) r c
  | None => stops (trans_table st lt)
  end.
Proof.
  destruct st, lt as [d|d| |]; try destruct d; cbn;
    unfold Eelif, Eelse, Eendif, Eeof, Eioccc, Itrue, Ifalse, Idrop, Oiffy, Oif, Oelif,
      Fpass, Ftrue, Ffalse, Fdrop, Strue, Sfalse, Selse, Pelif, Pelse, Pendif, Dfalse, Delif, Delse, Dendif;
    eauto 12 with udoes.
Qed.
