(* ===== verification/UnifdefCpp.v ===== *)
(** * The preprocessor on the input and the output of unifdef

    A reference preprocessor keeps, of a text of directives and plain lines,
    the plain lines whose groups are all active, for given truth values of the
    conditions.  The states of unifdef relate the groups that are open in its
    input to those that are open in its output ([related]), and one line keeps
    the relation. *)

From stdpp Require Import base numbers list option strings.
From S2P Require Import Prelude CString Unifdef UnifdefStep.

(** ** The preprocessor *)

Inductive dir := DIf (c : bool) | DElif (c : bool) | DElse | DEndif | DPlain.

(** A group: no part was taken yet, one is being taken, one was taken; and
    whether its #else was seen. *)
Inductive phase := Waiting | Taking | Finished.
Record group := Group { g_phase : phase; g_else : bool }.

Definition next_phase (p : phase) (c : bool) : phase :=
  match p with
  | Waiting => if c then Taking else Waiting
  | Taking | Finished => Finished
  end.
Definition taking (g : group) : bool := match g_phase g with Taking => true | _ => false end.
Definition active (g : list group) : bool := forallb taking g.

(** The groups after a directive; [None] when it is not allowed there. *)
Definition cpp_step (d : dir) (g : list group) : option (list group) :=
  match d, g with
  | DPlain, _ => Some g
  | DIf c, _ => Some (Group (next_phase Waiting c) false :: g)
  | DElif c, Group p false :: g' => Some (Group (next_phase p c) false :: g')
  | DElse, Group p false :: g' => Some (Group (next_phase p true) true :: g')
  | DEndif, _ :: g' => Some g'
  | _, _ => None
  end.

(** The plain lines that are kept of a text with groups [g] open; [None] for a
    text with directives out of place or groups left open. *)
Fixpoint cpp (g : list group) (text : list (dir * list Z)) : option (list (list Z)) :=
  match text with
  | [] => if g is [] then Some [] else None
  | (d, l) :: text' =>
      g' ← cpp_step d g;
      kept ← cpp g' text';
      Some (if d is DPlain then (if active g then l :: kept else kept) else kept)
  end.

(** ** The lines of unifdef as directives *)

(** The directive of a line, with truth value [c] for an unknown condition. *)
Definition dir_of (c : bool) (lt : Linetype) : dir :=
  match lt with
  | LT d | LT_DODGY d =>
      match d with
      | TRUEI | TRUE => DIf true
      | FALSEI | FALSE => DIf false
      | IF => DIf c
      | ELIF => DElif c
      | ELTRUE => DElif true
      | ELFALSE => DElif false
      | ELSE => DElse
      | ENDIF => DEndif
      end
  | LT_PLAIN | LT_EOF => DPlain
  end.
(** The directive of a printed line: an #elif that became an #if keeps its
    condition. *)
Definition edited (r : role) (d : dir) : dir :=
  match r, d with
  | AsIf, DElif c => DIf c
  | AsElse, _ => DElse
  | AsEndif, _ => DEndif
  | _, _ => d
  end.

(** A line as unifdef saw it: its type, where its keyword is, its text. *)
Record seen := Seen { sn_type : Linetype; sn_key : nat; sn_line : list Z }.

(** The text that a preprocessor reads, before and after, when line [n + i] of
    the input has the condition [truth (n + i)] if it is unknown. *)
Fixpoint text_in (truth : nat → bool) (n : nat) (t : list (seen * option role)) : list (dir * list Z) :=
  match t with
  | [] => []
  | (y, _) :: t' => (dir_of (truth n) (sn_type y), sn_line y) :: text_in truth (S n) t'
  end.
Fixpoint text_out (truth : nat → bool) (n : nat) (t : list (seen * option role)) : list (dir * list Z) :=
  match t with
  | [] => []
  | (y, None) :: t' => text_out truth (S n) t'
  | (y, Some r) :: t' =>
      (edited r (dir_of (truth n) (sn_type y)), render (sn_key y) (sn_line y) r) :: text_out truth (S n) t'
  end.

(** ** The relation *)

Definition all_print (l : list Ifstate) : bool := forallb prints l.

(** The groups of a level of unifdef in the input and, if it has any, in the
    output. *)
Inductive level : Ifstate → group → option group → Prop :=
  | lv_false_prefix : level IS_FALSE_PREFIX (Group Waiting false) None
  | lv_true_prefix : level IS_TRUE_PREFIX (Group Taking false) None
  | lv_false_trailer : level IS_FALSE_TRAILER (Group Finished false) None
  | lv_false_else : level IS_FALSE_ELSE (Group Finished true) None
  | lv_true_else : level IS_TRUE_ELSE (Group Taking true) None
  | lv_pass p : level IS_PASS_MIDDLE (Group p false) (Some (Group p false))
  | lv_false p : level IS_FALSE_MIDDLE (Group (next_phase p false) false) (Some (Group p false))
  | lv_true p : p ≠ Waiting → level IS_TRUE_MIDDLE (Group p false) (Some (Group p true))
  | lv_pass_else p : p ≠ Waiting → level IS_PASS_ELSE (Group p true) (Some (Group p true)).
(** A level inside one that is dropped. *)
Inductive buried : Ifstate → group → Prop :=
  | bu_trailer p : buried IS_FALSE_TRAILER (Group p false)
  | bu_else p : buried IS_FALSE_ELSE (Group p true).

Inductive related : list Ifstate → list group → list group → Prop :=
  | re_nil : related [] [] []
  | re_level st g og sts gi go : level st g og → all_print sts = true → related sts gi go →
      related (st :: sts) (g :: gi) (option_list og ++ go)
  | re_buried st g sts gi go : buried st g → all_print sts = false → related sts gi go →
      related (st :: sts) (g :: gi) go.

Lemma level_taking st g og : level st g og → taking g = prints st && default true (taking <$> og).
Proof. destruct 1 as [| | | | | |p|p|p]; simpl; try done. by destruct p. Qed.
Lemma level_off st g og : level st g og → prints st = false → taking g = false.
Proof. intros H E. by rewrite (level_taking _ _ _ H), E. Qed.

(** A plain line is kept of the input exactly when unifdef prints it and it is
    kept of the output. *)
Lemma related_active sts gi go :
  related sts gi go → active gi = all_print sts && active go.
Proof.
  induction 1 as [|st g og sts gi go Hl Hp _ IH|st g sts gi go Hb Hp _ IH]; [done| |].
  - simpl. rewrite IH, (level_taking _ _ _ Hl), Hp. destruct og; simpl.
    + by destruct (prints st), (taking g0).
    + by destruct (prints st).
  - simpl. rewrite IH, Hp. destruct (taking g), (prints st); done.
Qed.
(** Only the innermost level decides what is printed. *)
Lemma related_top sts gi go : related sts gi go → all_print sts = prints (top sts).
Proof.
  destruct 1 as [|st g og sts gi go Hl Hp _|st g sts gi go Hb Hp _]; [done|simpl; rewrite Hp; apply andb_true_r|].
  simpl. rewrite Hp, andb_false_r. by destruct Hb.
Qed.
(** Inside a group, the state is not IS_OUTSIDE. *)
Lemma related_outside sts gi go : related sts gi go → top sts = IS_OUTSIDE → sts = [].
Proof.
  destruct 1 as [|st g og sts gi go Hl Hp _|st g sts gi go Hb Hp _]; unfold top; simpl; [done| |]; intros ->.
  - inversion Hl.
  - inversion Hb.
Qed.

(** ** One line *)

(** The first line of a group. *)
Lemma related_if sts gi go c lt r ch :
  related sts gi go → (∃ c', dir_of c lt = DIf c') → act (top sts) lt = Some (r, ch) →
  ∃ gi' go', cpp_step (dir_of c lt) gi = Some gi' ∧
    (if r is Some x then cpp_step (edited x (dir_of c lt)) go else Some go) = Some go' ∧
    related (changed ch sts) gi' go'.
Proof.
  intros H [c' E] Ha. pose proof (related_top _ _ _ H) as Ht. rewrite E. simpl.
  destruct (prints (top sts)) eqn:P.
  - assert ((r = Some Same ∧ ch = Push IS_PASS_MIDDLE) ∨
            (r = None ∧ c' = true ∧ ch = Push IS_TRUE_PREFIX) ∨
            (r = None ∧ c' = false ∧ ch = Push IS_FALSE_PREFIX)) as [[-> ->]|[(-> & -> & ->)|(-> & -> & ->)]].
    { destruct lt as [d|d| |]; try destruct d; simpl in *; unfold act_if in Ha; rewrite ?P in Ha;
        simplify_eq; auto. }
    + eexists _, _. split; [done|]. split; [done|]. eapply (re_level _ _ (Some _)); [constructor|done|done].
    + eexists _, _. split; [done|]. split; [done|]. eapply (re_level _ _ None); [constructor|done|done].
    + eexists _, _. split; [done|]. split; [done|]. eapply (re_level _ _ None); [constructor|done|done].
  - assert (r = None ∧ ch = Push IS_FALSE_TRAILER) as [-> ->].
    { destruct lt as [d|d| |]; try destruct d; simpl in *; unfold act_if in Ha; rewrite ?P in Ha; simplify_eq; auto. }
    eexists _, _. split; [done|]. split; [done|]. apply re_buried; [constructor|done|done].
Qed.

(** Close a case of [related_line]. *)
Ltac one_level :=
  first [ by constructor | exact (lv_false Waiting) | exact (lv_false Taking) | exact (lv_false Finished) ].
Ltac one_line :=
  eexists _, _; split; [reflexivity|]; split; [reflexivity|];
  first [ eassumption
        | apply re_buried; [by constructor|eassumption|eassumption]
        | eapply (re_level _ _ None); [by constructor|eassumption|eassumption]
        | eapply (re_level _ _ (Some (Group _ _))); [one_level|eassumption|eassumption] ].

(** A line inside a group: #elif, #else, #endif. *)
Lemma related_inside sts gi go c lt r ch :
  related sts gi go → (∀ c', dir_of c lt ≠ DIf c') → dir_of c lt ≠ DPlain →
  act (top sts) lt = Some (r, ch) →
  ∃ gi' go', cpp_step (dir_of c lt) gi = Some gi' ∧
    (if r is Some x then cpp_step (edited x (dir_of c lt)) go else Some go) = Some go' ∧
    related (changed ch sts) gi' go'.
Proof.
  destruct 1 as [|st g og sts gi go Hl Hp H|st g sts gi go Hb Hp H]; intros H1 H2 Ha.
  - destruct lt as [d|d| |]; try destruct d; try done; by destruct (H1 _ eq_refl).
  - destruct Hl as [| | | | |[]|[]|[]|[]]; try done; destruct c; destruct lt as [d|d| |]; try destruct d;
      try (by destruct (H1 _ eq_refl)); simpl in Ha; simplify_eq; one_line.
  - destruct Hb; destruct lt as [d|d| |]; try destruct d; try (by destruct (H1 _ eq_refl)); simpl in Ha; simplify_eq; one_line.
Qed.

(** One line keeps the relation, and a plain line is printed or dropped alike. *)
Lemma related_line sts gi go c lt r ch :
  related sts gi go → act (top sts) lt = Some (r, ch) →
  ∃ gi' go', cpp_step (dir_of c lt) gi = Some gi' ∧
    (if r is Some x then cpp_step (edited x (dir_of c lt)) go else Some go) = Some go' ∧
    related (changed ch sts) gi' go'.
Proof.
  intros H Ha. destruct (dir_of c lt) as [c'| | | |] eqn:E.
  - rewrite <- E. eapply related_if; eauto.
  - rewrite <- E. eapply related_inside; eauto; rewrite E; done.
  - rewrite <- E. eapply related_inside; eauto; rewrite E; done.
  - rewrite <- E. eapply related_inside; eauto; rewrite E; done.
  - destruct lt as [d|d| |]; try (destruct d; done); [|done]. simpl in Ha. injection Ha as <- <-.
    exists gi, go. by destruct (prints (top sts)).
Qed.

(** ** The whole text *)

(** The lines [t] take the stack from [sts] to [sts']. *)
Inductive acts : list Ifstate → list (seen * option role) → list Ifstate → Prop :=
  | acts_nil sts : acts sts [] sts
  | acts_cons sts y r c t sts' :
      sn_type y ≠ LT_EOF → act (top sts) (sn_type y) = Some (r, c) → acts (changed c sts) t sts' →
      acts sts ((y, r) :: t) sts'.

(** The role of a plain line, and of no other line a plain one. *)
Lemma act_plain st lt c r ch :
  act st lt = Some (r, ch) → lt ≠ LT_EOF → dir_of c lt = DPlain → r = (if prints st then Some Same else None).
Proof. destruct lt as [d|d| |]; try (destruct d; done); [by intros [= <- <-]|done]. Qed.
Lemma act_edited st lt c x ch :
  act st lt = Some (Some x, ch) → dir_of c lt ≠ DPlain → edited x (dir_of c lt) ≠ DPlain.
Proof. destruct lt as [d|d| |], x; try destruct d; done. Qed.

(** One more line of a text. *)
Lemma cpp_cons d l g g' text' kept :
  cpp_step d g = Some g' → cpp g' text' = Some kept →
  cpp g ((d, l) :: text') = Some (if d is DPlain then (if active g then l :: kept else kept) else kept).
Proof. intros E K. cbn [cpp]. rewrite E. simpl. rewrite K. done. Qed.

Lemma related_text truth sts t : ∀ n gi go,
  acts sts t [] → related sts gi go →
  ∃ kept, cpp gi (text_in truth n t) = Some kept ∧ cpp go (text_out truth n t) = Some kept.
Proof.
  intros n gi go Ha. remember [] as fin eqn:F. revert n gi go.
  induction Ha as [sts|sts y r c t sts' Hn Ha _ IH]; intros n gi go Hr.
  { subst. inversion Hr. subst. by exists []. }
  destruct (related_line _ _ _ (truth n) _ _ _ Hr Ha) as (gi' & go' & E1 & E2 & Hr').
  destruct (IH F (S n) _ _ Hr') as (kept & K1 & K2). pose proof (related_active _ _ _ Hr) as A.
  rewrite (related_top _ _ _ Hr) in A. cbn [text_in]. rewrite (cpp_cons _ _ _ _ _ _ E1 K1).
  eexists; split; [done|]. pose proof (act_plain _ _ (truth n) _ _ Ha Hn) as Hp.
  pose proof (λ x e, act_edited _ _ (truth n) x c (eq_trans Ha e)) as Hx.
  destruct r as [x|]; cbn [text_out].
  - rewrite (cpp_cons _ _ _ _ _ _ E2 K2). specialize (Hx x eq_refl).
    destruct (dir_of (truth n) (sn_type y)) eqn:D; try (specialize (Hx ltac:(done)); by destruct (edited x _)).
    specialize (Hp eq_refl). destruct (prints (top sts)); [|done]. simplify_eq. simpl. by rewrite A.
  - simplify_eq. rewrite K2. destruct (dir_of (truth n) (sn_type y)) eqn:D; try done.
    specialize (Hp eq_refl). destruct (prints (top sts)); [done|]. by rewrite A.
Qed.
