(* ===== verification/UnifdefEnds.v ===== *)
(** * The runs of unifdef end (scripts/unifdef.c)

    Every function of the parser and every transition returns, or ends the
    program with status 2, by abort, or with an access outside an array: the
    loops run out of text before the fuel of the model does. *)

From stdpp Require Import base numbers list option strings.
From S2P Require Import Prelude CString Kallsyms Sumversion Unifdef UnifdefStep.
Local Open Scope Z_scope.
Local Open Scope u_scope.

Definition status (s : ust) : Prop := exitstat (u_m s) = 0 ∨ exitstat (u_m s) = 1.

(** A result that leaves the input alone, and is [P] if it is a value. *)
Definition outcome {A} (P : A → Prop) (s : ust) (r : uresult A) : Prop :=
  match r with
  | UOk a s' => P a ∧ u_input s' = u_input s ∧ (status s → status s')
  | UExit c _ => c = 2
  | UAbort => True
  | UFault f => f = OutOfBounds
  end.
Definition good {A} (P : A → Prop) (m : U A) : Prop := ∀ s, outcome P s (m s).

Lemma outcome_weaken {A} (P Q : A → Prop) s s1 r :
  u_input s1 = u_input s → (status s → status s1) → (∀ a, P a → Q a) → outcome P s1 r → outcome Q s r.
Proof. intros Hi Hs H. destruct r; simpl; [|done..]. intros (Hp & -> & Hs'). auto. Qed.
Lemma good_weaken {A} (P Q : A → Prop) m : (∀ a, P a → Q a) → good P m → good Q m.
Proof. intros H Hm s. by apply (outcome_weaken P Q s s); auto. Qed.
Lemma good_bind {A B} (P : A → Prop) (Q : B → Prop) m k :
  good P m → (∀ a, P a → good Q (k a)) → good Q (ubind m k).
Proof.
  intros Hm Hk s. unfold ubind. specialize (Hm s). destruct (m s) as [a s1| | |]; try done.
  destruct Hm as (Hp & Hi & Hs). by apply (outcome_weaken Q Q s s1), Hk.
Qed.
(** For a first part whose value does not matter. *)
Lemma good_then {A B} (Q : B → Prop) (m : U A) k :
  good (λ _, True) m → (∀ a, good Q (k a)) → good Q (ubind m k).
Proof. intros Hm Hk. eapply good_bind; eauto. Qed.
Lemma good_ret {A} (P : A → Prop) a : P a → good P (uret a).
Proof. by intros H s. Qed.
Lemma good_get {A} (f : ust → A) : good (λ _, True) (uget f).
Proof. by intros s. Qed.
Lemma good_abort {A} (P : A → Prop) : good P uabort.
Proof. by intros s. Qed.
Lemma good_exit {A} (P : A → Prop) : good P (uexit 2).
Proof. by intros s. Qed.
Lemma good_lex f : good (λ _, True) (set_lex f).
Proof. by intros s. Qed.
Lemma good_emit l : good (λ _, True) (emit l).
Proof. by intros s. Qed.
Lemma good_m f : (∀ m, exitstat (f m) = exitstat m ∨ exitstat (f m) = 1) → good (λ _, True) (set_m f).
Proof. intros H s. split; [done|]. split; [done|]. unfold status. simpl. destruct (H (u_m s)) as [-> | ->]; auto. Qed.
Lemma good_error {A} (P : A → Prop) : good P error.
Proof. apply good_then; [apply good_get|]. intros d. case_bool_decide; [apply good_exit|]. by intros s. Qed.

Create HintDb ugood.
#[export] Hint Resolve good_ret good_get good_abort good_exit good_emit good_lex good_error : ugood.

(** Close [good] goals by the structure of the program, where no length matters. *)
Ltac good_step :=
  match goal with
  | |- good _ (ubind _ _) => apply good_then; [|intros ?]
  | |- good _ (match ?x with _ => _ end) => destruct x
  | |- good _ (if ?b then _ else _) => destruct b
  | |- good _ (set_m _) => apply good_m; by auto
  | |- good _ _ => solve [eauto with ugood]
  end.
Ltac good := repeat good_step.

(** ** Comments and symbols *)

(** The rest of a string. *)
Definition within (n : nat) (cp : list Z) : Prop := (length cp ≤ n)%nat.

Lemma good_skip_spaces cp : good (within (length cp)) (skip_spaces cp).
Proof.
  unfold within. induction cp as [|c cp IH]; cbn [skip_spaces]; [by apply good_ret|].
  destruct (isspace c); [|by apply good_ret]. apply good_then; [good|]. intros _.
  eapply good_weaken; [|apply IH]. simpl. lia.
Qed.

(** States that may be left without reading. *)
Definition pending (s : ust) : nat :=
  match incomment (u_lex s) with STARTING_COMMENT | FINISHING_COMMENT => 1%nat | _ => 0%nat end.

Lemma pending_le s : (pending s ≤ 1)%nat.
Proof. unfold pending. destruct (incomment (u_lex s)); lia. Qed.

Lemma skip_loop_outcome n : ∀ cp s,
  (2 * length cp + pending s < n)%nat → outcome (within (length cp)) s (skip_loop n cp s).
Proof.
  unfold within. induction n as [|n IH]; intros cp s Hn; [lia|]. cbn [skip_loop].
  destruct cp as [|c cp]; [done|].
  (* a call after at least one character was read *)
  assert (∀ cp' s', (length cp' < length (c :: cp))%nat → u_input s' = u_input s → u_m s' = u_m s →
    outcome (λ r, length r ≤ length (c :: cp))%nat s (skip_loop n cp' s')) as Read.
  { intros cp' s' Hl Hi Hm. pose proof (pending_le s'). apply (outcome_weaken (within (length cp')) _ s s'); auto.
    - unfold status. by rewrite Hm.
    - unfold within. intros r. lia.
    - apply IH. lia. }
  (* a call that left a pending state *)
  assert (∀ s', pending s = 1%nat → pending s' = 0%nat → u_input s' = u_input s → u_m s' = u_m s →
    outcome (λ r, length r ≤ length (c :: cp))%nat s (skip_loop n (c :: cp) s')) as Left.
  { intros s' P P' Hi Hm. apply (outcome_weaken (within (length (c :: cp))) _ s s'); auto.
    - unfold status. by rewrite Hm.
    - apply IH. lia. }
  assert (∀ k, (0 < k)%nat → (length (drop k (c :: cp)) < length (c :: cp))%nat) as Hd
    by (intros k Hk; rewrite length_drop; simpl; lia).
  destruct (starts _ _); [by apply Read; auto|]. unfold pending in *.
  unfold ubind at 1. unfold uget at 1. destruct (incomment (u_lex s)) eqn:E;
    repeat match goal with
    | |- outcome _ _ ((if ?b then _ else _) _) => destruct b
    | |- outcome _ _ (ubind (set_incomment _) _ _) => unfold ubind at 1; cbn [set_incomment set_lex umod]
    | |- outcome _ _ (ubind (set_linestate _) _ _) => unfold ubind at 1; cbn [set_linestate set_lex umod]
    | |- outcome _ _ (ubind (if ?b then _ else _) _ _) => destruct b
    end;
    first [ by apply Read; auto; simpl; lia | by apply Left | apply good_error | done
          | by apply Read; [case_bool_decide; auto; simpl; lia|..] ].
Qed.
Lemma good_skipcomment cp : good (within (length cp)) (skipcomment cp).
Proof.
  intros s. unfold skipcomment, ubind, uget, id. destruct (_ || _); [apply good_skip_spaces|].
  apply skip_loop_outcome. pose proof (pending_le s). lia.
Qed.
Lemma good_skipcomment' cp : good (λ _, True) (skipcomment cp).
Proof. by eapply good_weaken; [|apply good_skipcomment]. Qed.
Lemma good_findsym str : good (λ _, True) (findsym str).
Proof. unfold findsym. good. Qed.
#[export] Hint Resolve good_skipcomment' good_findsym : ugood.

Lemma length_skipsym cp : (length (skipsym cp) ≤ length cp)%nat.
Proof. induction cp as [|c cp IH]; [done|]. cbn [skipsym]. destruct (endsym c); simpl; lia. Qed.
Lemma length_tail {A} (l : list A) : (length (tail l) ≤ length l)%nat.
Proof. destruct l; simpl; lia. Qed.

(** ** Expressions *)

(** The rest of the string after a value. *)
Definition value_within (n : nat) (r : option (Z * list Z)) : Prop :=
  match r with Some (_, cp) => within n cp | None => True end.

(** An operator is not the empty string. *)
Definition operators (level : list (string * (Z → Z → Z))) : Prop :=
  Forall (λ o, 0 < String.length (fst o))%nat level.
Lemma eval_ops_operators : Forall operators eval_ops.
Proof. unfold operators. repeat constructor. Qed.

Lemma starts_length p cp : starts p cp = true → (String.length p ≤ length cp)%nat.
Proof.
  unfold starts, bytes. revert cp. induction p as [|a p IH]; intros cp; simpl; [lia|].
  destruct cp as [|c cp]; [done|]. intros [_ H]%andb_true_iff. apply IH in H. simpl. lia.
Qed.

(** One level of the recursion: the rest is no longer than what was given. *)
Section eval.
Context (n : nat).
Context (IH1 : ∀ ops cp, Forall operators ops → (length ops ≤ 4)%nat →
  (7 * length cp + length ops + 2 ≤ n)%nat → good (value_within (length cp)) (eval_table n ops cp)).
Context (IH2 : ∀ level ops v cp, operators level → Forall operators ops → (length ops ≤ 3)%nat →
  (7 * length cp + 1 ≤ n)%nat → good (value_within (length cp)) (eval_rest n level ops v cp)).
Context (IH3 : ∀ cp, (7 * length cp + 1 ≤ n)%nat → good (value_within (length cp)) (eval_unary n cp)).

Lemma value_within_le k k' r : (k ≤ k')%nat → value_within k r → value_within k' r.
Proof. unfold value_within, within. destruct r as [[v cp]|]; [lia|done]. Qed.

Lemma eval_table_good ops cp : Forall operators ops → (length ops ≤ 4)%nat →
  (7 * length cp + length ops + 2 ≤ S n)%nat → good (value_within (length cp)) (eval_table (S n) ops cp).
Proof using IH1 IH2 IH3.
  intros Ho Hl Hn. cbn [eval_table]. destruct ops as [|level ops]; [apply IH3; simpl in Hn; lia|].
  inversion_clear Ho. simpl in Hl, Hn. eapply good_bind; [apply IH1; [done|lia..]|].
  intros [[v cp1]|] Hr; [|by apply good_ret]. unfold value_within, within in Hr.
  eapply good_weaken; [|apply IH2; auto; lia]. intros r. by apply value_within_le.
Qed.

Lemma eval_rest_good level ops v cp : operators level → Forall operators ops → (length ops ≤ 3)%nat →
  (7 * length cp + 1 ≤ S n)%nat → good (value_within (length cp)) (eval_rest (S n) level ops v cp).
Proof using IH1 IH2.
  intros Ho Hos Hl Hn. cbn [eval_rest]. eapply good_bind; [apply good_skipcomment|]. unfold within. intros cp1 H1.
  destruct (list_find _ level) as [[i [str fn]]|] eqn:E; [|by apply good_ret].
  apply list_find_Some in E as (E & Hs & _). simpl in Hs. apply starts_length in Hs.
  assert (0 < String.length str)%nat by (apply (Forall_lookup_1 _ _ _ _ Ho E)).
  eapply good_bind; [apply IH1; auto; rewrite ?length_drop; lia|].
  intros [[v' cp2]|] Hr; [|by apply good_ret]. unfold value_within, within in Hr. rewrite length_drop in Hr.
  eapply good_weaken; [|apply IH2; auto; lia]. intros r. apply value_within_le. lia.
Qed.

Lemma eval_unary_good cp0 : (7 * length cp0 + 1 ≤ S n)%nat → good (value_within (length cp0)) (eval_unary (S n) cp0).
Proof using IH1 IH3.
  intros Hn. cbn [eval_unary]. eapply good_bind; [apply good_skipcomment|]. unfold within. intros cp H1.
  cbv zeta. pose proof (length_skipsym cp) as Hsym.
  destruct (bool_decide (default 0 (head cp) = 33)) eqn:B1.
  { apply bool_decide_eq_true in B1. destruct cp as [|c cp]; [done|]. simpl in *.
    eapply good_bind; [apply IH3; lia|]. intros [[v cp1]|] Hr; apply good_ret; [|done].
    unfold value_within, within in *. lia. }
  clear B1. destruct (bool_decide (default 0 (head cp) = 40)) eqn:B1.
  { apply bool_decide_eq_true in B1. destruct cp as [|c cp]; [done|]. simpl in *.
    eapply good_bind; [apply IH1; [apply eval_ops_operators|simpl; lia..]|].
    intros [[v cp1]|] Hr; [|by apply good_ret]. unfold value_within, within in Hr.
    eapply good_bind; [apply good_skipcomment|]. unfold within. intros cp2 H2. apply good_ret.
    case_bool_decide; [|done]. pose proof (length_tail cp2). unfold value_within, within. lia. }
  clear B1. destruct (isdigit _); [apply good_ret; unfold value_within, within; lia|].
  destruct (_ && _); [|destruct (negb _); [|by apply good_ret]].
  - eapply good_bind; [apply good_skipcomment|]. unfold within. intros cp1 H2. rewrite length_drop in H2.
    case_bool_decide; [by apply good_ret|]. eapply good_bind; [apply good_skipcomment|]. unfold within.
    intros cp2 H3. pose proof (length_tail cp1). apply good_then; [good|]. intros [i|]; [|by apply good_ret].
    apply good_then; [unfold sym_at; good|]. intros y. eapply good_bind; [apply good_skipcomment|].
    unfold within. intros cp3 H4. pose proof (length_skipsym cp2). case_bool_decide; [by apply good_ret|].
    apply good_then; [apply good_lex|]. intros _. apply good_ret. pose proof (length_tail cp3).
    unfold value_within, within. lia.
  - apply good_then; [good|]. intros [i|]; [|by apply good_ret]. apply good_then; [unfold sym_at; good|].
    intros y. destruct (value y) as [l|].
    + destruct (strtol l) as [v ep]. destruct (_ || _); [by apply good_ret|].
      apply good_then; [apply good_lex|]. intros _. apply good_ret. unfold value_within, within. lia.
    + apply good_then; [apply good_lex|]. intros _. apply good_ret. unfold value_within, within. lia.
Qed.
End eval.

Lemma eval_good n :
  (∀ ops cp, Forall operators ops → (length ops ≤ 4)%nat →
    (7 * length cp + length ops + 2 ≤ n)%nat → good (value_within (length cp)) (eval_table n ops cp)) ∧
  (∀ level ops v cp, operators level → Forall operators ops → (length ops ≤ 3)%nat →
    (7 * length cp + 1 ≤ n)%nat → good (value_within (length cp)) (eval_rest n level ops v cp)) ∧
  (∀ cp, (7 * length cp + 1 ≤ n)%nat → good (value_within (length cp)) (eval_unary n cp)).
Proof.
  induction n as [|n (IH1 & IH2 & IH3)]; [split; [|split]; intros; lia|].
  split; [|split]; intros; [by apply eval_table_good|by apply eval_rest_good|by apply eval_unary_good].
Qed.

(** ** Lines *)

Lemma good_ifeval cp : good (λ _, True) (ifeval cp).
Proof.
  unfold ifeval. do 2 (apply good_then; [good; apply good_lex|intros ?]).
  apply good_then; [|intros ?; good].
  eapply good_weaken; [|apply eval_good; [apply eval_ops_operators|simpl; lia..]]. done.
Qed.
#[export] Hint Resolve good_ifeval : ugood.
Lemma good_directive kw : good (λ _, True) (directive_line kw).
Proof. unfold directive_line, sym_at, Eioccc, set_linestate. cbv zeta. good. Qed.
Lemma good_skip_rest n : ∀ cp, (length cp < n)%nat → good (λ _, True) (skip_rest n cp).
Proof.
  induction n as [|n IH]; intros cp Hn; [lia|]. cbn [skip_rest]. destruct cp as [|c cp]; [good|].
  eapply good_bind; [apply good_skipcomment|]. unfold within. simpl in Hn. intros cp1 H. apply IH. lia.
Qed.
#[export] Hint Resolve good_directive : ugood.
Lemma good_parse l : good (λ _, True) (parse_line l).
Proof.
  unfold parse_line, set_linestate, set_keyword. do 7 (apply good_then; [good|intros ?]).
  apply good_then; [good|intros ?]. apply good_then; [|intros ?; good]. case_bool_decide; [|good].
  apply good_skip_rest. lia.
Qed.

(** ** Transitions *)

Lemma good_flushline keep : good (λ _, True) (flushline keep).
Proof. unfold flushline. good. Qed.
Lemma good_keywordedit r : good (λ _, True) (keywordedit r).
Proof. unfold keywordedit, set_tline. good. apply good_flushline. Qed.
Lemma good_ignoreoff : good (λ _, True) ignoreoff.
Proof. unfold ignoreoff. good. Qed.
Lemma good_ignoreon : good (λ _, True) ignoreon.
Proof. unfold ignoreon. good. Qed.
Lemma good_nest : good (λ _, True) nest.
Proof. unfold nest. good. Qed.
Lemma good_unnest : good (λ _, True) unnest.
Proof. unfold unnest. good. Qed.
Lemma good_state st : good (λ _, True) (state st).
Proof. unfold state. good. Qed.
#[export] Hint Resolve good_flushline good_keywordedit good_ignoreoff good_ignoreon good_nest good_unnest
  good_state : ugood.

Lemma good_trans st lt : lt ≠ LT_EOF ∨ st ≠ IS_OUTSIDE → good (λ _, True) (trans_table st lt).
Proof.
  intros H. destruct st, lt as [d|d| |]; try destruct d; try (exfalso; by destruct H); cbn;
    unfold Eelif, Eelse, Eendif, Eeof, Eioccc, Itrue, Ifalse, Idrop, Oiffy, Oif, Oelif, pedantic, Eioccc,
      Fpass, Ftrue, Ffalse, Fdrop, Strue, Sfalse, Selse, Pelif, Pelse, Pendif, Dfalse, Delif, Delse, Dendif,
      Mpass, Mtrue, Melif, Melse, Pelif, print_, drop_, set_tline; good.
Qed.

(** ** The program *)

Lemma getline_ends s :
  match getline s with
  | UOk lt s' => (status s → status s') ∧
      (u_input s = [] ∧ lt = LT_EOF ∨ lt ≠ LT_EOF ∧ ∃ l, u_input s = l :: u_input s')
  | UExit c _ => c = 2
  | UAbort => True
  | UFault f => f = OutOfBounds
  end.
Proof.
  unfold getline, ubind at 1, uget. destruct (u_input s) as [|l rest] eqn:E; [by simpl; auto|].
  unfold ubind, set_line, umod. set (s1 := Ust _ _ _ _ _ _). pose proof (good_parse l s1) as H.
  pose proof (parse_not_eof l s1) as H'. destruct (parse_line l s1) as [lt s'| | |]; try done.
  destruct H as (_ & Hi & Hs). split; [done|]. right. split; [by eapply H'|]. exists l. by rewrite Hi.
Qed.

(** One line: the input gets shorter by it, or the program ends. *)
Lemma process_line_ends s :
  status s →
  match process_line s with
  | UOk _ s' => status s' ∧ ∃ l, u_input s = l :: u_input s'
  | UExit c _ => c = 0 ∨ c = 1 ∨ c = 2
  | UAbort => True
  | UFault f => f = OutOfBounds
  end.
Proof.
  intros Hs. unfold process_line. unfold ubind at 1. unfold count_line, set_m, umod.
  set (s1 := Ust _ _ _ _ _ _). assert (status s1) as Hs1 by done. pose proof (getline_ends s1) as Hg.
  unfold ubind at 1. destruct (getline s1) as [lt s2| | |]; [|by auto|done..].
  destruct Hg as [Hs2 Hi]. specialize (Hs2 Hs1). change (u_input s1) with (u_input s) in Hi.
  unfold ubind, uget. set (st := default IS_OUTSIDE _).
  destruct (decide (lt = LT_EOF ∧ st = IS_OUTSIDE)) as [[-> ->]|Hn].
  - change (trans_table IS_OUTSIDE LT_EOF) with done_. unfold done_, ubind, uget.
    case_bool_decide; [|unfold uexit; destruct Hs2; auto].
    pose proof (good_error (A := unit) (λ _, False) s2) as He. destruct (error s2); [by destruct He|simpl in He; auto..].
  - assert (good (λ _, True) (trans_table st lt)) as Ht.
    { apply good_trans. destruct (decide (lt = LT_EOF)); [right; naive_solver|by left]. }
    specialize (Ht s2). destruct (trans_table st lt s2) as [u s3| | |] eqn:E; simpl in Ht; [|by auto|done..].
    destruct Ht as (_ & -> & Hs3). split; [auto|]. destruct Hi as [[_ ->]|[_ Hi]]; [|done].
    exfalso. pose proof (trans_act st LT_EOF) as Ha. simpl in Ha. destruct u. by eapply Ha.
Qed.

Lemma process_ends n : ∀ s, status s → (length (u_input s) < n)%nat →
  match process n s with
  | UOk _ _ => False
  | UExit c _ => c = 0 ∨ c = 1 ∨ c = 2
  | UAbort => True
  | UFault f => f = OutOfBounds
  end.
Proof.
  induction n as [|n IH]; intros s Hs Hn; [lia|]. cbn [process]. unfold ubind.
  pose proof (process_line_ends s Hs) as H. destruct (process_line s) as [u s'| | |]; try done.
  destruct H as [Hs' [l E]]. apply IH; [done|]. rewrite E in Hn. simpl in Hn. lia.
Qed.

Lemma good_addsym i d sym : good (λ _, True) (addsym i d sym).
Proof.
  unfold addsym. apply good_then; [good|]. intros found. apply good_then; [good|]. intros nsyms.
  apply good_then; [good|]. intros symind. cbv zeta. good; by intros s.
Qed.
Lemma good_do_opt o : good (λ _, True) (do_opt o).
Proof.
  pose proof good_addsym. destruct o; cbn [do_opt]; good; try (by intros s); auto with ugood.
Qed.
Lemma good_do_opts l : good (λ _, True) (do_opts l).
Proof. pose proof good_do_opt. induction l; cbn [do_opts]; good. Qed.
