(* ===== verification/UnifdefSafe.v ===== *)
(** * unifdef does not abort on ordinary text (scripts/unifdef.c)

    getline calls abort() when it is still on a directive at the end of the
    line.  On a line that ends with a newline which no backslash precedes, the
    comment parser reads the newline and so leaves that state. *)

From stdpp Require Import base numbers list option strings sets.
From S2P Require Import Prelude CString Kallsyms Sumversion Unifdef UnifdefStep.
Local Open Scope Z_scope.
Local Open Scope u_scope.

(** ** Lines *)

(** The rest of a line: it ends with a newline, if there is any of it left, and
    no newline follows a backslash. *)
Fixpoint tame (l : list Z) : bool :=
  match l with
  | [] => true
  | c :: l' => (bool_decide (l' ≠ []) || bool_decide (c = 10)) &&
               negb (bool_decide (c = 92) && bool_decide (head l' = Some 10)) && tame l'
  end.

Lemma tame_cons c l : tame (c :: l) = true →
  tame l = true ∧ (c ≠ 10 → l ≠ []) ∧ (c = 92 → head l ≠ Some 10).
Proof.
  simpl. rewrite !andb_true_iff, orb_true_iff, negb_true_iff, andb_false_iff, !bool_decide_eq_true, !bool_decide_eq_false.
  naive_solver.
Qed.
Lemma tame_drop n l : tame l = true → tame (drop n l) = true.
Proof.
  revert l. induction n as [|n IH]; intros [|c l] H; try done. apply IH. by apply tame_cons in H as [H _].
Qed.
Lemma tame_tail l : tame l = true → tame (tail l) = true.
Proof. destruct l; [done|]. by intros [H _]%tame_cons. Qed.
Lemma tame_starts p l :
  tame l = true → l ≠ [] → starts p l = true → 10 ∉ bytes p → drop (String.length p) l ≠ [].
Proof.
  unfold starts, bytes. revert l. induction p as [|a p IH]; intros l Ht Hl Hs Hn; [done|].
  destruct l as [|c l]; [done|]. simpl in *. apply andb_true_iff in Hs as [E Hs]. apply bool_decide_eq_true in E.
  apply not_elem_of_cons in Hn as [Hn1 Hn2]. destruct (tame_cons _ _ Ht) as (Ht' & Hl' & _).
  apply IH; auto. apply Hl'. congruence.
Qed.
Lemma tame_escape l : tame l = true → starts esc_newline l = false.
Proof.
  destruct l as [|c [|d l]]; intros H; [done|unfold starts; simpl; apply andb_false_r|].
  apply tame_cons in H as (_ & _ & H). apply not_true_iff_false. intros E. unfold starts in E. simpl in E.
  rewrite !andb_true_iff, !bool_decide_eq_true in E. destruct E as (<- & <- & _). by apply H.
Qed.
Lemma tame_escape_at a l : tame l = true → starts (String a esc_newline) l = false.
Proof.
  destruct l as [|c l]; [done|]. intros [H _]%tame_cons. apply tame_escape in H. unfold starts in *. simpl in *.
  by rewrite H, andb_false_r.
Qed.
Lemma skipsym_tame l : tame l = true → tame (skipsym l) = true ∧ (l ≠ [] → skipsym l ≠ []).
Proof.
  induction l as [|c l IH]; intros H; [done|]. cbn [skipsym]. destruct (endsym c) eqn:E; [done|].
  destruct (tame_cons _ _ H) as (H1 & H2 & _). destruct (IH H1) as [I1 I2]. split; [done|]. intros _.
  apply I2, H2. intros ->. done.
Qed.

(** ** The parser *)

(** In a state on a directive, the rest [cp] of the line still has its newline,
    outside of comments; [b] is whether the state may be on a directive. *)
Definition ahead (b : bool) (cp : list Z) (s : ust) : Prop :=
  tame cp = true ∧
  (linestate (u_lex s) = LS_HASH → b = true ∧ (incomment (u_lex s) = NO_COMMENT → cp ≠ [])).

(** [m] does not abort. *)
Definition keeps {A} (m : U A) (pre : ust → Prop) (post : A → ust → Prop) : Prop := ∀ s, pre s →
  match m s with
  | UOk a s' => post a s'
  | UAbort => False
  | _ => True
  end.

Lemma keeps_bind {A B} (m : U A) (k : A → U B) pre mid post :
  keeps m pre mid → (∀ a, keeps (k a) (mid a) post) → keeps (ubind m k) pre post.
Proof.
  intros Hm Hk s Hs. specialize (Hm s Hs). unfold ubind. destruct (m s); try done. by apply Hk.
Qed.
Lemma keeps_pre {A} (m : U A) (pre pre' : ust → Prop) post :
  (∀ s, pre s → pre' s) → keeps m pre' post → keeps m pre post.
Proof. intros H Hm s Hs. by apply Hm, H. Qed.
Lemma keeps_post {A} (m : U A) pre (post post' : A → ust → Prop) :
  (∀ a s, post a s → post' a s) → keeps m pre post → keeps m pre post'.
Proof. intros H Hm s Hs. specialize (Hm s Hs). destruct (m s); auto. Qed.
Lemma keeps_ret {A} (a : A) (pre : ust → Prop) (post : A → ust → Prop) :
  (∀ s, pre s → post a s) → keeps (uret a) pre post.
Proof. intros H s Hs. by apply H. Qed.
Lemma keeps_get {A} (f : ust → A) (pre : ust → Prop) : keeps (uget f) pre (λ a s, a = f s ∧ pre s).
Proof. by intros s Hs. Qed.
Lemma keeps_error {A} pre (post : A → ust → Prop) : keeps error pre post.
Proof. intros s Hs. unfold error, ubind, uget. by case_bool_decide. Qed.
(** Facts that do not depend on the state. *)
Lemma keeps_fact {A} (P : Prop) (m : U A) pre post : (P → keeps m pre post) → keeps m (λ s, P ∧ pre s) post.
Proof. intros H s [Hp Hs]. by apply H. Qed.

Lemma ahead_hash b c cp s : ahead b (c :: cp) s → c ≠ 10 → ahead b cp s.
Proof. intros [Ht H] Hc. destruct (tame_cons _ _ Ht) as (H1 & H2 & _). split; [done|]. naive_solver. Qed.
Lemma ahead_tail b cp s x : ahead b cp s → head cp = Some x → x ≠ 10 → ahead b (tail cp) s.
Proof. destruct cp as [|c cp]; [done|]. intros H [= ->] Hx. by eapply ahead_hash. Qed.
Lemma ahead_starts b p cp s : ahead b cp s → starts p cp = true → 10 ∉ bytes p →
  ahead b (drop (String.length p) cp) s.
Proof.
  intros [Ht H] Hs Hp. split; [by apply tame_drop|]. intros E. destruct (H E) as [-> H']. split; [done|].
  intros I. by apply tame_starts; auto.
Qed.
Lemma ahead_skipsym b cp s : ahead b cp s → ahead b (skipsym cp) s.
Proof. intros [Ht H]. destruct (skipsym_tame _ Ht) as [H1 H2]. split; [done|]. naive_solver. Qed.

Lemma keeps_skip_spaces b cp : keeps (skip_spaces cp) (ahead b cp) (ahead b).
Proof.
  induction cp as [|c cp IH]; cbn [skip_spaces]; [by apply keeps_ret|].
  destruct (isspace c); [|by apply keeps_ret]. eapply keeps_bind with (mid := λ _, ahead b cp); [|intros; apply IH].
  case_bool_decide as E.
  - intros s [Ht _]. split; [by apply tame_cons in Ht as [Ht _]|done].
  - apply keeps_ret. intros s H. by eapply ahead_hash.
Qed.

(** Run the changes of the parser state, up to the next call. *)
Ltac to_call :=
  repeat match goal with
  | |- match (if bool_decide ?P then _ else _) _ with _ => _ end => destruct (bool_decide_reflect P)
  | |- match (if ?b then _ else _) _ with _ => _ end => destruct b eqn:?
  | |- match ubind (set_incomment _) _ _ with _ => _ end => unfold ubind at 1; cbn [set_incomment set_lex umod]
  | |- match ubind (set_linestate _) _ _ with _ => _ end => unfold ubind at 1; cbn [set_linestate set_lex umod]
  | |- match ubind (if bool_decide ?P then _ else _) _ _ with _ => _ end => destruct (bool_decide_reflect P)
  | |- match ubind (ubind _ _) _ _ with _ => _ end => unfold ubind at 1
  end.

Lemma keeps_skip_loop b n : ∀ cp, keeps (skip_loop n cp) (ahead b cp) (ahead b).
Proof.
  induction n as [|n IH]; intros cp s H; [done|]. cbn [skip_loop]. destruct cp as [|c cp]; [done|].
  pose proof H as [Ht Hh]. destruct (tame_cons _ _ Ht) as (Ht1 & Hne & _).
  rewrite (tame_escape _ Ht). unfold ubind at 1. unfold uget at 1.
  assert (∀ k, tame (drop k (c :: cp)) = true) as Hd by (intros; by apply tame_drop).
  assert (starts "*/" (c :: cp) = true → drop 2 (c :: cp) ≠ []) as H2
    by (intros; apply (tame_starts "*/"); [done..|]; vm_compute; set_solver).
  (* a call after the state was changed *)
  assert (∀ cp' s', tame cp' = true →
    (linestate (u_lex s') = LS_HASH →
     linestate (u_lex s) = LS_HASH ∧ (incomment (u_lex s') = NO_COMMENT → cp' ≠ [])) →
    match skip_loop n cp' s' with UOk a s' => ahead b a s' | UAbort => False | _ => True end) as Go.
  { intros cp' s' T' H'. apply IH. split; [done|]. naive_solver. }
  destruct (incomment (u_lex s)) eqn:E; rewrite ?(tame_escape_at _ _ Ht); to_call;
    repeat match goal with
    | H : (_ || _) = true |- _ => rewrite orb_true_iff, ?andb_true_iff, ?bool_decide_eq_true in H
    end;
    first [ done | apply (keeps_error (ahead b (c :: cp))); done
          | apply Go; [by auto|simpl; rewrite ?E; intuition congruence]
          | apply Go; [destruct (bool_decide (cp = [])); [done|apply Hd]|rewrite E; intuition congruence] ].
Qed.

Lemma keeps_skipcomment b cp : keeps (skipcomment cp) (ahead b cp) (ahead b).
Proof.
  intros s H. unfold skipcomment, ubind, uget, id. destruct (_ || _); [by apply keeps_skip_spaces|by apply keeps_skip_loop].
Qed.
Lemma keeps_findsym b cp str : keeps (findsym str) (ahead b cp) (λ _, ahead b cp).
Proof.
  intros s H. unfold findsym. destruct (bool_decide _); [done|]. unfold ubind, uget, id. by destruct (symlist _).
Qed.
Lemma keeps_sym_at (pre : ust → Prop) i : keeps (sym_at i) pre (λ _, pre).
Proof. by intros s H. Qed.
Lemma keeps_keepthis b cp x : keeps (set_keepthis x) (ahead b cp) (λ _, ahead b cp).
Proof. by intros s H. Qed.

(** ** Expressions *)

(** After a value. *)
Definition ahead_value (b : bool) (r : option (Z * list Z)) (s : ust) : Prop :=
  match r with Some (_, cp) => ahead b cp s | None => True end.
Lemma keeps_none b (pre : ust → Prop) : keeps (uret None) pre (ahead_value b).
Proof. by apply keeps_ret. Qed.

Definition one_line_operators (level : list (string * (Z → Z → Z))) : Prop :=
  Forall (λ o, 10 ∉ bytes (fst o)) level.
Lemma eval_ops_one_line : Forall one_line_operators eval_ops.
Proof. unfold one_line_operators. repeat constructor; vm_compute; set_solver. Qed.

Section eval.
Context (b : bool) (n : nat).
Context (IH1 : ∀ ops cp, Forall one_line_operators ops → keeps (eval_table n ops cp) (ahead b cp) (ahead_value b)).
Context (IH2 : ∀ level ops v cp, one_line_operators level → Forall one_line_operators ops →
  keeps (eval_rest n level ops v cp) (ahead b cp) (ahead_value b)).
Context (IH3 : ∀ cp, keeps (eval_unary n cp) (ahead b cp) (ahead_value b)).

Lemma eval_table_keeps ops cp :
  Forall one_line_operators ops → keeps (eval_table (S n) ops cp) (ahead b cp) (ahead_value b).
Proof using IH1 IH2 IH3.
  intros Ho. cbn [eval_table]. destruct ops as [|level ops]; [apply IH3|]. inversion_clear Ho.
  eapply keeps_bind; [by apply IH1|]. intros [[v cp1]|]; [by apply IH2|apply keeps_none].
Qed.

Lemma eval_rest_keeps level ops v cp : one_line_operators level → Forall one_line_operators ops →
  keeps (eval_rest (S n) level ops v cp) (ahead b cp) (ahead_value b).
Proof using IH1 IH2.
  intros Ho Hos. cbn [eval_rest]. eapply keeps_bind; [apply keeps_skipcomment|]. intros cp1.
  destruct (list_find _ level) as [[i [str fn]]|] eqn:E; [|by apply keeps_ret].
  apply list_find_Some in E as (E & Hs & _). eapply keeps_bind.
  - eapply keeps_pre; [|by apply IH1]. intros s H. apply ahead_starts; [done..|].
    apply (Forall_lookup_1 _ _ _ _ Ho E).
  - intros [[v' cp2]|]; [by apply IH2|apply keeps_none].
Qed.

Lemma eval_unary_keeps cp0 : keeps (eval_unary (S n) cp0) (ahead b cp0) (ahead_value b).
Proof using IH1 IH2 IH3.
  cbn [eval_unary]. eapply keeps_bind; [apply keeps_skipcomment|]. intros cp. cbv zeta.
  assert (∀ x s, default 0 (head cp) = x → x ≠ 0 → x ≠ 10 → ahead b cp s → ahead b (tail cp) s) as Hh.
  { intros x s E H0 H10 H. apply (ahead_tail b cp s x); [done| |done]. destruct cp; simpl in *; congruence. }
  case_bool_decide as B1.
  { eapply keeps_bind; [eapply keeps_pre; [|by apply IH3]; intros s; by apply (Hh 33)|].
    intros [[v cp1]|]; by apply keeps_ret. }
  clear B1. case_bool_decide as B1.
  { eapply keeps_bind; [eapply keeps_pre; [|apply IH1, eval_ops_one_line]; intros s; by apply (Hh 40)|].
    intros [[v cp1]|]; [|apply keeps_none]. eapply keeps_bind; [apply keeps_skipcomment|]. intros cp2.
    apply keeps_ret. intros s H. case_bool_decide; [|done]. by eapply ahead_tail. }
  clear B1. destruct (isdigit _); [apply keeps_ret; intros s; apply ahead_skipsym|].
  destruct (_ && _) eqn:D; [|destruct (negb _); [|apply keeps_none]].
  - apply andb_true_iff in D as [D _].
    eapply keeps_bind; [eapply keeps_pre; [|apply (keeps_skipcomment b (drop 7 cp))]|].
    { intros s H. apply (ahead_starts b "defined"); [done..|vm_compute; set_solver]. }
    intros cp1. case_bool_decide as H40; [apply keeps_none|].
    eapply keeps_bind; [eapply keeps_pre; [|apply (keeps_skipcomment b (tail cp1))]|].
    { intros s H. destruct (decide (head cp1 = Some 40)); [|done]. by eapply ahead_tail. }
    intros cp2. eapply keeps_bind; [apply keeps_findsym|]. intros [i|]; [|apply keeps_none].
    eapply keeps_bind; [apply keeps_sym_at|]. intros y.
    eapply keeps_bind; [eapply keeps_pre; [intros s; apply ahead_skipsym|apply keeps_skipcomment]|].
    intros cp3. case_bool_decide as H41; [apply keeps_none|].
    eapply keeps_bind; [apply keeps_keepthis|]. intros ?. apply keeps_ret. intros s H.
    destruct (decide (head cp3 = Some 41)); [|done]. by eapply ahead_tail.
  - eapply keeps_bind; [apply keeps_findsym|]. intros [i|]; [|apply keeps_none].
    eapply keeps_bind; [apply keeps_sym_at|]. intros y. destruct (value y) as [l|].
    + destruct (strtol l) as [v ep]. destruct (_ || _); [apply keeps_none|].
      eapply keeps_bind; [apply keeps_keepthis|]. intros ?. apply keeps_ret. intros s. apply ahead_skipsym.
    + eapply keeps_bind; [apply keeps_keepthis|]. intros ?. apply keeps_ret. intros s. apply ahead_skipsym.
Qed.
End eval.

Lemma keeps_eval b n :
  (∀ ops cp, Forall one_line_operators ops → keeps (eval_table n ops cp) (ahead b cp) (ahead_value b)) ∧
  (∀ level ops v cp, one_line_operators level → Forall one_line_operators ops →
    keeps (eval_rest n level ops v cp) (ahead b cp) (ahead_value b)) ∧
  (∀ cp, keeps (eval_unary n cp) (ahead b cp) (ahead_value b)).
Proof.
  induction n as [|n (IH1 & IH2 & IH3)]; [by split; [|split]; repeat intro|].
  split; [|split]; intros; [by apply eval_table_keeps|by apply eval_rest_keeps|by apply eval_unary_keeps].
Qed.

Lemma ahead_rest cp s : tame cp = true → cp ≠ [] → ahead true cp s.
Proof. by split. Qed.

Lemma keeps_ifeval cp :
  tame cp = true → cp ≠ [] → keeps (ifeval cp) (λ _, True) (λ r, ahead true (snd r)).
Proof.
  intros Ht Hc. assert (∀ s, ahead true cp s) as Ha by done.
  unfold ifeval. eapply keeps_bind; [apply keeps_get|]. intros kill.
  eapply keeps_bind with (mid := λ _, ahead true cp); [by intros s _|]. intros _.
  eapply keeps_bind; [apply keeps_eval, eval_ops_one_line|]. intros r.
  eapply keeps_bind; [apply keeps_get|]. intros keep. apply keeps_ret. intros s [_ H].
  destruct r as [[v cp']|]; [done|apply Ha].
Qed.

(** ** Lines *)

Lemma keeps_directive kw :
  tame kw = true → kw ≠ [] →
  keeps (directive_line kw) (λ _, True) (λ r, ahead (if fst r is None then false else true) (snd r)).
Proof.
  intros Ht Hk. unfold directive_line. cbv zeta. destruct (skipsym_tame _ Ht) as [Ht1 Hk1]. specialize (Hk1 Hk).
  rewrite (tame_escape _ Ht1). eapply keeps_bind with (mid := λ _ _, True); [by apply keeps_ret|]. intros ?.
  destruct (_ || _).
  { eapply keeps_bind; [eapply keeps_pre; [|apply (keeps_skipcomment true)]; by intros|]. intros cp1.
    eapply keeps_bind; [apply keeps_findsym|]. intros [i|].
    - eapply keeps_bind; [apply keeps_sym_at|]. intros y. apply keeps_ret. intros s. apply ahead_skipsym.
    - apply keeps_ret. intros s. apply ahead_skipsym. }
  destruct (bool_decide _).
  { eapply keeps_bind; [by apply keeps_ifeval|]. intros r. by apply keeps_ret. }
  destruct (bool_decide _).
  { eapply keeps_bind; [by apply keeps_ifeval|]. intros r. by apply keeps_ret. }
  do 2 (destruct (bool_decide _); [apply keeps_ret; intros s _; by apply ahead_rest|]).
  eapply keeps_bind with (mid := λ _ s, linestate (u_lex s) = LS_DIRTY); [by intros s _|]. intros _.
  apply keeps_ret. intros s E. split; [done|]. simpl. congruence.
Qed.

Lemma keeps_skip_rest n : ∀ cp, keeps (skip_rest n cp) (ahead false cp) (λ _ _, True).
Proof.
  induction n as [|n IH]; intros cp; cbn [skip_rest]; [by repeat intro|].
  destruct cp as [|c cp]; [by apply keeps_ret|].
  eapply keeps_bind; [eapply keeps_pre; [|apply (keeps_skipcomment false)]|intros cp1; apply IH].
  intros s [H1 H2]. split; [by apply tame_cons in H1 as [H1 _]|]. intros E. by destruct (H2 E).
Qed.

(** The end of a directive. *)
Definition off (P : Prop) (cp : list Z) (s : ust) : Prop :=
  tame cp = true ∧ (linestate (u_lex s) = LS_HASH → P ∧ incomment (u_lex s) ≠ NO_COMMENT).

Lemma ahead_off d cp s : ahead (if d is None then false else true) cp s → cp = [] → off (d ≠ (None : option directive)) cp s.
Proof.
  intros [Ht H] ->. split; [done|]. intros E. destruct (H E) as [Hd Hi]. split; [by destruct d|]. intros I. by apply Hi.
Qed.

(** The type of the line, dodgy in a comment, which leaves the directive. *)
Lemma keeps_dodgy wascomment ic1 retval cp :
  keeps (match retval with
         | None => uret LT_PLAIN
         | Some x =>
             if bool_decide (wascomment ≠ NO_COMMENT) || bool_decide (ic1 ≠ NO_COMMENT) then
               (if bool_decide (ic1 ≠ NO_COMMENT) then set_linestate LS_DIRTY else uret tt);;;
               uret (LT_DODGY x)
             else uret (LT x)
         end)
    (λ s, ic1 = incomment (u_lex s) ∧ off (retval ≠ None) cp s)
    (λ _ s, tame cp = true ∧ linestate (u_lex s) ≠ LS_HASH).
Proof.
  destruct retval as [x|]; [|apply keeps_ret; intros s [_ [Ht H]]; split; [done|]; intros E; by destruct (H E)].
  destruct (_ || _) eqn:B.
  - eapply keeps_bind with (mid := λ _ s, tame cp = true ∧ linestate (u_lex s) ≠ LS_HASH); [|intros ?; by apply keeps_ret].
    destruct (bool_decide_reflect (ic1 ≠ NO_COMMENT)) as [I|I]; [by intros s [_ [Ht _]]|].
    apply keeps_ret. intros s [-> [Ht H]]. split; [done|]. intros E. by destruct (H E).
  - apply orb_false_iff in B as [_ B]. apply bool_decide_eq_false in B. apply keeps_ret.
    intros s [-> [Ht H]]. split; [done|]. intros E. by destruct (H E).
Qed.

(** A line that starts with a hash. *)
Lemma keeps_hash k wascomment cp : tame cp = true → cp ≠ [] →
  keeps (set_keyword k;;;
         d <- directive_line cp;;
         cp1 <- skipcomment (snd d);;
         retval <- (if bool_decide (cp1 ≠ []) then
                      set_linestate LS_DIRTY;;;
                      uret match fst d with
                           | None => None
                           | Some x => Some (if known_if x then IF else if known_elif x then ELIF else x)
                           end
                    else uret (fst d));;
         ic1 <- uget (λ s, incomment (u_lex s));;
         lt <- match retval with
               | None => uret LT_PLAIN
               | Some x =>
                   if bool_decide (wascomment ≠ NO_COMMENT) || bool_decide (ic1 ≠ NO_COMMENT) then
                     (if bool_decide (ic1 ≠ NO_COMMENT) then set_linestate LS_DIRTY else uret tt);;;
                     uret (LT_DODGY x)
                   else uret (LT x)
               end;;
         ls1 <- uget (λ s, linestate (u_lex s));;
         if bool_decide (ls1 = LS_HASH) then uabort else uret (lt, cp1))
    (λ _, True) (λ r _, tame (snd r) = true).
Proof.
  intros Ht Hc. eapply keeps_bind with (mid := λ _ _, True); [by intros s _|]. intros ?.
  eapply keeps_bind; [by apply keeps_directive|]. intros [d rest]. simpl.
  eapply keeps_bind; [apply keeps_skipcomment|]. intros cp1.
  eapply keeps_bind with (mid := λ rv s, off (rv ≠ None) cp1 s).
  { case_bool_decide as E.
    - eapply keeps_bind with (mid := λ _ s, tame cp1 = true ∧ linestate (u_lex s) = LS_DIRTY); [by intros s [H _]|].
      intros ?. apply keeps_ret. intros s [H1 H2]. split; [done|]. congruence.
    - apply keeps_ret. intros s H. apply ahead_off; [done|]. by destruct cp1. }
  intros retval. eapply keeps_bind; [apply keeps_get|]. intros ic1.
  eapply keeps_bind; [apply keeps_dodgy|]. intros lt. eapply keeps_bind; [apply keeps_get|]. intros ls1.
  case_bool_decide as E; [by intros s (-> & _ & H)|]. apply keeps_ret. by intros s (_ & H & _).
Qed.

(** A line does not end on a directive: no abort. *)
Lemma keeps_parse l : tame l = true → l ≠ [] → keeps (parse_line l) (λ _, True) (λ _ _, True).
Proof.
  intros Ht Hl. unfold parse_line. eapply keeps_bind; [apply keeps_get|]. intros wascomment.
  eapply keeps_bind; [eapply keeps_pre; [|apply (keeps_skipcomment true)]; by intros|]. intros cp0.
  eapply keeps_bind; [apply keeps_get|]. intros ls0.
  eapply keeps_bind with (mid := ahead true).
  { case_bool_decide as Es; [|apply keeps_ret; by intros s [_ H]]. destruct cp0 as [|c cp0]; [apply keeps_ret; by intros s [_ H]|].
    case_bool_decide as E35.
    - eapply keeps_bind with (mid := λ _, ahead true cp0); [|intros ?; apply keeps_skipcomment].
      intros s [_ [H1 H2]]. destruct (tame_cons _ _ H1) as (H3 & H4 & _). split; [done|]. intros _. split; [done|].
      intros _. apply H4. lia.
    - eapply keeps_bind with (mid := λ _, ahead true (c :: cp0)); [|intros ?; by apply keeps_ret].
      intros s [_ [H1 H2]]. by split. }
  intros cp. eapply keeps_bind; [apply keeps_get|]. intros ic. eapply keeps_bind; [apply keeps_get|]. intros ls.
  eapply keeps_bind with (mid := λ r s, tame (snd r) = true).
  - destruct (bool_decide (ic = NO_COMMENT) && bool_decide (ls = LS_HASH)) eqn:E.
    + apply andb_true_iff in E as [E1 E2]. apply bool_decide_eq_true in E1, E2. subst.
      intros s (Es & Ei & Ha). apply keeps_hash; [by destruct Ha| |done]. by apply Ha.
    + apply keeps_ret. by intros s (_ & _ & H & _).
  - intros r. eapply keeps_bind; [apply keeps_get|]. intros ls2.
    eapply keeps_bind with (mid := λ _ _, True); [|by intros; apply keeps_ret].
    case_bool_decide; [|by apply keeps_ret]. eapply keeps_pre; [|apply keeps_skip_rest].
    intros s [-> H']. split; [done|]. congruence.
Qed.

(** ** Transitions *)

(** [f] does not abort, given that a group is open if [a] is set; then one is
    open after it if [b] is set. *)
Definition calm (a b : bool) (f : U unit) : Prop :=
  keeps f (λ s, a = true → depth (u_m s) ≠ 0%nat) (λ _ s, b = true → depth (u_m s) ≠ 0%nat).

Lemma calm_seq a b c f g : calm a b f → calm b c g → calm a c (f;;; g).
Proof. intros Hf Hg. eapply keeps_bind; [apply Hf|]. intros ?. apply Hg. Qed.
Lemma calm_error a b : calm a b error.
Proof. apply keeps_error. Qed.
Lemma calm_flushline a keep : calm a a (flushline keep).
Proof.
  intros s H. unfold flushline, ubind, uget, id. destruct (symlist _); [done|]. by destruct (xorb _ _).
Qed.
Lemma calm_keywordedit a r : calm a a (keywordedit r).
Proof.
  intros s H. unfold keywordedit, ubind at 1, uget. unfold ubind at 1, set_tline, set_lex, umod. by apply calm_flushline.
Qed.
Lemma calm_ignoreoff : calm true true ignoreoff.
Proof.
  intros s H. unfold ignoreoff, ubind, uget. specialize (H eq_refl).
  destruct (depth (u_m s)) eqn:E; [done|]. simpl. by rewrite E.
Qed.
Lemma calm_ignoreon a : calm a a ignoreon.
Proof. by intros s H. Qed.
Lemma calm_state a st : calm a a (state st).
Proof. by intros s H. Qed.
Lemma calm_nest a : calm a true nest.
Proof.
  intros s _. unfold nest, ubind at 1 2, set_m at 1, umod at 1, uget at 1. case_bool_decide; [|done].
  by apply (keeps_error (λ _, True)).
Qed.
Lemma calm_unnest : calm true false unnest.
Proof. intros s H. unfold unnest, ubind, uget. specialize (H eq_refl). by destruct (depth (u_m s)). Qed.
Lemma calm_pedantic a : calm a a pedantic.
Proof. intros s H. unfold pedantic, ubind at 1, uget. destruct (iocccok _); [done|]. by apply (calm_error a a). Qed.
Lemma calm_weak b f : calm true true f → calm true b f.
Proof. intros Hf. eapply keeps_post; [|apply Hf]. by intros ? s H _; apply H. Qed.
Lemma calm_pre b f : calm false b f → calm true b f.
Proof. intros Hf. eapply keeps_pre; [|apply Hf]. done. Qed.

Lemma calm_Mpass : calm true true Mpass.
Proof.
  intros s H. unfold Mpass, ubind at 1, uget. unfold ubind at 1, set_tline, set_lex, umod.
  apply (calm_seq true true true); [apply calm_flushline| |done].
  apply (calm_seq true true true); [apply calm_ignoreoff|apply calm_state].
Qed.
Lemma calm_done a b : calm a b done_.
Proof.
  intros s H. unfold done_, ubind, uget. case_bool_decide; [|done]. by apply (calm_error a b).
Qed.

Create HintDb ucalm.
#[export] Hint Resolve calm_error calm_flushline calm_keywordedit calm_ignoreoff calm_ignoreon calm_state
  calm_nest calm_unnest calm_pedantic calm_Mpass calm_done calm_weak : ucalm.

(** An action of the state [st], whose group is open. *)
Lemma calm_trans st lt : calm (negb (bool_decide (st = IS_OUTSIDE))) false (trans_table st lt).
Proof.
  destruct st, lt as [d|d| |]; try destruct d; cbn;
    unfold Eelif, Eelse, Eendif, Eeof, Eioccc, Itrue, Ifalse, Idrop, Oiffy, Oif, Oelif,
      Fpass, Ftrue, Ffalse, Fdrop, Strue, Sfalse, Selse, Pelif, Pelse, Pendif, Dfalse, Delif, Delse, Dendif,
      Mtrue, Melif, Melse, print_, drop_;
    repeat (eapply calm_seq; [solve [eauto with ucalm | repeat (eapply calm_seq; [solve [eauto with ucalm]|]); eauto with ucalm]|]);
    eauto with ucalm.
Qed.
