(* ===== verification/UnifdefThm.v ===== *)
(** * Theorems on the removal of conditional lines (scripts/unifdef.c)

    A preprocessor that reads the output of unifdef keeps the same plain lines
    as one that reads its input, whatever the unknown conditions are; and the
    program ends on every input. *)

From stdpp Require Import base numbers list option strings sets.
From S2P Require Import Prelude CString Kallsyms Sumversion Unifdef UnifdefStep UnifdefCpp UnifdefEnds UnifdefSafe.
Local Open Scope Z_scope.
Local Open Scope u_scope.

(** ** A run *)

(** The next line as the parser sees it. *)
Definition next_seen (s : ust) : option seen :=
  match (count_line;;; getline) s with
  | UOk lt s1 => if bool_decide (lt = LT_EOF) then None
                 else Some (Seen lt (keyword (u_lex s1)) (tline (u_lex s1)))
  | _ => None
  end.
Fixpoint trace (n : nat) (s : ust) : list seen :=
  match n with
  | O => []
  | S n' => match next_seen s, process_line s with
            | Some y, UOk _ s' => y :: trace n' s'
            | Some y, _ => [y]
            | None, _ => []
            end
  end.
(** The lines of [input] as unifdef sees them. *)
Definition seen_lines (opts : list opt) (input : list (list Z)) : list seen :=
  match do_opts opts (init_ust input) with
  | UOk _ s => trace (S (length input)) s
  | _ => []
  end.

Lemma stack_top s : fit s → default IS_OUTSIDE (ifstate (u_m s) !! depth (u_m s)) = top (stack s).
Proof.
  intros [_ _ _ Hb]. unfold stack. destruct (depth (u_m s)); [by rewrite Hb|done].
Qed.
(** Outside of all groups a line only opens a group or changes nothing. *)
Lemma act_room s lt r c : fit s → act (top (stack s)) lt = Some (r, c) → room c s.
Proof.
  intros _ H. apply room_stack. destruct (stack s) as [|st l]; [|by destruct c].
  destruct lt as [d|d| |]; try destruct d; cbn in H; simplify_eq; done.
Qed.
Lemma fit_fixed s s' :
  fit s → u_o s' = u_o s → depth (u_m s') = depth (u_m s) → ifstate (u_m s') = ifstate (u_m s) → fit s'.
Proof. intros [] E1 E2 E3. constructor; congruence || by rewrite ?E1, ?E2, ?E3. Qed.

(** The machine when the next line was parsed. *)
Lemma parsed_line s lt s1 :
  fit s → (count_line;;; getline) s = UOk lt s1 →
  fit s1 ∧ stack s1 = stack s ∧ u_out s1 = u_out s ∧ exitstat (u_m s1) = exitstat (u_m s) ∧
  match u_input s with
  | [] => lt = LT_EOF
  | l :: rest => lt ≠ LT_EOF ∧ u_input s1 = rest ∧ tline (u_lex s1) = l
  end.
Proof.
  intros Hf H. apply ubind_inv in H as (u & s0 & [= _ <-] & H). apply getline_fixed in H; [|by destruct Hf as [[]]].
  cbn [u_input] in H. destruct (u_input s) as [|l rest].
  - destruct H as [-> ->]. split; [by destruct Hf|done].
  - destruct H as [H1 [= E1 E2 E3 E4 E5]]. cbn in *. split; [apply (fit_fixed s); rewrite ?E3; done|].
    unfold stack. rewrite E3. done.
Qed.

(** One line of a run. *)
Lemma process_line_step s s' :
  fit s → process_line s = UOk tt s' →
  ∃ y r c, next_seen s = Some y ∧ u_input s = sn_line y :: u_input s' ∧ sn_type y ≠ LT_EOF ∧
    act (top (stack s)) (sn_type y) = Some (r, c) ∧ fit s' ∧ stack s' = changed c (stack s) ∧
    exitstat (u_m s') = match r with Some _ => exitstat (u_m s) | None => 1 end ∧
    lines (u_out s') = lines (u_out s) ++
      match r with Some x => [render (sn_key y) (sn_line y) x] | None => [] end.
Proof.
  intros Hf H. unfold process_line in H. apply ubind_inv in H as (u & s0 & H0 & H).
  apply ubind_inv in H as (lt & s1 & H1 & H).
  assert ((count_line;;; getline) s = UOk lt s1) as Hp by (unfold ubind; by rewrite H0).
  destruct (parsed_line _ _ _ Hf Hp) as (F1 & S1 & O1 & X1 & L1).
  apply ubind_inv in H as (st & s2 & [= <- <-] & H). rewrite (stack_top _ F1), S1 in H.
  pose proof (trans_act (top (stack s)) lt) as Ha. destruct (act (top (stack s)) lt) as [[r c]|] eqn:E;
    [|by destruct (Ha _ _ H)].
  destruct (Ha s1 s' F1) as (F2 & S2 & I2 & X2 & L2); [eapply act_room; [done|]; by rewrite S1|done|].
  destruct (u_input s) as [|l rest]; [by subst lt|]. destruct L1 as (Hl & <- & T1).
  exists (Seen lt (keyword (u_lex s1)) (tline (u_lex s1))), r, c. unfold next_seen. rewrite Hp.
  rewrite bool_decide_false by done. simpl. rewrite I2, S2, S1, X2, X1, L2, O1, T1. by destruct r.
Qed.
(** The end of a run that was not refused. *)
Lemma process_line_exit s code s' :
  fit s → process_line s = UExit code s' → code ≠ 2 →
  next_seen s = None ∧ u_input s = [] ∧ top (stack s) = IS_OUTSIDE ∧ code = exitstat (u_m s) ∧ u_out s' = u_out s.
Proof.
  intros Hf H Hc. unfold process_line in H. unfold ubind in H at 1.
  destruct (count_line s) as [u s0| | |] eqn:H0; try done. unfold ubind in H at 1.
  pose proof (getline_ends s0) as Hg. destruct (getline s0) as [lt s1| | |] eqn:H1; try done; [|by injection H as -> _].
  assert ((count_line;;; getline) s = UOk lt s1) as Hp by (unfold ubind; by rewrite H0).
  destruct (parsed_line _ _ _ Hf Hp) as (F1 & S1 & O1 & X1 & L1).
  unfold ubind, uget in H. rewrite (stack_top _ F1), S1 in H.
  destruct (decide (lt = LT_EOF ∧ top (stack s) = IS_OUTSIDE)) as [[-> Ht]|Hn].
  - rewrite Ht in H. change (trans_table IS_OUTSIDE LT_EOF) with done_ in H. unfold done_, ubind, uget in H.
    case_bool_decide; [by pose proof (good_error (A := unit) (λ _, True) s1) as He; rewrite H in He|].
    injection H as <- <-. unfold next_seen. rewrite Hp. destruct (u_input s); [done|by destruct L1].
  - assert (good (λ _, True) (trans_table (top (stack s)) lt)) as Ht.
    { apply good_trans. destruct (decide (lt = LT_EOF)); [right; naive_solver|by left]. }
    specialize (Ht s1). rewrite H in Ht. done.
Qed.

(** ** The start *)

Lemma frames_set_sym i y : frames (set_sym i y).
Proof. by intros s a s' [= _ <-] _. Qed.
Lemma frames_add_nsyms : frames add_nsyms.
Proof. by intros s a s' [= _ <-] _. Qed.
Lemma frames_addsym i d sym : frames (addsym i d sym).
Proof. pose proof frames_set_sym. pose proof frames_add_nsyms. unfold addsym. frame. Qed.
(** An option other than -c and -s. *)
Definition plain_opt (o : opt) : Prop := o ≠ Opt_c ∧ o ≠ Opt_s.
Definition plain_start (s : ust) : Prop :=
  complement (u_o s) = false ∧ symlist (u_o s) = false ∧ u_m s = init_machine ∧ u_out s = [].
Lemma do_opt_plain o s s' :
  plain_opt o → plain_start s → do_opt o s = UOk tt s' → plain_start s' ∧ u_input s' = u_input s.
Proof.
  intros [Hc Hs] (H1 & H2 & H3 & H4) H.
  assert (∀ i d sym, addsym i d sym s = UOk tt s' → plain_start s' ∧ u_input s' = u_input s) as Ha.
  { intros i d sym E. apply (frames_addsym i d sym s tt s') in E; [|done]. injection E as E1 E2 E3 E4 E5.
    split; [|done]. unfold plain_start. rewrite E1, E3, E4. done. }
  destruct o; cbn [do_opt] in H; repeat case_match; try done; eauto; by injection H as <-.
Qed.
Lemma do_opts_plain l : ∀ s s',
  Forall plain_opt l → plain_start s → do_opts l s = UOk tt s' → plain_start s' ∧ u_input s' = u_input s.
Proof.
  induction l as [|o l IH]; intros s s' Hl Hs H; [by injection H as <-|]. inversion_clear Hl. cbn [do_opts] in H.
  apply ubind_inv in H as ([] & s1 & E1 & E2). apply do_opt_plain in E1 as [P1 <-]; [|done..]. eapply IH; eauto.
Qed.
Lemma plain_start_fit s : plain_start s → fit s ∧ stack s = [].
Proof.
  intros (H1 & H2 & H3 & H4). unfold stack. rewrite H3. split; [|done].
  constructor; rewrite ?H3; try done. vm_compute. lia.
Qed.

(** ** Whole runs *)

(** The status: 1 when a line was dropped. *)
Definition dropped (t : list (seen * option role)) : bool :=
  existsb (λ x, match snd x with None => true | Some _ => false end) t.

Lemma process_run n : ∀ s code s' gi go,
  process n s = UExit code s' → code ≠ 2 → fit s → related (stack s) gi go →
  ∃ t, t.*1 = trace n s ∧ acts (stack s) t [] ∧
    sn_line <$> t.*1 = u_input s ∧
    lines (u_out s') = lines (u_out s) ++ omap (λ x, render (sn_key x.1) (sn_line x.1) <$> x.2) t ∧
    code = if dropped t then 1 else exitstat (u_m s).
Proof.
  induction n as [|n IH]; intros s code s' gi go H Hc Hf Hr; [done|]. cbn [process trace] in *.
  unfold ubind in H. destruct (process_line s) as [[] s1|c1 s1| |] eqn:E; try done.
  - destruct (process_line_step _ _ Hf E) as (y & r & c & Hy & Hi & Ht & Ha & F1 & S1 & X1 & L1).
    destruct (related_line _ _ _ true _ _ _ Hr Ha) as (gi' & go' & _ & _ & Hr'). rewrite <- S1 in Hr'.
    destruct (IH _ _ _ _ _ H Hc F1 Hr') as (t & T1 & T2 & T3 & T4 & T5).
    exists ((y, r) :: t). rewrite Hy. cbn [fmap list_fmap]. rewrite S1 in T2. split; [by f_equal|].
    split; [by econstructor|]. rewrite Hi, <- T3, T4, L1. split; [done|].
    rewrite T5, X1. rewrite <- app_assoc. destruct r; simpl; [done|]. split; [done|]. by destruct (dropped t).
  - injection H as -> ->. destruct (process_line_exit _ _ _ Hf E Hc) as (Hy & Hi & Ht & -> & Ho).
    exists []. rewrite Hy, Hi, Ho, (related_outside _ _ _ Hr Ht). simpl. rewrite app_nil_r. repeat split. constructor.
Qed.

Lemma text_in_lines truth t : ∀ n, (text_in truth n t).*2 = sn_line <$> t.*1.
Proof. induction t as [|[y r] t IH]; intros n; [done|]. simpl. by rewrite IH. Qed.
Lemma text_out_lines truth t : ∀ n,
  (text_out truth n t).*2 = omap (λ x, render (sn_key x.1) (sn_line x.1) <$> x.2) t.
Proof. induction t as [|[y [r|]] t IH]; intros n; simpl; [done| |apply IH]. by rewrite IH. Qed.

(** C37: unifdef preserves what the preprocessor keeps.  When it ends without
    refusing the input (no -c, no -s), each line was printed as it is, printed
    with its #elif edited, or dropped, in such a way that for all truth values
    of the conditions it does not know, input and output are both well nested
    and a preprocessor keeps the same plain lines of both.  The exit status is
    1 exactly when a line was dropped. *)
Theorem unifdef_preserves (opts : list opt) (input : list (list Z)) (code : Z) (s : ust) :
  Forall plain_opt opts →
  unifdef_main opts (Some input) = UExit code s → code ≠ 2 →
  ∃ t, t.*1 = seen_lines opts input ∧ code = (if dropped t then 1 else 0) ∧
    ∀ truth : nat → bool,
      (text_in truth 0 t).*2 = input ∧
      (text_out truth 0 t).*2 = lines (u_out s) ∧
      ∃ kept, cpp [] (text_in truth 0 t) = Some kept ∧ cpp [] (text_out truth 0 t) = Some kept.
Proof.
  intros Ho H Hc. unfold unifdef_main in H. unfold seen_lines. change (default [] (Some input)) with input in H.
  destruct (do_opts opts (init_ust input)) as [[] s0|c0 s0| |] eqn:E; try done.
  2: { pose proof (good_do_opts opts (init_ust input)) as Hg. rewrite E in Hg. by injection H as ->. }
  apply do_opts_plain in E as [Hp Hi]; [|done|done]. pose proof (plain_start_fit _ Hp) as [Hf Hs].
  destruct Hp as (_ & _ & Hm & Ht). simpl in Hi.
  destruct (process_run _ _ _ _ [] [] H Hc Hf) as (t & T1 & T2 & T3 & T4 & T5); [rewrite Hs; constructor|].
  exists t. rewrite Hm in T5. split; [done|]. split; [done|]. intros truth.
  rewrite text_in_lines, text_out_lines, T3, T4, Ht, Hi. do 2 (split; [done|]).
  rewrite Hs in T2. apply (related_text _ _ _ _ _ _ T2). constructor.
Qed.

(** C38: every run of unifdef ends: it returns neither a value nor runs out of
    steps, whatever the options and the text; its exit status is 0, 1 or 2, or
    it ends by abort() or by an access outside stifline. *)
Theorem unifdef_ends (opts : list opt) (opened : option (list (list Z))) :
  match unifdef_main opts opened with
  | UOk _ _ => False
  | UExit c _ => c = 0 ∨ c = 1 ∨ c = 2
  | UAbort => True
  | UFault f => f = OutOfBounds
  end.
Proof.
  unfold unifdef_main. pose proof (good_do_opts opts (init_ust (default [] opened))) as Hg.
  destruct (do_opts opts _) as [u s|c s| |]; simpl in Hg; [|by auto|done..].
  destruct opened as [input|]; [|by auto]. destruct Hg as (_ & Hi & Hs).
  apply process_ends; [apply Hs; by left|]. rewrite Hi. simpl. lia.
Qed.

(** ** No abort *)

Lemma addsym_no_abort i d sym s : addsym i d sym s ≠ UAbort.
Proof.
  unfold addsym, findsym, set_sym, add_nsyms, emit, ubind, uget, umod, uret, uexit, id. by repeat case_match.
Qed.
Lemma do_opts_no_abort l : ∀ s, do_opts l s ≠ UAbort.
Proof.
  induction l as [|o l IH]; intros s; [done|]. cbn [do_opts]. unfold ubind.
  assert (do_opt o s ≠ UAbort) as Ho
    by (destruct o; cbn [do_opt]; repeat case_match; try apply addsym_no_abort; done).
  by destruct (do_opt o s).
Qed.

Lemma process_line_no_abort s :
  fit s → Forall (λ l, l ≠ [] ∧ tame l = true) (u_input s) → process_line s ≠ UAbort.
Proof.
  intros Hf Hi H. unfold process_line in H. unfold ubind in H at 1.
  destruct (count_line s) as [u s0| | |] eqn:H0; try done. unfold ubind in H at 1.
  assert (u_input s0 = u_input s) as E by (by injection H0 as _ <-).
  destruct (getline s0) as [lt s1| | |] eqn:H1; try done.
  - assert ((count_line;;; getline) s = UOk lt s1) as Hp by (unfold ubind; by rewrite H0).
    destruct (parsed_line _ _ _ Hf Hp) as (F1 & S1 & _). unfold ubind, uget in H. rewrite (stack_top _ F1) in H.
    pose proof (calm_trans (top (stack s1)) lt s1) as Hc. rewrite H in Hc. apply Hc.
    rewrite negb_true_iff, bool_decide_eq_false. unfold stack. by destruct (depth (u_m s1)).
  - unfold getline, ubind at 1, uget in H1. rewrite E in H1. destruct (u_input s) as [|l rest]; [done|].
    inversion_clear Hi as [|? ? [Hl Ht]]. unfold ubind, set_line, umod in H1.
    pose proof (keeps_parse l Ht Hl) as Hk. unfold keeps in Hk. match type of H1 with
    | parse_line l ?s' = _ => specialize (Hk s' I) end. by rewrite H1 in Hk.
Qed.
Lemma process_no_abort n : ∀ s,
  fit s → Forall (λ l, l ≠ [] ∧ tame l = true) (u_input s) → process n s ≠ UAbort.
Proof.
  induction n as [|n IH]; intros s Hf Hi; [done|]. cbn [process]. unfold ubind.
  pose proof (process_line_no_abort s Hf Hi) as Hn. destruct (process_line s) as [[] s1| | |] eqn:E; try done.
  destruct (process_line_step _ _ Hf E) as (y & r & c & _ & Hl & _ & _ & F1 & _). apply IH; [done|].
  rewrite Hl in Hi. by inversion_clear Hi.
Qed.

(** C39: unifdef does not abort on ordinary text (no -c, no -s): when every line
    ends with a newline, without a backslash before it, the check of getline
    that skipcomment left the directive never fails, and neither do those of
    the stack. *)
Theorem unifdef_no_abort (opts : list opt) (input : list (list Z)) :
  Forall plain_opt opts → Forall (λ l, l ≠ [] ∧ tame l = true) input →
  unifdef_main opts (Some input) ≠ UAbort.
Proof.
  intros Ho Hi. unfold unifdef_main. change (default [] (Some input)) with input.
  destruct (do_opts opts (init_ust input)) as [[] s0|c0 s0| |] eqn:E; try done; [|by apply do_opts_no_abort in E].
  apply do_opts_plain in E as [Hp Hi']; [|done|done]. apply process_no_abort; [by apply plain_start_fit|].
  by rewrite Hi'.
Qed.

(** Outside of comments, a character that starts neither a comment nor a literal
    is not skipped. *)
Lemma skipcomment_stop c cp s :
  incomment (u_lex s) = NO_COMMENT → c ∈ [35; 101] → skipcomment (c :: cp) s = UOk (c :: cp) s.
Proof.
  intros E Hc. unfold skipcomment, ubind, uget, id.
  assert (c = 35 ∨ c = 101) as [-> | ->] by set_solver; (destruct (_ || _); [done|]);
    (match goal with |- skip_loop ?n _ _ = _ => replace n with (S (S (2 * S (length cp)))) by (simpl; lia) end);
    cbn [skip_loop];
    (match goal with |- context [starts esc_newline ?l] => change (starts esc_newline l) with false end);
    cbv iota; unfold ubind, uget; by rewrite E.
Qed.
Lemma skipcomment_nil s : skipcomment [] s = UOk [] s.
Proof. unfold skipcomment, ubind, uget, id. by destruct (_ || _). Qed.

Lemma directive_endif s : directive_line (bytes "endif") s = UOk (Some ENDIF, []) s.
Proof. reflexivity. Qed.

(** The unusual ends of unifdef.  A last line "#endif" without its newline,
    outside of comments, makes getline abort, whatever the options and the
    groups; so does a directive that continues after a backslash; and the 64th
    nested group makes nest report an error that reads stifline outside of it. *)
Theorem unifdef_crashes :
  (∀ o syms keep tl kw m out,
     getline (Ust o syms [bytes "#endif"] (Lexer NO_COMMENT LS_START keep tl kw) m out) = UAbort) ∧
  unifdef_main [] (Some [bytes "#ifdef A " ++ [92; 10]]) = UAbort ∧
  (∀ s, S (depth (u_m s)) = MAXDEPTH → nest s = UFault OutOfBounds) ∧
  unifdef_main [] (Some (replicate 64 (bytes "#ifdef A" ++ [10]))) = UFault OutOfBounds.
Proof.
  split; [|split; [by vm_compute|split; [|by vm_compute]]].
  - intros. change (bytes "#endif") with (35 :: bytes "endif").
    unfold getline, ubind at 1, uget at 1. cbn [u_input]. unfold ubind at 1, set_line, umod at 1.
    unfold parse_line, ubind at 1, uget at 1.
    erewrite ubind_ok by (apply skipcomment_stop; [done|set_solver]).
    unfold ubind at 1, uget at 1. cbn [u_lex linestate]. rewrite bool_decide_true by done.
    erewrite ubind_ok.
    2: { rewrite bool_decide_true by done. unfold ubind at 1, set_linestate, set_lex, umod at 1.
         change (bytes "endif") with (101 :: bytes "ndif"). apply skipcomment_stop; [done|set_solver]. }
    unfold ubind at 1, uget at 1. cbn [u_lex incomment linestate]. unfold ubind at 1, uget at 1.
    cbn [u_lex linestate incomment]. rewrite !bool_decide_true by done. cbn [andb].
    unfold ubind at 1. unfold ubind at 1, set_keyword, set_lex, umod.
    unfold ubind at 1. change (101 :: bytes "ndif") with (bytes "endif"). rewrite directive_endif.
    unfold ubind at 1. cbn [snd]. rewrite skipcomment_nil. done.
  - intros s H. unfold nest, ubind at 1 2, set_m at 1, umod at 1, uget at 1. cbn [u_m depth].
    rewrite H. done.
Qed.

(** ** Witnesses *)

Definition demo_text : list (list Z) :=
  (λ l, bytes l ++ [10]) <$>
  ["#if X"; "one"; "#elif defined(A)"; "two"; "#elif Y"; "three"; "#endif"]%string.
Definition demo_opts : list opt := [Opt_D (bytes "A")].

Lemma unifdef_preserves_witness : ∃ s,
  unifdef_main demo_opts (Some demo_text) = UExit 1 s ∧
  lines (u_out s) = (λ l, bytes l ++ [10]) <$> ["#if X"; "one"; "#else"; "two"; "#endif"]%string ∧
  ∃ t, t.*1 = seen_lines demo_opts demo_text ∧ 1 = (if dropped t then 1 else 0) ∧
    ∀ truth : nat → bool,
      (text_in truth 0 t).*2 = demo_text ∧
      (text_out truth 0 t).*2 = lines (u_out s) ∧
      ∃ kept, cpp [] (text_in truth 0 t) = Some kept ∧ cpp [] (text_out truth 0 t) = Some kept.
Proof.
  eexists. split; [vm_compute; reflexivity|]. split; [vm_compute; reflexivity|].
  apply (unifdef_preserves demo_opts demo_text 1); [by repeat constructor|vm_compute; reflexivity|lia].
Defined.

Lemma unifdef_no_abort_witness :
  Forall (λ l, l ≠ [] ∧ tame l = true) demo_text ∧ unifdef_main demo_opts (Some demo_text) ≠ UAbort.
Proof.
  assert (Forall (λ l, l ≠ [] ∧ tame l = true) demo_text) as H by (repeat constructor; done).
  split; [exact H|]. apply (unifdef_no_abort demo_opts demo_text); [by repeat constructor|exact H].
Defined.
