(* ===== verification/KSymbol.v ===== *)
(** * Symbols of the kernel configuration (scripts/kconfig/symbol.c, expr.h, lkc.h)

    The configuration program keeps its symbols in a hash table and computes
    their values on demand: a symbol that is not marked valid is computed from
    its prompts, defaults, reverse dependencies and range, which evaluates
    other symbols on the way.  The state [kst] is the memory of the program:
    the structs by their addresses, the chains of the hash table, the static
    variables, what was printed.  Expressions and property lists are static
    while values are computed; only [visible.tri] of a property is written.

    Allocation succeeds, with new addresses.  A pointer to characters carries its address, since
    [sym_calc_value] compares values by their bytes. *)

From stdpp Require Import base numbers list option strings gmap.
From Stdlib Require Import Ascii.
From S2P Require Import Prelude CString KExpr.
Local Open Scope Z_scope.
Local Open Scope c_scope.

(** ** Data *)

(** [curr.val] and [def[].val]: NULL, characters, or the chosen symbol of a choice. *)
Inductive vval := VNull | VStr (addr : positive) (s : string) | VSym (s : symbol).
Record symbol_value := Value { v_val : vval; v_tri : tristate }.

Inductive prop_type :=
  P_UNKNOWN | P_PROMPT | P_COMMENT | P_MENU | P_DEFAULT | P_CHOICE | P_SELECT | P_RANGE.

#[export] Instance vval_eq_dec : EqDecision vval.
Proof. solve_decision. Defined.
#[export] Instance symbol_value_eq_dec : EqDecision symbol_value.
Proof. solve_decision. Defined.
#[export] Instance prop_type_eq_dec : EqDecision prop_type.
Proof. solve_decision. Defined.

(** The address of a [struct menu]. *)
Definition menu := positive.
Record property := Property {
  pr_type : prop_type;
  pr_text : option string;
  pr_vis : option expr;      (* visible.expr *)
  pr_tri : tristate;         (* visible.tri *)
  pr_expr : option expr;
  pr_menu : option menu }.

(** The fields of [struct symbol] that symbol.c uses; [next] is the order in
    the hash chains.  Two of the four values [def] are used. *)
Record sym := Sym {
  y_name : option string;
  y_type : symbol_type;
  y_curr : symbol_value;
  y_def : symbol_value;      (* def[S_DEF_USER] *)
  y_auto : symbol_value;     (* def[S_DEF_AUTO] *)
  y_visible : tristate;
  y_flags : Z;
  y_prop : list property;
  y_rev : option expr;       (* rev_dep.expr *)
  y_rev_tri : tristate }.    (* rev_dep.tri *)

Definition SYMBOL_CONST : Z := 0x0001.
Definition SYMBOL_CHECK : Z := 0x0008.
Definition SYMBOL_CHOICE : Z := 0x0010.
Definition SYMBOL_CHOICEVAL : Z := 0x0020.
Definition SYMBOL_VALID : Z := 0x0080.
Definition SYMBOL_OPTIONAL : Z := 0x0100.
Definition SYMBOL_WRITE : Z := 0x0200.
Definition SYMBOL_CHANGED : Z := 0x0400.
Definition SYMBOL_AUTO : Z := 0x1000.
Definition SYMBOL_CHECKED : Z := 0x2000.
Definition SYMBOL_DEF_USER : Z := 0x10000.
Definition SYMBOL_DEF_AUTO : Z := 0x20000.

Record kst := Kst {
  k_syms : gmap symbol sym;
  k_hash : list (list symbol);       (* symbol_hash *)
  k_next : symbol;                   (* the next free address *)
  k_modules_sym : option symbol;
  k_modules_val : tristate;
  k_change_count : Z;
  k_menus : gset menu;               (* menus with MENU_CHANGED *)
  k_out : list string }.

Definition K : Type → Type := M kst.

(** ** Access *)

Definition get_sym (s : symbol) : K sym := λ st,
  match k_syms st !! s with Some y => Ok (y, st) | None => Err BadAccess end.
Definition upd (f : kst → kst) : K unit := λ st, Ok (tt, f st).
Definition get {A} (f : kst → A) : K A := λ st, Ok (f st, st).
Definition put_sym (s : symbol) (y : sym) : K unit := upd (λ st,
  Kst (<[s := y]> (k_syms st)) (k_hash st) (k_next st) (k_modules_sym st) (k_modules_val st)
    (k_change_count st) (k_menus st) (k_out st)).
Definition mod_sym (s : symbol) (f : sym → sym) : K unit := y <- get_sym s;; put_sym s (f y).
Definition print (l : list string) : K unit := upd (λ st,
  Kst (k_syms st) (k_hash st) (k_next st) (k_modules_sym st) (k_modules_val st)
    (k_change_count st) (k_menus st) (k_out st ++ l)).
(** The address of new characters. *)
Definition fresh : K symbol := λ st, Ok (k_next st,
  Kst (k_syms st) (k_hash st) (Pos.succ (k_next st)) (k_modules_sym st) (k_modules_val st)
    (k_change_count st) (k_menus st) (k_out st)).

Definition set_curr (v : symbol_value) (y : sym) : sym :=
  Sym (y_name y) (y_type y) v (y_def y) (y_auto y) (y_visible y) (y_flags y) (y_prop y) (y_rev y) (y_rev_tri y).
Definition set_def (v : symbol_value) (y : sym) : sym :=
  Sym (y_name y) (y_type y) (y_curr y) v (y_auto y) (y_visible y) (y_flags y) (y_prop y) (y_rev y) (y_rev_tri y).
Definition set_auto (v : symbol_value) (y : sym) : sym :=
  Sym (y_name y) (y_type y) (y_curr y) (y_def y) v (y_visible y) (y_flags y) (y_prop y) (y_rev y) (y_rev_tri y).
Definition set_visible (t : tristate) (y : sym) : sym :=
  Sym (y_name y) (y_type y) (y_curr y) (y_def y) (y_auto y) t (y_flags y) (y_prop y) (y_rev y) (y_rev_tri y).
Definition set_flags (f : Z) (y : sym) : sym :=
  Sym (y_name y) (y_type y) (y_curr y) (y_def y) (y_auto y) (y_visible y) f (y_prop y) (y_rev y) (y_rev_tri y).
Definition set_props (l : list property) (y : sym) : sym :=
  Sym (y_name y) (y_type y) (y_curr y) (y_def y) (y_auto y) (y_visible y) (y_flags y) l (y_rev y) (y_rev_tri y).
Definition set_rev_tri (t : tristate) (y : sym) : sym :=
  Sym (y_name y) (y_type y) (y_curr y) (y_def y) (y_auto y) (y_visible y) (y_flags y) (y_prop y) (y_rev y) t.
Definition set_type (t : symbol_type) (y : sym) : sym :=
  Sym (y_name y) t (y_curr y) (y_def y) (y_auto y) (y_visible y) (y_flags y) (y_prop y) (y_rev y) (y_rev_tri y).

Definition has (f : Z) (y : sym) : bool := negb (bool_decide (Z.land (y_flags y) f = 0)).
Definition add_flags (f : Z) (y : sym) : sym := set_flags (Z.lor (y_flags y) f) y.
Definition del_flags (f : Z) (y : sym) : sym := set_flags (Z.land (y_flags y) (Z.lnot f)) y.

(** [prop->visible.tri = t] of the [i]th property. *)
Definition set_pr_tri (t : tristate) (p : property) : property :=
  Property (pr_type p) (pr_text p) (pr_vis p) t (pr_expr p) (pr_menu p).
Definition set_prop_tri (i : nat) (t : tristate) (y : sym) : sym :=
  set_props (alter (set_pr_tri t) i (y_prop y)) y.

(** lkc.h. *)
Definition sym_is_choice (y : sym) : bool := has SYMBOL_CHOICE y.
Definition sym_is_choice_value (y : sym) : bool := has SYMBOL_CHOICEVAL y.
Definition sym_is_optional (y : sym) : bool := has SYMBOL_OPTIONAL y.
Definition sym_has_value (y : sym) : bool := has SYMBOL_DEF_USER y.
Definition sym_get_tristate_value (y : sym) : tristate := v_tri (y_curr y).
Definition sym_get_choice_value (y : sym) : vval := v_val (y_curr y).

(** The characters behind a pointer. *)
Definition chars (v : vval) : res string :=
  match v with VStr _ s => Ok s | VNull => Err NullDeref | VSym _ => Err TypeConfusion end.

(** ** Types and strings *)

Definition sym_type_name (t : symbol_type) : string :=
  match t with
  | S_BOOLEAN => "boolean" | S_TRISTATE => "tristate" | S_INT => "integer" | S_HEX => "hex"
  | S_STRING => "string" | S_UNKNOWN => "unknown" | S_OTHER => "???"
  end.
Definition prop_get_type_name (t : prop_type) : string :=
  match t with
  | P_PROMPT => "prompt" | P_COMMENT => "comment" | P_MENU => "menu" | P_DEFAULT => "default"
  | P_CHOICE => "choice" | P_SELECT => "select" | P_RANGE => "range" | P_UNKNOWN => "unknown"
  end.

(** [modules_val] is an argument. *)
Definition get_type (modules_val : tristate) (y : sym) : symbol_type :=
  if bool_decide (y_type y = S_TRISTATE) then
    if sym_is_choice_value y && bool_decide (y_visible y = Tyes) then S_BOOLEAN
    else if bool_decide (modules_val = Tno) then S_BOOLEAN
    else S_TRISTATE
  else y_type y.
Definition sym_get_type (s : symbol) : K symbol_type :=
  y <- get_sym s;; mv <- get k_modules_val;; ret (get_type mv y).

(** The literals have the addresses of symbol_yes and the others; the name of a
    symbol has the address of the symbol. *)
Definition symbol_empty : symbol := 4%positive.
Definition lit_y : vval := VStr 1 "y".
Definition lit_m : vval := VStr 2 "m".
Definition lit_n : vval := VStr 3 "n".
Definition lit_empty : vval := VStr 4 "".
Definition is_bool_type (t : symbol_type) : bool := bool_decide (t = S_BOOLEAN ∨ t = S_TRISTATE).
Definition string_value (y : sym) : vval :=
  if is_bool_type (y_type y) then
    match sym_get_tristate_value y with Tno => lit_n | Tmod => lit_m | Tyes => lit_y end
  else v_val (y_curr y).
Definition sym_get_string_value (s : symbol) : K vval := y <- get_sym s;; ret (string_value y).

(** ** Properties *)

Definition is_default (p : property) : bool := bool_decide (pr_type p = P_DEFAULT).
Definition is_prompt (p : property) : bool := bool_decide (pr_text p ≠ None).
Definition is_range (p : property) : bool := bool_decide (pr_type p = P_RANGE).
Definition choice_prop (y : sym) : option property :=
  snd <$> list_find (λ p, pr_type p = P_CHOICE) (y_prop y).
Definition sym_get_choice_prop (s : symbol) : K (option property) := y <- get_sym s;; ret (choice_prop y).

(** For an E_CHOICE node [left] is an expression. *)
Definition prop_get_symbol (p : property) : res (option symbol) :=
  match pr_expr p with
  | Some (ESymbol s) => Ok (Some s)
  | Some (EChoice _) => Err TypeConfusion
  | _ => Ok None
  end.
Definition non_null {A} (o : option A) : K A := lift match o with Some a => Ok a | None => Err NullDeref end.

(** The values of a choice: [e->right.sym] along the chain. *)
Definition choice_values (p : property) : res (list symbol) :=
  match pr_expr p with
  | None => Ok []
  | Some (EChoice l) => Ok l
  | Some _ => Err TypeConfusion
  end.

Definition change_menus (l : list property) : K unit := upd (λ st,
  Kst (k_syms st) (k_hash st) (k_next st) (k_modules_sym st) (k_modules_val st)
    (k_change_count st) (k_menus st ∪ list_to_set (omap pr_menu l)) (k_out st)).
Definition sym_set_changed (s : symbol) : K unit :=
  mod_sym s (add_flags SYMBOL_CHANGED);;;
  y <- get_sym s;; change_menus (y_prop y).

(** [for_all_symbols]: a function for every symbol in the table whose type is
    not S_OTHER. *)
Fixpoint for_symbols (f : symbol → K unit) (l : list symbol) : K unit :=
  match l with
  | [] => ret tt
  | s :: l' =>
      y <- get_sym s;;
      (if bool_decide (y_type y = S_OTHER) then ret tt else f s);;;
      for_symbols f l'
  end.
Definition for_all_symbols (f : symbol → K unit) : K unit :=
  h <- get k_hash;; for_symbols f (concat h).
Definition sym_set_all_changed : K unit := for_all_symbols sym_set_changed.

(** ** Values *)

Section calc.
(** The recursive call of [sym_calc_value]. *)
Context (calc : symbol → K unit).

Fixpoint calc_expr (e : expr) : K tristate :=
  match e with
  | ESymbol s => calc s;;; y <- get_sym s;; ret (sym_get_tristate_value y)
  | EAnd l r => a <- calc_expr l;; b <- calc_expr r;; ret (tri_and a b)
  | EOr l r => a <- calc_expr l;; b <- calc_expr r;; ret (tri_or a b)
  | ENot l => a <- calc_expr l;; ret (tri_not a)
  | EEqual s1 s2 =>
      calc s1;;; calc s2;;;
      v1 <- sym_get_string_value s1;; v2 <- sym_get_string_value s2;;
      str1 <- lift (chars v1);; str2 <- lift (chars v2);;
      ret (if bool_decide (str1 = str2) then Tyes else Tno)
  | EUnequal s1 s2 =>
      calc s1;;; calc s2;;;
      v1 <- sym_get_string_value s1;; v2 <- sym_get_string_value s2;;
      str1 <- lift (chars v1);; str2 <- lift (chars v2);;
      ret (if bool_decide (str1 = str2) then Tno else Tyes)
  | EChoice _ | ERange _ _ => print ["expr_calc_value: ?"%string];;; ret Tno
  end.
Definition expr_calc_value (e : option expr) : K tristate :=
  match e with None => ret Tyes | Some x => calc_expr x end.

(** The first property of a kind that is visible; [i] is the index of the
    first of [l] in the list of [s]. *)
Fixpoint first_visible (kind : property → bool) (s : symbol) (i : nat) (l : list property) : K (option property) :=
  match l with
  | [] => ret None
  | p :: l' =>
      if kind p then
        t <- expr_calc_value (pr_vis p);;
        mod_sym s (set_prop_tri i t);;;
        if bool_decide (t = Tno) then first_visible kind s (S i) l' else ret (Some p)
      else first_visible kind s (S i) l'
  end.
Definition sym_get_default_prop (s : symbol) : K (option property) :=
  y <- get_sym s;; first_visible is_default s 0 (y_prop y).
Definition sym_get_range_prop (s : symbol) : K (option property) :=
  y <- get_sym s;; first_visible is_range s 0 (y_prop y).

Definition base_of (t : symbol_type) : option Z :=
  match t with S_INT => Some 10 | S_HEX => Some 16 | _ => None end.
Definition sym_get_range_val (s : symbol) (base : Z) : K Z :=
  calc s;;;
  y <- get_sym s;;
  str <- lift (chars (v_val (y_curr y)));;
  ret (strtol_base (default base (base_of (y_type y))) (bytes str)).
(** The operands of an E_RANGE node. *)
Definition range_syms (p : property) : res (symbol * symbol) :=
  match pr_expr p with
  | Some (ERange a b) => Ok (a, b)
  | None => Err NullDeref
  | Some _ => Err TypeConfusion
  end.

Definition sym_validate_range (s : symbol) : K unit :=
  y0 <- get_sym s;;
  match base_of (y_type y0) with
  | None => ret tt
  | Some base =>
      prop <- sym_get_range_prop s;;
      match prop with
      | None => ret tt
      | Some p =>
          y <- get_sym s;;
          str <- lift (chars (v_val (y_curr y)));;
          let val := strtol_base base (bytes str) in
          '(ls, rs) <- lift (range_syms p);;
          low <- sym_get_range_val ls base;;
          (* val2, and whether it is out of range *)
          '(val2, out) <- (if bool_decide (low ≤ val) then
                             high <- sym_get_range_val rs base;;
                             ret (high, bool_decide (high < val))
                           else ret (low, true));;
          if (out : bool) then
            a <- fresh;;
            let str' := if bool_decide (y_type y0 = S_INT) then print_d val2 else print_x val2 in
            mod_sym s (λ y', set_curr (Value (VStr a str') (v_tri (y_curr y'))) y')
          else ret tt
      end
  end.

(** The loop over the prompts: the greatest of their visibilities. *)
Fixpoint prompts_visible (s : symbol) (i : nat) (l : list property) (tri : tristate) : K tristate :=
  match l with
  | [] => ret tri
  | p :: l' =>
      if is_prompt p then
        t <- expr_calc_value (pr_vis p);;
        mod_sym s (set_prop_tri i t);;;
        prompts_visible s (S i) l' (tri_or tri t)
      else prompts_visible s (S i) l' tri
  end.

Definition sym_calc_visibility (s : symbol) : K unit :=
  y0 <- get_sym s;;
  tri0 <- prompts_visible s 0 (y_prop y0) Tno;;
  y <- get_sym s;;
  mv <- get k_modules_val;;
  let tri := if bool_decide (tri0 = Tmod) && (bool_decide (y_type y ≠ S_TRISTATE) || bool_decide (mv = Tno))
             then Tyes else tri0 in
  (if bool_decide (y_visible y ≠ tri) then mod_sym s (set_visible tri);;; sym_set_changed s else ret tt);;;
  if sym_is_choice_value y then ret tt
  else
    rev0 <- match y_rev y with Some e => calc_expr e | None => ret Tno end;;
    t <- sym_get_type s;;
    let rev := if bool_decide (rev0 = Tmod) && bool_decide (t = S_BOOLEAN) then Tyes else rev0 in
    y' <- get_sym s;;
    if bool_decide (y_rev_tri y' ≠ rev) then mod_sym s (set_rev_tri rev);;; sym_set_changed s else ret tt.

(** The first visible symbol of a list of candidates. *)
Definition try_value (d : symbol) (rest : K vval) : K vval :=
  sym_calc_visibility d;;;
  y <- get_sym d;;
  if bool_decide (y_visible y ≠ Tno) then ret (VSym d) else rest.
Fixpoint choice_default (s : symbol) (i : nat) (l : list property) (rest : K vval) : K vval :=
  match l with
  | [] => rest
  | p :: l' =>
      if is_default p then
        t <- expr_calc_value (pr_vis p);;
        mod_sym s (set_prop_tri i t);;;
        if bool_decide (t = Tno) then choice_default s (S i) l' rest
        else
          d <- lift (prop_get_symbol p);;
          d' <- non_null d;;
          try_value d' (choice_default s (S i) l' rest)
      else choice_default s (S i) l' rest
  end.
Fixpoint choice_first (l : list symbol) (rest : K vval) : K vval :=
  match l with
  | [] => rest
  | d :: l' => try_value d (choice_first l' rest)
  end.

Definition sym_calc_choice (s : symbol) : K vval :=
  y <- get_sym s;;
  let defaults : K vval :=
    choice_default s 0 (y_prop y)
      (prop <- sym_get_choice_prop s;;
       p <- non_null prop;;
       values <- lift (choice_values p);;
       choice_first values
         (mod_sym s (λ z, set_curr (Value (v_val (y_curr z)) Tno) z);;; ret VNull)) in
  match v_val (y_def y) with
  | VSym d => try_value d defaults
  | VNull => defaults
  | VStr _ _ => lift (Err TypeConfusion)
  end.

(** The value of a boolean or tristate symbol. *)
Definition calc_tristate (s : symbol) (start : tristate) : K tristate :=
  y <- get_sym s;;
  tri <- (if sym_is_choice_value y && bool_decide (y_visible y = Tyes) then
            prop <- sym_get_choice_prop s;;
            p <- non_null prop;;
            cs <- lift (prop_get_symbol p);;
            c <- non_null cs;;
            yc <- get_sym c;;
            ret (if bool_decide (v_val (y_curr yc) = VSym s) then Tyes else Tno)
          else if bool_decide (tri_or (y_visible y) (y_rev_tri y) ≠ Tno) then
            mod_sym s (add_flags SYMBOL_WRITE);;;
            new <- (if sym_has_value y then ret (v_tri (y_def y))
                    else if sym_is_choice y then ret start
                    else prop <- sym_get_default_prop s;;
                         match prop with Some p => expr_calc_value (pr_expr p) | None => ret start end);;
            y' <- get_sym s;;
            ret (tri_or (tri_and new (y_visible y')) (y_rev_tri y'))
          else if sym_is_choice y then ret start
          else
            prop <- sym_get_default_prop s;;
            match prop with
            | Some p => mod_sym s (add_flags SYMBOL_WRITE);;; expr_calc_value (pr_expr p)
            | None => ret start
            end);;
  t <- sym_get_type s;;
  ret (if bool_decide (tri = Tmod) && bool_decide (t = S_BOOLEAN) then Tyes else tri).

(** The value of a string, hex or int symbol. *)
Definition calc_string (s : symbol) (start : vval) : K vval :=
  y <- get_sym s;;
  (if bool_decide (y_visible y ≠ Tno) then mod_sym s (add_flags SYMBOL_WRITE) else ret tt);;;
  if bool_decide (y_visible y ≠ Tno) && sym_has_value y then ret (v_val (y_def y))
  else
    prop <- sym_get_default_prop s;;
    match prop with
    | None => ret start
    | Some p =>
        ds <- lift (prop_get_symbol p);;
        match ds with
        | None => ret start
        | Some d =>
            mod_sym s (add_flags SYMBOL_WRITE);;;
            calc d;;;
            yd <- get_sym d;;
            ret (v_val (y_curr yd))
        end
    end.

(** The flags of a choice are passed to its values. *)
Fixpoint pass_flags (flags : Z) (l : list symbol) : K unit :=
  match l with
  | [] => ret tt
  | d :: l' =>
      mod_sym d (add_flags flags);;;
      (if bool_decide (Z.land flags SYMBOL_CHANGED ≠ 0) then sym_set_changed d else ret tt);;;
      pass_flags flags l'
  end.

Definition set_modules_val (t : tristate) : K unit := upd (λ st,
  Kst (k_syms st) (k_hash st) (k_next st) (k_modules_sym st) t
    (k_change_count st) (k_menus st) (k_out st)).

(** The end of [sym_calc_value]: choice, range, change, flags of the values. *)
Definition finish_value (s : symbol) (oldval newval : symbol_value) : K unit :=
  mod_sym s (set_curr newval);;;
  y <- get_sym s;;
  (if sym_is_choice y && bool_decide (v_tri newval = Tyes) then
     v <- sym_calc_choice s;;
     mod_sym s (λ z, set_curr (Value v (v_tri (y_curr z))) z)
   else ret tt);;;
  sym_validate_range s;;;
  y' <- get_sym s;;
  (if bool_decide (oldval ≠ y_curr y') then
     sym_set_changed s;;;
     ms <- get k_modules_sym;;
     (if bool_decide (ms = Some s) then
        sym_set_all_changed;;;
        ym <- get_sym s;;
        set_modules_val (v_tri (y_curr ym))
      else ret tt)
   else ret tt);;;
  if sym_is_choice y then
    y'' <- get_sym s;;
    prop <- sym_get_choice_prop s;;
    p <- non_null prop;;
    values <- lift (choice_values p);;
    pass_flags (Z.land (y_flags y'') (Z.lor SYMBOL_CHANGED SYMBOL_WRITE)) values
  else ret tt.

(** After the valid mark is set. *)
Definition calc_marked (s : symbol) : K unit :=
  y <- get_sym s;;
  let oldval := y_curr y in
  let name : vval := match y_name y with Some n => VStr s n | None => VNull end in
  match y_type y with
  | S_UNKNOWN | S_OTHER => mod_sym s (set_curr (Value name Tno))
  | S_INT | S_HEX | S_STRING | S_BOOLEAN | S_TRISTATE =>
      start <- get_sym (if is_bool_type (y_type y) then symbol_no else symbol_empty);;
      let newval := y_curr start in
      (if sym_is_choice_value y then ret tt else mod_sym s (del_flags SYMBOL_WRITE));;;
      sym_calc_visibility s;;;
      mod_sym s (set_curr newval);;;
      t <- sym_get_type s;;
      new <- (if is_bool_type t then
                tri <- calc_tristate s (v_tri newval);; ret (Value (v_val newval) tri)
              else
                v <- calc_string s (v_val newval);; ret (Value v (v_tri newval)));;
      finish_value s oldval new
  end.
End calc.

(** [n] bounds the depth of the calls. *)
Fixpoint sym_calc_value (n : nat) (s : symbol) : K unit :=
  match n with
  | O => lift (Err NoFuel)
  | S n' =>
      y <- get_sym s;;
      if has SYMBOL_VALID y then ret tt
      else mod_sym s (add_flags SYMBOL_VALID);;; calc_marked (sym_calc_value n') s
  end.

(** ** Changing values *)

Definition incr_change_count : K unit := upd (λ st,
  Kst (k_syms st) (k_hash st) (k_next st) (k_modules_sym st) (k_modules_val st)
    (k_change_count st + 1) (k_menus st) (k_out st)).
Definition sym_clear_all_valid (n : nat) : K unit :=
  for_all_symbols (λ s, mod_sym s (del_flags SYMBOL_VALID));;;
  incr_change_count;;;
  ms <- get k_modules_sym;;
  match ms with Some s => sym_calc_value n s | None => ret tt end.

Definition tri_le (a b : tristate) : bool := bool_decide (tri_num a ≤ tri_num b).
Definition tristate_within_range (modules_val : tristate) (y : sym) (val : tristate) : bool :=
  let type := get_type modules_val y in
  if bool_decide (y_visible y = Tno) then false
  else if negb (is_bool_type type) then false
  else if bool_decide (type = S_BOOLEAN) && bool_decide (val = Tmod) then false
  else if tri_le (y_visible y) (y_rev_tri y) then false
  else if sym_is_choice_value y && bool_decide (y_visible y = Tyes) then bool_decide (val = Tyes)
  else tri_le (y_rev_tri y) val && tri_le val (y_visible y).
Definition sym_tristate_within_range (s : symbol) (val : tristate) : K bool :=
  y <- get_sym s;; mv <- get k_modules_val;; ret (tristate_within_range mv y val).

(** Marks the visible values of a choice as set by the user. *)
Fixpoint user_values (l : list symbol) : K unit :=
  match l with
  | [] => ret tt
  | d :: l' =>
      y <- get_sym d;;
      (if bool_decide (y_visible y ≠ Tno) then mod_sym d (add_flags SYMBOL_DEF_USER) else ret tt);;;
      user_values l'
  end.
Definition mark_user (s : symbol) : K unit :=
  y <- get_sym s;;
  if has SYMBOL_DEF_USER y then ret tt
  else mod_sym s (add_flags SYMBOL_DEF_USER);;; sym_set_changed s.

Definition sym_set_tristate_value (n : nat) (s : symbol) (val : tristate) : K bool :=
  y <- get_sym s;;
  let oldval := sym_get_tristate_value y in
  within <- sym_tristate_within_range s val;;
  if bool_decide (oldval ≠ val) && negb within then ret false
  else
    mark_user s;;;
    (if sym_is_choice_value y && bool_decide (val = Tyes) then
       prop <- sym_get_choice_prop s;;
       p <- non_null prop;;
       cso <- lift (prop_get_symbol p);;
       cs <- non_null cso;;
       mod_sym cs (λ z, add_flags SYMBOL_DEF_USER (set_def (Value (VSym s) (v_tri (y_def z))) z));;;
       cprop <- sym_get_choice_prop cs;;
       cp <- non_null cprop;;
       values <- lift (choice_values cp);;
       user_values values
     else ret tt);;;
    mod_sym s (λ z, set_def (Value (v_val (y_def z)) val) z);;;
    (if bool_decide (oldval ≠ val) then sym_clear_all_valid n else ret tt);;;
    ret true.

(** At most three turns: the third value is the old one. *)
Definition toggled (t : tristate) : tristate := match t with Tno => Tmod | Tmod => Tyes | Tyes => Tno end.
Fixpoint toggle_loop (turns : nat) (n : nat) (s : symbol) (oldval newval : tristate) : K tristate :=
  match turns with
  | O => lift (Err NoFuel)
  | S turns' =>
      let new := toggled newval in
      ok <- sym_set_tristate_value n s new;;
      if (ok : bool) then ret new
      else if bool_decide (oldval ≠ new) then toggle_loop turns' n s oldval new
      else ret new
  end.
Definition sym_toggle_tristate_value (n : nat) (s : symbol) : K tristate :=
  y <- get_sym s;;
  let oldval := sym_get_tristate_value y in
  toggle_loop 3 n s oldval oldval.

(** [isdigit] and [isxdigit] of a [signed char]. *)
Definition ascii_digit (a : ascii) : bool := isdigit (Z.of_nat (nat_of_ascii a)).
Definition ascii_xdigit (a : ascii) : bool :=
  match digit_of (Z.of_nat (nat_of_ascii a)) with Some d => bool_decide (d < 16) | None => false end.
Fixpoint all_chars (p : ascii → bool) (s : string) : bool :=
  match s with EmptyString => true | String a s' => p a && all_chars p s' end.
Definition is_tri_char (s : string) : option tristate :=
  match s with
  | String "y" _ | String "Y" _ => Some Tyes
  | String "m" _ | String "M" _ => Some Tmod
  | String "n" _ | String "N" _ => Some Tno
  | _ => None
  end%char.
Definition strip_minus (s : string) : string := match s with String "-" s' => s' | _ => s end%char.
Definition has_0x (s : string) : bool :=
  match s with String "0" (String "x" _) | String "0" (String "X" _) => true | _ => false end%char.
Definition strip_0x (s : string) : string :=
  if has_0x s then match s with String _ (String _ s') => s' | _ => s end else s.

Definition string_valid (t : symbol_type) (str : string) : bool :=
  match t with
  | S_STRING => true
  | S_INT =>
      match strip_minus str with
      | EmptyString => false
      | String ch rest =>
          ascii_digit ch &&
          negb (bool_decide (ch = "0"%char) && bool_decide (rest ≠ EmptyString)) &&
          all_chars ascii_digit rest
      end
  | S_HEX =>
      match strip_0x str with
      | EmptyString => false
      | String ch rest => ascii_xdigit ch && all_chars ascii_xdigit rest
      end
  | S_BOOLEAN | S_TRISTATE => bool_decide (is_tri_char str ≠ None)
  | S_UNKNOWN | S_OTHER => false
  end.
Definition sym_string_valid (s : symbol) (str : string) : K bool :=
  y <- get_sym s;; ret (string_valid (y_type y) str).

Definition sym_string_within_range (n : nat) (s : symbol) (str : string) : K bool :=
  y <- get_sym s;;
  match y_type y with
  | S_STRING => sym_string_valid s str
  | S_INT | S_HEX =>
      let base := default 10 (base_of (y_type y)) in
      if negb (string_valid (y_type y) str) then ret false
      else
        prop <- sym_get_range_prop (sym_calc_value n) s;;
        match prop with
        | None => ret true
        | Some p =>
            let val := strtol_base base (bytes str) in
            '(ls, rs) <- lift (range_syms p);;
            low <- sym_get_range_val (sym_calc_value n) ls base;;
            if bool_decide (low ≤ val) then
              high <- sym_get_range_val (sym_calc_value n) rs base;;
              ret (bool_decide (val ≤ high))
            else ret false
        end
  | S_BOOLEAN | S_TRISTATE =>
      match is_tri_char str with
      | Some t => sym_tristate_within_range s t
      | None => ret false
      end
  | S_UNKNOWN | S_OTHER => ret false
  end.

Definition sym_set_string_value (n : nat) (s : symbol) (newval : string) : K bool :=
  y0 <- get_sym s;;
  if is_bool_type (y_type y0) then
    match is_tri_char newval with
    | Some t => sym_set_tristate_value n s t
    | None => ret false
    end
  else
    within <- sym_string_within_range n s newval;;
    if negb within then ret false
    else
      mark_user s;;;
      y <- get_sym s;;
      let oldval := v_val (y_def y) in
      let prefixed := bool_decide (y_type y = S_HEX) && negb (has_0x newval) in
      same <- (if prefixed then ret false
               else match oldval with
                    | VNull => ret false
                    | v => old <- lift (chars v);; ret (bool_decide (old = newval))
                    end);;
      if negb same then
        a <- fresh;;
        let val := if prefixed then ("0x" +:+ newval)%string else newval in
        mod_sym s (λ z, set_def (Value (VStr a val) (v_tri (y_def z))) z);;;
        sym_clear_all_valid n;;;
        ret true
      else ret true.

Definition sym_is_changable (y : sym) : bool := negb (tri_le (y_visible y) (y_rev_tri y)).

(** ** The hash table *)

Definition newline : string := String (ascii_of_nat 10) EmptyString.
Definition SYMBOL_HASHSIZE : nat := 257.
Definition SYMBOL_HASHMASK : Z := 0xff.
(** The sum of the characters, which are signed. *)
Fixpoint sum_chars (s : string) : Z :=
  match s with EmptyString => 0 | String a s' => wrap8 (Z.of_nat (nat_of_ascii a)) + sum_chars s' end.
Definition hash_name (s : string) : nat := Z.to_nat (Z.land (wrap32 (sum_chars s)) SYMBOL_HASHMASK).

(** The names of one letter that are not looked up. *)
Definition const_name (name : string) : option symbol :=
  if bool_decide (name = "y") then Some symbol_yes
  else if bool_decide (name = "m") then Some symbol_mod
  else if bool_decide (name = "n") then Some symbol_no
  else None.

(** The chain is searched for the name with the flag as wanted. *)
Fixpoint find_chain (name : string) (isconst : bool) (l : list symbol) : K (option symbol) :=
  match l with
  | [] => ret None
  | s :: l' =>
      y <- get_sym s;;
      n <- non_null (y_name y);;
      if bool_decide (n = name) && bool_decide (has SYMBOL_CONST y = isconst) then ret (Some s)
      else find_chain name isconst l'
  end.
Definition chain (h : nat) : K (list symbol) := get (λ st, default [] (k_hash st !! h)).

Definition new_sym (name : option string) (isconst : bool) : sym :=
  Sym name S_UNKNOWN (Value VNull Tno) (Value VNull Tno) (Value VNull Tno) Tno (if isconst then SYMBOL_CONST else 0) [] None Tno.
Definition add_chain (h : nat) (s : symbol) : K unit := upd (λ st,
  Kst (k_syms st) (alter (cons s) h (k_hash st)) (k_next st) (k_modules_sym st) (k_modules_val st)
    (k_change_count st) (k_menus st) (k_out st)).
Definition alloc_sym (name : option string) (isconst : bool) (h : nat) : K symbol :=
  s <- fresh;; put_sym s (new_sym name isconst);;; add_chain h s;;; ret s.

Definition sym_lookup (name : option string) (isconst : bool) : K symbol :=
  match name with
  | None => alloc_sym None isconst 256
  | Some n =>
      match const_name n with
      | Some s => ret s
      | None =>
          l <- chain (hash_name n);;
          found <- find_chain n isconst l;;
          match found with
          | Some s => ret s
          | None => alloc_sym (Some n) isconst (hash_name n)
          end
      end
  end.
Definition sym_find (name : option string) : K (option symbol) :=
  match name with
  | None => ret None
  | Some n =>
      match const_name n with
      | Some s => ret (Some s)
      | None => l <- chain (hash_name n);; find_chain n false l
      end
  end.

(** [regcomp] of a pattern gives the test of [regexec], or fails; [realloc_ok]
    is whether there is room for so many results. *)
Fixpoint re_collect (matches : string → bool) (realloc_ok : nat → bool) (cnt size : nat) (l : list symbol)
    (acc : list symbol) : K (option (list symbol)) :=
  match l with
  | [] => ret (Some acc)
  | s :: l' =>
      y <- get_sym s;;
      match (if bool_decide (y_type y = S_OTHER) || has SYMBOL_CONST y then None else y_name y) with
      | None => re_collect matches realloc_ok cnt size l' acc
      | Some n =>
          if negb (matches n) then re_collect matches realloc_ok cnt size l' acc
          else
            let grow := bool_decide (size ≤ cnt + 1)%nat in
            let size' := if grow then (size + 16)%nat else size in
            if grow && negb (realloc_ok size') then ret None
            else re_collect matches realloc_ok (S cnt) size' l' (acc ++ [s])
      end
  end.
(** NULL is [None]; an array that was never allocated is NULL as well. *)
Definition sym_re_search (regcomp : string → option (string → bool)) (realloc_ok : nat → bool)
    (pattern : string) : K (option (list symbol)) :=
  if bool_decide (pattern = "") then ret None
  else match regcomp pattern with
       | None => ret None
       | Some matches =>
           h <- get k_hash;;
           r <- re_collect matches realloc_ok 0 0 (concat h) [];;
           ret match r with Some [] => None | _ => r end
       end.

(** ** Properties of new symbols *)

(** The index of the new property in the list of its symbol. *)
Definition new_prop (t : prop_type) : property := Property t None None Tno None None.
Definition prop_alloc (t : prop_type) (s : option symbol) : K (option nat) :=
  match s with
  | None => ret None
  | Some x =>
      y <- get_sym x;;
      put_sym x (set_props (y_prop y ++ [new_prop t]) y);;;
      ret (Some (length (y_prop y)))
  end.
Definition set_prop_expr (i : nat) (e : expr) (y : sym) : sym :=
  set_props (alter (λ p, Property (pr_type p) (pr_text p) (pr_vis p) (pr_tri p) (Some e) (pr_menu p)) i (y_prop y)) y.
Definition sym_add_default (s : symbol) (def : string) : K unit :=
  i <- prop_alloc P_DEFAULT (Some s);;
  d <- sym_lookup (Some def) true;;
  match i with
  | Some k => mod_sym s (set_prop_expr k (expr_alloc_symbol d))
  | None => lift (Err NullDeref)
  end.

(** One automatic symbol with its value from outside. *)
Definition auto_symbol (name : string) (value : option string) : K unit :=
  s <- sym_lookup (Some name) false;;
  mod_sym s (λ y, add_flags SYMBOL_AUTO (set_type S_STRING y));;;
  match value with Some v => sym_add_default s v | None => ret tt end.
(** [inited] is the static variable; [release] is what [uname] gives. *)
Definition sym_init (inited : bool) (getenv : string → option string) (release : string) : K bool :=
  if inited then ret true
  else
    auto_symbol "ARCH" (getenv "ARCH"%string);;;
    auto_symbol "KERNELVERSION" (getenv "KERNELVERSION"%string);;;
    auto_symbol "UNAME_RELEASE" (Some release);;;
    ret true.

(** ** Recursive dependencies *)

Section check.
Context (check : symbol → K (option symbol)).

Fixpoint check_expr (e : expr) : K (option symbol) :=
  match e with
  | EOr l r | EAnd l r =>
      s <- check_expr l;; match s with Some _ => ret s | None => check_expr r end
  | ENot l => check_expr l
  | EEqual a b | EUnequal a b =>
      s <- check a;; match s with Some _ => ret s | None => check b end
  | ESymbol a => check a
  | EChoice _ | ERange _ _ => print ["Oops! How to check ?"%string];;; ret None
  end.
Definition sym_check_expr_deps (e : option expr) : K (option symbol) :=
  match e with None => ret None | Some x => check_expr x end.

(** The properties of [s] from here on. *)
Fixpoint check_props (is_choice : bool) (l : list property) : K (option symbol) :=
  match l with
  | [] => ret None
  | p :: l' =>
      if bool_decide (pr_type p = P_CHOICE ∨ pr_type p = P_SELECT) then check_props is_choice l'
      else
        s <- sym_check_expr_deps (pr_vis p);;
        match s with
        | Some _ => ret s
        | None =>
            if bool_decide (pr_type p ≠ P_DEFAULT) || is_choice then check_props is_choice l'
            else
              s' <- sym_check_expr_deps (pr_expr p);;
              match s' with Some _ => ret s' | None => check_props is_choice l' end
        end
  end.
Definition check_deps (s : symbol) (y : sym) : K (option symbol) :=
  mod_sym s (add_flags (Z.lor SYMBOL_CHECK SYMBOL_CHECKED));;;
  r <- sym_check_expr_deps (y_rev y);;
  sym2 <- match r with Some _ => ret r | None => check_props (sym_is_choice y) (y_prop y) end;;
  out <- match sym2 with
         | None => ret None
         | Some s2 =>
             print [" "%string; default "(null)"%string (y_name y)];;;
             if bool_decide (s2 = s) then print [newline];;; ret None else ret sym2
         end;;
  mod_sym s (del_flags SYMBOL_CHECK);;;
  ret out.
End check.

Fixpoint sym_check_deps (n : nat) (s : symbol) : K (option symbol) :=
  match n with
  | O => lift (Err NoFuel)
  | S n' =>
      y <- get_sym s;;
      if has SYMBOL_CHECK y then
        print ["Warning! Found recursive dependency: "%string; default "(null)"%string (y_name y)];;;
        ret (Some s)
      else if has SYMBOL_CHECKED y then ret None
      else check_deps (sym_check_deps n') s y
  end.
(** The call for every symbol, at the end of [conf_parse]. *)
Definition check_all (n : nat) : K unit :=
  for_all_symbols (λ s, sym_check_deps n s;;; ret tt).

(** ** The start *)

Definition const_sym (name : string) (tri : tristate) (v : vval) (flags : Z) : sym :=
  Sym (Some name) S_UNKNOWN (Value v tri) (Value VNull Tno) (Value VNull Tno) Tno flags [] None Tno.
Definition init_kst : kst :=
  Kst (<[symbol_yes := const_sym "y" Tyes lit_y (Z.lor SYMBOL_CONST SYMBOL_VALID)]>
       (<[symbol_mod := const_sym "m" Tmod lit_m (Z.lor SYMBOL_CONST SYMBOL_VALID)]>
        (<[symbol_no := const_sym "n" Tno lit_n (Z.lor SYMBOL_CONST SYMBOL_VALID)]>
         (<[symbol_empty := const_sym "" Tno lit_empty SYMBOL_VALID]> ∅))))
    (replicate SYMBOL_HASHSIZE []) 5%positive None Tno 0 ∅ [].
