(* ===== verification/KSymbolEnds.v ===== *)
(** * The computation of symbol values ends (scripts/kconfig/symbol.c)

    Computing a value never changes the configuration (names, types, user
    values, properties, dependencies) and never takes a valid mark away.  A
    nested computation starts by setting the mark of a symbol, so the number of
    symbols without it bounds the depth of the calls, also for configurations
    with recursive dependencies. *)

From stdpp Require Import base numbers list option strings gmap.
From S2P Require Import Prelude CString KExpr KSymbol.
Local Open Scope Z_scope.
Local Open Scope c_scope.

(** ** Flags *)

Lemma has_bit k y : 0 ≤ k → has (2 ^ k) y = Z.testbit (y_flags y) k.
Proof.
  intros Hk. unfold has. destruct (Z.testbit (y_flags y) k) eqn:E.
  - rewrite bool_decide_false; [done|]. intros H. assert (Z.testbit (Z.land (y_flags y) (2 ^ k)) k = true) as Ht.
    { rewrite Z.land_spec, E, Z.pow2_bits_true by done. done. }
    rewrite H, Z.bits_0 in Ht. done.
  - rewrite bool_decide_true; [done|]. apply Z.bits_inj. intros i. rewrite Z.land_spec, Z.bits_0.
    destruct (decide (i = k)) as [->|Hi]; [by rewrite E|]. rewrite Z.pow2_bits_false by done. apply andb_false_r.
Qed.
Lemma has_add k f y : 0 ≤ k → has (2 ^ k) (add_flags f y) = has (2 ^ k) y || Z.testbit f k.
Proof. intros Hk. rewrite !has_bit by done. apply Z.lor_spec. Qed.
Lemma has_del k f y : 0 ≤ k → has (2 ^ k) (del_flags f y) = has (2 ^ k) y && negb (Z.testbit f k).
Proof. intros Hk. rewrite !has_bit by done. simpl. rewrite Z.land_spec, Z.lnot_spec by done. done. Qed.

(** [has] after a change of the flags: [F] is [2 ^ k]. *)
Ltac has_flags :=
  repeat match goal with
  | |- context [has ?F (add_flags ?G ?y)] =>
      let k := eval vm_compute in (Z.log2 F) in
      let b := eval vm_compute in (Z.testbit G k) in
      replace (has F (add_flags G y)) with (has F y || b) by (symmetry; apply (has_add k); done)
  | |- context [has ?F (del_flags ?G ?y)] =>
      let k := eval vm_compute in (Z.log2 F) in
      let b := eval vm_compute in (Z.testbit G k) in
      replace (has F (del_flags G y)) with (has F y && negb b) by (symmetry; apply (has_del k); done)
  end.

(** ** What a computation keeps *)

(** The flags of the configuration. *)
Definition static_flags (y : sym) : bool * bool * bool * bool * bool * bool :=
  (has SYMBOL_CONST y, has SYMBOL_CHOICE y, has SYMBOL_CHOICEVAL y, has SYMBOL_DEF_USER y, has SYMBOL_DEF_AUTO y, has SYMBOL_AUTO y).
Definition erase_prop (p : property) : property := set_pr_tri Tno p.
(** The configuration of a symbol. *)
Definition config_of (y : sym) :=
  (y_name y, y_type y, y_def y, y_auto y, erase_prop <$> y_prop y, y_rev y, static_flags y).
Definition config (st : kst) := config_of <$> k_syms st.

Definition valid (st : kst) (s : symbol) : Prop :=
  ∃ y, k_syms st !! s = Some y ∧ has SYMBOL_VALID y = true.

Record evolves (st st' : kst) : Prop := {
  ev_config : config st' = config st;
  ev_hash : k_hash st' = k_hash st;
  ev_modules : k_modules_sym st' = k_modules_sym st;
  ev_valid s : valid st s → valid st' s }.

#[export] Instance evolves_preorder : PreOrder evolves.
Proof.
  split.
  - by intros st.
  - intros s1 s2 s3 [] []. constructor; [congruence..|auto].
Qed.

(** A change of a symbol that keeps its configuration and its valid mark. *)
Record mild (f : sym → sym) : Prop := {
  mi_config y : config_of (f y) = config_of y;
  mi_valid y : has SYMBOL_VALID y = true → has SYMBOL_VALID (f y) = true }.

(** ** The number of symbols without mark *)

Definition unmarked (y : sym) : Prop := has SYMBOL_VALID y = false.
#[export] Instance unmarked_dec y : Decision (unmarked y).
Proof. unfold unmarked. apply _. Defined.
Definition invalid (st : kst) : nat := size (filter (λ p : symbol * sym, unmarked p.2) (k_syms st)).

Lemma config_dom st st' : config st' = config st → dom (k_syms st') = dom (k_syms st).
Proof. intros E. rewrite <- (dom_fmap_L config_of (k_syms st')), <- (dom_fmap_L config_of (k_syms st)). by f_equal. Qed.

Lemma invalid_evolves st st' : evolves st st' → (invalid st' ≤ invalid st)%nat.
Proof.
  intros [Hc _ _ Hv]. unfold invalid. rewrite <- !size_dom. apply subseteq_size. intros s.
  rewrite !elem_of_dom. intros [y (E & Hu)%map_lookup_filter_Some].
  assert (s ∈ dom (k_syms st)) as [y0 E0]%elem_of_dom
    by (rewrite <- (config_dom _ _ Hc); apply elem_of_dom; eauto).
  exists y0. apply map_lookup_filter_Some. split; [done|]. simpl. unfold unmarked in *.
  apply not_true_iff_false. intros Ht. destruct (Hv s) as (y1 & E1 & H1); [by exists y0|].
  simpl in Hu. simplify_eq. congruence.
Qed.
(** Setting the mark of a symbol makes the number smaller. *)
Lemma invalid_mark st st' s :
  evolves st st' → valid st' s → ¬ valid st s → s ∈ dom (k_syms st) → (invalid st' < invalid st)%nat.
Proof.
  intros He (y' & E' & H') Hn [y E]%elem_of_dom. unfold invalid. rewrite <- !size_dom. apply subset_size. split.
  - intros x. rewrite !elem_of_dom. intros [z (Ez & Hu)%map_lookup_filter_Some].
    assert (x ∈ dom (k_syms st)) as [y0 E0]%elem_of_dom
      by (rewrite <- (config_dom _ _ (ev_config _ _ He)); apply elem_of_dom; eauto).
    exists y0. apply map_lookup_filter_Some. split; [done|]. simpl in *. unfold unmarked in *.
    apply not_true_iff_false. intros Ht. destruct (ev_valid _ _ He x) as (y1 & E1 & H1); [by exists y0|]. congruence.
  - intros Hs. assert (s ∈ dom (filter (λ p : symbol * sym, unmarked p.2) (k_syms st'))) as [z Hz]%elem_of_dom.
    { apply Hs, elem_of_dom. exists y. apply map_lookup_filter_Some. split; [done|]. simpl. unfold unmarked.
      apply not_true_iff_false. intros Ht. apply Hn. by exists y. }
    apply map_lookup_filter_Some in Hz as [Hz Hu]. simpl in Hu. unfold unmarked in Hu. congruence.
Qed.

(** ** Programs that end *)

(** A relation between states and a measure that it does not increase. *)
Class Fading := {
  fade : kst → kst → Prop;
  left_over : kst → nat;
  fade_preorder :: PreOrder fade;
  fade_le st st' : fade st st' → (left_over st' ≤ left_over st)%nat }.

Section ends.
Context `{Fading}.

(** With [n] steps of depth the program does not run out of them. *)
Definition ends {A} (n : nat) (m : K A) : Prop := ∀ st, (left_over st < n)%nat →
  match m st with Ok (_, st') => fade st st' | Err f => f ≠ NoFuel end.

Lemma ends_ret {A} n (a : A) : ends n (ret a).
Proof. intros st _. simpl. reflexivity. Qed.
Lemma ends_get {A} n (f : kst → A) : ends n (get f).
Proof. intros st _. simpl. reflexivity. Qed.
Lemma ends_lift {A} n (r : res A) : r ≠ Err NoFuel → ends n (lift r).
Proof. intros Hr st _. unfold lift. destruct r; [reflexivity|congruence]. Qed.
Lemma ends_bind {A B} n (m : K A) (k : A → K B) : ends n m → (∀ a, ends n (k a)) → ends n (bind m k).
Proof.
  intros Hm Hk st Hst. specialize (Hm st Hst). unfold bind. destruct (m st) as [[a st1]|]; [|done].
  specialize (Hk a st1). pose proof (fade_le _ _ Hm). destruct (k a st1) as [[b st2]|].
  - transitivity st1; [done|]. apply Hk. lia.
  - apply Hk. lia.
Qed.
Lemma ends_get_sym n s : ends n (get_sym s).
Proof. intros st _. unfold get_sym. destruct (k_syms st !! s); [reflexivity|done]. Qed.
Lemma ends_non_null {A} n (o : option A) : ends n (non_null o).
Proof. apply ends_lift. by destruct o. Qed.
Lemma ends_prop_get_symbol n p : ends n (lift (prop_get_symbol p)).
Proof. apply ends_lift. unfold prop_get_symbol. by repeat case_match. Qed.
Lemma ends_choice_values n p : ends n (lift (choice_values p)).
Proof. apply ends_lift. unfold choice_values. by repeat case_match. Qed.
Lemma ends_range_syms n p : ends n (lift (range_syms p)).
Proof. apply ends_lift. unfold range_syms. by repeat case_match. Qed.
Lemma ends_chars n v : ends n (lift (chars v)).
Proof. apply ends_lift. by destruct v. Qed.
End ends.

Create HintDb kends.
#[export] Hint Resolve ends_ret ends_get ends_get_sym ends_non_null ends_prop_get_symbol ends_choice_values
  ends_range_syms ends_chars : kends.

(** Close [ends] goals by the structure of the program. *)
Ltac ends :=
  repeat match goal with
  | |- ends _ (bind _ _) => apply ends_bind; [|intros ?]
  | |- ends _ (match ?x with _ => _ end) => destruct x
  | |- ends _ (if ?b then _ else _) => destruct b
  | |- ends _ (let '(_, _) := ?x in _) => destruct x
  | |- ends _ _ => solve [eauto with kends]
  end.

(** ** Values *)

#[export] Instance evolving : Fading := {| fade := evolves; left_over := invalid; fade_le := invalid_evolves |}.

Lemma evolves_sym st s y y' hash' next' val' cnt' menus' out' :
  k_syms st !! s = Some y → config_of y' = config_of y →
  (has SYMBOL_VALID y = true → has SYMBOL_VALID y' = true) → hash' = k_hash st →
  evolves st (Kst (<[s := y']> (k_syms st)) hash' next' (k_modules_sym st) val' cnt' menus' out').
Proof.
  intros E Hc Hv ->. constructor; simpl; [|done..|].
  - unfold config. simpl. rewrite fmap_insert. apply insert_id. by rewrite lookup_fmap, E, Hc.
  - intros x (z & Ez & Hz). unfold valid. simpl. destruct (decide (x = s)) as [->|Hx].
    + exists y'. rewrite lookup_insert_eq. split; [done|]. apply Hv. congruence.
    + exists z. by rewrite lookup_insert_ne.
Qed.
Lemma ends_mod_sym n s f : mild f → ends n (mod_sym s f).
Proof.
  intros [Hc Hv] st _. unfold mod_sym, bind, get_sym. destruct (k_syms st !! s) as [y|] eqn:E; [|done].
  simpl. by eapply evolves_sym; eauto.
Qed.
Lemma ends_upd n f : (∀ st, k_syms (f st) = k_syms st) → (∀ st, k_hash (f st) = k_hash st) →
  (∀ st, k_modules_sym (f st) = k_modules_sym st) → ends n (upd f).
Proof.
  intros H1 H2 H3 st _. simpl. constructor; [unfold config; by rewrite H1|done..|].
  intros s (y & E & Hy). exists y. by rewrite H1.
Qed.
Lemma ends_fresh n : ends n fresh.
Proof. intros st _. simpl. constructor; [done..|]. by intros s (y & E & Hy); exists y. Qed.

Lemma mild_curr v : mild (set_curr v).
Proof. by constructor. Qed.
Lemma mild_curr' g : mild (λ z, set_curr (g z) z).
Proof. by constructor. Qed.
Lemma mild_visible t : mild (set_visible t).
Proof. by constructor. Qed.
Lemma mild_rev_tri t : mild (set_rev_tri t).
Proof. by constructor. Qed.
Lemma erase_alter t (i : nat) (l : list property) : erase_prop <$> alter (set_pr_tri t) i l = erase_prop <$> l.
Proof.
  apply list_eq. intros j. rewrite !list_lookup_fmap. destruct (decide (i = j)) as [->|Hj].
  - rewrite list_lookup_alter_eq. by destruct (l !! j).
  - by rewrite list_lookup_alter_ne.
Qed.
Lemma mild_prop_tri i t : mild (set_prop_tri i t).
Proof.
  constructor; [|done]. intros y. unfold config_of, set_prop_tri.
  cbn [y_name y_type y_def y_prop y_rev set_props]. by rewrite erase_alter.
Qed.
(** Flags that are not of the configuration. *)
Lemma config_flags g y : static_flags (set_flags g y) = static_flags y → config_of (set_flags g y) = config_of y.
Proof. unfold config_of. by intros ->. Qed.
Lemma mild_add f :
  Z.testbit f 0 = false → Z.testbit f 4 = false → Z.testbit f 5 = false → Z.testbit f 16 = false →
  Z.testbit f 17 = false → Z.testbit f 12 = false → mild (add_flags f).
Proof.
  intros H0 H4 H5 H16 H17 H12. constructor; intros y.
  - apply config_flags. unfold static_flags. fold (add_flags f y).
    change SYMBOL_CONST with (2 ^ 0). change SYMBOL_CHOICE with (2 ^ 4). change SYMBOL_CHOICEVAL with (2 ^ 5).
    change SYMBOL_DEF_USER with (2 ^ 16). change SYMBOL_DEF_AUTO with (2 ^ 17). change SYMBOL_AUTO with (2 ^ 12).
    rewrite !has_add by done. by rewrite H0, H4, H5, H16, H17, H12, !orb_false_r.
  - intros H. change SYMBOL_VALID with (2 ^ 7) in *. rewrite has_add by done. by rewrite H.
Qed.
Lemma mild_del_write : mild (del_flags SYMBOL_WRITE).
Proof.
  constructor; intros y; [|intros H; has_flags; by rewrite H].
  apply config_flags. unfold static_flags. fold (del_flags SYMBOL_WRITE y). has_flags. by rewrite !andb_true_r.
Qed.
#[export] Hint Resolve ends_mod_sym ends_fresh mild_curr mild_curr' mild_visible mild_rev_tri mild_prop_tri
  mild_del_write : kends.

Lemma mild_valid : mild (add_flags SYMBOL_VALID).
Proof. by apply mild_add. Qed.
Lemma mild_write : mild (add_flags SYMBOL_WRITE).
Proof. by apply mild_add. Qed.
Lemma mild_changed : mild (add_flags SYMBOL_CHANGED).
Proof. by apply mild_add. Qed.
(** The flags that a choice passes on. *)
Lemma mild_passed g : mild (add_flags (Z.land g (Z.lor SYMBOL_CHANGED SYMBOL_WRITE))).
Proof. apply mild_add; rewrite Z.land_spec; apply andb_false_r. Qed.
#[export] Hint Resolve mild_valid mild_write mild_changed mild_passed : kends.

Lemma ends_set_changed n s : ends n (sym_set_changed s).
Proof. unfold sym_set_changed, change_menus. ends. by apply ends_upd. Qed.
Lemma ends_for_symbols n f l : (∀ s, ends n (f s)) → ends n (for_symbols f l).
Proof. intros Hf. induction l; cbn [for_symbols]; ends. Qed.
Lemma ends_set_all_changed n : ends n sym_set_all_changed.
Proof. unfold sym_set_all_changed, for_all_symbols. ends. apply ends_for_symbols. intros. apply ends_set_changed. Qed.
Lemma ends_print n l : ends n (print l).
Proof. by apply ends_upd. Qed.
Lemma ends_modules_val n t : ends n (set_modules_val t).
Proof. by apply ends_upd. Qed.
Lemma ends_get_type n s : ends n (sym_get_type s).
Proof. unfold sym_get_type. ends. Qed.
Lemma ends_string_value n s : ends n (sym_get_string_value s).
Proof. unfold sym_get_string_value. ends. Qed.
Lemma ends_choice_prop n s : ends n (sym_get_choice_prop s).
Proof. unfold sym_get_choice_prop. ends. Qed.
#[export] Hint Resolve ends_set_changed ends_set_all_changed ends_print ends_modules_val ends_get_type
  ends_string_value ends_choice_prop : kends.

Section calc.
Context (n : nat) (calc : symbol → K unit) (Hcalc : ∀ s, ends n (calc s)).

Lemma ends_calc_expr e : ends n (calc_expr calc e).
Proof using Hcalc. induction e; cbn [calc_expr]; ends. Qed.
#[local] Hint Resolve ends_calc_expr : kends.
Lemma ends_expr e : ends n (expr_calc_value calc e).
Proof using Hcalc. destruct e; cbn; ends. Qed.
#[local] Hint Resolve ends_expr : kends.
Lemma ends_first_visible kind s l : ∀ i, ends n (first_visible calc kind s i l).
Proof using Hcalc. induction l; intros i; cbn [first_visible]; ends. Qed.
#[local] Hint Resolve ends_first_visible : kends.
Lemma ends_range_val s b : ends n (sym_get_range_val calc s b).
Proof using Hcalc. unfold sym_get_range_val. ends. Qed.
#[local] Hint Resolve ends_range_val : kends.
Lemma ends_validate_range s : ends n (sym_validate_range calc s).
Proof using Hcalc. unfold sym_validate_range, sym_get_range_prop. ends. Qed.
Lemma ends_prompts s l : ∀ i t, ends n (prompts_visible calc s i l t).
Proof using Hcalc. induction l; intros i t; cbn [prompts_visible]; ends. Qed.
#[local] Hint Resolve ends_validate_range ends_prompts : kends.
Lemma ends_visibility s : ends n (sym_calc_visibility calc s).
Proof using Hcalc. unfold sym_calc_visibility. ends. Qed.
#[local] Hint Resolve ends_visibility : kends.
Lemma ends_try_value d rest : ends n rest → ends n (try_value calc d rest).
Proof using Hcalc. intros Hr. unfold try_value. ends. Qed.
#[local] Hint Resolve ends_try_value : kends.
Lemma ends_choice_default s l rest : ends n rest → ∀ i, ends n (choice_default calc s i l rest).
Proof using Hcalc. intros Hr. induction l; intros i; cbn [choice_default]; ends. Qed.
Lemma ends_choice_first l rest : ends n rest → ends n (choice_first calc l rest).
Proof using Hcalc. intros Hr. induction l; cbn [choice_first]; ends. Qed.
Lemma ends_calc_choice s : ends n (sym_calc_choice calc s).
Proof using Hcalc.
  unfold sym_calc_choice. apply ends_bind; [ends|]. intros y. cbv zeta.
  assert (ends n (choice_default calc s 0 (y_prop y) (prop <- sym_get_choice_prop s;;
    p <- non_null prop;; values <- lift (choice_values p);;
    choice_first calc values
         (mod_sym s (λ z, set_curr (Value (v_val (y_curr z)) Tno) z);;; ret VNull)))) as Hd.
  { apply ends_choice_default. ends. apply ends_choice_first. ends. }
  destruct (v_val (y_def y)); [done|by apply ends_lift|by apply ends_try_value].
Qed.
Lemma ends_pass_flags g l : ends n (pass_flags (Z.land g (Z.lor SYMBOL_CHANGED SYMBOL_WRITE)) l).
Proof using. induction l; cbn [pass_flags]; ends. Qed.
#[local] Hint Resolve ends_calc_choice ends_pass_flags : kends.
Lemma ends_calc_tristate s t : ends n (calc_tristate calc s t).
Proof using Hcalc. unfold calc_tristate, sym_get_default_prop. ends. Qed.
Lemma ends_calc_string s v : ends n (calc_string calc s v).
Proof using Hcalc. unfold calc_string, sym_get_default_prop. ends. Qed.
Lemma ends_finish s old new : ends n (finish_value calc s old new).
Proof using Hcalc.
  unfold finish_value. ends.
Qed.
#[local] Hint Resolve ends_calc_tristate ends_calc_string ends_finish : kends.
Lemma ends_calc_marked s : ends n (calc_marked calc s).
Proof using Hcalc. unfold calc_marked. apply ends_bind; [ends|]. intros y. cbv zeta. destruct (y_type y); ends. Qed.
End calc.

Lemma valid_after st s f y :
  k_syms st !! s = Some y → has SYMBOL_VALID (f y) = true →
  ∀ st', mod_sym s f st = Ok (tt, st') → valid st' s.
Proof.
  intros E H st' Hm. unfold mod_sym, bind, get_sym in Hm. rewrite E in Hm. injection Hm as <-.
  exists (f y). simpl. by rewrite lookup_insert_eq.
Qed.

(** Marking a symbol that has no mark leaves one less. *)
Lemma mark_less st s y st' :
  k_syms st !! s = Some y → has SYMBOL_VALID y = false →
  mod_sym s (add_flags SYMBOL_VALID) st = Ok (tt, st') →
  evolves st st' ∧ (invalid st' < invalid st)%nat.
Proof.
  intros E Hy Hm. pose proof (ends_mod_sym (S (invalid st)) s _ mild_valid st) as He. rewrite Hm in He.
  specialize (He ltac:(simpl; lia)). split; [done|]. apply (invalid_mark _ _ s He).
  - eapply valid_after; [done| |done]. has_flags. apply orb_true_r.
  - intros (z & Ez & Hz). congruence.
  - apply elem_of_dom. eauto.
Qed.

(** The depth of the computation of a value is at most the number of symbols
    without mark. *)
Lemma ends_calc_value n : ∀ s, ends n (sym_calc_value n s).
Proof.
  induction n as [|n IH]; intros s st Hst; [simpl in Hst; lia|]. cbn [sym_calc_value]. unfold bind at 1, get_sym at 1.
  destruct (k_syms st !! s) as [y|] eqn:E; [|done]. destruct (has SYMBOL_VALID y) eqn:Hy; [simpl; reflexivity|].
  unfold bind at 1. destruct (mod_sym s (add_flags SYMBOL_VALID) st) as [[[] st1]|f] eqn:Em.
  2: { unfold mod_sym, bind, get_sym in Em. by rewrite E in Em. }
  destruct (mark_less _ _ _ _ E Hy Em) as [He Hl]. simpl in Hst.
  pose proof (ends_calc_marked n _ IH s st1 ltac:(simpl; lia)) as Hm.
  destruct (calc_marked (sym_calc_value n) s st1) as [[u st2]|]; [by transitivity st1|done].
Qed.

(** The computed symbol is marked. *)
Lemma calc_value_valid n s st st' : sym_calc_value n s st = Ok (tt, st') → (invalid st < n)%nat → valid st' s.
Proof.
  destruct n as [|n]; [done|]. cbn [sym_calc_value]. unfold bind at 1, get_sym at 1. intros H Hn.
  destruct (k_syms st !! s) as [y|] eqn:E; [|done]. destruct (has SYMBOL_VALID y) eqn:Hy; [injection H as <-; by exists y|].
  apply bind_inv in H as ([] & st1 & Em & H). destruct (mark_less _ _ _ _ E Hy Em) as [He Hl].
  pose proof (ends_calc_marked n _ (ends_calc_value n) s st1 ltac:(simpl; lia)) as Hm. rewrite H in Hm.
  apply Hm. eapply valid_after; [done| |done]. has_flags. apply orb_true_r.
Qed.
