(* ===== verification/KSymbolCheck.v ===== *)
(** * The search for recursive dependencies (sym_check_deps in symbol.c)

    A depth-first search with two flags: SYMBOL_CHECK marks the symbols of the
    current path, SYMBOL_CHECKED those that were entered.  It warns exactly
    when the graph of the dependencies it follows has a cycle. *)

From stdpp Require Import base numbers list option strings gmap relations.
From S2P Require Import Prelude CString KExpr KSymbol KSymbolEnds.
Local Open Scope Z_scope.
Local Open Scope c_scope.

(** ** The graph *)

Fixpoint expr_syms (e : expr) : list symbol :=
  match e with
  | ESymbol a => [a]
  | ENot l => expr_syms l
  | EEqual a b | EUnequal a b => [a; b]
  | EAnd l r | EOr l r => expr_syms l ++ expr_syms r
  | EChoice _ | ERange _ _ => []
  end.
Definition opt_syms (e : option expr) : list symbol := match e with Some x => expr_syms x | None => [] end.
(** No node of another kind inside: the parser builds no others for conditions. *)
Fixpoint proper (e : expr) : bool :=
  match e with
  | ENot l => proper l
  | EAnd l r | EOr l r => proper l && proper r
  | EChoice _ | ERange _ _ => false
  | _ => true
  end.
Definition opt_proper (e : option expr) : bool := match e with Some x => proper x | None => true end.

(** The expressions of a property that are followed. *)
Definition followed (is_choice : bool) (p : property) : list (option expr) :=
  if bool_decide (pr_type p = P_CHOICE ∨ pr_type p = P_SELECT) then []
  else if bool_decide (pr_type p ≠ P_DEFAULT) || is_choice then [pr_vis p]
  else [pr_vis p; pr_expr p].
Definition followed_exprs (y : sym) : list (option expr) :=
  y_rev y :: concat (followed (sym_is_choice y) <$> y_prop y).
Definition check_syms (y : sym) : list symbol := concat (opt_syms <$> followed_exprs y).

(** The marks of the search taken away. *)
Definition unmark (y : sym) : sym := del_flags (Z.lor SYMBOL_CHECK SYMBOL_CHECKED) y.
Definition graph (st : kst) : gmap symbol sym := unmark <$> k_syms st.

Definition follows (G : gmap symbol sym) (s d : symbol) : Prop :=
  ∃ y, G !! s = Some y ∧ d ∈ check_syms y.
(** A recursive dependency that is reached from [s]. *)
Definition recursive (G : gmap symbol sym) (s : symbol) : Prop :=
  ∃ c, rtc (follows G) s c ∧ tc (follows G) c c.

Record graph_ok (G : gmap symbol sym) : Prop := {
  go_closed s d : follows G s d → d ∈ dom G;
  go_proper s y : G !! s = Some y → Forall (λ e, opt_proper e = true) (followed_exprs y) }.

(** ** The state of the search *)

Definition flagged (f : Z) (st : kst) (s : symbol) : Prop := ∃ y, k_syms st !! s = Some y ∧ has f y = true.
Definition on_path (st : kst) : symbol → Prop := flagged SYMBOL_CHECK st.
Definition entered (st : kst) : symbol → Prop := flagged SYMBOL_CHECKED st.
Definition black (st : kst) (s : symbol) : Prop := entered st s ∧ ¬ on_path st s.

(** The finished part of the graph is closed and has no cycle. *)
Definition ranked (G : gmap symbol sym) (st : kst) : Prop :=
  ∃ rank : symbol → nat, ∀ b d, black st b → follows G b d → black st d ∧ (rank d < rank b)%nat.

Definition silent (st st' : kst) : Prop := k_out st' = k_out st.

Record searched (st st' : kst) : Prop := {
  se_graph : graph st' = graph st;
  se_hash : k_hash st' = k_hash st;
  se_out : ∃ l, k_out st' = k_out st ++ l;
  se_path s : on_path st' s ↔ on_path st s;
  se_entered s : entered st s → entered st' s }.

#[export] Instance searched_preorder : PreOrder searched.
Proof.
  split.
  - intros st. constructor; try done. exists []. by rewrite app_nil_r.
  - intros s1 s2 s3 [G1 A1 [l1 E1] P1 B1] [G2 A2 [l2 E2] P2 B2]. constructor; [congruence|congruence|..].
    + exists (l1 ++ l2). by rewrite E2, E1, app_assoc.
    + intros s. by rewrite P2, P1.
    + auto.
Qed.
Lemma silent_parts s1 s2 s3 : searched s1 s2 → searched s2 s3 → silent s1 s3 → silent s1 s2 ∧ silent s2 s3.
Proof.
  intros [_ _ [l1 E1] _ _] [_ _ [l2 E2] _ _]. unfold silent. rewrite E2, E1, <- app_assoc.
  intros H. assert (l1 ++ l2 = []) as [-> ->]%app_nil by (apply (app_inv_head (k_out s1)); by rewrite app_nil_r).
  by rewrite !app_nil_r.
Qed.
Lemma black_searched st st' s : searched st st' → black st s → black st' s.
Proof. intros H [He Hp]. split; [by apply (se_entered _ _ H)|]. by rewrite (se_path _ _ H). Qed.

Definition not_entered (st : kst) : nat :=
  size (filter (λ p : symbol * sym, has SYMBOL_CHECKED p.2 = false) (k_syms st)).

Lemma graph_dom st st' : graph st' = graph st → dom (k_syms st') = dom (k_syms st).
Proof. intros E. rewrite <- (dom_fmap_L unmark (k_syms st')), <- (dom_fmap_L unmark (k_syms st)). by f_equal. Qed.
Lemma not_entered_elem st s :
  s ∈ dom (filter (λ p : symbol * sym, has SYMBOL_CHECKED p.2 = false) (k_syms st)) ↔
  s ∈ dom (k_syms st) ∧ ¬ entered st s.
Proof.
  rewrite !elem_of_dom. split.
  - intros [y [E H]%map_lookup_filter_Some]. split; [eauto|]. intros (z & Ez & Hz). simpl in H. congruence.
  - intros [[y E] H]. exists y. apply map_lookup_filter_Some. split; [done|]. simpl.
    apply not_true_iff_false. intros Ht. apply H. by exists y.
Qed.
Lemma not_entered_le st st' : searched st st' → (not_entered st' ≤ not_entered st)%nat.
Proof.
  intros Hs. unfold not_entered. rewrite <- !size_dom. apply subseteq_size. intros s.
  rewrite !not_entered_elem, (graph_dom _ _ (se_graph _ _ Hs)). intros [Hd Hn]. split; [done|].
  intros He. apply Hn. by apply (se_entered _ _ Hs).
Qed.

(** ** One symbol *)

Lemma unmark_choice y : sym_is_choice (unmark y) = sym_is_choice y.
Proof. unfold sym_is_choice, unmark. has_flags. apply andb_true_r. Qed.
Lemma unmark_add y : unmark (add_flags (Z.lor SYMBOL_CHECK SYMBOL_CHECKED) y) = unmark y.
Proof.
  destruct y as [nm ty cu df au vi fl pr rv rt]. unfold unmark, del_flags, add_flags, set_flags. simpl. f_equal.
  apply Z.bits_inj'. intros i Hi. rewrite !Z.land_spec, Z.lor_spec, Z.lnot_spec by done.
  by destruct (Z.testbit fl i), (Z.testbit _ i).
Qed.
Lemma unmark_del y : unmark (del_flags SYMBOL_CHECK y) = unmark y.
Proof.
  destruct y as [nm ty cu df au vi fl pr rv rt]. unfold unmark, del_flags, set_flags. simpl. f_equal.
  rewrite <- Z.land_assoc. f_equal.
Qed.

(** The state after a change of one symbol's flags. *)
Definition with_sym (st : kst) (s : symbol) (y : sym) : kst :=
  Kst (<[s := y]> (k_syms st)) (k_hash st) (k_next st) (k_modules_sym st) (k_modules_val st)
    (k_change_count st) (k_menus st) (k_out st).
Lemma mod_sym_ok st s y f : k_syms st !! s = Some y → mod_sym s f st = Ok (tt, with_sym st s (f y)).
Proof. intros E. unfold mod_sym, bind, get_sym. by rewrite E. Qed.
Lemma with_sym_graph st s y y' : k_syms st !! s = Some y → unmark y' = unmark y → graph (with_sym st s y') = graph st.
Proof. intros E H. unfold graph. simpl. rewrite fmap_insert, H. apply insert_id. by rewrite lookup_fmap, E. Qed.
Lemma with_sym_flagged f st s y x : flagged f (with_sym st s y) x ↔ (x = s ∧ has f y = true) ∨ (x ≠ s ∧ flagged f st x).
Proof.
  unfold flagged. simpl. destruct (decide (x = s)) as [->|Hx].
  - rewrite lookup_insert_eq. naive_solver.
  - rewrite lookup_insert_ne by done. naive_solver.
Qed.

Section search.
Context (G : gmap symbol sym) (HG : graph_ok G).

(** A part of the search on behalf of [src], the end of the path, for the
    symbols [ds]. *)
Definition visits (n : nat) (src : symbol) (ds : list symbol) (m : K (option symbol)) : Prop := ∀ st,
  graph st = G → (not_entered st < n)%nat → (∀ g, on_path st g → rtc (follows G) g src) →
  ∃ r st', m st = Ok (r, st') ∧ searched st st' ∧
    (silent st st' → r = None ∧ (ranked G st → ranked G st' ∧ Forall (black st') ds)) ∧
    (¬ silent st st' → recursive G src).

Lemma visits_none n src : visits n src [] (ret None).
Proof. intros st _ _ _. exists None, st. split; [done|]. split; [reflexivity|]. split; [auto|by intros []]. Qed.
Lemma visits_seq n src d1 d2 m1 m2 :
  visits n src d1 m1 → visits n src d2 m2 →
  visits n src (d1 ++ d2) (s <- m1;; match s with Some _ => ret s | None => m2 end).
Proof.
  intros H1 H2 st Hg Hn Hp. destruct (H1 st Hg Hn Hp) as (r1 & st1 & E1 & S1 & Q1 & C1).
  unfold bind. rewrite E1. destruct r1 as [x|].
  - exists (Some x), st1. split; [done|]. split; [done|]. split; [|done]. intros Hs. by destruct (Q1 Hs).
  - pose proof (not_entered_le _ _ S1). destruct (H2 st1) as (r2 & st2 & E2 & S2 & Q2 & C2).
    { by rewrite (se_graph _ _ S1). } { lia. } { intros g. rewrite (se_path _ _ S1). apply Hp. }
    exists r2, st2. split; [done|]. split; [by transitivity st1|]. split.
    + intros Hs. destruct (silent_parts _ _ _ S1 S2 Hs) as [Hs1 Hs2]. destruct (Q1 Hs1) as [_ R1].
      destruct (Q2 Hs2) as [-> R2]. split; [done|]. intros HR. destruct (R1 HR) as [HR1 B1].
      destruct (R2 HR1) as [HR2 B2]. split; [done|]. apply Forall_app. split; [|done].
      eapply Forall_impl; [done|]. intros d. by apply black_searched.
    + intros Hs. destruct (decide (k_out st1 = k_out st)) as [E|E]; [|by apply C1].
      destruct (decide (k_out st2 = k_out st1)) as [E'|E']; [|by apply C2].
      exfalso. apply Hs. unfold silent. congruence.
Qed.

Lemma visits_expr n src check e :
  (∀ d, d ∈ expr_syms e → visits n src [d] (check d)) → proper e = true →
  visits n src (expr_syms e) (check_expr check e).
Proof.
  induction e as [a|l IH|a b|a b|l IHl r IHr|l IHl r IHr|vs|a b]; intros Hc Hp; cbn [check_expr expr_syms] in *; try done.
  - apply Hc. set_solver.
  - by apply IH.
  - apply (visits_seq n src [a] [b]); apply Hc; set_solver.
  - apply (visits_seq n src [a] [b]); apply Hc; set_solver.
  - apply andb_true_iff in Hp as [Hl Hr]. apply visits_seq; [apply IHl|apply IHr]; try done; intros; apply Hc; set_solver.
  - apply andb_true_iff in Hp as [Hl Hr]. apply visits_seq; [apply IHl|apply IHr]; try done; intros; apply Hc; set_solver.
Qed.
Lemma visits_opt n src check e :
  (∀ d, d ∈ opt_syms e → visits n src [d] (check d)) → opt_proper e = true →
  visits n src (opt_syms e) (sym_check_expr_deps check e).
Proof. destruct e; [apply visits_expr|intros; apply visits_none]. Qed.
Lemma visits_props n src check c l :
  (∀ d, d ∈ concat (opt_syms <$> concat (followed c <$> l)) → visits n src [d] (check d)) →
  Forall (λ e, opt_proper e = true) (concat (followed c <$> l)) →
  visits n src (concat (opt_syms <$> concat (followed c <$> l))) (check_props check c l).
Proof.
  induction l as [|p l IH]; intros Hc Hp; [apply visits_none|]. cbn [check_props]. cbn [fmap list_fmap concat] in *.
  rewrite fmap_app, concat_app in *. apply Forall_app in Hp as [Hp1 Hp2].
  assert (visits n src (concat (opt_syms <$> concat (followed c <$> l))) (check_props check c l)) as Hl.
  { apply IH; [|done]. intros d Hd. apply Hc. apply elem_of_app. by right. }
  assert (∀ d, d ∈ concat (opt_syms <$> followed c p) → visits n src [d] (check d)) as Hc1.
  { intros d Hd. apply Hc. apply elem_of_app. by left. }
  clear Hc IH. unfold followed in *. case_bool_decide; [done|].
  destruct (bool_decide (pr_type p ≠ P_DEFAULT) || c); cbn [fmap list_fmap concat] in *; rewrite ?app_nil_r in *.
  - inversion_clear Hp1. apply visits_seq; [by apply visits_opt|done].
  - inversion_clear Hp1 as [|? ? Hv Hp']. inversion_clear Hp' as [|? ? He _]. rewrite <- app_assoc.
    apply visits_seq; [apply visits_opt; [|done]; intros; apply Hc1; set_solver|].
    apply visits_seq; [apply visits_opt; [|done]; intros; apply Hc1; set_solver|done].
Qed.

(** Entering a symbol that was not entered. *)
Lemma enter_state st s y :
  graph st = G → k_syms st !! s = Some y → has SYMBOL_CHECK y = false → has SYMBOL_CHECKED y = false →
  let st1 := with_sym st s (add_flags (Z.lor SYMBOL_CHECK SYMBOL_CHECKED) y) in
  graph st1 = G ∧ (not_entered st1 < not_entered st)%nat ∧
  (∀ x, on_path st1 x ↔ x = s ∨ on_path st x) ∧ (∀ x, entered st1 x ↔ x = s ∨ entered st x) ∧
  (∀ x, black st1 x ↔ black st x).
Proof.
  intros Hg E Hc Hk st1.
  assert (∀ x, on_path st1 x ↔ x = s ∨ on_path st x) as Hp.
  { intros x. unfold on_path, st1. rewrite with_sym_flagged. has_flags. rewrite orb_true_r.
    destruct (decide (x = s)); naive_solver. }
  assert (∀ x, entered st1 x ↔ x = s ∨ entered st x) as He.
  { intros x. unfold entered, st1. rewrite with_sym_flagged. has_flags. rewrite orb_true_r.
    destruct (decide (x = s)); naive_solver. }
  assert (¬ entered st s) as Hn by (intros (z & Ez & Hz); congruence).
  split; [rewrite <- Hg; apply (with_sym_graph _ _ y); [done|apply unmark_add]|]. split; [|split; [done|split; [done|]]].
  - unfold not_entered. rewrite <- !size_dom. apply subset_size. split.
    + intros x. rewrite !not_entered_elem, He. unfold st1. simpl. rewrite dom_insert_L.
      assert (s ∈ dom (k_syms st)) by (apply elem_of_dom; eauto). set_solver.
    + intros Hs. assert (s ∈ dom (filter (λ p : symbol * sym, has SYMBOL_CHECKED p.2 = false) (k_syms st1))) as Hin.
      { apply Hs, not_entered_elem. split; [apply elem_of_dom; eauto|done]. }
      apply not_entered_elem in Hin as [_ Hin]. apply Hin, He. by left.
  - intros x. unfold black. rewrite He, Hp. naive_solver.
Qed.

(** Leaving a symbol whose dependencies are finished. *)
Lemma leave_state st2 s y2 :
  graph st2 = G → k_syms st2 !! s = Some y2 → entered st2 s → on_path st2 s →
  let st3 := with_sym st2 s (del_flags SYMBOL_CHECK y2) in
  graph st3 = G ∧ (∀ x, on_path st3 x ↔ x ≠ s ∧ on_path st2 x) ∧ (∀ x, entered st3 x ↔ entered st2 x) ∧
  (∀ x, black st3 x ↔ x = s ∨ black st2 x) ∧
  (ranked G st2 → (∀ d, follows G s d → black st2 d) → ranked G st3).
Proof.
  intros Hg E He Hp st3.
  assert (∀ x, on_path st3 x ↔ x ≠ s ∧ on_path st2 x) as Hp3.
  { intros x. unfold on_path, st3. rewrite with_sym_flagged. has_flags. rewrite andb_false_r. naive_solver. }
  assert (∀ x, entered st3 x ↔ entered st2 x) as He3.
  { intros x. unfold entered, st3. rewrite with_sym_flagged. has_flags. rewrite andb_true_r.
    destruct (decide (x = s)) as [->|]; [|naive_solver]. unfold entered, flagged in *. naive_solver. }
  assert (∀ x, black st3 x ↔ x = s ∨ black st2 x) as Hb.
  { intros x. unfold black. rewrite He3, Hp3. destruct (decide (x = s)); naive_solver. }
  split; [rewrite <- Hg; apply (with_sym_graph _ _ y2); [done|apply unmark_del]|].
  do 3 (split; [done|]). intros [rank Hr] Hd.
  assert (¬ black st2 s) as Hnb by (intros [_ H]; done).
  destruct (G !! s) as [y|] eqn:Ey.
  2: { exists rank. intros b d. rewrite !Hb. intros [->|Hbb] Hf; [destruct Hf as (z & Ez & _); congruence|].
       destruct (Hr b d Hbb Hf) as [? ?]. auto. }
  set (top := S (max_list (rank <$> check_syms y))).
  exists (λ x, if decide (x = s) then top else rank x). intros b d. rewrite !Hb. intros [->|Hbb] Hf.
  - pose proof (Hd d Hf) as Hbd. split; [auto|]. rewrite (decide_True (P := s = s)) by done.
    rewrite decide_False by (intros ->; done). destruct Hf as (y' & Ey' & Hin). simplify_eq.
    unfold top. apply Nat.lt_succ_r. apply max_list_elem_of_le. apply list_elem_of_fmap. eauto.
  - destruct (Hr b d Hbb Hf) as [Hbd Hlt]. split; [auto|]. rewrite !decide_False by (intros ->; done). done.
Qed.

Definition printed (st : kst) (l : list string) : kst :=
  Kst (k_syms st) (k_hash st) (k_next st) (k_modules_sym st) (k_modules_val st)
    (k_change_count st) (k_menus st) (k_out st ++ l).
Lemma searched_print st l : searched st (printed st l).
Proof. constructor; try done. by exists l. Qed.

(** The end of [check_deps]: the output for a cycle, and the mark taken away. *)
Lemma leave_run st2 s y (sym2 : option symbol) y2 :
  k_syms st2 !! s = Some y2 →
  ∃ out l, (out <- match sym2 with
                     | None => ret None
                     | Some s2 =>
                         print [" "%string; default "(null)"%string (y_name y)];;;
                         if bool_decide (s2 = s) then print [newline];;; ret None else ret sym2
                     end;;
              mod_sym s (del_flags SYMBOL_CHECK);;; ret out) st2
     = Ok (out, with_sym (printed st2 l) s (del_flags SYMBOL_CHECK y2)) ∧
    (l = [] → sym2 = None) ∧ (sym2 = None → l = [] ∧ out = None).
Proof.
  intros E. assert (∀ l l', printed (printed st2 l) l' = printed st2 (l ++ l')) as Hpp.
  { intros. unfold printed. simpl. by rewrite app_assoc. }
  assert (∀ l, mod_sym s (del_flags SYMBOL_CHECK) (printed st2 l) =
               Ok (tt, with_sym (printed st2 l) s (del_flags SYMBOL_CHECK y2))) as Hm by (intros; by apply mod_sym_ok).
  set (msg := [" "%string; default "(null)"%string (y_name y)]).
  destruct sym2 as [s2|]; [case_bool_decide|].
  - exists None, (msg ++ [newline]). split; [|done]. unfold bind, print, upd, ret.
    fold (printed st2 msg). fold (printed (printed st2 msg) [newline]). by rewrite Hpp, Hm.
  - exists (Some s2), msg. split; [unfold bind, print, upd, ret|done]. fold (printed st2 msg). by rewrite Hm.
  - exists None, []. split; [|done]. unfold bind, ret. replace st2 with (printed st2 []) at 1; [by rewrite Hm|].
    destruct st2. unfold printed. simpl. by rewrite app_nil_r.
Qed.

(** A visit of [s], which every symbol of the path reaches. *)
Definition visit_ok (n : nat) : Prop := ∀ s st,
  graph st = G → (not_entered st < n)%nat → s ∈ dom G → (∀ g, on_path st g → tc (follows G) g s) →
  ∃ r st', sym_check_deps n s st = Ok (r, st') ∧ searched st st' ∧
    (silent st st' → r = None ∧ (ranked G st → ranked G st' ∧ black st' s)) ∧
    (¬ silent st st' → recursive G s).

Lemma check_syms_unmark y : check_syms (unmark y) = check_syms y ∧ followed_exprs (unmark y) = followed_exprs y.
Proof using. unfold check_syms, followed_exprs. by rewrite unmark_choice. Qed.

(** The dependencies of [s] are visited. *)
Lemma visits_deps n s y : visit_ok n → G !! s = Some (unmark y) →
  visits n s (check_syms y) (r <- sym_check_expr_deps (sym_check_deps n) (y_rev y);;
    match r with Some _ => ret r | None => check_props (sym_check_deps n) (sym_is_choice y) (y_prop y) end).
Proof using HG.
  intros IH EG. destruct (check_syms_unmark y) as [Hsy Hex].
  assert (∀ d, d ∈ check_syms y → visits n s [d] (sym_check_deps n d)) as Hv.
  { intros d Hd st' Hg' Hn' Hp'. assert (follows G s d) as Hf by (exists (unmark y); by rewrite Hsy).
    destruct (IH d st' Hg' Hn') as (r & st'' & R1 & R2 & R3 & R4).
    { by eapply go_closed. } { intros g Hgp. eapply tc_rtc_l; [by apply Hp'|by apply tc_once]. }
    exists r, st''. split; [done|]. split; [done|]. split.
    - intros Hsil. destruct (R3 Hsil) as [-> R]. split; [done|]. intros HR. destruct (R HR). split; [done|]. by constructor.
    - intros Hsil. destruct (R4 Hsil) as (c & Hc' & Hcc). exists c. split; [by eapply rtc_l|done]. }
  pose proof (go_proper _ HG s _ EG) as Hpr. rewrite Hex in Hpr.
  unfold check_syms, followed_exprs in *. cbn [fmap list_fmap concat] in *. inversion_clear Hpr.
  apply visits_seq; [apply visits_opt|apply visits_props]; try done; intros d Hd; apply Hv, elem_of_app; auto.
Qed.

(** A symbol that was not entered. *)
Lemma visit_new n s st y : visit_ok n →
  graph st = G → (not_entered st < S n)%nat → (∀ g, on_path st g → tc (follows G) g s) →
  k_syms st !! s = Some y → has SYMBOL_CHECK y = false → has SYMBOL_CHECKED y = false →
  ∃ r st', check_deps (sym_check_deps n) s y st = Ok (r, st') ∧ searched st st' ∧
    (silent st st' → r = None ∧ (ranked G st → ranked G st' ∧ black st' s)) ∧
    (¬ silent st st' → recursive G s).
Proof using HG.
  intros IH Hg Hn Hp E Hc Hk. destruct (enter_state st s y Hg E Hc Hk) as (Hg1 & Hn1 & Hp1 & He1 & Hb1).
  unfold check_deps. erewrite bind_ok by (by apply mod_sym_ok). set (st1 := with_sym st s _) in *.
  assert (G !! s = Some (unmark y)) as EG by (unfold graph in Hg; by rewrite <- Hg, lookup_fmap, E).
  destruct (visits_deps n s y IH EG st1 Hg1) as (sym2 & st2 & E2 & S2 & Q2 & C2); [lia| |].
  { intros g. rewrite Hp1. intros [->|Hgp]; [done|]. by apply tc_rtc, Hp. }
  assert (entered st2 s) as He2 by (apply (se_entered _ _ S2), He1; by left).
  assert (on_path st2 s) as Hp2 by (apply (se_path _ _ S2), Hp1; by left).
  assert (∃ y2, k_syms st2 !! s = Some y2) as [y2 Ey2] by (destruct He2 as (z & Ez & _); eauto).
  destruct (leave_run st2 s y sym2 y2 Ey2) as (out & l & E3 & L1 & L2).
  destruct (leave_state (printed st2 l) s y2) as (Hg4 & Hp4 & He4 & Hb4 & Hr4); try done.
  { transitivity (graph st2); [done|]. by rewrite (se_graph _ _ S2). }
  set (st4 := with_sym (printed st2 l) s _) in *. destruct (se_out _ _ S2) as [l2 E4].
  exists out, st4. split; [|split; [|split]].
  - rewrite <- E3. clearbody st1. unfold bind in E2 |- *.
    by destruct (sym_check_expr_deps _ _ st1) as [[r1 st1']|]; [rewrite E2|].
  - constructor.
    + congruence.
    + simpl. by rewrite (se_hash _ _ S2).
    + exists (l2 ++ l). simpl. by rewrite E4, app_assoc.
    + intros x. rewrite Hp4. change (on_path (printed st2 l) x) with (on_path st2 x). rewrite (se_path _ _ S2), Hp1.
      split; [naive_solver|]. intros Hx. split; [|auto]. intros ->. destruct Hx as (z & Ez & Hz). congruence.
    + intros x Hx. apply He4. change (entered st2 x). apply (se_entered _ _ S2), He1. auto.
  - intros Hsil. assert (l2 = [] ∧ l = []) as [-> ->].
    { unfold silent in Hsil. simpl in Hsil, E4. rewrite E4, <- app_assoc in Hsil. apply app_nil, (app_inv_head (k_out st)).
      by rewrite app_nil_r. }
    destruct (Q2 ltac:(unfold silent; by rewrite E4, app_nil_r)) as [-> R2]. split; [by apply L2|]. intros HR. destruct R2 as [HR2 HB].
    { destruct HR as [rank Hrank]. exists rank. intros b d. rewrite !Hb1. apply Hrank. }
    split; [|by apply Hb4; left]. apply Hr4; [done|]. intros d (z & Ez & Hd). assert (z = unmark y) as -> by congruence.
    rewrite (proj1 (check_syms_unmark y)) in Hd. rewrite Forall_forall in HB. by apply HB.
  - intros Hsil. destruct (decide (k_out st2 = k_out st1)) as [E5|E5]; [|by apply C2].
    exfalso. apply Hsil. destruct (Q2 E5) as [H2 _]. destruct (L2 H2) as [-> _]. unfold silent. simpl. by rewrite app_nil_r.
Qed.

Lemma visit n : visit_ok n.
Proof using HG.
  induction n as [|n IH]; intros s st Hg Hn Hs Hp; [lia|]. cbn [sym_check_deps]. unfold bind at 1, get_sym at 1.
  assert (s ∈ dom (k_syms st)) as [y E]%elem_of_dom by (unfold graph in Hg; by rewrite <- Hg, dom_fmap in Hs).
  rewrite E. destruct (has SYMBOL_CHECK y) eqn:Hc.
  { eexists _, _. split; [reflexivity|]. split; [apply searched_print|]. split.
    - intros Hsil. unfold silent in Hsil. simpl in Hsil. apply (f_equal length) in Hsil. rewrite length_app in Hsil.
      simpl in Hsil. lia.
    - intros _. exists s. split; [done|]. apply Hp. by exists y. }
  destruct (has SYMBOL_CHECKED y) eqn:Hk; [|by apply visit_new].
  exists None, st. split; [done|]. split; [reflexivity|]. split; [|by intros []]. intros _. split; [done|].
  intros HR. split; [done|]. split; [by exists y|]. intros (z & Ez & Hz). congruence.
Qed.

(** ** The call for every symbol *)

Lemma not_recursive st s : ranked G st → black st s → ¬ recursive G s.
Proof using.
  intros [rank Hr] Hb (c & Hc & Hcc).
  assert (∀ a b, rtc (follows G) a b → black st a → black st b) as Hreach.
  { intros a b Hab. induction Hab as [|a x b Hf _ IH]; [done|]. intros Ha. apply IH. by eapply Hr. }
  assert (∀ a b, tc (follows G) a b → black st a → (rank b < rank a)%nat) as Hdown.
  { intros a b Hab. induction Hab as [a b Hf|a x b Hf _ IH]; intros Ha; [by eapply Hr|].
    destruct (Hr _ _ Ha Hf) as [Hx Hlt]. specialize (IH Hx). lia. }
  pose proof (Hdown c c Hcc (Hreach s c Hc Hb)). lia.
Qed.

(** The types are no marks. *)
Definition checked_type (s : symbol) : Prop := ∃ y, G !! s = Some y ∧ y_type y ≠ S_OTHER.

Lemma check_list n l : ∀ st,
  graph st = G → (not_entered st < n)%nat → Forall (.∈ dom G) l → (∀ g, ¬ on_path st g) →
  ∃ st', for_symbols (λ s, sym_check_deps n s;;; ret tt) l st = Ok (tt, st') ∧ searched st st' ∧
    (silent st st' → ranked G st → ranked G st' ∧ ∀ s, s ∈ l → checked_type s → black st' s) ∧
    (¬ silent st st' → ∃ s, s ∈ l ∧ checked_type s ∧ recursive G s).
Proof using HG.
  induction l as [|s l IH]; intros st Hg Hn Hl Hp; cbn [for_symbols].
  { exists st. split; [done|]. split; [reflexivity|]. split; [|by intros []]. intros _ HR. split; [done|].
    intros s Hs. by apply not_elem_of_nil in Hs. }
  inversion_clear Hl as [|? ? Hs Hl'].
  assert (s ∈ dom (k_syms st)) as [y E]%elem_of_dom by (unfold graph in Hg; by rewrite <- Hg, dom_fmap in Hs).
  assert (G !! s = Some (unmark y)) as EG by (unfold graph in Hg; by rewrite <- Hg, lookup_fmap, E).
  unfold bind at 1, get_sym at 1. rewrite E. case_bool_decide as Ht.
  { destruct (IH st Hg Hn Hl' Hp) as (st' & R1 & R2 & R3 & R4). exists st'. split; [done|]. split; [done|]. split.
    - intros Hsil HR. destruct (R3 Hsil HR) as [HR' HB]. split; [done|]. intros x [->|Hx]%elem_of_cons Hc; [|by apply HB].
      destruct Hc as (z & Ez & Hz). by simplify_eq.
    - intros Hsil. destruct (R4 Hsil) as (x & Hx & Hc). exists x. split; [by right|done]. }
  destruct (visit n s st Hg Hn Hs) as (r & st1 & E1 & S1 & Q1 & C1); [by intros g ?%Hp|].
  destruct (IH st1) as (st2 & E2 & S2 & Q2 & C2).
  { by rewrite (se_graph _ _ S1). } { pose proof (not_entered_le _ _ S1). lia. } { done. }
  { intros g. rewrite (se_path _ _ S1). apply Hp. }
  exists st2. split; [unfold bind; by rewrite E1|]. split; [by transitivity st1|]. split.
  - intros Hsil HR. destruct (silent_parts _ _ _ S1 S2 Hsil) as [Hs1 Hs2]. destruct (Q1 Hs1) as [_ R1].
    destruct (R1 HR) as [HR1 HB1]. destruct (Q2 Hs2 HR1) as [HR2 HB2]. split; [done|].
    intros x [->|Hx]%elem_of_cons Hc; [by eapply black_searched|by apply HB2].
  - intros Hsil. destruct (decide (k_out st1 = k_out st)) as [E4|E4].
    + destruct (C2) as (x & Hx & Hc); [intros E5; apply Hsil; unfold silent in *; congruence|].
      exists x. split; [by right|done].
    + exists s. split; [by left|]. split; [by exists (unmark y)|by apply C1].
Qed.
End search.

(** No marks of a search. *)
Definition unchecked (st : kst) : Prop := ∀ s, ¬ entered st s ∧ ¬ on_path st s.

Lemma check_all_recursive n st :
  graph_ok (graph st) → unchecked st → (size (k_syms st) < n)%nat →
  Forall (.∈ dom (k_syms st)) (concat (k_hash st)) →
  ∃ st', check_all n st = Ok (tt, st') ∧ searched st st' ∧
    (k_out st' ≠ k_out st ↔ ∃ s, s ∈ concat (k_hash st) ∧ checked_type (graph st) s ∧ recursive (graph st) s).
Proof.
  intros HG Hu Hn Hl. unfold check_all, for_all_symbols. unfold bind at 1, get.
  destruct (check_list (graph st) HG n (concat (k_hash st)) st) as (st' & E & S & Q & C); try done.
  { unfold not_entered. rewrite <- size_dom. rewrite <- size_dom in Hn.
    pose proof (subseteq_size _ _ (dom_filter_subseteq (D := gset symbol) (λ p : symbol * sym, has SYMBOL_CHECKED p.2 = false) (k_syms st))).
    lia. }
  { unfold graph. by rewrite dom_fmap_L. }
  { intros g. apply Hu. }
  exists st'. split; [done|]. split; [done|]. split; [apply C|].
  intros (s & Hs & Hc & Hrec) Hsil. destruct (Q Hsil) as [HR HB].
  { exists (λ _, 0%nat). intros b d [Hb _]. by apply Hu in Hb. }
  by apply (not_recursive _ _ _ HR (HB s Hs Hc)).
Qed.
