(* ===== verification/KSymbolTable.v ===== *)
(** * The table of the symbols (sym_lookup and sym_find in symbol.c)

    The hash table with its chains implements a finite map from a name and the
    flag SYMBOL_CONST to a symbol.  The names y, m and n stand for fixed
    symbols and are never in the table; nameless symbols are in a chain of
    their own. *)

From stdpp Require Import base numbers list option strings gmap.
From S2P Require Import Prelude CString KExpr KSymbol KSymbolEnds.
Local Open Scope Z_scope.
Local Open Scope c_scope.

(** ** The abstract table *)

#[local] Abbreviation table := (gmap (string * bool) symbol).
(** What a name stands for. *)
Definition answer (m : table) (n : string) (c : bool) : option symbol :=
  match const_name n with Some s => Some s | None => m !! (n, c) end.

Definition keyed (st : kst) (s : symbol) (n : string) (c : bool) : Prop :=
  ∃ y, k_syms st !! s = Some y ∧ y_name y = Some n ∧ has SYMBOL_CONST y = c.
Definition in_chain (st : kst) (h : nat) (s : symbol) : Prop := ∃ l, k_hash st !! h = Some l ∧ s ∈ l.

(** The state implements the abstract table. *)
Record represents (st : kst) (m : table) : Prop := {
  rp_size : length (k_hash st) = SYMBOL_HASHSIZE;
  rp_map n c s : m !! (n, c) = Some s ↔
    const_name n = None ∧ in_chain st (hash_name n) s ∧ keyed st s n c;
  rp_chain h s : in_chain st h s → ∃ y, k_syms st !! s = Some y ∧
    match y_name y with Some n => h = hash_name n | None => h = 256%nat end;
  rp_fresh s : s ∈ dom (k_syms st) → (s < k_next st)%positive }.

Lemma hash_name_lt n : (hash_name n < 256)%nat.
Proof.
  unfold hash_name, SYMBOL_HASHMASK. change 255 with (Z.ones 8). rewrite Z.land_ones by lia.
  pose proof (Z.mod_pos_bound (wrap32 (sum_chars n)) (2 ^ 8)). lia.
Qed.

(** ** The search of a chain *)

Lemma find_chain_ok st n c l :
  (∀ s, s ∈ l → ∃ y n', k_syms st !! s = Some y ∧ y_name y = Some n') →
  ∃ r, find_chain n c l st = Ok (r, st) ∧
    match r with
    | Some s => s ∈ l ∧ keyed st s n c
    | None => ∀ s, s ∈ l → ¬ keyed st s n c
    end.
Proof.
  induction l as [|s l IH]; intros Hl; cbn [find_chain].
  { exists None. split; [done|]. intros s Hs. by apply not_elem_of_nil in Hs. }
  destruct (Hl s) as (y & n' & E & En); [by left|]. unfold bind, get_sym, non_null, lift, ret. rewrite E, En.
  destruct (bool_decide (n' = n) && bool_decide (has SYMBOL_CONST y = c)) eqn:Hk.
  - apply andb_true_iff in Hk as [->%bool_decide_eq_true Hc%bool_decide_eq_true].
    exists (Some s). split; [done|]. split; [by left|]. by exists y.
  - destruct IH as (r & Er & Hr); [intros; apply Hl; by right|]. exists r. split; [done|].
    destruct r as [x|]; [destruct Hr; split; [by right|done]|].
    intros x [->|Hx]%elem_of_cons; [|by apply Hr]. intros (z & Ez & Hn & Hc). simplify_eq.
    rewrite !bool_decide_true in Hk; done.
Qed.

(** What a search needs of the table. *)
Record indexes (st : kst) (m : table) : Prop := {
  ix_size : length (k_hash st) = SYMBOL_HASHSIZE;
  ix_map n c s : m !! (n, c) = Some s ↔ const_name n = None ∧ in_chain st (hash_name n) s ∧ keyed st s n c;
  ix_chain h s : in_chain st h s → ∃ y, k_syms st !! s = Some y ∧
    match y_name y with Some n => h = hash_name n | None => h = 256%nat end }.
Lemma represents_indexes st m : represents st m → indexes st m.
Proof. by intros []. Qed.

(** The chain of a name is searched for it. *)
Lemma search_indexed st m n c :
  indexes st m → const_name n = None →
  find_chain n c (default [] (k_hash st !! hash_name n)) st = Ok (m !! (n, c), st).
Proof.
  intros HR Hn. destruct (k_hash st !! hash_name n) as [l|] eqn:El.
  2: { apply lookup_ge_None in El. rewrite (ix_size _ _ HR) in El. pose proof (hash_name_lt n). unfold SYMBOL_HASHSIZE in *. lia. }
  simpl. destruct (find_chain_ok st n c l) as (r & Er & Hr).
  { intros s Hs. destruct (ix_chain _ _ HR (hash_name n) s) as (y & E & Hy); [by exists l|].
    exists y. destruct (y_name y) as [n'|]; [eauto|]. pose proof (hash_name_lt n). lia. }
  rewrite Er. repeat f_equal. symmetry. destruct r as [s|].
  - destruct Hr as [Hs Hk]. apply (ix_map _ _ HR). split; [done|]. split; [by exists l|done].
  - destruct (m !! (n, c)) as [s|] eqn:Em; [|done]. apply (ix_map _ _ HR) in Em as (_ & (l' & El' & Hs) & Hk).
    simplify_eq. by destruct (Hr s).
Qed.
Lemma search_chain st m n c :
  represents st m → const_name n = None →
  find_chain n c (default [] (k_hash st !! hash_name n)) st = Ok (m !! (n, c), st).
Proof. intros HR. by apply search_indexed, represents_indexes. Qed.

Lemma find_indexed st m n : indexes st m → sym_find (Some n) st = Ok (answer m n false, st).
Proof.
  intros HR. unfold sym_find, answer. destruct (const_name n) as [s|] eqn:Hn; [done|].
  unfold bind, chain, get. by apply search_indexed.
Qed.
Lemma find_spec st m n : represents st m → sym_find (Some n) st = Ok (answer m n false, st).
Proof. intros HR. by apply find_indexed, represents_indexes. Qed.

(** ** A new symbol *)

Lemma alloc_state st name c h :
  alloc_sym name c h st = Ok (k_next st,
    Kst (<[k_next st := new_sym name c]> (k_syms st)) (alter (cons (k_next st)) h (k_hash st)) (Pos.succ (k_next st))
      (k_modules_sym st) (k_modules_val st) (k_change_count st) (k_menus st) (k_out st)).
Proof. done. Qed.

Lemma in_chain_alter st s h syms nx ms mv cc mn out h' x :
  length (k_hash st) = SYMBOL_HASHSIZE → (h ≤ 256)%nat →
  in_chain (Kst syms (alter (cons s) h (k_hash st)) nx ms mv cc mn out) h' x ↔
  (h' = h ∧ x = s) ∨ in_chain st h' x.
Proof.
  intros Hlen Hh. unfold in_chain. simpl. destruct (decide (h = h')) as [<-|Hne].
  - destruct (lookup_lt_is_Some_2 (k_hash st) h) as [l El]; [rewrite Hlen; unfold SYMBOL_HASHSIZE; lia|].
    rewrite list_lookup_alter_eq, El. simpl. split.
    + intros (l' & [= <-] & [->|Hx]%elem_of_cons); [by left|right; eauto].
    + intros [[_ ->]|(l' & [= <-] & Hx)]; (eexists; split; [done|]); [by left|by right].
  - rewrite list_lookup_alter_ne by done. naive_solver.
Qed.

Section alloc.
Context (st : kst) (m : table) (HR : represents st m).

Lemma next_new : k_syms st !! k_next st = None.
Proof using HR.
  apply not_elem_of_dom. intros H%(rp_fresh _ _ HR). lia.
Qed.

Lemma has_const_new name c : has SYMBOL_CONST (new_sym name c) = c.
Proof using. by destruct c. Qed.

Lemma alloc_represents name c h st' :
  match name with
  | Some n => h = hash_name n ∧ const_name n = None ∧ m !! (n, c) = None
  | None => h = 256%nat
  end →
  alloc_sym name c h st = Ok (k_next st, st') →
  represents st' (match name with Some n => <[(n, c) := k_next st]> m | None => m end).
Proof using HR.
  intros Hh. rewrite alloc_state. intros [= <-]. pose proof next_new as Hnew. pose proof (rp_size _ _ HR) as Hlen.
  assert (h ≤ 256)%nat as Hle. { destruct name as [n|]; [destruct Hh as [-> _]; pose proof (hash_name_lt n)|]; lia. }
  assert (∀ h x, in_chain st h x → x ≠ k_next st) as Hold.
  { intros h' x (y & E & _)%(rp_chain _ _ HR). intros ->. congruence. }
  constructor.
  - simpl. by rewrite length_alter.
  - intros n' c' s. rewrite in_chain_alter by done. unfold keyed. simpl.
    assert (s ≠ k_next st → m !! (n', c') = Some s ↔ const_name n' = None ∧ in_chain st (hash_name n') s ∧
      ∃ y, <[k_next st:=new_sym name c]> (k_syms st) !! s = Some y ∧ y_name y = Some n' ∧ has SYMBOL_CONST y = c') as Hs.
    { intros Hne. rewrite lookup_insert_ne by done. apply (rp_map _ _ HR). }
    destruct (decide (s = k_next st)) as [->|Hne].
    + rewrite lookup_insert_eq. assert (m !! (n', c') ≠ Some (k_next st)) as Hm.
      { intros (_ & Hi & _)%(rp_map _ _ HR). by apply Hold in Hi. }
      destruct name as [n|].
      * destruct Hh as (-> & Hn & _). destruct (decide ((n, c) = (n', c'))) as [[= -> ->]|Hd].
        -- rewrite lookup_insert_eq. split; [|done]. intros _. split; [done|]. split; [by left|].
           eexists. split; [done|]. split; [done|apply has_const_new].
        -- rewrite lookup_insert_ne by done. split; [done|]. intros (_ & _ & y & [= <-] & [= ->] & Hc).
           rewrite has_const_new in Hc. congruence.
      * split; [done|]. intros (_ & _ & y & [= <-] & Hy & _). done.
    + transitivity (m !! (n', c') = Some s).
      * destruct name as [n|]; [|done]. destruct (decide ((n, c) = (n', c'))) as [[= -> ->]|Hd].
        -- rewrite lookup_insert_eq. destruct Hh as (_ & _ & ->). split; [congruence|done].
        -- by rewrite lookup_insert_ne.
      * rewrite Hs by done. naive_solver.
  - intros h' s [[-> ->]|Hi]%in_chain_alter; [|..|done|done].
    + simpl. exists (new_sym name c). rewrite lookup_insert_eq. split; [done|]. simpl.
      destruct name; [by destruct Hh|done].
    + simpl. rewrite lookup_insert_ne by (symmetry; by eapply Hold). by apply (rp_chain _ _ HR).
  - simpl. intros s. rewrite dom_insert_L. intros [->%elem_of_singleton|Hs%(rp_fresh _ _ HR)]%elem_of_union; lia.
Qed.
End alloc.

(** The effect of a lookup on the abstract table. *)
Definition enter_name (m : table) (n : string) (c : bool) (s : symbol) : table :=
  match answer m n c with Some _ => m | None => <[(n, c) := s]> m end.

Lemma lookup_spec st m n c :
  represents st m →
  ∃ s st', sym_lookup (Some n) c st = Ok (s, st') ∧
    s = default (k_next st) (answer m n c) ∧ represents st' (enter_name m n c s) ∧
    (answer m n c = None → s ∉ dom (k_syms st)).
Proof.
  intros HR. unfold sym_lookup, enter_name, answer. destruct (const_name n) as [s|] eqn:Hn.
  { by exists s, st. }
  unfold bind at 1, chain, get. unfold bind at 1. rewrite (search_chain _ _ _ _ HR Hn).
  destruct (m !! (n, c)) as [s|] eqn:Em; [by exists s, st|].
  rewrite alloc_state. eexists _, _. split; [done|]. split; [done|]. split.
  - apply (alloc_represents st m HR (Some n) c (hash_name n)); [done|apply alloc_state].
  - intros _ H%(rp_fresh _ _ HR). lia.
Qed.
Lemma lookup_nameless st m c :
  represents st m →
  ∃ st', sym_lookup None c st = Ok (k_next st, st') ∧ represents st' m ∧ k_next st ∉ dom (k_syms st).
Proof.
  intros HR. eexists. split; [apply alloc_state|]. split.
  - by apply (alloc_represents st m HR None c 256 _ eq_refl (alloc_state _ _ _ _)).
  - intros H%(rp_fresh _ _ HR). lia.
Qed.

(** ** Sequences of lookups *)

Fixpoint lookups (l : list (string * bool)) : K (list symbol) :=
  match l with
  | [] => ret []
  | (n, c) :: l' => s <- sym_lookup (Some n) c;; r <- lookups l';; ret (s :: r)
  end.

Lemma enter_mono m n c s n' c' s' : answer m n' c' = Some s' → answer (enter_name m n c s) n' c' = Some s'.
Proof.
  unfold enter_name. destruct (answer m n c) eqn:E; [done|]. intros H. unfold answer in *.
  destruct (const_name n') eqn:Hn; [done|]. rewrite lookup_insert_ne; [done|]. intros [= -> ->].
  rewrite Hn in E. congruence.
Qed.
Lemma enter_answer m n c s : answer m n c = Some s ∨ answer m n c = None → answer (enter_name m n c s) n c = Some s.
Proof.
  intros [H|H]; [by apply enter_mono|]. unfold enter_name. rewrite H. unfold answer in *.
  destruct (const_name n); [done|]. apply lookup_insert_eq.
Qed.

Lemma enter_only m n c s n' c' s' :
  answer (enter_name m n c s) n' c' = Some s' → answer m n' c' = Some s' ∨ (n', c') = (n, c).
Proof.
  unfold enter_name. destruct (answer m n c) eqn:E; [by left|]. unfold answer.
  destruct (const_name n'); [by left|]. destruct (decide ((n', c') = (n, c))) as [->|Hd]; [by right|].
  rewrite lookup_insert_ne by done. by left.
Qed.
Lemma answer_inj st m n c n' c' s :
  represents st m → const_name n = None → const_name n' = None →
  answer m n c = Some s → answer m n' c' = Some s → (n, c) = (n', c').
Proof.
  intros HR Hn Hn'. unfold answer. rewrite Hn, Hn'. intros (_ & _ & y & E & E1 & E2)%(rp_map _ _ HR)
    (_ & _ & y' & E' & E1' & E2')%(rp_map _ _ HR). congruence.
Qed.

Lemma lookups_spec l : ∀ st m, represents st m →
  ∃ r st' m', lookups l st = Ok (r, st') ∧ represents st' m' ∧
    Forall2 (λ k s, answer m' k.1 k.2 = Some s) l r ∧
    (∀ n c s, answer m n c = Some s → answer m' n c = Some s) ∧
    (∀ n c s, answer m' n c = Some s → answer m n c = Some s ∨ (n, c) ∈ l).
Proof.
  induction l as [|[n c] l IH]; intros st m HR; cbn [lookups].
  { exists [], st, m. split; [done|]. split; [done|]. split; [done|]. split; [done|by left]. }
  destruct (lookup_spec st m n c HR) as (s & st1 & E & Es & HR1 & _).
  destruct (IH _ _ HR1) as (r & st2 & m' & E2 & HR2 & HF & Hmono & Honly).
  exists (s :: r), st2, m'. split; [unfold bind; by rewrite E, E2|]. split; [done|]. split.
  - constructor; [|done]. apply Hmono, enter_answer. simpl. rewrite Es. destruct (answer m n c); [by left|by right].
  - split; intros n' c' s' H; [by apply Hmono, enter_mono|].
    destruct (Honly _ _ _ H) as [[H1| ->]%enter_only|Hin]; [by left|right; by left|right; by right].
Qed.

Lemma init_represents : represents init_kst ∅.
Proof.
  assert (∀ h s, ¬ in_chain init_kst h s) as Hempty.
  { intros h s (l & [-> _]%lookup_replicate & Hs). by apply not_elem_of_nil in Hs. }
  constructor.
  - apply length_replicate.
  - intros n c s. rewrite lookup_empty. split; [done|]. by intros (_ & []%Hempty & _).
  - by intros h s []%Hempty.
  - intros s Hs. simpl in *. rewrite !dom_insert_L in Hs. unfold symbol_yes, symbol_mod, symbol_no, symbol_empty in Hs.
    set_solver by lia.
Qed.

(** Changes of other fields. *)
Definition key_of (y : sym) : option string * bool := (y_name y, has SYMBOL_CONST y).
Lemma indexes_same st st' m :
  indexes st m → k_hash st' = k_hash st → (∀ x : symbol, key_of <$> k_syms st' !! x = key_of <$> k_syms st !! x) → indexes st' m.
Proof.
  intros HR Hh Hk.
  assert (∀ s n c, keyed st' s n c ↔ keyed st s n c) as Hkey.
  { intros s n c. unfold keyed. specialize (Hk s). split; intros (y & E & Hy); rewrite E in Hk.
    - destruct (k_syms st !! s) as [y0|]; [|done]. injection Hk as H1 H2. exists y0. by rewrite <- H1, <- H2.
    - destruct (k_syms st' !! s) as [y0|]; [|done]. injection Hk as H1 H2. exists y0. by rewrite H1, H2. }
  constructor.
  - rewrite Hh. apply HR.
  - intros n c s. rewrite (ix_map _ _ HR), Hkey. unfold in_chain. by rewrite Hh.
  - intros h s Hs. unfold in_chain in Hs. rewrite Hh in Hs. destruct (ix_chain _ _ HR h s Hs) as (y & E & Hy).
    specialize (Hk s). rewrite E in Hk. destruct (k_syms st' !! s) as [y'|]; [|done]. injection Hk as H1 H2. exists y'. by rewrite H1.
Qed.
