(* ===== verification/KSymbolRef.v ===== *)
(** * A reference for the values of symbols

    The value of a symbol as equations over the values of the symbols it
    depends on, without marks, order of computation or state.  Conditions are
    evaluated by the model of expr.c ([KExpr.expr_calc_value]) over the table
    of all values.  For a configuration without recursion the equations have
    one solution, [value_of]. *)

From stdpp Require Import base numbers list option strings gmap.
From S2P Require Import Prelude CString KExpr KSymbol KSymbolEnds KSymbolCheck.
Local Open Scope Z_scope.

(** What expr.c reads of a symbol. *)
Definition val_string (v : vval) : string := match v with VStr _ s => s | _ => "" end.
Definition info (y : sym) : syminfo :=
  Syminfo (y_type y) (has SYMBOL_CONST y) (y_name y) (v_tri (y_curr y)) (val_string (v_val (y_curr y))).

Section equations.
Context (Sg : symbol → syminfo) (mv : tristate).

Definition cond (e : option expr) : tristate := KExpr.expr_calc_value Sg e.
(** A property of a kind whose condition holds. *)
Definition applies (kind : property → bool) (p : property) : bool :=
  kind p && bool_decide (cond (pr_vis p) ≠ Tno).
Definition first_of (kind : property → bool) (l : list property) : option property :=
  head (filter (λ p, applies kind p = true) l).

Definition type_of (t : symbol_type) : symbol_type :=
  if bool_decide (t = S_TRISTATE) && bool_decide (mv = Tno) then S_BOOLEAN else t.
(** A boolean has no third value. *)
Definition rounded (t : symbol_type) (v : tristate) : tristate :=
  if bool_decide (v = Tmod) && bool_decide (type_of t = S_BOOLEAN) then Tyes else v.

Definition prompt_conds (l : list property) : list tristate := (λ p, cond (pr_vis p)) <$> filter (λ p, is_prompt p = true) l.
Definition vis_of (y : sym) : tristate :=
  let t := foldr tri_or Tno (prompt_conds (y_prop y)) in
  if bool_decide (t = Tmod) && bool_decide (type_of (y_type y) ≠ S_TRISTATE) then Tyes else t.
Definition rev_of (y : sym) : tristate :=
  rounded (y_type y) (match y_rev y with Some e => calc_value Sg e | None => Tno end).

Definition default_tri (y : sym) : tristate :=
  match first_of is_default (y_prop y) with Some p => cond (pr_expr p) | None => Tno end.
Definition tri_of (y : sym) : tristate :=
  rounded (y_type y)
    (if bool_decide (tri_or (vis_of y) (rev_of y) ≠ Tno) then
       tri_or (tri_and (if sym_has_value y then v_tri (y_def y) else default_tri y) (vis_of y)) (rev_of y)
     else default_tri y).

Definition default_str (y : sym) : string :=
  match first_of is_default (y_prop y) with
  | Some p => match pr_expr p with Some (ESymbol d) => s_val (Sg d) | _ => "" end
  | None => ""
  end.
Definition str_of (y : sym) : string :=
  if bool_decide (vis_of y ≠ Tno) && sym_has_value y then val_string (v_val (y_def y)) else default_str y.

(** The bounds of a range; a bound of another type is read in the base of the symbol. *)
Definition bound (base : Z) (d : symbol) : Z :=
  strtol_base (default base (base_of (s_type (Sg d)))) (bytes (s_val (Sg d))).
Definition shown (t : symbol_type) (v : Z) : string := if bool_decide (t = S_INT) then print_d v else print_x v.
Definition in_range (t : symbol_type) (base : Z) (a b : symbol) (str : string) : string :=
  let v := strtol_base base (bytes str) in
  if bool_decide (v < bound base a) then shown t (bound base a)
  else if bool_decide (bound base b < v) then shown t (bound base b)
  else str.
Definition ranged (y : sym) (str : string) : string :=
  match base_of (y_type y) with
  | None => str
  | Some base =>
      match first_of is_range (y_prop y) with
      | Some p => match pr_expr p with Some (ERange a b) => in_range (y_type y) base a b str | _ => str end
      | None => str
      end
  end.

(** Whether a configuration has a line for the symbol: it is visible, or has a default. *)
Definition has_default (y : sym) : bool :=
  match first_of is_default (y_prop y) with
  | Some p => is_bool_type (y_type y) || match pr_expr p with Some (ESymbol _) => true | _ => false end
  | None => false
  end.
Definition saved_of (y : sym) : bool :=
  bool_decide ((if is_bool_type (y_type y) then tri_or (vis_of y) (rev_of y) else vis_of y) ≠ Tno) || has_default y.

(** The value of a symbol; one that is marked valid keeps its value. *)
Definition equation (y : sym) : syminfo :=
  if has SYMBOL_VALID y then info y
  else
    let entry := Syminfo (y_type y) (has SYMBOL_CONST y) (y_name y) in
    match y_type y with
    | S_BOOLEAN | S_TRISTATE => entry (tri_of y) "n"
    | S_INT | S_HEX | S_STRING => entry Tno (ranged y (str_of y))
    | S_UNKNOWN | S_OTHER => entry Tno (default "" (y_name y))
    end.
End equations.

(** ** The dependencies *)

Definition range_ops (e : option expr) : list symbol := match e with Some (ERange a b) => [a; b] | _ => [] end.
Definition prop_deps (p : property) : list symbol :=
  (if is_prompt p || is_default p || is_range p then opt_syms (pr_vis p) else []) ++
  (if is_default p then opt_syms (pr_expr p) else []) ++
  (if is_range p then range_ops (pr_expr p) else []).
Definition deps (y : sym) : list symbol := opt_syms (y_rev y) ++ (y_prop y ≫= prop_deps).

Lemma filter_ext_in {A} (P Q : A → Prop) `{∀ x, Decision (P x), ∀ x, Decision (Q x)} (l : list A) :
  (∀ x, x ∈ l → P x ↔ Q x) → filter P l = filter Q l.
Proof.
  induction l as [|a l IH]; intros Hl; [done|]. rewrite !filter_cons, IH by (intros; apply Hl; by right).
  assert (P a ↔ Q a) by (apply Hl; by left). repeat case_decide; tauto.
Qed.

Section ext.
Context (S1 S2 : symbol → syminfo) (mv : tristate).

Lemma calc_ext e : (∀ d, d ∈ expr_syms e → S1 d = S2 d) → calc_value S1 e = calc_value S2 e.
Proof.
  induction e as [a|l IH|a b|a b|l IHl r IHr|l IHl r IHr|vs|a b]; intros H; cbn [calc_value expr_syms] in *; try done.
  - by rewrite H by set_solver.
  - by rewrite IH.
  - unfold KExpr.sym_get_string_value, is_type. by rewrite !H by set_solver.
  - unfold KExpr.sym_get_string_value, is_type. by rewrite !H by set_solver.
  - by rewrite IHl, IHr by set_solver.
  - by rewrite IHl, IHr by set_solver.
Qed.
Lemma cond_ext e : (∀ d, d ∈ opt_syms e → S1 d = S2 d) → cond S1 e = cond S2 e.
Proof. destruct e; [apply calc_ext|done]. Qed.

Lemma deps_prop y p d : p ∈ y_prop y → d ∈ prop_deps p → d ∈ deps y.
Proof. intros Hp Hd. apply elem_of_app. right. apply list_elem_of_bind. by exists p. Qed.

Context (y : sym) (Heq : ∀ d, d ∈ deps y → S1 d = S2 d).

Lemma vis_ext p : p ∈ y_prop y → is_prompt p || is_default p || is_range p = true → cond S1 (pr_vis p) = cond S2 (pr_vis p).
Proof using Heq.
  intros Hp Hk. apply cond_ext. intros d Hd. apply Heq, (deps_prop _ p); [done|]. unfold prop_deps. rewrite Hk. set_solver.
Qed.
Lemma first_ext kind : (∀ p, kind p = true → is_prompt p || is_default p || is_range p = true) →
  first_of S1 kind (y_prop y) = first_of S2 kind (y_prop y).
Proof using Heq.
  intros Hk. unfold first_of. f_equal. apply filter_ext_in. intros p Hp. unfold applies.
  destruct (kind p) eqn:E; [|done]. by rewrite (vis_ext p) by auto.
Qed.
Lemma first_of_in Sg kind l p : first_of Sg kind l = Some p → p ∈ l ∧ kind p = true.
Proof using.
  unfold first_of. intros H. assert (p ∈ filter (λ p, applies Sg kind p = true) l) as Hp.
  { destruct (filter _ l); [done|]. injection H as ->. by left. }
  apply list_elem_of_filter in Hp as [Ha Hp]. split; [done|]. by apply andb_true_iff in Ha as [Ha _].
Qed.
Lemma default_ext : first_of S1 is_default (y_prop y) = first_of S2 is_default (y_prop y) ∧
  ∀ p, first_of S2 is_default (y_prop y) = Some p → ∀ d, d ∈ opt_syms (pr_expr p) → S1 d = S2 d.
Proof using Heq.
  split; [apply first_ext; intros p ->; by rewrite orb_true_r|].
  intros p [Hp Hk]%first_of_in d Hd. apply Heq, (deps_prop _ p); [done|]. unfold prop_deps. rewrite Hk. set_solver.
Qed.
Lemma vis_of_ext : vis_of S1 mv y = vis_of S2 mv y.
Proof using Heq.
  unfold vis_of. assert (prompt_conds S1 (y_prop y) = prompt_conds S2 (y_prop y)) as ->; [|done].
  unfold prompt_conds. apply list_fmap_ext. intros i p Hp%list_elem_of_lookup_2. apply list_elem_of_filter in Hp as [Hk Hp].
  apply vis_ext; [done|]. by rewrite Hk.
Qed.
Lemma rev_of_ext : rev_of S1 mv y = rev_of S2 mv y.
Proof using Heq.
  unfold rev_of. f_equal. destruct (y_rev y) as [e|] eqn:E; [|done]. apply calc_ext. intros d Hd.
  apply Heq, elem_of_app. left. by rewrite E.
Qed.
Lemma default_tri_ext : default_tri S1 y = default_tri S2 y.
Proof using Heq.
  destruct default_ext as [H1 H2]. unfold default_tri. rewrite H1. destruct (first_of S2 is_default _) as [p|]; [|done].
  apply cond_ext. by apply H2.
Qed.
Lemma default_str_ext : default_str S1 y = default_str S2 y.
Proof using Heq.
  destruct default_ext as [H1 H2]. unfold default_str. rewrite H1. destruct (first_of S2 is_default _) as [p|]; [|done].
  specialize (H2 p eq_refl). destruct (pr_expr p) as [[]|]; try done. by rewrite H2 by (simpl; set_solver).
Qed.
Lemma saved_of_ext : saved_of S1 mv y = saved_of S2 mv y.
Proof using Heq.
  unfold saved_of, has_default. rewrite vis_of_ext, rev_of_ext. by rewrite (proj1 default_ext).
Qed.
Lemma ranged_ext str : ranged S1 y str = ranged S2 y str.
Proof using Heq.
  unfold ranged. destruct (base_of (y_type y)) as [b|]; [|done].
  rewrite (first_ext is_range) by (intros p ->; by rewrite orb_true_r).
  destruct (first_of S2 is_range _) as [p|] eqn:E; [|done]. destruct (pr_expr p) as [[]|] eqn:Ep; try done.
  apply first_of_in in E as [Hp Hk]. unfold in_range, bound.
  rewrite !Heq by (apply (deps_prop _ p); [done|]; unfold prop_deps; rewrite Hk, Ep; simpl; set_solver). done.
Qed.
Lemma equation_ext : equation S1 mv y = equation S2 mv y.
Proof using Heq.
  unfold equation, tri_of, str_of. by rewrite vis_of_ext, rev_of_ext, default_tri_ext, default_str_ext, ranged_ext.
Qed.
End ext.

(** ** The solution *)

Definition no_info : syminfo := Syminfo S_UNKNOWN false None Tno "".

(** [n] levels of dependencies. *)
Fixpoint value_of (S : gmap symbol sym) (mv : tristate) (n : nat) (x : symbol) : syminfo :=
  match n, S !! x with
  | O, _ | _, None => no_info
  | Datatypes.S n', Some y => equation (value_of S mv n') mv y
  end.

(** A rank for the dependencies of the symbols without valid mark. *)
Definition ranks (S : gmap symbol sym) (rank : symbol → nat) : Prop :=
  ∀ x y d, S !! x = Some y → has SYMBOL_VALID y = false → d ∈ deps y → d ∈ dom S ∧ (rank d < rank x)%nat.

(** A symbol without valid mark depends on another one. *)
Definition depends (S : gmap symbol sym) (x d : symbol) : Prop :=
  ∃ y, S !! x = Some y ∧ has SYMBOL_VALID y = false ∧ d ∈ deps y.

Lemma equation_deps S1 S2 mv y :
  (has SYMBOL_VALID y = false → ∀ d, d ∈ deps y → S1 d = S2 d) → equation S1 mv y = equation S2 mv y.
Proof.
  intros H. destruct (has SYMBOL_VALID y) eqn:E; [unfold equation; by rewrite E|]. apply equation_ext. auto.
Qed.

(** More levels than the rank make no difference. *)
Lemma value_of_levels S mv rank : ranks S rank → ∀ n m x, (rank x < n)%nat → (rank x < m)%nat →
  value_of S mv n x = value_of S mv m x.
Proof.
  intros HS. induction n as [|n IH]; intros m x Hn Hm; [lia|]. destruct m as [|m]; [lia|]. cbn [value_of].
  destruct (S !! x) as [y|] eqn:E; [|done]. apply equation_deps. intros Hv d Hd.
  destruct (HS x y d E Hv Hd) as [_ Hr]. apply IH; lia.
Qed.
(** The solution of the equations. *)
Lemma value_of_equation S mv rank : ranks S rank → ∀ x y, S !! x = Some y →
  value_of S mv (Datatypes.S (rank x)) x = equation (λ d, value_of S mv (Datatypes.S (rank d)) d) mv y.
Proof.
  intros HS x y E. transitivity (equation (value_of S mv (rank x)) mv y); [simpl; by rewrite E|].
  apply equation_deps. intros Hv d Hd.
  destruct (HS x y d E Hv Hd) as [_ Hr]. apply (value_of_levels _ _ rank HS); lia.
Qed.

(** ** Ranges *)

Lemma strtol_range base l : int_range (strtol_base base l).
Proof.
  unfold strtol_base. destruct (match drop_spaces l with 45 :: r => _ | _ => _ end) as [neg l2]. unfold clamp. unfold_ranges. lia.
Qed.
(** A number that is put into a range is in the range, when the bounds are in order. *)
Lemma in_range_bounds Sg a b str : bound Sg 10 a ≤ bound Sg 10 b →
  bound Sg 10 a ≤ strtol_base 10 (bytes (in_range Sg S_INT 10 a b str)) ≤ bound Sg 10 b.
Proof.
  intros H. unfold in_range. cbv zeta. case_bool_decide; [|case_bool_decide; [|lia]].
  - unfold shown. rewrite bool_decide_true, strtol_print_d by (done || apply strtol_range). lia.
  - unfold shown. rewrite bool_decide_true, strtol_print_d by (done || apply strtol_range). lia.
Qed.
(** A number that is in a range stays as it is. *)
Lemma in_range_again Sg t base a b str : base_of t = Some base → bound Sg base a ≤ bound Sg base b → (t = S_HEX → 0 ≤ bound Sg base a) →
  in_range Sg t base a b (in_range Sg t base a b str) = in_range Sg t base a b str.
Proof.
  intros Hb Hab Hx.
  assert (∀ d, bound Sg base a ≤ bound Sg base d → strtol_base base (bytes (shown t (bound Sg base d))) = bound Sg base d) as Hs.
  { intros d Hd. pose proof (strtol_range (default base (base_of (s_type (Sg d)))) (bytes (s_val (Sg d)))) as Hr. unfold shown.
    destruct t; try done; injection Hb as <-.
    - rewrite bool_decide_true by done. apply strtol_print_d, Hr.
    - rewrite bool_decide_false by done. apply strtol_print_x. specialize (Hx eq_refl). split; [lia|]. apply Hr. }
  unfold in_range at 2 3. cbv zeta.
  destruct (decide (strtol_base base (bytes str) < bound Sg base a)) as [H1|H1]; [|destruct (decide (bound Sg base b < strtol_base base (bytes str))) as [H2|H2]].
  - rewrite !(bool_decide_true (_ < bound Sg base a)) by done. unfold in_range. rewrite Hs by lia. by rewrite !bool_decide_false by lia.
  - rewrite !(bool_decide_false (_ < bound Sg base a)), !(bool_decide_true (bound Sg base b < _)) by done.
    unfold in_range. rewrite Hs by lia. by rewrite !bool_decide_false by lia.
  - rewrite !bool_decide_false by done. unfold in_range. by rewrite !bool_decide_false by lia.
Qed.
