(* ===== verification/KSymbolCalc.v ===== *)
(** * The computed values are the reference values (sym_calc_value in symbol.c)

    In a configuration without choices and recursion, the values that
    [sym_calc_value] leaves in the symbols solve the equations of KSymbolRef.v,
    whatever symbols were computed before and in which order. *)

From stdpp Require Import base numbers list option strings gmap.
From S2P Require Import Prelude CString KExpr KSymbol KSymbolEnds KSymbolCheck KSymbolRef.
Local Open Scope Z_scope.
Local Open Scope c_scope.

(** ** Runs without fault *)

Section wp.
Context {St : Type}.
Definition wp {A} (m : M St A) (Q : A → St → Prop) (st : St) : Prop := ∃ a st', m st = Ok (a, st') ∧ Q a st'.

Lemma wp_ret {A} (a : A) Q st : Q a st → wp (ret a) Q st.
Proof using. intros H. by exists a, st. Qed.
Lemma wp_bind {A B} (m : M St A) (k : A → M St B) Q st : wp m (λ a st', wp (k a) Q st') st → wp (bind m k) Q st.
Proof using. intros (a & st1 & E & b & st2 & E2 & H). exists b, st2. split; [|done]. by rewrite (bind_ok _ _ _ _ _ E). Qed.
Lemma wp_lift {A} (r : res A) a Q st : r = Ok a → Q a st → wp (lift r) Q st.
Proof using. intros -> H. by exists a, st. Qed.
Lemma wp_mono {A} (m : M St A) (P Q : A → St → Prop) st : wp m P st → (∀ a st', P a st' → Q a st') → wp m Q st.
Proof using. intros (a & st' & E & H) HQ. exists a, st'. auto. Qed.
End wp.

Lemma wp_get {A} (f : kst → A) Q st : Q (f st) st → wp (get f) Q st.
Proof. intros H. by eexists _, _. Qed.
Lemma wp_get_sym x y Q st : k_syms st !! x = Some y → Q y st → wp (get_sym x) Q st.
Proof. intros E H. exists y, st. unfold get_sym. by rewrite E. Qed.
Lemma wp_upd f Q st : Q tt (f st) → wp (upd f) Q st.
Proof. intros H. by eexists _, _. Qed.

(** ** Symbols with the same configuration *)

Section same.
Context (y y0 : sym) (Hc : config_of y = config_of y0).

Lemma same_fields : y_name y = y_name y0 ∧ y_type y = y_type y0 ∧ y_def y = y_def y0 ∧ y_rev y = y_rev y0 ∧
  erase_prop <$> y_prop y = erase_prop <$> y_prop y0 ∧
  has SYMBOL_CONST y = has SYMBOL_CONST y0 ∧ sym_is_choice y = sym_is_choice y0 ∧
  sym_is_choice_value y = sym_is_choice_value y0 ∧ sym_has_value y = sym_has_value y0.
Proof using Hc.
  unfold config_of, static_flags in Hc. simplify_eq. unfold sym_is_choice, sym_is_choice_value, sym_has_value. auto 10.
Qed.
Lemma same_auto : y_auto y = y_auto y0.
Proof using Hc. unfold config_of in Hc. by simplify_eq. Qed.
Lemma same_auto_flags : has SYMBOL_DEF_AUTO y = has SYMBOL_DEF_AUTO y0 ∧ has SYMBOL_AUTO y = has SYMBOL_AUTO y0.
Proof using Hc. unfold config_of, static_flags in Hc. by simplify_eq. Qed.
End same.

Lemma first_of_cons Sg kind p l : first_of Sg kind (p :: l) = if applies Sg kind p then Some p else first_of Sg kind l.
Proof. unfold first_of. rewrite filter_cons. case_decide as H; [by rewrite H|]. by destruct (applies Sg kind p). Qed.
Lemma prompt_conds_cons Sg p l :
  prompt_conds Sg (p :: l) = if is_prompt p then cond Sg (pr_vis p) :: prompt_conds Sg l else prompt_conds Sg l.
Proof. unfold prompt_conds. rewrite filter_cons. case_decide as H; [by rewrite H|]. by destruct (is_prompt p). Qed.

(** Properties that differ in [visible.tri]. *)
Lemma first_of_erase Sg kind l : (∀ p, kind (erase_prop p) = kind p) →
  erase_prop <$> first_of Sg kind l = first_of Sg kind (erase_prop <$> l).
Proof.
  intros Hk. induction l as [|p l IH]; [done|].
  assert (applies Sg kind (erase_prop p) = applies Sg kind p) as E by (unfold applies; by rewrite Hk).
  rewrite fmap_cons, !first_of_cons, E. by destruct (applies Sg kind p).
Qed.
Lemma prompt_conds_erase Sg l : prompt_conds Sg (erase_prop <$> l) = prompt_conds Sg l.
Proof.
  induction l as [|p l IH]; [done|]. rewrite fmap_cons, !prompt_conds_cons, IH. done.
Qed.
Lemma deps_erase l : (erase_prop <$> l) ≫= prop_deps = l ≫= prop_deps.
Proof. induction l as [|p l IH]; [done|]. rewrite fmap_cons, !bind_cons, IH. done. Qed.

Section same_values.
Context (Sg : symbol → syminfo) (mv : tristate) (y y0 : sym) (Hc : config_of y = config_of y0).

Lemma same_first {A} kind (f : property → A) : (∀ p, kind (erase_prop p) = kind p) → (∀ p, f (erase_prop p) = f p) →
  f <$> first_of Sg kind (y_prop y) = f <$> first_of Sg kind (y_prop y0).
Proof using Hc.
  intros Hk Hf. destruct (same_fields _ _ Hc) as (_ & _ & _ & _ & Hp & _).
  assert (∀ l, f <$> first_of Sg kind l = f <$> first_of Sg kind (erase_prop <$> l)) as H.
  { intros l. rewrite <- first_of_erase by done. destruct (first_of Sg kind l); simpl; by rewrite ?Hf. }
  by rewrite H, Hp, <- H.
Qed.
Lemma same_deps : deps y = deps y0.
Proof using Hc.
  destruct (same_fields _ _ Hc) as (_ & _ & _ & Hr & Hp & _). unfold deps. rewrite Hr. f_equal.
  by rewrite <- deps_erase, Hp, deps_erase.
Qed.
Lemma same_vis : vis_of Sg mv y = vis_of Sg mv y0.
Proof using Hc.
  destruct (same_fields _ _ Hc) as (_ & Ht & _ & _ & Hp & _). unfold vis_of. rewrite Ht.
  by rewrite <- prompt_conds_erase, Hp, prompt_conds_erase.
Qed.
Lemma same_rev : rev_of Sg mv y = rev_of Sg mv y0.
Proof using Hc. destruct (same_fields _ _ Hc) as (_ & Ht & _ & Hr & _). unfold rev_of. by rewrite Ht, Hr. Qed.
Lemma same_default : default_tri Sg y = default_tri Sg y0 ∧ default_str Sg y = default_str Sg y0.
Proof using Hc.
  pose proof (same_first is_default pr_expr (λ _, eq_refl) (λ _, eq_refl)) as H. unfold default_tri, default_str.
  destruct (first_of Sg is_default (y_prop y)) as [p|], (first_of Sg is_default (y_prop y0)) as [p0|]; simplify_eq/=; [|done].
  by rewrite H.
Qed.
Lemma same_saved : saved_of Sg mv y = saved_of Sg mv y0.
Proof using Hc.
  unfold saved_of, has_default. rewrite same_vis, same_rev. destruct (same_fields _ _ Hc) as (_ & -> & _).
  pose proof (same_first is_default pr_expr (λ _, eq_refl) (λ _, eq_refl)) as H.
  destruct (first_of Sg is_default (y_prop y)) as [p|], (first_of Sg is_default (y_prop y0)) as [p0|]; simplify_eq/=; [|done].
  by rewrite H.
Qed.
Lemma same_tri : tri_of Sg mv y = tri_of Sg mv y0.
Proof using Hc.
  destruct (same_fields _ _ Hc) as (_ & Ht & Hd & _ & _ & _ & _ & _ & Hu). unfold tri_of.
  by rewrite Ht, Hd, Hu, same_vis, same_rev, (proj1 same_default).
Qed.
Lemma same_str : ranged Sg y (str_of Sg mv y) = ranged Sg y0 (str_of Sg mv y0).
Proof using Hc.
  destruct (same_fields _ _ Hc) as (_ & Ht & Hd & _ & _ & _ & _ & _ & Hu). unfold str_of.
  rewrite Hd, Hu, same_vis, (proj2 same_default). unfold ranged. rewrite Ht.
  pose proof (same_first is_range pr_expr (λ _, eq_refl) (λ _, eq_refl)) as H.
  destruct (first_of Sg is_range (y_prop y)) as [p|], (first_of Sg is_range (y_prop y0)) as [p0|]; simplify_eq/=; [|done].
  by rewrite H.
Qed.
End same_values.

(** ** Configurations whose values can be computed *)

(** A property with an expression of the right form. *)
Definition wf_prop (p : property) : bool :=
  match pr_type p, pr_expr p with
  | P_DEFAULT, Some (EChoice _) => false
  | P_RANGE, Some (ERange _ _) => true
  | P_RANGE, _ => false
  | _, _ => true
  end.
Definition is_str (v : vval) : bool := match v with VStr _ _ => true | _ => false end.
Definition wf_sym (y : sym) : bool :=
  match y_type y with
  | S_UNKNOWN | S_OTHER => bool_decide (y_name y ≠ None)
  | S_INT | S_HEX | S_STRING =>
      (negb (sym_has_value y) || is_str (v_val (y_def y))) && forallb wf_prop (y_prop y)
  | S_BOOLEAN | S_TRISTATE => true
  end.

Record computable (st : kst) (rank : symbol → nat) : Prop := {
  cp_ranks : ranks (k_syms st) rank;
  cp_plain x y : k_syms st !! x = Some y → sym_is_choice y = false ∧ sym_is_choice_value y = false;
  cp_valid x y : k_syms st !! x = Some y → has SYMBOL_VALID y = true → is_str (v_val (y_curr y)) = true;
  cp_sym x y : k_syms st !! x = Some y → has SYMBOL_VALID y = false → wf_sym y = true;
  cp_no : ∃ y, k_syms st !! symbol_no = Some y ∧ has SYMBOL_VALID y = true ∧ y_curr y = Value lit_n Tno;
  cp_empty : ∃ y, k_syms st !! symbol_empty = Some y ∧ has SYMBOL_VALID y = true ∧ y_curr y = Value lit_empty Tno }.

Lemma wf_sym_same y y0 : config_of y = config_of y0 → wf_sym y = wf_sym y0.
Proof.
  intros Hc. destruct (same_fields _ _ Hc) as (Hn & Ht & Hd & _ & Hp & _ & _ & _ & Hu). unfold wf_sym.
  rewrite Ht, Hn, Hd, Hu. assert (∀ l, forallb wf_prop (erase_prop <$> l) = forallb wf_prop l) as H.
  { induction l as [|p l IH]; [done|]. cbn. by rewrite <- IH. }
  by rewrite <- (H (y_prop y)), Hp, H.
Qed.

(** The types of symbols with a prompt. *)
Definition known (t : symbol_type) : bool := match t with S_UNKNOWN | S_OTHER => false | _ => true end.

Definition known_string (t : symbol_type) : bool := match t with S_INT | S_HEX | S_STRING => true | _ => false end.

(** The symbols without a type have the same mark for writing. *)
Definition same_unknown (st st' : kst) : Prop := ∀ x y y', k_syms st !! x = Some y → k_syms st' !! x = Some y' →
  known (y_type y) = false → has SYMBOL_WRITE y' = has SYMBOL_WRITE y.
Lemma same_unknown_refl st : same_unknown st st.
Proof. intros x y y' E E' _. congruence. Qed.
Lemma same_unknown_trans st1 st2 st3 : config st2 = config st1 → same_unknown st1 st2 → same_unknown st2 st3 → same_unknown st1 st3.
Proof.
  intros Hc H12 H23 x y y3 E E3 Hk. apply (f_equal (.!! x)) in Hc. unfold config in Hc. rewrite !lookup_fmap, E in Hc.
  destruct (k_syms st2 !! x) as [y2|] eqn:E2; [|done]. apply (inj Some) in Hc. destruct (same_fields _ _ Hc) as (_ & Ht & _).
  rewrite (H23 x y2 y3 E2 E3) by by rewrite Ht. by apply (H12 x).
Qed.
Lemma same_unknown_put st s y y' (st' : kst) : k_syms st !! s = Some y → k_syms st' = <[s := y']> (k_syms st) →
  known (y_type y) = true ∨ has SYMBOL_WRITE y' = has SYMBOL_WRITE y → same_unknown st st'.
Proof.
  intros E E' Hy x z z' Ez Ez' Hk. rewrite E' in Ez'. destruct (decide (x = s)) as [->|Hx].
  - rewrite lookup_insert_eq in Ez'. assert (z = y) as -> by congruence. injection Ez' as <-. destruct Hy as [Hy|Hy]; congruence.
  - rewrite lookup_insert_ne in Ez' by done. congruence.
Qed.

Section calc.
Context (st0 : kst) (rank : symbol → nat) (HC : computable st0 rank).

Let mv : tristate := k_modules_val st0.
Let V (x : symbol) : syminfo := value_of (k_syms st0) mv (S (rank x)) x.

(** The symbol does not need a new value of [modules_sym]. *)
Definition free (d : symbol) : Prop :=
  ∀ m, k_modules_sym st0 = Some m → valid st0 m ∨ ¬ rtc (depends (k_syms st0)) d m.
Lemma free_dep x y d : free x → k_syms st0 !! x = Some y → has SYMBOL_VALID y = false → d ∈ deps y → free d.
Proof using.
  intros Hf E Hv Hd m Hm. destruct (Hf m Hm) as [?|Hn]; [by left|]. right. intros Hr. apply Hn. eapply rtc_l; [|done]. by exists y.
Qed.

Definition settled (st : kst) (x : symbol) : Prop :=
  ∃ y, k_syms st !! x = Some y ∧ info y = V x ∧ is_str (v_val (y_curr y)) = true ∧
    (¬ valid st0 x → known (y_type y) = true → y_visible y = vis_of V mv y ∧ y_rev_tri y = rev_of V mv y).

(** A symbol that was computed is marked for writing if it has to be saved. *)
Definition written (st : kst) (x : symbol) : Prop :=
  ∃ y, k_syms st !! x = Some y ∧ (known (y_type y) = true → has SYMBOL_WRITE y = saved_of V mv y).

(** The computed symbols below a rank have their values; the marks of symbols
    without a type stay. *)
Record inv (r : nat) (st : kst) : Prop := {
  iv_evolves : evolves st0 st;
  iv_mv : k_modules_val st = mv;
  iv_base x : valid st0 x → k_syms st !! x = k_syms st0 !! x;
  iv_settled x : (rank x < r)%nat → valid st x → settled st x;
  iv_written x : (rank x < r)%nat → valid st x → ¬ valid st0 x → written st x;
  iv_unknown : same_unknown st0 st }.

Lemma inv_config r st x y : inv r st → k_syms st !! x = Some y → ∃ y0, k_syms st0 !! x = Some y0 ∧ config_of y = config_of y0.
Proof using.
  intros HI E. pose proof (ev_config _ _ (iv_evolves _ _ HI)) as Hc. assert (config st !! x = config st0 !! x) as H by by rewrite Hc.
  unfold config in H. rewrite !lookup_fmap, E in H. destruct (k_syms st0 !! x) as [y0|]; [|done].
  exists y0. split; [done|]. by apply (inj Some) in H.
Qed.
Lemma settled_string st x y : settled st x → k_syms st !! x = Some y →
  ∃ a, string_value y = VStr a (KExpr.sym_get_string_value V x).
Proof using.
  intros (z & Ez & Hi & Hs & _) E. assert (z = y) as -> by congruence. unfold string_value, KExpr.sym_get_string_value, is_type. rewrite <- Hi. simpl.
  assert (is_bool_type (y_type y) = bool_decide (y_type y = S_BOOLEAN) || bool_decide (y_type y = S_TRISTATE)) as Hb
    by (by destruct (y_type y)). rewrite Hb. destruct (_ || _).
  - unfold sym_get_tristate_value. destruct (v_tri (y_curr y)); by eexists.
  - destruct (v_val (y_curr y)); [done| |done]. by eexists.
Qed.

(** *** The computation of one symbol *)

Section own.
Context (n : nat) (calc : symbol → K unit) (s : symbol) (y0 : sym) (stm : kst).
Context (Hs0 : k_syms st0 !! s = Some y0) (Hnew : has SYMBOL_VALID y0 = false) (Hfuel : (invalid stm < n)%nat).
Context (Hcalc : ∀ d st, d ∈ dom (k_syms st0) → d ∈ deps y0 → (rank d < rank s)%nat → inv (rank s) st → (invalid st < n)%nat →
  wp (calc d) (λ _ st', inv (rank s) st' ∧ evolves st st' ∧ valid st' d ∧
    ∀ x, valid st x ∨ (rank s ≤ rank x)%nat → k_syms st' !! x = k_syms st !! x) st).

(** A state of the computation of [s], with its record. *)
Record good (st : kst) (y : sym) : Prop := {
  gd_inv : inv (rank s) st;
  gd_evolves : evolves stm st;
  gd_frame x : x ≠ s → valid stm x ∨ (rank s ≤ rank x)%nat → k_syms st !! x = k_syms stm !! x;
  gd_own : k_syms st !! s = Some y;
  gd_mark : has SYMBOL_VALID y = true }.

Lemma good_config st y : good st y → config_of y = config_of y0.
Proof using Hs0. intros HG. destruct (inv_config _ _ _ _ (gd_inv _ _ HG) (gd_own _ _ HG)) as (z & Ez & Hc). congruence. Qed.
Lemma good_dep st y d : good st y → d ∈ deps y → d ∈ dom (k_syms st0) ∧ (rank d < rank s)%nat.
Proof using HC Hs0 Hnew.
  intros HG. rewrite (same_deps _ _ (good_config _ _ HG)). by apply (cp_ranks _ _ HC).
Qed.
Lemma good_plain st y : good st y → sym_is_choice y = false ∧ sym_is_choice_value y = false.
Proof using HC Hs0.
  intros HG. destruct (same_fields _ _ (good_config _ _ HG)) as (_ & _ & _ & _ & _ & _ & -> & -> & _). by apply (cp_plain _ _ HC s).
Qed.
Lemma good_wf st y : good st y → wf_sym y = true.
Proof using HC Hs0 Hnew. intros HG. rewrite (wf_sym_same _ _ (good_config _ _ HG)). by apply (cp_sym _ _ HC s). Qed.
Lemma s_not_base : ¬ valid st0 s.
Proof using Hs0 Hnew. intros (z & Ez & Hz). congruence. Qed.

Lemma wp_own st y Q : good st y → Q y st → wp (get_sym s) Q st.
Proof using. intros HG. apply wp_get_sym, HG. Qed.

Lemma wp_call st y d Q : good st y → d ∈ deps y →
  (∀ st', good st' y → valid st' d → (∀ x, valid st x → k_syms st' !! x = k_syms st !! x) → settled st' d → Q tt st') →
  wp (calc d) Q st.
Proof using HC Hs0 Hnew Hfuel Hcalc.
  intros HG Hd HQ. destruct (good_dep _ _ _ HG Hd) as [Hdom Hr]. pose proof (invalid_evolves _ _ (gd_evolves _ _ HG)).
  eapply wp_mono; [apply (Hcalc d st Hdom); [by rewrite <- (same_deps _ _ (good_config _ _ HG))|done|apply HG|lia]|]. intros [] st' (HI & HE & Hv & HF). apply HQ.
  - constructor; [done|by transitivity st; [apply HG|]|..|apply HG].
    + intros x Hx Hb. rewrite HF; [by apply HG|]. destruct Hb as [Hb|Hb]; [left; by apply (gd_evolves _ _ HG)|by right].
    + rewrite HF; [apply HG|by right].
  - done.
  - intros x Hx. apply HF. by left.
  - by apply (iv_settled _ _ HI).
Qed.

(** A change of the record of [s]. *)
Lemma good_change st y f nx cc mn out :
  good st y → mild f → known (y_type y0) = true ∨ has SYMBOL_WRITE (f y) = has SYMBOL_WRITE y →
  good (Kst (<[s := f y]> (k_syms st)) (k_hash st) nx (k_modules_sym st) (k_modules_val st) cc mn out) (f y).
Proof using Hs0 Hnew.
  clear Hcalc. intros HG [Hm1 Hm2] Hkw. set (st' := Kst _ _ _ _ _ _ _ _). pose proof (gd_own _ _ HG) as E. pose proof s_not_base as Hb.
  assert (evolves st st') as HE by (by eapply evolves_sym; eauto). constructor.
  - constructor.
    + transitivity st; [apply HG|done].
    + apply (iv_mv _ _ (gd_inv _ _ HG)).
    + intros x Hx. simpl. rewrite lookup_insert_ne by (intros ->; done). by apply (iv_base _ _ (gd_inv _ _ HG)).
    + intros x Hx (z & Ez & Hz). assert (s ≠ x) as Hne by (intros ->; by apply Nat.lt_irrefl in Hx). simpl in Ez. rewrite lookup_insert_ne in Ez by done.
      destruct (iv_settled _ _ (gd_inv _ _ HG) x Hx) as (w & Ew & Hw); [by exists z|]. exists w. simpl. by rewrite lookup_insert_ne.
    + intros x Hx (z & Ez & Hz) Hn. assert (s ≠ x) as Hne by (intros ->; by apply Nat.lt_irrefl in Hx). simpl in Ez. rewrite lookup_insert_ne in Ez by done.
      destruct (iv_written _ _ (gd_inv _ _ HG) x Hx) as (w & Ew & Hw); [by exists z|done|]. exists w. simpl. by rewrite lookup_insert_ne.
    + apply (same_unknown_trans _ st); [apply (iv_evolves _ _ (gd_inv _ _ HG))|apply (iv_unknown _ _ (gd_inv _ _ HG))|].
      eapply same_unknown_put; [done|done|]. destruct (same_fields _ _ (good_config _ _ HG)) as (_ & -> & _). done.
  - transitivity st; [apply HG|done].
  - intros x Hx Hv. simpl. rewrite lookup_insert_ne by done. by apply HG.
  - simpl. by rewrite lookup_insert_eq.
  - apply Hm2, HG.
Qed.
(** The table's symbols exist when all of them are to be marked. *)
Definition tabled : Prop := k_modules_sym st0 = Some s → ∀ x, x ∈ concat (k_hash st0) → x ∈ dom (k_syms st0).

(** The lemmas for a symbol with a type. *)
Section typed.
Context (Hkn : known (y_type y0) = true).
Lemma wp_mod st y f Q : good st y → mild f → (∀ st', good st' (f y) → Q tt st') → wp (mod_sym s f) Q st.
Proof using Hs0 Hnew Hkn.
  intros HG Hm HQ. exists tt. eexists. split; [apply mod_sym_ok, HG|]. apply HQ. apply good_change; [done|done|by left].
Qed.
Lemma good_upd st st' y : good st y →
  k_syms st' = k_syms st → k_hash st' = k_hash st → k_modules_sym st' = k_modules_sym st →
  k_modules_val st' = k_modules_val st → good st' y.
Proof using.
  intros HG E1 E2 E3 E4. assert (evolves st st') as HE.
  { constructor; [unfold config; by rewrite E1|done..|]. intros x (z & Ez & Hz). exists z. by rewrite E1. }
  constructor.
  - constructor.
    + transitivity st; [apply HG|done].
    + rewrite E4. apply HG.
    + intros x Hx. rewrite E1. by apply (iv_base _ _ (gd_inv _ _ HG)).
    + intros x Hx (z & Ez & Hz). rewrite E1 in Ez. destruct (iv_settled _ _ (gd_inv _ _ HG) x Hx) as (w & Ew & Hw); [by exists z|].
      exists w. by rewrite E1.
    + intros x Hx (z & Ez & Hz) Hn. rewrite E1 in Ez. destruct (iv_written _ _ (gd_inv _ _ HG) x Hx) as (w & Ew & Hw); [by exists z|done|].
      exists w. by rewrite E1.
    + intros x z z' Ez Ez' Hk. rewrite E1 in Ez'. by apply (iv_unknown _ _ (gd_inv _ _ HG) x).
  - transitivity st; [apply HG|done].
  - intros x Hx Hv. rewrite E1. by apply HG.
  - rewrite E1. apply HG.
  - apply HG.
Qed.
Lemma wp_changed st y Q : good st y → (∀ st', good st' (add_flags SYMBOL_CHANGED y) → Q tt st') → wp (sym_set_changed s) Q st.
Proof using Hs0 Hnew Hkn.
  intros HG HQ. unfold sym_set_changed. apply wp_bind. eapply wp_mod; [done|apply mild_changed|]. intros st1 HG1.
  apply wp_bind. eapply wp_own; [done|]. apply wp_upd, HQ. by apply (good_upd st1).
Qed.

(** *** Conditions *)

Lemma wp_calc_expr e : ∀ st y Q, good st y → (∀ d, d ∈ expr_syms e → d ∈ deps y) →
  (∀ st', good st' y → Q (calc_value V e) st') → wp (calc_expr calc e) Q st.
Proof using HC Hs0 Hnew Hfuel Hcalc Hkn.
  assert (∀ st y a b (g : bool → tristate) Q, good st y → a ∈ deps y → b ∈ deps y →
    (∀ st', good st' y → Q (g (bool_decide (KExpr.sym_get_string_value V a = KExpr.sym_get_string_value V b))) st') →
    wp (calc a;;; calc b;;; v1 <- sym_get_string_value a;; v2 <- sym_get_string_value b;;
        str1 <- lift (chars v1);; str2 <- lift (chars v2);; ret (g (bool_decide (str1 = str2)))) Q st) as Hcmp.
  { intros st y a b g Q HG Ha Hb HQ. apply wp_bind. eapply wp_call; [done..|]. intros st1 HG1 V1 _ S1.
    apply wp_bind. eapply wp_call; [done..|]. intros st2 HG2 V2 F2 S2.
    assert (settled st2 a) as S1'. { destruct S1 as (z & Ez & Hz). exists z. split; [|done]. by rewrite F2. }
    destruct S1' as (ya & Ea & Ha') eqn:Hx. destruct (settled_string _ _ _ S1' Ea) as [aa Haa]. clear Hx.
    destruct S2 as (yb & Eb & Hb') eqn:Hx. destruct (settled_string _ _ _ S2 Eb) as [ab Hab]. clear Hx.
    unfold sym_get_string_value. apply wp_bind, wp_bind. eapply wp_get_sym; [done|]. apply wp_ret, wp_bind, wp_bind.
    eapply wp_get_sym; [done|]. apply wp_ret, wp_bind. eapply wp_lift; [by rewrite Haa|]. apply wp_bind.
    eapply wp_lift; [by rewrite Hab|]. apply wp_ret. by apply HQ. }
  induction e as [a|l IH|a b|a b|l IHl r IHr|l IHl r IHr|vs|a b]; intros st y Q HG He HQ; cbn [calc_expr calc_value expr_syms] in *.
  - apply wp_bind. eapply wp_call; [done|set_solver|]. intros st1 HG1 _ _ (z & Ez & Hz & _).
    apply wp_bind. eapply wp_get_sym; [done|]. apply wp_ret. rewrite <- Hz in HQ. by apply HQ.
  - apply wp_bind. eapply IH; [done..|]. intros st1 HG1. apply wp_ret. by apply HQ.
  - apply (Hcmp st y a b (λ t, if t then Tyes else Tno)); set_solver.
  - apply (Hcmp st y a b (λ t, if t then Tno else Tyes)); set_solver.
  - apply wp_bind. eapply IHl; [done|set_solver|]. intros st1 HG1. apply wp_bind. eapply IHr; [done|set_solver|].
    intros st2 HG2. by apply wp_ret, HQ.
  - apply wp_bind. eapply IHl; [done|set_solver|]. intros st1 HG1. apply wp_bind. eapply IHr; [done|set_solver|].
    intros st2 HG2. by apply wp_ret, HQ.
  - apply wp_bind, wp_upd, wp_ret, HQ. by apply (good_upd st).
  - apply wp_bind, wp_upd, wp_ret, HQ. by apply (good_upd st).
Qed.
Lemma wp_cond e st y Q : good st y → (∀ d, d ∈ opt_syms e → d ∈ deps y) →
  (∀ st', good st' y → Q (cond V e) st') → wp (expr_calc_value calc e) Q st.
Proof using HC Hs0 Hnew Hfuel Hcalc Hkn.
  destruct e as [e|]; [apply wp_calc_expr|]. intros HG _ HQ. by apply wp_ret, HQ.
Qed.
Lemma good_deps st y : good st y → deps y = deps y0.
Proof using Hs0. intros HG. apply same_deps. by eapply good_config. Qed.

(** *** The properties of the symbol *)

(** The values did not change. *)
Definition like (y y' : sym) : Prop :=
  y_visible y' = y_visible y ∧ y_rev_tri y' = y_rev_tri y ∧ y_curr y' = y_curr y ∧ has SYMBOL_WRITE y' = has SYMBOL_WRITE y.
Lemma like_trans y1 y2 y3 : like y1 y2 → like y2 y3 → like y1 y3.
Proof using. intros (A & B & C & D) (A' & B' & C' & D'). unfold like. by rewrite A', B', C', D'. Qed.
Lemma changed_write y : has SYMBOL_WRITE (add_flags SYMBOL_CHANGED y) = has SYMBOL_WRITE y.
Proof using. has_flags. apply orb_false_r. Qed.

(** The symbols of the conditions of a property are dependencies. *)
Definition listed (l : list property) : Prop :=
  ∀ p, p ∈ l → is_prompt p || is_default p || is_range p = true → ∀ d, d ∈ opt_syms (pr_vis p) → d ∈ deps y0.
Lemma good_listed st y : good st y → listed (y_prop y).
Proof using Hs0.
  intros HG p Hp Hk d Hd. rewrite <- (good_deps _ _ HG). apply (deps_prop _ p); [done|]. unfold prop_deps. rewrite Hk.
  apply elem_of_app. by left.
Qed.
Lemma listed_cons p l : listed (p :: l) → listed l.
Proof using. intros H q Hq. apply H. by right. Qed.

Lemma wp_first kind l : (∀ p, kind p = true → is_prompt p || is_default p || is_range p = true) →
  ∀ i st y Q, good st y → listed l → (∀ st' y', good st' y' → like y y' → Q (first_of V kind l) st') →
  wp (first_visible calc kind s i l) Q st.
Proof using HC Hs0 Hnew Hfuel Hcalc Hkn.
  intros Hkind. induction l as [|p l IH]; intros i st y Q HG Hl HQ; cbn [first_visible].
  { apply wp_ret. by eapply HQ. }
  rewrite first_of_cons in HQ. unfold applies in HQ. destruct (kind p) eqn:Hk.
  2: { simpl in HQ. eapply IH; [done|by eapply listed_cons|]. intros st' y' HG' HL. by eapply HQ. }
  apply wp_bind. eapply wp_cond; [done| |].
  { intros d Hd. rewrite (good_deps _ _ HG). apply (Hl p); [left|by apply Hkind|done]. }
  intros st1 HG1. apply wp_bind. eapply wp_mod; [done|apply mild_prop_tri|]. intros st2 HG2.
  destruct (decide (cond V (pr_vis p) = Tno)) as [Ht|Ht].
  - rewrite bool_decide_true by done. rewrite bool_decide_false in HQ by tauto. eapply IH; [done|by eapply listed_cons|]. intros st' y' HG' HL. by eapply HQ.
  - rewrite bool_decide_false by done. rewrite bool_decide_true in HQ by done. apply wp_ret. by eapply HQ.
Qed.

Lemma tri_or_assoc a b c : tri_or (tri_or a b) c = tri_or a (tri_or b c).
Proof using. by destruct a, b, c. Qed.
Lemma wp_prompts l : ∀ i t st y Q, good st y → listed l →
  (∀ st' y', good st' y' → like y y' → Q (tri_or t (foldr tri_or Tno (prompt_conds V l))) st') →
  wp (prompts_visible calc s i l t) Q st.
Proof using HC Hs0 Hnew Hfuel Hcalc Hkn.
  induction l as [|p l IH]; intros i t st y Q HG Hl HQ; cbn [prompts_visible].
  { apply wp_ret. replace t with (tri_or t Tno) at 1 by by destruct t. by eapply HQ. }
  rewrite prompt_conds_cons in HQ. destruct (is_prompt p) eqn:Hk.
  2: { simpl in HQ. eapply IH; [done|by eapply listed_cons|done]. }
  apply wp_bind. eapply wp_cond; [done| |].
  { intros d Hd. rewrite (good_deps _ _ HG). apply (Hl p); [left|by rewrite Hk|done]. }
  intros st1 HG1. apply wp_bind. eapply wp_mod; [done|apply mild_prop_tri|]. intros st2 HG2.
  eapply IH; [done|by eapply listed_cons|]. intros st' y' HG' HL.
  rewrite tri_or_assoc. by eapply HQ.
Qed.

Lemma get_type_plain y : sym_is_choice_value y = false → get_type mv y = type_of mv (y_type y).
Proof using. intros H. unfold get_type, type_of. rewrite H. generalize mv. intros m. by destruct (y_type y), m. Qed.
Lemma wp_type st y Q : good st y → Q (type_of mv (y_type y0)) st → wp (sym_get_type s) Q st.
Proof using HC Hs0.
  intros HG HQ. destruct (good_plain _ _ HG) as [_ Hp]. unfold sym_get_type. apply wp_bind. eapply wp_own; [done|]. apply wp_bind, wp_get.
  rewrite (iv_mv _ _ (gd_inv _ _ HG)). apply wp_ret. rewrite get_type_plain by done.
  destruct (same_fields _ _ (good_config _ _ HG)) as (_ & Ht & _). by rewrite Ht.
Qed.

Lemma wp_visibility st y Q : good st y →
  (∀ st' y', good st' y' → y_visible y' = vis_of V mv y0 → y_rev_tri y' = rev_of V mv y0 → y_curr y' = y_curr y →
     has SYMBOL_WRITE y' = has SYMBOL_WRITE y → Q tt st') →
  wp (sym_calc_visibility calc s) Q st.
Proof using HC Hs0 Hnew Hfuel Hcalc Hkn.
  intros HG HQ. unfold sym_calc_visibility. apply wp_bind. eapply wp_own; [done|]. apply wp_bind.
  eapply wp_prompts; [done|by eapply good_listed|]. intros st1 y1 HG1 HL1.
  pose proof (good_config _ _ HG1) as Hc1. destruct (same_fields _ _ Hc1) as (_ & Ht & _ & Hr & _).
  apply wp_bind. eapply wp_own; [done|]. apply wp_bind, wp_get. rewrite (iv_mv _ _ (gd_inv _ _ HG1)). cbv zeta.
  rewrite <- (same_vis V mv _ _ (good_config _ _ HG)), <- (same_rev V mv _ _ Hc1) in HQ.
  match goal with |- context [bool_decide (y_visible y1 ≠ ?t)] => assert (t = vis_of V mv y) as -> end.
  { unfold vis_of, type_of. destruct (same_fields _ _ (good_config _ _ HG)) as (_ & -> & _). rewrite Ht.
    assert (∀ t, tri_or Tno t = t) as -> by by intros []. generalize mv, (foldr tri_or Tno (prompt_conds V (y_prop y))). intros m t. by destruct t, (y_type y0), m. }
  apply wp_bind.
  match goal with |- wp ?m ?R st1 => assert (∀ st2 y2, good st2 y2 → y_visible y2 = vis_of V mv y → y_curr y2 = y_curr y →
    has SYMBOL_WRITE y2 = has SYMBOL_WRITE y → R tt st2) as Hrest end.
  { intros st2 y2 HG2 Hv2 Hcu2 Hw2. destruct (good_plain _ _ HG1) as [_ ->]. apply wp_bind.
    match goal with |- wp ?m ?R st2 => assert (∀ st3, good st3 y2 → R (match y_rev y1 with Some e => calc_value V e | None => Tno end) st3) as Hrev end.
    { intros st3 HG3. apply wp_bind. eapply wp_type; [done|]. cbv zeta. apply wp_bind. eapply wp_own; [done|].
      match goal with |- context [bool_decide (y_rev_tri y2 ≠ ?t)] => assert (t = rev_of V mv y1) as -> end.
      { unfold rev_of, rounded. by rewrite Ht. }
      case_bool_decide as H.
      - apply wp_bind. eapply wp_mod; [done|apply mild_rev_tri|]. intros st4 HG4. eapply wp_changed; [done|]. intros st5 HG5.
        eapply HQ; [done..|]. rewrite changed_write. exact Hw2.
      - apply wp_ret. eapply HQ; done. }
    destruct (y_rev y1) as [e|] eqn:Er; [|by apply wp_ret, Hrev].
    eapply wp_calc_expr; [done| |done]. intros d Hd. rewrite (good_deps _ _ HG2), <- (good_deps _ _ HG1).
    apply elem_of_app. left. by rewrite Er. }
  destruct HL1 as (Hlv & _ & Hlc & Hlw). case_bool_decide as H.
  - apply wp_bind. eapply wp_mod; [done|apply mild_visible|]. intros st2 HG2. eapply wp_changed; [done|]. intros st3 HG3.
    eapply Hrest; [done..|]. rewrite changed_write. exact Hlw.
  - apply wp_ret. eapply Hrest; done.
Qed.

(** *** The value *)

Lemma wp_default st y Q : good st y →
  (∀ st' y', good st' y' → like y y' → Q (first_of V is_default (y_prop y)) st') →
  wp (sym_get_default_prop calc s) Q st.
Proof using HC Hs0 Hnew Hfuel Hcalc Hkn.
  intros HG HQ. unfold sym_get_default_prop. apply wp_bind. eapply wp_own; [done|].
  eapply wp_first; [|done|by eapply good_listed|done]. intros p ->. by rewrite orb_true_r.
Qed.
Lemma default_deps st y p : good st y → first_of V is_default (y_prop y) = Some p → ∀ d, d ∈ opt_syms (pr_expr p) → d ∈ deps y0.
Proof using Hs0.
  intros HG [Hp Hk]%first_of_in d Hd. rewrite <- (good_deps _ _ HG). apply (deps_prop _ p); [done|]. unfold prop_deps. rewrite Hk.
  apply elem_of_app. right. apply elem_of_app. by left.
Qed.
Lemma same_default_prop st y : good st y → is_Some (first_of V is_default (y_prop y)) ↔ is_Some (first_of V is_default (y_prop y0)).
Proof using Hs0.
  intros HG. pose proof (same_first V _ _ (good_config _ _ HG) is_default pr_type (λ _, eq_refl) (λ _, eq_refl)) as H.
  destruct (first_of V is_default (y_prop y)), (first_of V is_default (y_prop y0)); done.
Qed.
Lemma write_write y : has SYMBOL_WRITE (add_flags SYMBOL_WRITE y) = true.
Proof using. has_flags. apply orb_true_r. Qed.
Lemma del_write y : has SYMBOL_WRITE (del_flags SYMBOL_WRITE y) = false.
Proof using. has_flags. apply andb_false_r. Qed.
(** The default as an expression, with the mark for writing. *)
Lemma wp_default_tri st y Q : good st y → has SYMBOL_WRITE y = false →
  (∀ st' y', good st' y' → y_visible y' = y_visible y → y_rev_tri y' = y_rev_tri y →
     has SYMBOL_WRITE y' = bool_decide (is_Some (first_of V is_default (y_prop y0))) → Q (default_tri V y0) st') →
  wp (prop <- sym_get_default_prop calc s;;
      match prop with Some p => mod_sym s (add_flags SYMBOL_WRITE);;; expr_calc_value calc (pr_expr p) | None => ret Tno end) Q st.
Proof using HC Hs0 Hnew Hfuel Hcalc Hkn.
  intros HG Hw HQ. rewrite <- (proj1 (same_default V _ _ (good_config _ _ HG))) in HQ. unfold default_tri in HQ.
  pose proof (same_default_prop _ _ HG) as Hsame.
  apply wp_bind. eapply wp_default; [done|]. intros st1 y1 HG1 (L1 & L2 & L3 & L4).
  destruct (first_of V is_default (y_prop y)) as [p|] eqn:E.
  2: { apply wp_ret. eapply HQ; [done..|]. rewrite L4, Hw, bool_decide_false; [done|]. rewrite <- Hsame. by intros []. }
  apply wp_bind. eapply wp_mod; [done|apply mild_write|]. intros st2 HG2. eapply wp_cond; [done| |].
  { intros d Hd. rewrite (good_deps _ _ HG2). by apply (default_deps st y p HG E). }
  intros st3 HG3. eapply HQ; [done..|]. rewrite write_write, bool_decide_true; [done|]. apply Hsame. eauto.
Qed.
Lemma wp_default_tri' st y Q : good st y →
  (∀ st' y', good st' y' → like y y' → Q (default_tri V y0) st') →
  wp (prop <- sym_get_default_prop calc s;;
      match prop with Some p => expr_calc_value calc (pr_expr p) | None => ret Tno end) Q st.
Proof using HC Hs0 Hnew Hfuel Hcalc Hkn.
  intros HG HQ. rewrite <- (proj1 (same_default V _ _ (good_config _ _ HG))) in HQ. unfold default_tri in HQ.
  apply wp_bind. eapply wp_default; [done|]. intros st1 y1 HG1 HL1.
  destruct (first_of V is_default (y_prop y)) as [p|] eqn:E; [|apply wp_ret; by eapply HQ].
  eapply wp_cond; [done| |]; [|intros st3 HG3; by eapply HQ].
  intros d Hd. rewrite (good_deps _ _ HG1). by apply (default_deps st y p HG E).
Qed.

Lemma wp_tristate st y Q : good st y → y_visible y = vis_of V mv y0 → y_rev_tri y = rev_of V mv y0 →
  has SYMBOL_WRITE y = false → is_bool_type (y_type y0) = true →
  (∀ st' y', good st' y' → y_visible y' = y_visible y → y_rev_tri y' = y_rev_tri y →
     has SYMBOL_WRITE y' = saved_of V mv y0 → Q (tri_of V mv y0) st') →
  wp (calc_tristate calc s Tno) Q st.
Proof using HC Hs0 Hnew Hfuel Hcalc Hkn.
  intros HG Hv Hr Hw Hb HQ. destruct (good_plain _ _ HG) as [Hch Hcv].
  destruct (same_fields _ _ (good_config _ _ HG)) as (_ & _ & Hd & _ & _ & _ & _ & _ & Hu).
  unfold calc_tristate. apply wp_bind. eapply wp_own; [done|]. rewrite Hcv, Hch, Hv, Hr, Hd, Hu. cbn [andb].
  apply wp_bind. unfold saved_of, has_default in HQ. rewrite Hb in HQ.
  match goal with |- wp _ ?R _ => assert (∀ t st1 y1, good st1 y1 → y_visible y1 = y_visible y → y_rev_tri y1 = y_rev_tri y →
    has SYMBOL_WRITE y1 = saved_of V mv y0 → rounded mv (y_type y0) t = tri_of V mv y0 → R t st1) as Hend end.
  { intros t st1 y1 HG1 A1 A2 Hw1 Ht. apply wp_bind. eapply wp_type; [done|]. apply wp_ret. fold (rounded mv (y_type y0) t). rewrite Ht.
    eapply HQ; [done..|]. rewrite Hw1. unfold saved_of, has_default. by rewrite Hb. }
  unfold tri_of, saved_of, has_default in Hend. rewrite Hb in Hend. case_bool_decide as Hvr.
  - apply wp_bind. eapply wp_mod; [done|apply mild_write|]. intros st1 HG1. apply wp_bind.
    match goal with |- wp _ ?R _ => assert (∀ st2 y2, good st2 y2 → like (add_flags SYMBOL_WRITE y) y2 →
      R (if sym_has_value y0 then v_tri (y_def y0) else default_tri V y0) st2) as Hnew' end.
    { intros st2 y2 HG2 (E1 & E2 & E3 & E4). apply wp_bind. eapply wp_own; [done|]. apply wp_ret.
      eapply Hend; [done|done|done|by rewrite E4, write_write|]. rewrite E1, E2. simpl. by rewrite Hv, Hr. }
    destruct (sym_has_value y0); [apply wp_ret; by eapply Hnew'|]. eapply wp_default_tri'; [done|]. intros st2 y2 HG2 HL2. by eapply Hnew'.
  - apply (wp_default_tri st y); [done|done|]. intros st1 y1 HG1 E1 E2 E4. eapply Hend; [done..| |done].
    rewrite E4. simpl. destruct (first_of V is_default (y_prop y0)); [by rewrite bool_decide_true by eauto|done].
Qed.

(** The default of a string. *)
Lemma wf_default st y p : good st y → known_string (y_type y0) = true → first_of V is_default (y_prop y) = Some p →
  prop_get_symbol p = Ok (match pr_expr p with Some (ESymbol d) => Some d | _ => None end).
Proof using HC Hs0 Hnew Hkn.
  intros HG Ht [Hp Hk]%first_of_in. pose proof (good_wf _ _ HG) as Hw. unfold wf_sym in Hw.
  destruct (same_fields _ _ (good_config _ _ HG)) as (_ & E & _). rewrite E in Hw.
  assert (forallb wf_prop (y_prop y) = true) as Hall by (destruct (y_type y0); try done; by apply andb_true_iff in Hw as [_ Hw]).
  rewrite forallb_forall in Hall. specialize (Hall p ltac:(by apply list_elem_of_In)). apply bool_decide_eq_true in Hk.
  unfold wf_prop in Hall. rewrite Hk in Hall. unfold prop_get_symbol. by destruct (pr_expr p) as [[]|].
Qed.
(** What a computed symbol has in [curr.val]. *)
Lemma settled_val st d y : settled st d → k_syms st !! d = Some y → ∃ a, v_val (y_curr y) = VStr a (s_val (V d)).
Proof using.
  intros (z & Ez & Hi & Hs & _) E. assert (z = y) as -> by congruence. rewrite <- Hi. simpl.
  destruct (v_val (y_curr y)); try done. by eexists.
Qed.

Lemma wp_string st y Q : good st y → y_visible y = vis_of V mv y0 → known_string (y_type y0) = true → has SYMBOL_WRITE y = false →
  (∀ st' y' a, good st' y' → y_visible y' = y_visible y → y_rev_tri y' = y_rev_tri y →
     has SYMBOL_WRITE y' = saved_of V mv y0 → Q (VStr a (str_of V mv y0)) st') → wp (calc_string calc s lit_empty) Q st.
Proof using HC Hs0 Hnew Hfuel Hcalc Hkn.
  intros HG Hv Ht Hw HQ. destruct (same_fields _ _ (good_config _ _ HG)) as (_ & _ & Hd & _ & _ & _ & _ & _ & Hu).
  assert (is_bool_type (y_type y0) = false) as Hb by by destruct (y_type y0).
  unfold calc_string. apply wp_bind. eapply wp_own; [done|]. rewrite Hv, Hd, Hu. apply wp_bind.
  unfold str_of, saved_of, has_default in HQ. rewrite Hb in HQ. cbn [orb] in HQ.
  match goal with |- wp _ ?R _ => assert (∀ st1 y1, good st1 y1 → y_visible y1 = y_visible y → y_rev_tri y1 = y_rev_tri y →
    has SYMBOL_WRITE y1 = bool_decide (vis_of V mv y0 ≠ Tno) → R tt st1) as Hrest end.
  { intros st1 y1 HG1 A1 A2 A3. destruct (bool_decide (vis_of V mv y0 ≠ Tno) && sym_has_value y0) eqn:Hvu.
    - apply wp_ret. assert (∃ a, v_val (y_def y0) = VStr a (val_string (v_val (y_def y0)))) as [a ->].
      { pose proof (cp_sym _ _ HC s y0 Hs0 Hnew) as Hwf. unfold wf_sym in Hwf. apply andb_true_iff in Hvu as [_ Hu']. rewrite Hu' in Hwf.
        destruct (v_val (y_def y0)); [by destruct (y_type y0)|by eexists|by destruct (y_type y0)]. }
      apply andb_true_iff in Hvu as [Hvu _]. rewrite Hvu in A3, HQ. by eapply HQ.
    - apply wp_bind. eapply wp_default; [done|]. intros st2 y2 HG2 (L1 & L2 & _ & L4). rewrite A1 in L1. rewrite A2 in L2. rewrite A3 in L4.
      rewrite <- (proj2 (same_default V _ _ (good_config _ _ HG1))) in HQ. unfold default_str in HQ.
      pose proof (same_first V _ _ (good_config _ _ HG1) is_default pr_expr (λ _, eq_refl) (λ _, eq_refl)) as Hsame.
      destruct (first_of V is_default (y_prop y1)) as [p|] eqn:Ep, (first_of V is_default (y_prop y0)) as [p0|]; try done.
      2: { apply wp_ret. eapply HQ; [done..|]. by rewrite orb_false_r. }
      injection Hsame as Hsame. rewrite <- Hsame in HQ. apply wp_bind.
      eapply wp_lift; [by apply (wf_default _ _ _ HG1 Ht Ep)|]. pose proof (default_deps _ _ _ HG1 Ep) as Hdep.
      destruct (pr_expr p) as [[d| | | | | | |]|]; try (apply wp_ret; eapply HQ; [done..|]; by rewrite orb_false_r).
      apply wp_bind. eapply wp_mod; [done|apply mild_write|]. intros st3 HG3. apply wp_bind. eapply wp_call; [done| |].
      { rewrite (good_deps _ _ HG3). apply Hdep. simpl. by left. }
      intros st4 HG4 _ _ HS. destruct HS as (yd & Ed & HS') eqn:Hx. destruct (settled_val _ _ _ HS Ed) as [a Ha]. clear Hx.
      apply wp_bind. eapply wp_get_sym; [done|]. apply wp_ret. rewrite Ha. eapply HQ; [done..|]. by rewrite write_write, orb_true_r. }
  case_bool_decide; [|apply wp_ret; by eapply Hrest]. eapply wp_mod; [done|apply mild_write|]. intros st1 HG1.
  eapply Hrest; [done..|]. apply write_write.
Qed.

(** *** The range *)

Lemma wp_range_val st y d base Q : good st y → d ∈ deps y0 →
  (∀ st', good st' y → Q (bound V base d) st') → wp (sym_get_range_val calc d base) Q st.
Proof using HC Hs0 Hnew Hfuel Hcalc Hkn.
  intros HG Hd HQ. unfold sym_get_range_val. apply wp_bind. eapply wp_call; [done|by rewrite (good_deps _ _ HG)|].
  intros st1 HG1 _ _ HS. destruct HS as (yd & Ed & Hi & HS') eqn:Hx. destruct (settled_val _ _ _ HS Ed) as [a Ha]. clear Hx.
  apply wp_bind. eapply wp_get_sym; [done|]. apply wp_bind. eapply wp_lift; [by rewrite Ha|]. apply wp_ret.
  assert (y_type yd = s_type (V d)) as -> by (by rewrite <- Hi). by apply HQ.
Qed.
Lemma wf_range st y p : good st y → base_of (y_type y0) ≠ None → first_of V is_range (y_prop y) = Some p →
  ∃ a b, pr_expr p = Some (ERange a b) ∧ a ∈ deps y0 ∧ b ∈ deps y0.
Proof using HC Hs0 Hnew Hfuel Hcalc Hkn.
  intros HG Ht [Hp Hk]%first_of_in. pose proof (good_wf _ _ HG) as Hw. unfold wf_sym in Hw.
  destruct (same_fields _ _ (good_config _ _ HG)) as (_ & E & _). rewrite E in Hw.
  assert (forallb wf_prop (y_prop y) = true) as Hall by (destruct (y_type y0); try done; by apply andb_true_iff in Hw as [_ Hw]).
  rewrite forallb_forall in Hall. specialize (Hall p ltac:(by apply list_elem_of_In)).
  assert (∀ d, d ∈ range_ops (pr_expr p) → d ∈ deps y0) as Hd.
  { intros d Hd. rewrite <- (good_deps _ _ HG). apply (deps_prop _ p); [done|]. unfold prop_deps. rewrite Hk.
    apply elem_of_app. right. apply elem_of_app. by right. }
  apply bool_decide_eq_true in Hk. unfold wf_prop in Hall. rewrite Hk in Hall.
  destruct (pr_expr p) as [[]|]; try done. eexists _, _. split; [done|]. split; apply Hd; simpl; set_solver.
Qed.

Definition alike (y y' : sym) : Prop :=
  y_visible y' = y_visible y ∧ y_rev_tri y' = y_rev_tri y ∧ has SYMBOL_WRITE y' = has SYMBOL_WRITE y.
Lemma alike_changed y y' : alike y y' → alike y (add_flags SYMBOL_CHANGED y').
Proof using. intros (A & B & C). split; [done|]. split; [done|]. by rewrite changed_write. Qed.

Lemma wp_validate st y a str t Q : good st y → y_curr y = Value (VStr a str) t →
  (∀ st' y' a', good st' y' → alike y y' → y_curr y' = Value (VStr a' (ranged V y0 str)) t → Q tt st') →
  wp (sym_validate_range calc s) Q st.
Proof using HC Hs0 Hnew Hfuel Hcalc Hkn.
  intros HG Hcur HQ. destruct (same_fields _ _ (good_config _ _ HG)) as (_ & Ht & _).
  unfold sym_validate_range. apply wp_bind. eapply wp_own; [done|]. rewrite Ht. unfold ranged in HQ.
  destruct (base_of (y_type y0)) as [base|] eqn:Hb; [|apply wp_ret; by eapply HQ].
  pose proof (same_first V _ _ (good_config _ _ HG) is_range pr_expr (λ _, eq_refl) (λ _, eq_refl)) as Hsame.
  unfold sym_get_range_prop. apply wp_bind, wp_bind. eapply wp_own; [done|].
  eapply wp_first; [intros p ->; by rewrite orb_true_r|done|by eapply good_listed|]. intros st1 y1 HG1 (L1 & L2 & L3 & L4).
  rewrite Hcur in L3.
  destruct (first_of V is_range (y_prop y)) as [p|] eqn:Ep, (first_of V is_range (y_prop y0)) as [p0|]; try done;
    [|apply wp_ret; by eapply HQ].
  destruct (wf_range _ _ _ HG ltac:(by rewrite Hb) Ep) as (la & lb & Ee & Ha & Hb'). injection Hsame as Hsame.
  rewrite <- Hsame, Ee in HQ. unfold in_range in HQ.
  apply wp_bind. eapply wp_own; [done|]. apply wp_bind. eapply wp_lift; [by rewrite L3|]. cbv zeta.
  apply wp_bind. eapply wp_lift; [unfold range_syms; by rewrite Ee|]. apply wp_bind. eapply wp_range_val; [done|done|].
  intros st2 HG2. set (v := strtol_base base (bytes str)) in *. apply wp_bind.
  match goal with |- wp _ ?R _ => assert (∀ v2 (out : bool) st3, good st3 y1 →
    (if out then shown (y_type y0) v2 else str) =
      (if bool_decide (v < bound V base la) then shown (y_type y0) (bound V base la)
       else if bool_decide (bound V base lb < v) then shown (y_type y0) (bound V base lb) else str) → R (v2, out) st3) as Hend end.
  { intros v2 out st3 HG3 Hres. destruct out.
    - apply wp_bind. exists (k_next st3). eexists. split; [done|]. eapply wp_mod; [by eapply good_upd|apply mild_curr'|].
      intros st4 HG4. eapply HQ; [done|done|]. rewrite <- Hres. simpl. by rewrite L3.
    - apply wp_ret. eapply HQ; [done|done|]. by rewrite <- Hres. }
  clearbody v. destruct (decide (bound V base la ≤ v)) as [Hl|Hl].
  - rewrite bool_decide_true by done. rewrite bool_decide_false in Hend by lia. apply wp_bind. eapply wp_range_val; [done|done|].
    intros st3 HG3. apply wp_ret. apply (Hend _ _ _ HG3). by case_bool_decide.
  - rewrite bool_decide_false by done. rewrite bool_decide_true in Hend by lia. apply wp_ret. by apply (Hend (bound V base la) true st2).
Qed.

(** *** The end *)

(** The end of the computation of [modules_sym]: every symbol of the table is
    marked as changed, and [modules_val] takes the value. *)
Definition tinted (y y' : sym) : Prop :=
  config_of y' = config_of y ∧ has SYMBOL_VALID y' = has SYMBOL_VALID y ∧ y_curr y' = y_curr y ∧
  y_visible y' = y_visible y ∧ y_rev_tri y' = y_rev_tri y ∧ has SYMBOL_WRITE y' = has SYMBOL_WRITE y.
Record echo (st1 st2 : kst) : Prop := {
  ec_hash : k_hash st2 = k_hash st1;
  ec_msym : k_modules_sym st2 = k_modules_sym st1;
  ec_mval : k_modules_val st2 = k_modules_val st1 ∨
            ∃ y, k_syms st1 !! s = Some y ∧ k_modules_val st2 = v_tri (y_curr y);
  ec_table x : x ∉ concat (k_hash st1) → k_syms st2 !! x = k_syms st1 !! x;
  ec_syms x : option_relation tinted (λ _, False) (λ _, False) (k_syms st1 !! x) (k_syms st2 !! x) }.

Lemma tinted_refl y : tinted y y.
Proof using. done. Qed.
Lemma echo_refl st : echo st st.
Proof using. constructor; try done; [by left|]. intros x. by destruct (k_syms st !! x). Qed.
Lemma tinted_changed y y' : tinted y y' → tinted y (add_flags SYMBOL_CHANGED y').
Proof using.
  intros (A & B & C & D & E & F). split; [by rewrite (mi_config _ mild_changed)|]. split; [rewrite <- B; has_flags; apply orb_false_r|].
  split; [done|]. split; [done|]. split; [done|]. by rewrite changed_write.
Qed.
Lemma wp_all_changed l : ∀ st1 st2, echo st1 st2 → k_modules_val st2 = k_modules_val st1 → (∀ x, x ∈ l → x ∈ concat (k_hash st1) ∧ x ∈ dom (k_syms st1)) →
  wp (for_symbols sym_set_changed l) (λ _ st3, echo st1 st3 ∧ k_modules_val st3 = k_modules_val st1) st2.
Proof using.
  induction l as [|x l IH]; intros st1 st2 HE Hmv Hl; cbn [for_symbols]; [by apply wp_ret|].
  destruct (Hl x) as [Hx [y Ey]%elem_of_dom]; [by left|]. pose proof (ec_syms _ _ HE x) as Hs. rewrite Ey in Hs.
  destruct (k_syms st2 !! x) as [y2|] eqn:E2; [|done]. simpl in Hs.
  apply wp_bind. eapply wp_get_sym; [done|]. apply wp_bind.
  assert (∀ x', x' ∈ l → x' ∈ concat (k_hash st1) ∧ x' ∈ dom (k_syms st1)) as Hl' by (intros; apply Hl; by right).
  case_bool_decide; [apply wp_ret; by apply IH|]. unfold sym_set_changed.
  apply wp_bind. exists tt. eexists. split; [by apply mod_sym_ok|]. apply wp_bind.
  eapply wp_get_sym; [apply lookup_insert_eq|]. apply wp_upd. apply IH; [|done|done].
  constructor; simpl; try apply HE.
  - intros z Hz. rewrite lookup_insert_ne by (intros ->; done). by apply HE.
  - intros z. destruct (decide (z = x)) as [->|Hz].
    + rewrite lookup_insert_eq, Ey. simpl. by apply tinted_changed.
    + rewrite lookup_insert_ne by done. apply HE.
Qed.

Context (Htable : tabled).

Lemma wp_finish st y a str t old Q : good st y →
  (∀ st' y' a' st'', good st' y' → alike y y' → y_curr y' = Value (VStr a' (ranged V y0 str)) t →
     echo st' st'' → (k_modules_sym st0 ≠ Some s → st'' = st') → Q tt st'') →
  wp (finish_value calc s old (Value (VStr a str) t)) Q st.
Proof using HC Hs0 Hnew Hfuel Hcalc Htable Hkn.
  intros HG HQ. destruct (good_plain _ _ HG) as [Hch _]. unfold finish_value.
  apply wp_bind. eapply wp_mod; [done|apply mild_curr|]. intros st1 HG1. apply wp_bind. eapply wp_own; [done|].
  change (sym_is_choice (set_curr (Value (VStr a str) t) y)) with (sym_is_choice y). rewrite Hch. cbn [andb].
  apply wp_bind, wp_ret, wp_bind. eapply wp_validate; [done|done|]. intros st2 y2 a2 HG2 HA2 Hc2.
  apply wp_bind. eapply wp_own; [done|]. apply wp_bind. case_bool_decide as Hold.
  2: { eapply wp_ret, wp_ret, HQ; [done..|apply echo_refl|done]. }
  apply wp_bind. eapply wp_changed; [done|]. intros st3 HG3. apply wp_bind, wp_get.
  pose proof (iv_evolves _ _ (gd_inv _ _ HG3)) as He. rewrite (ev_modules _ _ He). case_bool_decide as Hm.
  2: { eapply wp_ret, wp_ret, HQ; [done|by apply alike_changed|done|apply echo_refl|done]. }
  unfold sym_set_all_changed, for_all_symbols. apply wp_bind, wp_bind, wp_get.
  eapply wp_mono; [apply (wp_all_changed _ st3 st3); [apply echo_refl|done|]|].
  { intros x Hx. split; [done|]. rewrite (config_dom st0 st3) by apply He. apply Htable; [done|]. by rewrite <- (ev_hash _ _ He). }
  intros [] st4 [HE4 _]. pose proof (ec_syms _ _ HE4 s) as Hs. rewrite (gd_own _ _ HG3) in Hs.
  destruct (k_syms st4 !! s) as [y4|] eqn:E4; [|done]. simpl in Hs. destruct Hs as (_ & _ & Hs & _).
  apply wp_bind. eapply wp_get_sym; [done|]. apply wp_upd, wp_ret. eapply HQ; [done|by apply alike_changed|done| |by intros []].
  destruct HE4. constructor; try done. right. eexists. split; [apply HG3|]. simpl. by rewrite Hs.
Qed.

Lemma V_own : V s = equation V mv y0.
Proof using HC Hs0. by apply (value_of_equation _ _ _ (cp_ranks _ _ HC)). Qed.

(** The final record of a symbol. *)
Definition done_sym (y : sym) : Prop :=
  info y = V s ∧ is_str (v_val (y_curr y)) = true ∧
  (known (y_type y) = true → y_visible y = vis_of V mv y ∧ y_rev_tri y = rev_of V mv y) ∧
  (known (y_type y) = true → has SYMBOL_WRITE y = saved_of V mv y).

Lemma done_intro st y a str t : good st y → y_curr y = Value (VStr a str) t →
  equation V mv y0 = Syminfo (y_type y0) (has SYMBOL_CONST y0) (y_name y0) t str →
  (known (y_type y0) = true → y_visible y = vis_of V mv y0 ∧ y_rev_tri y = rev_of V mv y0 ∧ has SYMBOL_WRITE y = saved_of V mv y0) →
  done_sym y.
Proof using HC Hs0.
  intros HG Hc He Hk. pose proof (good_config _ _ HG) as Hcfg. destruct (same_fields _ _ Hcfg) as (Hn & Ht & _ & _ & _ & Hco & _).
  unfold done_sym, info. rewrite V_own, He, Hc, Ht, Hn, Hco. split; [done|]. split; [done|].
  rewrite (same_vis V mv _ _ Hcfg), (same_rev V mv _ _ Hcfg), (same_saved V mv _ _ Hcfg). clear Hkn. tauto.
Qed.

Lemma wp_marked_known st y Q : good st y →
  (∀ st' y' st'', good st' y' → done_sym y' → echo st' st'' → (k_modules_sym st0 ≠ Some s → st'' = st') → Q tt st'') →
  wp (calc_marked calc s) Q st.
Proof using HC Hs0 Hnew Hfuel Hcalc Htable Hkn.
  intros HG HQ. destruct (same_fields _ _ (good_config _ _ HG)) as (Hn & Ht & _). destruct (good_plain _ _ HG) as [_ Hcv].
  unfold calc_marked. apply wp_bind. eapply wp_own; [done|]. cbv zeta. rewrite Ht, Hn.
  assert (∀ (x : symbol) v, (∃ z, k_syms st0 !! x = Some z ∧ has SYMBOL_VALID z = true ∧ y_curr z = v) →
    ∃ z, k_syms st !! x = Some z ∧ y_curr z = v) as Hconst.
  { intros x v (z & Ez & Hz & Hv). exists z. split; [|done]. rewrite (iv_base _ _ (gd_inv _ _ HG)); [done|]. by exists z. }
  destruct (Hconst _ _ (cp_no _ _ HC)) as (zn & Ezn & Hzn). destruct (Hconst _ _ (cp_empty _ _ HC)) as (ze & Eze & Hze). clear Hconst.
  assert (∀ start, y_curr start = (if is_bool_type (y_type y0) then Value lit_n Tno else Value lit_empty Tno) →
    wp ((if sym_is_choice_value y then ret tt else mod_sym s (del_flags SYMBOL_WRITE));;;
      sym_calc_visibility calc s;;; mod_sym s (set_curr (y_curr start));;; t <- sym_get_type s;;
      new <- (if is_bool_type t then tri <- calc_tristate calc s (v_tri (y_curr start));; ret (Value (v_val (y_curr start)) tri)
              else v <- calc_string calc s (v_val (y_curr start));; ret (Value v (v_tri (y_curr start))));;
      finish_value calc s (y_curr y) new) Q st) as Hbody.
  { intros start Hstart. rewrite Hcv. apply wp_bind. eapply wp_mod; [done|apply mild_del_write|]. intros st1 HG1.
    apply wp_bind. eapply wp_visibility; [done|]. intros st2 y2 HG2 Hv2 Hr2 _ Hw2. rewrite del_write in Hw2. apply wp_bind.
    eapply wp_mod; [done|apply mild_curr|]. intros st3 HG3. apply wp_bind. eapply wp_type; [done|]. apply wp_bind.
    assert (is_bool_type (type_of mv (y_type y0)) = is_bool_type (y_type y0)) as ->.
    { unfold type_of. generalize mv. intros m. by destruct (y_type y0), m. }
    destruct (is_bool_type (y_type y0)) eqn:Hbt; rewrite Hstart in *.
    - apply wp_bind. eapply wp_tristate; [done..|]. intros st4 y4 HG4 L1 L2 L3. apply wp_ret.
      eapply wp_finish; [done|]. intros st5 y5 a5 st6 HG5 (A1 & A2 & A3) Hc5 HE5 Hsame. eapply HQ; [done| |done|done]. eapply done_intro; [done|done| |].
      + unfold equation. rewrite Hnew. unfold ranged. by destruct (y_type y0).
      + intros _. by rewrite A1, A2, A3, L1, L2, L3.
    - assert (known_string (y_type y0) = true) as Hks by by destruct (y_type y0).
      apply wp_bind. eapply wp_string; [done..|]. intros st4 y4 a4 HG4 L1 L2 L3. apply wp_ret.
      eapply wp_finish; [done|]. intros st5 y5 a5 st6 HG5 (A1 & A2 & A3) Hc5 HE5 Hsame. eapply HQ; [done| |done|done]. eapply done_intro; [done|done| |].
      + unfold equation. rewrite Hnew. by destruct (y_type y0).
      + intros _. by rewrite A1, A2, A3, L1, L2, L3. }
  destruct (y_type y0) eqn:Ety; try done; simpl is_bool_type in *; apply wp_bind; (eapply wp_get_sym; [done|]); by apply Hbody.
Qed.
End typed.
Context (Htable : tabled).

Lemma wp_marked st y Q : good st y →
  (∀ st' y' st'', good st' y' → done_sym y' → echo st' st'' → (k_modules_sym st0 ≠ Some s → st'' = st') → Q tt st'') →
  wp (calc_marked calc s) Q st.
Proof using HC Hs0 Hnew Hfuel Hcalc Htable.
  destruct (known (y_type y0)) eqn:Hk; [by apply wp_marked_known|].
  intros HG HQ. destruct (same_fields _ _ (good_config _ _ HG)) as (Hn & Ht & _).
  unfold calc_marked. apply wp_bind. eapply wp_own; [done|]. cbv zeta. rewrite Ht, Hn.
  pose proof (cp_sym _ _ HC s y0 Hs0 Hnew) as Hw. unfold wf_sym in Hw.
  assert (∃ nm, y_name y0 = Some nm) as [nm Enm].
  { destruct (y_type y0); try done; apply bool_decide_eq_true in Hw; destruct (y_name y0); eauto; done. }
  assert (wp (mod_sym s (set_curr (Value (VStr s nm) Tno))) Q st) as Hwp.
  { exists tt. eexists. split; [apply mod_sym_ok, HG|]. set (y1 := set_curr _ _).
    assert (good (with_sym st s y1) y1) as HG1 by (apply good_change; [done|apply mild_curr|by right]).
    eapply HQ; [exact HG1| |apply echo_refl|done]. eapply (done_intro _ _ _ _ _ HG1); [done| |].
    - unfold equation. rewrite Hnew, Enm. by destruct (y_type y0).
    - by rewrite Hk. }
  rewrite Enm. by destruct (y_type y0).
Qed.
End own.

(** *** The recursion *)

Definition calc_ok (n : nat) : Prop := ∀ d r st,
  d ∈ dom (k_syms st0) → free d → (rank d < r)%nat → inv r st → (invalid st < n)%nat →
  wp (sym_calc_value n d) (λ _ st', inv r st' ∧ evolves st st' ∧ valid st' d ∧
    ∀ x, valid st x ∨ (r ≤ rank x)%nat → k_syms st' !! x = k_syms st !! x) st.

(** A symbol without mark, [modules_sym] included. *)
Lemma calc_new n d r st y0 y : calc_ok n →
  k_syms st0 !! d = Some y0 → k_syms st !! d = Some y → has SYMBOL_VALID y = false → (∀ d', d' ∈ deps y0 → free d') →
  (k_modules_sym st0 = Some d → ∀ x, x ∈ concat (k_hash st0) → x ∈ dom (k_syms st0)) →
  (rank d < r)%nat → inv r st → (invalid st < S n)%nat →
  wp (mod_sym d (add_flags SYMBOL_VALID);;; calc_marked (sym_calc_value n) d) (λ _ st'', ∃ st',
    echo d st' st'' ∧ (k_modules_sym st0 ≠ Some d → st'' = st') ∧ inv r st' ∧ evolves st st' ∧ valid st' d ∧
    ∀ x, valid st x ∨ (r ≤ rank x)%nat → k_syms st' !! x = k_syms st !! x) st.
Proof using HC.
  intros IH E0 E Hy Hfree Htab Hr HI Hn.
  assert (has SYMBOL_VALID y0 = false) as Hy0.
  { apply not_true_iff_false. intros Hv. rewrite (iv_base _ _ HI) in E; [congruence|]. by exists y0. }
  pose proof (mod_sym_ok st d y (add_flags SYMBOL_VALID) E) as Em. destruct (mark_less _ _ _ _ E Hy Em) as [Hev Hless].
  set (stm := with_sym st d (add_flags SYMBOL_VALID y)) in *. apply wp_bind. exists tt, stm. split; [done|].
  assert (∀ x, x ≠ d → k_syms stm !! x = k_syms st !! x) as Hoth by (intros; apply lookup_insert_ne; congruence).
  assert (inv (rank d) stm) as HIm.
  { constructor.
    - transitivity st; [apply HI|done].
    - apply HI.
    - intros x Hx. rewrite Hoth; [by apply HI|]. intros ->. destruct Hx as (z & Ez & Hz). congruence.
    - intros x Hx (z & Ez & Hz). assert (x ≠ d) as Hxd by (intros ->; lia). rewrite Hoth in Ez by done.
      destruct (iv_settled _ _ HI x ltac:(lia)) as (w & Ew & Hw); [by exists z|]. exists w. by rewrite Hoth.
    - intros x Hx (z & Ez & Hz) Hnx. assert (x ≠ d) as Hxd by (intros ->; lia). rewrite Hoth in Ez by done.
      destruct (iv_written _ _ HI x ltac:(lia)) as (w & Ew & Hw); [by exists z|done|]. exists w. by rewrite Hoth.
    - apply (same_unknown_trans _ st); [apply HI|apply HI|]. eapply same_unknown_put; [done|done|]. right. has_flags. apply orb_false_r. }
  eapply (wp_marked n (sym_calc_value n) d y0 stm E0 Hy0); [lia| |done| |].
  - intros d' st' Hd' Hdep' Hr' HI' Hn'. apply IH; [done|by apply Hfree|done..].
  - constructor; [done|reflexivity|done|apply lookup_insert_eq|]. has_flags. apply orb_true_r.
  - intros st' y' st'' HG (Hdi & Hds & Hdv & Hdw) HE Hsame. exists st'. split; [done|]. split; [done|].
    pose proof (gd_evolves _ _ _ _ HG) as Hev'. pose proof (gd_own _ _ _ _ HG) as E'.
    assert (∀ x, x ≠ d → valid st x ∨ (rank d ≤ rank x)%nat → k_syms st' !! x = k_syms st !! x) as Hfr.
    { intros x Hx Hv. rewrite (gd_frame _ _ _ _ HG x Hx); [by apply Hoth|]. destruct Hv as [(z & Ez & Hz)|Hv]; [|by right].
      left. exists z. by rewrite Hoth. }
    split; [|split; [by transitivity stm|split]].
    + constructor; [apply HG|apply HG|apply HG|..|apply (gd_inv _ _ _ _ HG)]; intros x Hx Hv; destruct (decide (rank x < rank d)%nat) as [Hl|Hl];
        [by apply (gd_inv _ _ _ _ HG)| |by apply (gd_inv _ _ _ _ HG)|];
        (destruct (decide (x = d)) as [->|Hxd]; [by exists y'|]; destruct Hv as (z & Ez & Hz); rewrite Hfr in Ez by (done || right; lia)).
      * destruct (iv_settled _ _ HI x Hx) as (w & Ew & Hw); [by exists z|]. exists w. rewrite Hfr by (done || right; lia). done.
      * intros Hnx. destruct (iv_written _ _ HI x Hx) as (w & Ew & Hw); [by exists z|done|]. exists w. rewrite Hfr by (done || right; lia). done.
    + exists y'. split; [done|apply HG].
    + intros x Hv. apply Hfr; [|destruct Hv; [by left|right; lia]]. intros ->. destruct Hv as [(z & Ez & Hz)|Hv]; [congruence|lia].
Qed.

Lemma calc_value_settled n : calc_ok n.
Proof using HC.
  induction n as [|n IH]; intros d r st Hd Hfree Hr HI Hn; [lia|]. cbn [sym_calc_value].
  assert (d ∈ dom (k_syms st)) as [y E]%elem_of_dom by (rewrite (config_dom st0 st); [done|apply HI]).
  destruct (inv_config _ _ _ _ HI E) as (y0 & E0 & Hc).
  apply wp_bind. eapply wp_get_sym; [done|]. destruct (has SYMBOL_VALID y) eqn:Hy.
  { apply wp_ret. split; [done|]. split; [reflexivity|]. split; [by exists y|done]. }
  assert (¬ valid st0 d) as Hnv by (intros Hv; destruct (ev_valid _ _ (iv_evolves _ _ HI) d Hv) as (z & Ez & Hz); congruence).
  assert (has SYMBOL_VALID y0 = false) as Hy0 by (apply not_true_iff_false; intros Hv; apply Hnv; by exists y0).
  assert (k_modules_sym st0 ≠ Some d) as Hnm by (intros Hm; destruct (Hfree d Hm) as [Hv|Hn']; [done|by apply Hn']).
  eapply wp_mono; [eapply (calc_new n d r st y0 y IH)|]; try done.
  - intros d' Hd'. by eapply free_dep.
  - intros [] st'' (st' & _ & Hsame & H). by rewrite (Hsame Hnm).
Qed.

(** ** Any sequence of computations *)

Fixpoint calc_list (n : nat) (l : list symbol) : K unit :=
  match l with [] => ret tt | s :: l' => sym_calc_value n s;;; calc_list n l' end.

Lemma start_inv r : inv r st0.
Proof using HC.
  constructor; [reflexivity|done|done| |by intros|apply same_unknown_refl]. intros x _ (y & E & Hy). exists y. split; [done|]. split.
  - unfold V. rewrite (value_of_equation _ _ _ (cp_ranks _ _ HC) _ _ E). unfold equation. by rewrite Hy.
  - split; [by apply (cp_valid _ _ HC x)|]. intros Hn. exfalso. apply Hn. by exists y.
Qed.
Lemma calc_list_settled n r l : ∀ st, Forall (λ d, d ∈ dom (k_syms st0) ∧ free d ∧ (rank d < r)%nat) l → inv r st → (invalid st < n)%nat →
  wp (calc_list n l) (λ _ st', inv r st' ∧ evolves st st' ∧ Forall (valid st') l) st.
Proof using HC.
  induction l as [|d l IH]; intros st Hl HI Hn; cbn [calc_list]; [by apply wp_ret|].
  inversion_clear Hl as [|? ? (Hd & Hf & Hr) Hl']. apply wp_bind. eapply wp_mono; [by apply calc_value_settled|].
  intros [] st1 (HI1 & He1 & Hv1 & _). pose proof (invalid_evolves _ _ He1). eapply wp_mono; [apply IH; [done|done|lia]|].
  intros [] st2 (HI2 & He2 & Hv2). split; [done|]. split; [by transitivity st1|]. constructor; [by apply He2|done].
Qed.
End calc.
