(* ===== verification/KSymbolSet.v ===== *)
(** * Setting a value and computing it again (sym_set_tristate_value in symbol.c)

    A value that the user may set is the value that is computed next, and the
    values of the symbols that do not depend on it stay as they were. *)

From stdpp Require Import base numbers list option strings gmap.
From S2P Require Import Prelude CString KExpr KSymbol KSymbolEnds KSymbolCheck KSymbolRef KSymbolCalc.
Local Open Scope Z_scope.
Local Open Scope c_scope.

(** ** Similar tables have the same values *)

Record similar (y0 y1 : sym) : Prop := {
  si_config : config_of y1 = config_of y0;
  si_valid : has SYMBOL_VALID y1 = has SYMBOL_VALID y0;
  si_curr : has SYMBOL_VALID y0 = true → y_curr y1 = y_curr y0 }.

Lemma equation_similar Sg mv y0 y1 : similar y0 y1 → equation Sg mv y1 = equation Sg mv y0.
Proof.
  intros [Hc Hv Hu]. destruct (same_fields _ _ Hc) as (Hn & Ht & _ & _ & _ & Hco & _).
  unfold equation, info. rewrite Hv, Ht, Hn, Hco, (same_tri Sg mv _ _ Hc), (same_str Sg mv _ _ Hc).
  destruct (has SYMBOL_VALID y0); [by rewrite Hu|done].
Qed.
Lemma value_of_similar S0 S1 mv (P : symbol → Prop) :
  (∀ x d, P x → depends S0 x d → P d) →
  (∀ x, P x → option_relation similar (λ _, False) (λ _, False) (S0 !! x) (S1 !! x)) →
  ∀ n x, P x → value_of S1 mv n x = value_of S0 mv n x.
Proof.
  intros HP HR. induction n as [|n IH]; intros x Hx; [done|]. cbn [value_of]. specialize (HR x Hx).
  destruct (S0 !! x) as [y0|] eqn:E0, (S1 !! x) as [y1|]; simpl in HR; try done.
  rewrite (equation_similar _ _ _ _ HR). apply equation_deps. intros Hv d Hd. apply IH, (HP x); [done|]. by exists y0.
Qed.

(** ** Taking the valid marks away *)

Lemma invalid_size st : (invalid st ≤ size (k_syms st))%nat.
Proof. unfold invalid. rewrite <- !size_dom. apply subseteq_size, dom_filter_subseteq. Qed.

Lemma del_valid y :
  config_of (del_flags SYMBOL_VALID y) = config_of y ∧ y_curr (del_flags SYMBOL_VALID y) = y_curr y ∧
  has SYMBOL_VALID (del_flags SYMBOL_VALID y) = false.
Proof.
  split; [|split; [done|has_flags; apply andb_false_r]].
  apply config_flags. unfold static_flags. fold (del_flags SYMBOL_VALID y). has_flags. by rewrite !andb_true_r.
Qed.

(** The records of [st'] are those of [st], without the marks of [l]. *)
Record unmarked_to (l : list symbol) (st st' : kst) : Prop := {
  um_hash : k_hash st' = k_hash st;
  um_msym : k_modules_sym st' = k_modules_sym st;
  um_mval : k_modules_val st' = k_modules_val st;
  um_dom : dom (k_syms st') = dom (k_syms st);
  um_sym x y : k_syms st !! x = Some y → ∃ y', k_syms st' !! x = Some y' ∧ config_of y' = config_of y ∧
    y_curr y' = y_curr y ∧ has SYMBOL_VALID y' = has SYMBOL_VALID y && bool_decide (x ∉ l) }.

Lemma clear_marks l : ∀ st, Forall (λ x, ∃ y, k_syms st !! x = Some y ∧ y_type y ≠ S_OTHER) l →
  wp (for_symbols (λ s, mod_sym s (del_flags SYMBOL_VALID)) l) (λ _ st', unmarked_to l st st') st.
Proof.
  induction l as [|s l IH]; intros st Hl; cbn [for_symbols].
  { apply wp_ret. constructor; try done. intros x y E. exists y. rewrite bool_decide_true by apply not_elem_of_nil.
    by rewrite andb_true_r. }
  inversion_clear Hl as [|? ? (y & E & Ht) Hl']. apply wp_bind. eapply wp_get_sym; [done|]. rewrite bool_decide_false by done.
  apply wp_bind. exists tt. eexists. split; [by apply mod_sym_ok|]. destruct (del_valid y) as (D1 & D2 & D3).
  set (y1 := del_flags SYMBOL_VALID y) in *. eapply wp_mono; [apply IH|].
  { eapply Forall_impl; [done|]. intros w (z & Ez & Hz). simpl. destruct (decide (w = s)) as [->|Hx].
    - exists y1. rewrite lookup_insert_eq. split; [done|]. by assert (z = y) as -> by congruence.
    - exists z. by rewrite lookup_insert_ne. }
  intros [] st' [H1 H2 H3 H4 H5]. constructor; [done..| |].
  - rewrite H4. simpl. apply dom_insert_lookup_L. eauto.
  - intros w z Ez. simpl in H5. destruct (decide (w = s)) as [->|Hx].
    + destruct (H5 s y1) as (y' & E' & C' & V' & M'); [by rewrite lookup_insert_eq|]. assert (z = y) as -> by congruence.
      exists y'. rewrite bool_decide_false by (rewrite not_elem_of_cons; tauto). rewrite M', D3, andb_false_r. by rewrite C', V'.
    + destruct (H5 w z) as (y' & E' & C' & V' & M'); [by rewrite lookup_insert_ne|]. exists y'. rewrite M'.
      repeat split; [done..|]. f_equal. apply bool_decide_ext. rewrite not_elem_of_cons. tauto.
Qed.

(** ** Changes of one symbol *)

Section touch.
Context (st : kst) (s : symbol).

Record touched (st1 : kst) (y1 : sym) : Prop := {
  to_hash : k_hash st1 = k_hash st;
  to_msym : k_modules_sym st1 = k_modules_sym st;
  to_mval : k_modules_val st1 = k_modules_val st;
  to_own : k_syms st1 !! s = Some y1;
  to_other x : x ≠ s → k_syms st1 !! x = k_syms st !! x }.

Lemma wp_touch st1 y1 f Q : touched st1 y1 → (∀ st2, touched st2 (f y1) → Q tt st2) → wp (mod_sym s f) Q st1.
Proof using.
  intros HT HQ. exists tt. eexists. split; [apply mod_sym_ok, HT|]. apply HQ. constructor; try apply HT; simpl.
  - apply lookup_insert_eq.
  - intros x Hx. rewrite lookup_insert_ne by done. by apply HT.
Qed.
Lemma wp_touch_get st1 y1 Q : touched st1 y1 → Q y1 st1 → wp (get_sym s) Q st1.
Proof using. intros HT. apply wp_get_sym, HT. Qed.

(** What setting a value changes in the record of the symbol. *)
Record user_set (y : sym) (y1 : sym) : Prop := {
  us_config : config_of y1 = config_of (add_flags SYMBOL_DEF_USER y);
  us_valid : has SYMBOL_VALID y1 = has SYMBOL_VALID y;
  us_curr : y_curr y1 = y_curr y }.

Lemma user_set_marked y : has SYMBOL_DEF_USER y = true → user_set y y.
Proof using.
  intros H. constructor; [|done|done]. symmetry. apply config_flags. unfold static_flags. fold (add_flags SYMBOL_DEF_USER y).
  has_flags. by rewrite H, !orb_false_r.
Qed.
Lemma user_set_new y : user_set y (add_flags SYMBOL_CHANGED (add_flags SYMBOL_DEF_USER y)).
Proof using.
  constructor; [apply mild_changed|has_flags; by rewrite !orb_false_r|done].
Qed.

Lemma wp_mark_user st1 y1 Q : touched st1 y1 → (∀ st2 y2, touched st2 y2 → user_set y1 y2 → Q tt st2) → wp (mark_user s) Q st1.
Proof using.
  intros HT HQ. unfold mark_user. apply wp_bind. eapply wp_touch_get; [done|].
  destruct (has SYMBOL_DEF_USER y1) eqn:Hu; [apply wp_ret; by eapply HQ; [|apply user_set_marked]|].
  apply wp_bind. eapply wp_touch; [done|]. intros st2 HT2. unfold sym_set_changed. apply wp_bind. eapply wp_touch; [done|].
  intros st3 HT3. apply wp_bind. eapply wp_touch_get; [done|]. apply wp_upd. eapply HQ; [|apply user_set_new].
  constructor; simpl; apply HT3.
Qed.
End touch.

(** ** The configuration with the new value *)

Definition with_user (val : tristate) (y : sym) : sym := set_def (Value (v_val (y_def y)) val) (add_flags SYMBOL_DEF_USER y).

Lemma with_user_config val y y0 : config_of y = config_of y0 → config_of (with_user val y) = config_of (with_user val y0).
Proof.
  intros Hc. destruct (same_fields _ _ Hc) as (Hn & Ht & Hd & Hr & Hp & Hco & Hch & Hcv & _).
  pose proof (same_auto _ _ Hc) as Ha. destruct (same_auto_flags _ _ Hc) as [Hda Hau].
  unfold config_of. cbn [with_user set_def add_flags set_flags y_name y_type y_def y_auto y_prop y_rev].
  assert (static_flags (with_user val y) = static_flags (with_user val y0)) as ->.
  { unfold static_flags. change (has ?f (with_user val ?z)) with (has f (add_flags SYMBOL_DEF_USER z)).
    has_flags. unfold sym_is_choice, sym_is_choice_value in *. by rewrite Hco, Hch, Hcv, Hda, Hau, !orb_true_r. }
  by rewrite Hn, Ht, Hd, Ha, Hr, Hp.
Qed.
Lemma with_user_flags val y : has SYMBOL_VALID (with_user val y) = has SYMBOL_VALID y ∧
  sym_is_choice (with_user val y) = sym_is_choice y ∧ sym_is_choice_value (with_user val y) = sym_is_choice_value y ∧
  sym_has_value (with_user val y) = true ∧ has SYMBOL_CONST (with_user val y) = has SYMBOL_CONST y.
Proof.
  unfold sym_is_choice, sym_is_choice_value, sym_has_value.
  change (has ?f (with_user val y)) with (has f (add_flags SYMBOL_DEF_USER y)).
  has_flags. by rewrite !orb_false_r, orb_true_r.
Qed.

(** Two tables with similar records. *)
Definition similar_syms (S0 S1 : gmap symbol sym) : Prop :=
  ∀ x, option_relation similar (λ _, False) (λ _, False) (S0 !! x) (S1 !! x).
Lemma similar_lookup S0 S1 x y1 : similar_syms S0 S1 → S1 !! x = Some y1 → ∃ y0, S0 !! x = Some y0 ∧ similar y0 y1.
Proof. intros H E. specialize (H x). rewrite E in H. destruct (S0 !! x); [eauto|done]. Qed.

Lemma similar_dom S0 S1 : similar_syms S0 S1 → dom S1 = dom S0.
Proof.
  intros HS. apply set_eq. intros x. rewrite !elem_of_dom. specialize (HS x).
  destruct (S0 !! x), (S1 !! x); simpl in HS; done || eauto.
Qed.
Lemma computable_similar st0 st1 rank :
  similar_syms (k_syms st0) (k_syms st1) → computable st0 rank → computable st1 rank.
Proof.
  intros HS HC. pose proof (similar_dom _ _ HS) as Hdom.
  assert (∀ x v, (∃ y, k_syms st0 !! x = Some y ∧ has SYMBOL_VALID y = true ∧ y_curr y = v) →
    ∃ y, k_syms st1 !! x = Some y ∧ has SYMBOL_VALID y = true ∧ y_curr y = v) as Hconst.
  { intros x v (y & E & Hv & Hy). specialize (HS x). rewrite E in HS. destruct (k_syms st1 !! x) as [y1|]; [|done].
    destruct HS as [C M U]. exists y1. split; [done|]. by rewrite M, U. }
  constructor.
  - intros x y d E Hv Hd. destruct (similar_lookup _ _ _ _ HS E) as (y0 & E0 & [C M U]).
    rewrite Hdom. apply (cp_ranks _ _ HC x y0); [done|congruence|]. by rewrite <- (same_deps _ _ C).
  - intros x y E. destruct (similar_lookup _ _ _ _ HS E) as (y0 & E0 & [C M U]).
    destruct (same_fields _ _ C) as (_ & _ & _ & _ & _ & _ & -> & -> & _). by apply (cp_plain _ _ HC x).
  - intros x y E Hv. destruct (similar_lookup _ _ _ _ HS E) as (y0 & E0 & [C M U]). rewrite U by congruence.
    apply (cp_valid _ _ HC x); congruence.
  - intros x y E Hv. destruct (similar_lookup _ _ _ _ HS E) as (y0 & E0 & [C M U]). rewrite (wf_sym_same _ _ C).
    apply (cp_sym _ _ HC x); congruence.
  - apply Hconst, HC.
  - apply Hconst, HC.
Qed.
Lemma computable_user st0 rank s y0 val :
  computable st0 rank → k_syms st0 !! s = Some y0 → has SYMBOL_VALID y0 = false → is_bool_type (y_type y0) = true →
  computable (with_sym st0 s (with_user val y0)) rank.
Proof.
  intros HC E0 Hv0 Ht. destruct (with_user_flags val y0) as (F1 & F2 & F3 & F4 & F5).
  assert (∀ x y, k_syms (with_sym st0 s (with_user val y0)) !! x = Some y →
    (x = s ∧ y = with_user val y0) ∨ (x ≠ s ∧ k_syms st0 !! x = Some y)) as Hl.
  { intros x y. simpl. destruct (decide (x = s)) as [->|Hx]; [rewrite lookup_insert_eq|rewrite lookup_insert_ne by done]; naive_solver. }
  assert (∀ x z, k_syms st0 !! x = Some z → has SYMBOL_VALID z = true → k_syms (with_sym st0 s (with_user val y0)) !! x = Some z) as Hk.
  { intros x z Ez Hz. simpl. rewrite lookup_insert_ne; [done|]. intros ->. congruence. }
  constructor.
  - intros x y d E Hv Hd. simpl. rewrite (dom_insert_lookup_L _ _ _ (ex_intro _ y0 E0)).
    destruct (Hl _ _ E) as [[-> ->]|[_ E']]; [by apply (cp_ranks _ _ HC s y0)|by apply (cp_ranks _ _ HC x y)].
  - intros x y E. destruct (Hl _ _ E) as [[-> ->]|[_ E']]; [rewrite F2, F3|]; by eapply (cp_plain _ _ HC).
  - intros x y E Hv. destruct (Hl _ _ E) as [[-> ->]|[_ E']]; [congruence|]. by apply (cp_valid _ _ HC x).
  - intros x y E Hv. destruct (Hl _ _ E) as [[-> ->]|[_ E']]; [|by apply (cp_sym _ _ HC x)].
    unfold wf_sym. simpl. by destruct (y_type y0).
  - destruct (cp_no _ _ HC) as (z & Ez & Hz & Hc). exists z. split; [by apply Hk|done].
  - destruct (cp_empty _ _ HC) as (z & Ez & Hz & Hc). exists z. split; [by apply Hk|done].
Qed.

(** ** The new value *)

(** The value of a boolean or tristate symbol with a user value. *)
Lemma tri_of_user Sg mv y val :
  is_bool_type (y_type y) = true → sym_is_choice_value y = false → y_visible y = vis_of Sg mv y → y_rev_tri y = rev_of Sg mv y →
  tristate_within_range mv y val = true → tri_of Sg mv (with_user val y) = val.
Proof.
  intros Ht Hcv Hv Hr Hw. unfold tri_of. destruct (with_user_flags val y) as (_ & _ & _ & -> & _).
  change (vis_of Sg mv (with_user val y)) with (vis_of Sg mv y). change (rev_of Sg mv (with_user val y)) with (rev_of Sg mv y).
  change (y_type (with_user val y)) with (y_type y). change (v_tri (y_def (with_user val y))) with val.
  unfold tristate_within_range in Hw. rewrite Hcv, Hv, Hr in Hw.
  assert (get_type mv y = type_of mv (y_type y)) as E by (unfold get_type, type_of; rewrite Hcv; by destruct (y_type y), mv).
  rewrite E in Hw. unfold rounded.
  revert Hw. generalize (vis_of Sg mv y) (rev_of Sg mv y) (type_of mv (y_type y)) (default_tri Sg (with_user val y)).
  intros v r t d. by destruct v, r, t, val; simpl.
Qed.

(** ** The value of [modules_sym] *)

(** The symbols of the table have no valid mark, the others have one. *)
Record cleared (st : kst) : Prop := {
  cl_valid x : x ∈ dom (k_syms st) → valid st x ↔ x ∉ concat (k_hash st);
  cl_type x : x ∈ concat (k_hash st) → ∃ y, k_syms st !! x = Some y ∧ y_type y ≠ S_OTHER }.

(** The end of [sym_clear_all_valid]. *)
Definition start (n : nat) : K unit :=
  ms <- get k_modules_sym;; match ms with Some s => sym_calc_value n s | None => ret tt end.

Section start.
Context (stb : kst) (rank : symbol → nat) (HC : computable stb rank) (HL : cleared stb).
Let mv : tristate := k_modules_val stb.
Let V (x : symbol) : syminfo := value_of (k_syms stb) mv (S (rank x)) x.

(** [modules_val] is the value of [modules_sym]. *)
Definition agrees : Prop := ∀ m, k_modules_sym stb = Some m → m ∈ dom (k_syms stb) ∧ s_tri (V m) = mv.

Lemma depends_rank x s : rtc (depends (k_syms stb)) x s → (rank s ≤ rank x)%nat.
Proof using HC.
  intros H. induction H as [|x d s (y & E & Hv & Hd) _ IH]; [done|]. destruct (cp_ranks _ _ HC x y d E Hv Hd). lia.
Qed.

(** A state in which some symbols have their values. *)
Record started (st : kst) : Prop := {
  sd_config : config st = config stb;
  sd_hash : k_hash st = k_hash stb;
  sd_msym : k_modules_sym st = k_modules_sym stb;
  sd_mval : k_modules_val st = mv;
  sd_const x : x ∉ concat (k_hash stb) → k_syms st !! x = k_syms stb !! x;
  sd_valid x : valid st x → settled stb rank st x }.

Lemma started_config st x y : started st → k_syms st !! x = Some y → ∃ yb, k_syms stb !! x = Some yb ∧ config_of y = config_of yb.
Proof using.
  intros HS E. assert (config st !! x = config stb !! x) as H by by rewrite (sd_config _ HS).
  unfold config in H. rewrite !lookup_fmap, E in H. destruct (k_syms stb !! x) as [yb|]; [|done].
  exists yb. split; [done|]. by apply (inj Some) in H.
Qed.
Lemma const_out x : valid stb x → x ∉ concat (k_hash stb).
Proof using HL. intros Hv. apply (cl_valid _ HL); [|done]. destruct Hv as (y & E & _). apply elem_of_dom. eauto. Qed.

Lemma started_mono st x yb y : started st → k_syms stb !! x = Some yb → has SYMBOL_VALID yb = true → k_syms st !! x = Some y → y = yb.
Proof using HL.
  intros HS Eb Hv E. rewrite (sd_const _ HS) in E by (apply const_out; by exists yb). congruence.
Qed.
Lemma started_computable st : started st → computable st rank.
Proof using HC HL.
  intros HS. assert (dom (k_syms st) = dom (k_syms stb)) as Hdom by (apply config_dom, HS).
  assert (∀ x y yb, k_syms st !! x = Some y → k_syms stb !! x = Some yb → has SYMBOL_VALID y = false → has SYMBOL_VALID yb = false) as Hinv.
  { intros x y yb E Eb Hv. apply not_true_iff_false. intros Hvb. rewrite (started_mono st x yb y HS Eb Hvb E) in Hv. congruence. }
  assert (∀ x v, (∃ y, k_syms stb !! x = Some y ∧ has SYMBOL_VALID y = true ∧ y_curr y = v) →
    ∃ y, k_syms st !! x = Some y ∧ has SYMBOL_VALID y = true ∧ y_curr y = v) as Hconst.
  { intros x v (y & E & Hv & Hy). exists y. rewrite (sd_const _ HS); [done|]. apply const_out. by exists y. }
  constructor; [..|by apply Hconst, HC|by apply Hconst, HC].
  - intros x y d E Hv Hd. destruct (started_config _ _ _ HS E) as (yb & Eb & Hc). rewrite Hdom.
    apply (cp_ranks _ _ HC x yb); [done|by eapply Hinv|]. by rewrite <- (same_deps _ _ Hc).
  - intros x y E. destruct (started_config _ _ _ HS E) as (yb & Eb & Hc).
    destruct (same_fields _ _ Hc) as (_ & _ & _ & _ & _ & _ & -> & -> & _). by apply (cp_plain _ _ HC x).
  - intros x y E Hv. destruct (sd_valid _ HS x) as (z & Ez & _ & Hs & _); [by exists y|]. congruence.
  - intros x y E Hv. destruct (started_config _ _ _ HS E) as (yb & Eb & Hc). rewrite (wf_sym_same _ _ Hc).
    apply (cp_sym _ _ HC x); [done|by eapply Hinv].
Qed.
(** The values known so far do not change the solution. *)
Lemma started_values st : started st → ∀ x, value_of (k_syms st) mv (S (rank x)) x = V x.
Proof using HC HL.
  intros HS. pose proof (started_computable _ HS) as HC'.
  assert (∀ k x, (rank x < k)%nat → value_of (k_syms st) mv (S (rank x)) x = V x) as H; [|intros x; apply (H (S (rank x))); lia].
  induction k as [|k IH]; intros x Hx; [lia|]. destruct (k_syms st !! x) as [y|] eqn:E.
  2: { assert (k_syms stb !! x = None) as Eb.
       { apply not_elem_of_dom. rewrite <- (config_dom stb st) by apply HS. by apply not_elem_of_dom. }
       unfold V. cbn [value_of]. by rewrite E, Eb. }
  destruct (started_config _ _ _ HS E) as (yb & Eb & Hc). rewrite (value_of_equation _ _ _ (cp_ranks _ _ HC') _ _ E).
  destruct (has SYMBOL_VALID y) eqn:Hv.
  { destruct (sd_valid _ HS x) as (z & Ez & Hi & _); [by exists y|]. assert (z = y) as -> by congruence. unfold equation. by rewrite Hv. }
  assert (has SYMBOL_VALID yb = false) as Hvb.
  { apply not_true_iff_false. intros Hvb. rewrite (started_mono st x yb y HS Eb Hvb E) in Hv. congruence. }
  unfold V. rewrite (value_of_equation _ _ _ (cp_ranks _ _ HC) _ _ Eb). rewrite (equation_similar _ _ yb y) by (constructor; congruence).
  apply equation_deps. intros _ d Hd. destruct (cp_ranks _ _ HC x yb d Eb Hvb Hd). apply IH. lia.
Qed.

Lemma started_refl : started stb.
Proof using HC. constructor; try done. intros x Hv. apply (iv_settled _ _ _ _ (start_inv stb rank HC (S (rank x)))); [lia|done]. Qed.
(** The marks for writing at the end of the computation of [modules_sym]. *)
Lemma written_echo m st st' x :
  echo m st st' → (valid st x → ¬ valid stb x → written stb rank st x) → valid st' x → ¬ valid stb x → written stb rank st' x.
Proof using.
  intros HE HW (y' & E' & Hv') Hn. pose proof (ec_syms _ _ _ HE x) as Hs. rewrite E' in Hs. destruct (k_syms st !! x) as [y|] eqn:E; [|done].
  simpl in Hs. destruct Hs as (Hc & Hvv & _ & _ & _ & Hw). destruct HW as (z & Ez & Hz); [exists y; split; [done|congruence]|done|].
  assert (z = y) as -> by congruence. destruct (same_fields _ _ Hc) as (_ & Ht & _). exists y'. split; [done|].
  intros Hk. rewrite Hw, (same_saved _ _ _ _ Hc). apply Hz. by rewrite <- Ht.
Qed.
(** The end of the computation of [modules_sym]. *)
Lemma started_echo r m st st' :
  (∀ x, x ∈ dom (k_syms stb) → (rank x < r)%nat) → k_modules_sym stb = Some m → s_tri (V m) = mv →
  inv stb rank r st → valid st m → (∀ x, valid stb x ∨ (r ≤ rank x)%nat → k_syms st !! x = k_syms stb !! x) →
  echo m st st' → started st'.
Proof using HL.
  intros Hr Hm Hag HI Hvm HF HE. pose proof (iv_evolves _ _ _ _ HI) as Hev.
  assert (dom (k_syms st) = dom (k_syms stb)) as Hdom by apply config_dom, Hev.
  assert (∀ x, valid st x → settled stb rank st x) as Hset.
  { intros x Hv. apply (iv_settled _ _ _ _ HI); [|done]. apply Hr. rewrite <- Hdom. destruct Hv as (y & E & _). apply elem_of_dom. eauto. }
  constructor.
  - rewrite <- (ev_config _ _ Hev). apply map_eq. intros x. unfold config. rewrite !lookup_fmap. pose proof (ec_syms _ _ _ HE x) as Hs.
    destruct (k_syms st !! x), (k_syms st' !! x); simpl in Hs; try done. simpl. f_equal. apply Hs.
  - rewrite (ec_hash _ _ _ HE). apply Hev.
  - rewrite (ec_msym _ _ _ HE). apply Hev.
  - destruct (ec_mval _ _ _ HE) as [->|(y & E & ->)]; [apply HI|]. destruct (Hset m Hvm) as (z & Ez & Hi & _).
    assert (z = y) as -> by congruence. transitivity (s_tri (V m)); [|done]. unfold V, mv. by rewrite <- Hi.
  - intros x Hx. rewrite (ec_table _ _ _ HE) by (by rewrite (ev_hash _ _ Hev)). destruct (decide (x ∈ dom (k_syms stb))) as [Hd|Hd].
    + apply HF. left. by apply (cl_valid _ HL).
    + assert (k_syms stb !! x = None) as -> by by apply not_elem_of_dom. apply not_elem_of_dom. by rewrite Hdom.
  - intros x (y' & E' & Hv'). pose proof (ec_syms _ _ _ HE x) as Hs. rewrite E' in Hs. destruct (k_syms st !! x) as [y|] eqn:E; [|done].
    simpl in Hs. destruct Hs as (Hc & Hvv & Hcu & Hvi & Hre & _). destruct (Hset x) as (z & Ez & Hi & Hst & Hvr); [exists y; split; [done|congruence]|].
    assert (z = y) as -> by congruence. destruct (same_fields _ _ Hc) as (Hn & Ht & _ & _ & _ & Hco & _).
    exists y'. split; [done|]. unfold info in *. rewrite Hn, Ht, Hco, Hcu. split; [done|]. split; [done|].
    rewrite Hvi, Hre. by rewrite (same_vis _ _ _ _ Hc), (same_rev _ _ _ _ Hc).
Qed.
Lemma start_ok n : agrees → (invalid stb < n)%nat →
  wp (start n) (λ _ st, started st ∧ (∀ m, k_modules_sym st = Some m → valid st m) ∧
    (∀ x, valid st x → ¬ valid stb x → written stb rank st x) ∧ same_unknown stb st) stb.
Proof using HC HL.
  intros HA Hn. unfold start. apply wp_bind, wp_get. pose proof started_refl as Hrefl.
  destruct (k_modules_sym stb) as [m|] eqn:Em; [|apply wp_ret; split; [done|split; [congruence|split; [done|apply same_unknown_refl]]]].
  destruct (HA m Em) as [[y E]%elem_of_dom Hag]. destruct n as [|n]; [lia|]. cbn [sym_calc_value]. apply wp_bind. eapply wp_get_sym; [done|].
  destruct (has SYMBOL_VALID y) eqn:Hv.
  { apply wp_ret. split; [done|]. split; [|split; [done|apply same_unknown_refl]]. intros m' Hm'. assert (m' = m) as -> by congruence. by exists y. }
  set (r := S (max_list (rank <$> elements (dom (k_syms stb))))).
  assert (∀ x, x ∈ dom (k_syms stb) → (rank x < r)%nat) as Hr.
  { intros x Hx. apply Nat.lt_succ_r, max_list_elem_of_le, list_elem_of_fmap. exists x. split; [done|]. by apply elem_of_elements. }
  eapply wp_mono; [apply (calc_new stb rank HC n m r stb y y (calc_value_settled stb rank HC n)); try done|].
  - intros d Hd m' Hm'. right. assert (m' = m) as -> by congruence. intros Hdm%depends_rank.
    destruct (cp_ranks _ _ HC m y d E Hv Hd). lia.
  - intros _ x Hx. destruct (cl_type _ HL x Hx) as (z & Ez & _). apply elem_of_dom. eauto.
  - apply Hr, elem_of_dom. eauto.
  - by apply start_inv.
  - intros [] st'' (st' & HE & _ & HI & Hev & Hvm & HF). split; [|split; [|split]].
    4: { intros x z z'' E1 E2 Hk. pose proof (ec_syms _ _ _ HE x) as Hs. rewrite E2 in Hs. destruct (k_syms st' !! x) as [z'|] eqn:Ez'; [|done].
         destruct Hs as (_ & _ & _ & _ & _ & ->). by apply (iv_unknown _ _ _ _ HI x). }
    3: { intros x Hx Hnx. eapply written_echo; [done| |done|done]. intros Hv' _. apply (iv_written _ _ _ _ HI); [|done|done].
         apply Hr. destruct Hv' as (z & Ez & _). rewrite <- (config_dom _ _ (ev_config _ _ (iv_evolves _ _ _ _ HI))). apply elem_of_dom. eauto. }
    2: { intros m' Hm'. rewrite (ec_msym _ _ _ HE), (ev_modules _ _ Hev) in Hm'. assert (m' = m) as -> by congruence.
         destruct Hvm as (z & Ez & Hz). pose proof (ec_syms _ _ _ HE m) as Hs. rewrite Ez in Hs.
         destruct (k_syms st'' !! m) as [w|] eqn:Ew; [|done]. destruct Hs as (_ & Hs & _). exists w. split; [done|congruence]. }
    by apply (started_echo r m st').
Qed.
End start.

(** ** Setting a value *)

Section set.
Context (stb : kst) (rank : symbol → nat) (HC : computable stb rank) (HL : cleared stb).
Let mv : tristate := k_modules_val stb.
Let V (x : symbol) : syminfo := value_of (k_syms stb) mv (S (rank x)) x.

(** Computing further symbols. *)
Lemma started_step r st0 st :
  (∀ x, x ∈ dom (k_syms stb) → (rank x < r)%nat) → started stb rank st0 → inv st0 rank r st → started stb rank st.
Proof using HC HL.
  intros Hr HS HI. pose proof (iv_evolves _ _ _ _ HI) as Hev.
  assert (dom (k_syms st) = dom (k_syms stb)) as Hdom.
  { rewrite (config_dom st0 st) by apply Hev. apply config_dom, HS. }
  constructor.
  - rewrite (ev_config _ _ Hev). apply HS.
  - rewrite (ev_hash _ _ Hev). apply HS.
  - rewrite (ev_modules _ _ Hev). apply HS.
  - rewrite (iv_mv _ _ _ _ HI). apply HS.
  - intros x Hx. rewrite <- (sd_const _ _ _ HS x Hx). destruct (decide (x ∈ dom (k_syms stb))) as [Hd|Hd].
    + apply (iv_base _ _ _ _ HI). apply (cl_valid _ HL x Hd) in Hx as Hv. destruct Hv as (y & E & Hy).
      exists y. split; [by rewrite (sd_const _ _ _ HS x Hx)|done].
    + rewrite (sd_const _ _ _ HS x Hx). assert (k_syms stb !! x = None) as -> by by apply not_elem_of_dom.
      apply not_elem_of_dom. by rewrite Hdom.
  - intros x Hv. destruct Hv as (y & E & Hy). assert (x ∈ dom (k_syms stb)) as Hd by (rewrite <- Hdom; apply elem_of_dom; eauto).
    destruct (iv_settled _ _ _ _ HI x) as (z & Ez & Hi & Hst & Hvr); [by apply Hr|by exists y|]. assert (z = y) as -> by congruence.
    assert (∀ d, value_of (k_syms st0) (k_modules_val st0) (S (rank d)) d = V d) as HV.
    { intros d. rewrite (sd_mval _ _ _ HS). by apply started_values. }
    exists y. split; [done|]. split; [by rewrite Hi, HV|]. split; [done|]. intros Hn Hk.
    destruct (k_syms st0 !! x) as [y0|] eqn:E0.
    2: { apply not_elem_of_dom in E0. rewrite (config_dom stb st0) in E0 by apply HS. done. }
    destruct (has SYMBOL_VALID y0) eqn:Hy0.
    + assert (valid st0 x) as Hv0 by by exists y0. destruct (sd_valid _ _ _ HS x Hv0) as (w & Ew & _ & _ & Hw).
      rewrite (iv_base _ _ _ _ HI x Hv0) in E. assert (w = y) as -> by congruence. auto.
    + destruct Hvr as [Hvi Hre]; [intros (w & Ew & Hw); congruence|done|]. rewrite Hvi, Hre, (sd_mval _ _ _ HS).
      rewrite (sd_mval _ _ _ HS) in HV. split; [apply vis_of_ext|apply rev_of_ext]; intros; apply HV.
Qed.

(** The symbols of a list, after [modules_sym]. *)
Lemma start_then_calc n l : agrees stb rank → Forall (.∈ dom (k_syms stb)) l → (size (k_syms stb) < n)%nat →
  wp (start n;;; calc_list n l) (λ _ st, started stb rank st ∧ Forall (valid st) l) stb.
Proof using HC HL.
  intros HA Hl Hn. apply wp_bind. eapply wp_mono.
  { apply start_ok; [done..|]. eapply Nat.le_lt_trans; [apply invalid_size|done]. }
  intros [] st0 (HS & Hk & _). set (r := S (max_list (rank <$> elements (dom (k_syms stb))))).
  assert (∀ x, x ∈ dom (k_syms stb) → (rank x < r)%nat) as Hr.
  { intros x Hx. apply Nat.lt_succ_r, max_list_elem_of_le, list_elem_of_fmap. exists x. split; [done|]. by apply elem_of_elements. }
  pose proof (started_computable stb rank HC HL st0 HS) as HC0. assert (dom (k_syms st0) = dom (k_syms stb)) as Hdom by apply config_dom, HS.
  eapply wp_mono; [apply (calc_list_settled st0 rank HC0 n r l st0)|].
  - eapply Forall_impl; [done|]. intros d Hd. rewrite Hdom. split; [done|]. split; [intros m Hm; left; auto|by apply Hr].
  - by apply start_inv.
  - eapply Nat.le_lt_trans; [apply invalid_size|]. by rewrite <- size_dom, Hdom, size_dom.
  - intros [] st (HI & _ & Hv). split; [by eapply started_step|done].
Qed.

(** One more symbol: the others that have values keep their records; what is
    computed is marked for writing as it has to be. *)
Definition marked_by (st st' : kst) : Prop :=
  (∀ x, valid st x → k_syms st' !! x = k_syms st !! x) ∧
  (∀ x, valid st' x → ¬ valid st x → written stb rank st' x) ∧ same_unknown st st'.
Lemma started_calc n s st : started stb rank st → (∀ m, k_modules_sym stb = Some m → valid st m) →
  s ∈ dom (k_syms stb) → (size (k_syms stb) < n)%nat →
  wp (sym_calc_value n s) (λ _ st', started stb rank st' ∧ evolves st st' ∧ marked_by st st' ∧ valid st' s) st.
Proof using HC HL.
  intros HS Hm Hs Hn. set (r := S (max_list (rank <$> elements (dom (k_syms stb))))).
  assert (∀ x, x ∈ dom (k_syms stb) → (rank x < r)%nat) as Hr.
  { intros x Hx. apply Nat.lt_succ_r, max_list_elem_of_le, list_elem_of_fmap. exists x. split; [done|]. by apply elem_of_elements. }
  pose proof (started_computable stb rank HC HL st HS) as HC0. assert (dom (k_syms st) = dom (k_syms stb)) as Hdom by apply config_dom, HS.
  eapply wp_mono; [apply (calc_value_settled st rank HC0 n s r st)|].
  - by rewrite Hdom.
  - intros m' Hm'. left. apply Hm. by rewrite <- (sd_msym _ _ _ HS).
  - by apply Hr.
  - by apply start_inv.
  - eapply Nat.le_lt_trans; [apply invalid_size|]. by rewrite <- size_dom, Hdom, size_dom.
  - intros [] st' (HI & Hev & Hv & Hfr). split; [by eapply started_step|]. split; [done|]. split; [|done]. split; [|split; [|apply HI]].
    + intros x Hx. apply Hfr. by left.
    + intros x Hx Hnx. destruct (iv_written _ _ _ _ HI x) as (y & E & Hy); [|done|done|].
      { apply Hr. rewrite <- Hdom, <- (config_dom _ _ (ev_config _ _ Hev)). destruct Hx as (y & E & _). apply elem_of_dom. eauto. }
      exists y. split; [done|]. intros Hk. rewrite (Hy Hk), (sd_mval _ _ _ HS). apply saved_of_ext. intros d _.
      rewrite (started_values stb rank HC HL st HS). done.
Qed.

Context (st : kst) (HS : started stb rank st).

(** After a change of [s] and the removal of all marks. *)
Lemma cleared_similar s y yb y1 val st1 st2 :
  k_syms stb !! s = Some yb → s ∈ concat (k_hash stb) → k_syms st !! s = Some y →
  touched st s st1 y1 → config_of y1 = config_of (with_user val y) → unmarked_to (concat (k_hash st1)) st1 st2 →
  similar_syms (<[s := with_user val yb]> (k_syms stb)) (k_syms st2).
Proof using HL HS.
  intros Eb Hs E HT Hy1 HU x.
  assert (k_hash st1 = k_hash stb) as Hh by (rewrite (to_hash _ _ _ _ HT); apply HS).
  assert (dom (k_syms st) = dom (k_syms stb)) as Hdom by (apply config_dom, HS).
  assert (∀ x yx, x ∈ concat (k_hash stb) → k_syms stb !! x = Some yx → has SYMBOL_VALID yx = false) as Hinv.
  { intros x' yx Hin Ex. apply not_true_iff_false. intros Hv. apply (cl_valid _ HL x'); [apply elem_of_dom; eauto|by exists yx|done]. }
  destruct (decide (x = s)) as [->|Hx].
  - rewrite lookup_insert_eq. destruct (um_sym _ _ _ HU _ _ (to_own _ _ _ _ HT)) as (y2 & -> & C2 & V2 & M2).
    rewrite bool_decide_false, andb_false_r in M2 by (rewrite Hh; tauto). simpl.
    pose proof (Hinv s yb Hs Eb) as Hv0. destruct (with_user_flags val yb) as (F1 & _). constructor; [|congruence..].
    rewrite C2, Hy1. apply with_user_config. destruct (started_config _ _ _ _ _ HS E) as (z & Ez & Hz). congruence.
  - rewrite lookup_insert_ne by done. destruct (k_syms st !! x) as [yx|] eqn:Ex.
    + destruct (started_config _ _ _ _ _ HS Ex) as (x0 & Ex0 & Hcx). rewrite Ex0.
      destruct (um_sym _ _ _ HU x yx) as (x2 & -> & C2 & V2 & M2); [by rewrite (to_other _ _ _ _ HT)|]. simpl.
      destruct (decide (x ∈ concat (k_hash stb))) as [Hin|Hout].
      * rewrite bool_decide_false, andb_false_r in M2 by (rewrite Hh; tauto). pose proof (Hinv x x0 Hin Ex0). constructor; congruence.
      * rewrite bool_decide_true, andb_true_r in M2 by (by rewrite Hh).
        rewrite (sd_const _ _ _ HS x Hout) in Ex. assert (x0 = yx) as -> by congruence. constructor; congruence.
    + assert (k_syms stb !! x = None) as -> by (apply not_elem_of_dom; rewrite <- Hdom; by apply not_elem_of_dom).
      assert (k_syms st2 !! x = None) as ->; [|done]. apply not_elem_of_dom. rewrite (um_dom _ _ _ HU). apply not_elem_of_dom.
      by rewrite (to_other _ _ _ _ HT).
Qed.

(** The value is the old one, or in the range. *)
Definition acceptable (y : sym) (val : tristate) : Prop :=
  sym_get_tristate_value y = val ∨ tristate_within_range mv y val = true.

Lemma set_user y1 y val : user_set y y1 → config_of (set_def (Value (v_val (y_def y1)) val) y1) = config_of (with_user val y).
Proof using.
  intros [U1 _ _]. destruct (same_fields _ _ U1) as (_ & _ & Hd & _). rewrite Hd.
  assert (∀ v z, config_of (set_def v z) = let '(nm, t, _, a, p, rv, f) := config_of z in (nm, t, v, a, p, rv, f)) as H by done.
  unfold with_user. by rewrite !H, U1.
Qed.

(** The state in which the values are computed again. *)
Record reset (s : symbol) (val : tristate) (st2 : kst) : Prop := {
  rs_syms : ∃ yb, k_syms stb !! s = Some yb ∧ similar_syms (<[s := with_user val yb]> (k_syms stb)) (k_syms st2);
  rs_hash : k_hash st2 = k_hash stb;
  rs_msym : k_modules_sym st2 = k_modules_sym stb;
  rs_mval : k_modules_val st2 = mv }.

(** The symbols that do not depend on [s] keep their values. *)
Lemma reset_values s val st2 n x :
  reset s val st2 → ¬ rtc (depends (k_syms stb)) x s → value_of (k_syms st2) mv n x = value_of (k_syms stb) mv n x.
Proof using.
  intros [(yb & Eb & HSim) _ _ _] Hx. apply (value_of_similar _ _ _ (λ x, ¬ rtc (depends (k_syms stb)) x s)); [|..|done].
  - intros a d Ha Hd Hr. apply Ha. by eapply rtc_l.
  - intros a Ha. specialize (HSim a). rewrite lookup_insert_ne in HSim; [done|]. intros ->. by apply Ha.
Qed.
Lemma reset_dom s val st2 : reset s val st2 → dom (k_syms st2) = dom (k_syms stb).
Proof using. intros [(yb & Eb & HSim) _ _ _]. rewrite (similar_dom _ _ HSim). apply dom_insert_lookup_L. eauto. Qed.
Lemma reset_computable s val st2 :
  reset s val st2 → s ∈ concat (k_hash stb) → is_bool_type <$> (y_type <$> k_syms stb !! s) = Some true → computable st2 rank.
Proof using HC HL.
  intros [(yb & Eb & HSim) _ _ _] Hs Ht. rewrite Eb in Ht. injection Ht as Ht.
  apply (computable_similar (with_sym stb s (with_user val yb))); [done|]. apply computable_user; [done..| |done].
  apply not_true_iff_false. intros Hv. apply (cl_valid _ HL s); [apply elem_of_dom; eauto|by exists yb|done].
Qed.
Lemma reset_cleared s val st2 : reset s val st2 → cleared st2.
Proof using HL.
  intros HR. pose proof (reset_dom _ _ _ HR) as Hdom. destruct HR as [(yb & Eb & HSim) Hh _ _].
  assert (∀ x y2, k_syms st2 !! x = Some y2 → ∃ y, k_syms stb !! x = Some y ∧ has SYMBOL_VALID y2 = has SYMBOL_VALID y ∧ y_type y2 = y_type y) as Hl.
  { intros x y2 E2. destruct (similar_lookup _ _ _ _ HSim E2) as (y & E & [C M _]). destruct (same_fields _ _ C) as (_ & Ht & _).
    destruct (decide (x = s)) as [->|Hx]; [rewrite lookup_insert_eq in E|rewrite lookup_insert_ne in E by done; eauto].
    injection E as <-. exists yb. destruct (with_user_flags val yb) as (F & _). by rewrite M, F, Ht. }
  constructor; rewrite Hh.
  - intros x Hx. rewrite Hdom in Hx. rewrite <- (cl_valid _ HL x Hx). assert (x ∈ dom (k_syms st2)) as [y2 E2]%elem_of_dom by by rewrite Hdom.
    destruct (Hl x y2 E2) as (y & E & Hv & _). split; intros (z & Ez & Hz); [exists y|exists y2]; (split; [done|congruence]).
  - intros x Hx. destruct (cl_type _ HL x Hx) as (y & E & Ht). assert (x ∈ dom (k_syms st2)) as [y2 E2]%elem_of_dom.
    { rewrite Hdom. apply elem_of_dom. eauto. }
    exists y2. split; [done|]. destruct (Hl x y2 E2) as (z & Ez & _ & ->). congruence.
Qed.

(** The value that was set is the value of the equations. *)
Lemma reset_value s y val st2 : s ∈ concat (k_hash stb) → valid st s → k_syms st !! s = Some y →
  is_bool_type (y_type y) = true → tristate_within_range mv y val = true → reset s val st2 →
  s_tri (value_of (k_syms st2) mv (S (rank s)) s) = val.
Proof using HC HL HS.
  intros Hs Hv E Ht Hw HR. destruct (started_config _ _ _ _ _ HS E) as (yb & Eb & Hc).
  destruct (same_fields _ _ Hc) as (_ & Ht0 & _ & _ & _ & _ & _ & Hcv & _). destruct (cp_plain _ _ HC s yb Eb) as [_ Hcv0].
  assert (computable st2 rank) as HC2 by (apply (reset_computable s val); [done|done|]; by rewrite Eb, <- Ht, Ht0).
  destruct (rs_syms _ _ _ HR) as (z & Ez & HSim). assert (z = yb) as -> by congruence.
  pose proof (HSim s) as Hsim. rewrite lookup_insert_eq in Hsim. destruct (k_syms st2 !! s) as [y2|] eqn:E2; [|done]. simpl in Hsim.
  assert (has SYMBOL_VALID yb = false) as Hv0.
  { apply not_true_iff_false. intros Ht'. apply (cl_valid _ HL s); [apply elem_of_dom; eauto|by exists yb|done]. }
  rewrite (value_of_equation _ _ _ (cp_ranks _ _ HC2) _ _ E2), (equation_similar _ _ _ _ Hsim).
  set (V2 := λ d, value_of (k_syms st2) mv (S (rank d)) d). unfold equation.
  destruct (with_user_flags val yb) as (-> & _). rewrite Hv0.
  assert (tri_of V2 mv (with_user val yb) = val) as Htri.
  { rewrite <- (same_tri V2 _ _ _ (with_user_config val _ _ Hc)).
    destruct (sd_valid _ _ _ HS s Hv) as (w & Ew & _ & _ & Hvr). assert (w = y) as -> by congruence.
    destruct Hvr as [Hvis Hrev]; [intros (q & Eq & Hq); congruence|by destruct (y_type y)|].
    assert (∀ d, d ∈ deps y → value_of (k_syms stb) (k_modules_val stb) (S (rank d)) d = V2 d) as Heq.
    { intros d Hd. rewrite (same_deps _ _ Hc) in Hd. destruct (cp_ranks _ _ HC s yb d Eb Hv0 Hd) as [_ Hrd].
      symmetry. apply (reset_values s val); [done|]. intros Hdep%(depends_rank stb rank HC). lia. }
    apply tri_of_user; [done|congruence|..|done].
    - rewrite Hvis. by apply vis_of_ext.
    - rewrite Hrev. by apply rev_of_ext. }
  change (y_type (with_user val yb)) with (y_type yb). rewrite Ht0 in Ht. by destruct (y_type yb).
Qed.

(** The end of the operation: the marks are taken away, [modules_sym] is
    computed. *)
Definition restarted (s : symbol) (val : tristate) (st3 : kst) : Prop :=
  ∃ st2, reset s val st2 ∧ started st2 rank st3 ∧ ∀ m, k_modules_sym st3 = Some m → valid st3 m.

Lemma reset_agrees s val st2 : reset s val st2 → agrees stb rank →
  (∀ m, k_modules_sym stb = Some m → ¬ rtc (depends (k_syms stb)) m s) → agrees st2 rank.
Proof using.
  intros HR HA Hm m Em. rewrite (rs_msym _ _ _ HR) in Em. destruct (HA m Em) as [Hd Hv].
  rewrite (reset_dom _ _ _ HR), (rs_mval _ _ _ HR). split; [done|]. by rewrite (reset_values s val) by auto.
Qed.

Lemma wp_clear n s y y1 st1 val Q :
  s ∈ concat (k_hash stb) → k_syms st !! s = Some y → is_bool_type (y_type y) = true → agrees stb rank →
  (∀ m, k_modules_sym stb = Some m → ¬ rtc (depends (k_syms stb)) m s) → (size (k_syms stb) < n)%nat →
  touched st s st1 y1 → config_of y1 = config_of (with_user val y) →
  (∀ st3, restarted s val st3 → Q tt st3) → wp (sym_clear_all_valid n) Q st1.
Proof using HC HL HS.
  intros Hs E Hbt HA Hm Hn HT Hy1 HQ. destruct (started_config _ _ _ _ _ HS E) as (yb & Eb & Hc).
  destruct (same_fields _ _ Hc) as (_ & Ht & _).
  assert (k_hash st1 = k_hash stb) as Hh by (rewrite (to_hash _ _ _ _ HT); apply HS).
  unfold sym_clear_all_valid, for_all_symbols. apply wp_bind, wp_bind, wp_get. eapply wp_mono; [apply clear_marks|].
  { apply Forall_forall. intros x Hx. rewrite Hh in Hx. destruct (cl_type _ HL x Hx) as (x0 & Ex0 & Ht0).
    destruct (decide (x = s)) as [->|Hxs].
    - exists y1. split; [apply HT|]. destruct (same_fields _ _ Hy1) as (_ & -> & _). simpl. congruence.
    - rewrite (to_other _ _ _ _ HT) by done. assert (x ∈ dom (k_syms st)) as [yx Ex]%elem_of_dom.
      { rewrite (config_dom stb st) by apply HS. apply elem_of_dom. eauto. }
      exists yx. split; [done|]. destruct (started_config _ _ _ _ _ HS Ex) as (z & Ez & Hz).
      destruct (same_fields _ _ Hz) as (_ & -> & _). congruence. }
  intros [] st2 HU. apply wp_bind, wp_upd. fold (start n). set (st2' := Kst _ _ _ _ _ _ _ _).
  assert (reset s val st2') as HR.
  { constructor; simpl.
    - exists yb. split; [done|]. by apply (cleared_similar s y yb y1 val st1 st2).
    - by rewrite (um_hash _ _ _ HU).
    - rewrite (um_msym _ _ _ HU), (to_msym _ _ _ _ HT). apply HS.
    - rewrite (um_mval _ _ _ HU), (to_mval _ _ _ _ HT). apply HS. }
  eapply wp_mono; [apply (start_ok st2' rank)|].
  - apply (reset_computable s val); [done|done|]. by rewrite Eb, <- Hbt, Ht.
  - by eapply reset_cleared.
  - by eapply reset_agrees.
  - eapply Nat.le_lt_trans; [apply invalid_size|]. by rewrite <- size_dom, (reset_dom _ _ _ HR), size_dom.
  - intros [] st3 (H3 & H3' & _). apply HQ. by exists st2'.
Qed.

Lemma wp_set n s y val Q :
  s ∈ concat (k_hash stb) → k_syms st !! s = Some y → is_bool_type (y_type y) = true → agrees stb rank →
  (∀ m, k_modules_sym stb = Some m → ¬ rtc (depends (k_syms stb)) m s) → (size (k_syms stb) < n)%nat →
  has SYMBOL_VALID y = true → sym_is_choice_value y = false → acceptable y val →
  (∀ st1, (∃ y1, k_syms st1 !! s = Some y1 ∧ has SYMBOL_VALID y1 = true ∧ v_tri (y_curr y1) = val) ∨
     (sym_get_tristate_value y ≠ val ∧ restarted s val st1) → Q true st1) →
  wp (sym_set_tristate_value n s val) Q st.
Proof using HC HL HS.
  intros Hs E Hbt HA Hm Hn Hv Hcv Ha HQ. unfold sym_set_tristate_value. apply wp_bind. eapply wp_get_sym; [done|]. cbv zeta.
  apply wp_bind. unfold sym_tristate_within_range. apply wp_bind. eapply wp_get_sym; [done|]. apply wp_bind, wp_get, wp_ret.
  rewrite (sd_mval _ _ _ HS). assert (touched st s st y) as HT by by constructor.
  assert (bool_decide (sym_get_tristate_value y ≠ val) && negb (tristate_within_range (k_modules_val stb) y val) = false) as ->.
  { destruct Ha as [Ha|Ha]; [by rewrite bool_decide_false by tauto|by unfold mv in Ha; rewrite Ha, andb_false_r]. }
  apply wp_bind. eapply wp_mark_user; [done|]. intros st1 y1 HT1 HU1. rewrite Hcv. apply wp_bind, wp_ret, wp_bind.
  eapply wp_touch; [done|]. intros st2 HT2. apply wp_bind. destruct (decide (sym_get_tristate_value y = val)) as [Hold|Hold].
  - rewrite bool_decide_false by tauto. apply wp_ret, wp_ret, HQ. left. eexists. split; [apply HT2|].
    destruct HU1 as [_ U2 U3]. split; [by rewrite <- Hv, <- U2|]. simpl. by rewrite U3.
  - rewrite bool_decide_true by done. eapply wp_clear; [done..|by apply set_user|]. intros st3 HR. apply wp_ret, HQ. by right.
Qed.

(** *** Computing everything anew *)

(** The base of the values after all marks were removed. *)
Record rebased (st2 : kst) : Prop := {
  rb_syms : similar_syms (k_syms stb) (k_syms st2);
  rb_hash : k_hash st2 = k_hash stb;
  rb_msym : k_modules_sym st2 = k_modules_sym stb;
  rb_mval : k_modules_val st2 = mv;
  rb_cleared : cleared st2 }.
Lemma unmarked_rebased st2 cc mn out nx : unmarked_to (concat (k_hash st)) st st2 →
  rebased (Kst (k_syms st2) (k_hash st2) nx (k_modules_sym st2) (k_modules_val st2) cc mn out).
Proof using HC HL HS.
  intros HU. assert (k_hash st = k_hash stb) as Hh by apply HS. rewrite Hh in HU.
  assert (∀ x yb, k_syms stb !! x = Some yb → ∃ y2, k_syms st2 !! x = Some y2 ∧ similar yb y2) as Hsim.
  { intros x yb Eb. assert (x ∈ dom (k_syms st)) as [y E]%elem_of_dom by (rewrite (config_dom stb st) by apply HS; apply elem_of_dom; eauto).
    destruct (started_config _ _ _ _ _ HS E) as (z & Ez & Hz). assert (z = yb) as -> by congruence.
    destruct (um_sym _ _ _ HU x y E) as (y2 & E2 & C2 & V2 & M2). exists y2. split; [done|].
    pose proof (cl_valid _ HL x ltac:(apply elem_of_dom; eauto)) as Hcl. destruct (decide (x ∈ concat (k_hash stb))) as [Hin|Hout].
    - rewrite bool_decide_false, andb_false_r in M2 by tauto.
      assert (has SYMBOL_VALID yb = false) as Hv by (apply not_true_iff_false; intros Hv; apply Hcl; [by exists yb|done]).
      constructor; congruence.
    - rewrite bool_decide_true, andb_true_r in M2 by done. rewrite (sd_const _ _ _ HS x Hout) in E. constructor; congruence. }
  constructor; simpl.
  - intros x. destruct (k_syms stb !! x) as [yb|] eqn:Eb.
    + destruct (Hsim x yb Eb) as (y2 & -> & H). done.
    + assert (k_syms st2 !! x = None) as ->; [|done]. apply not_elem_of_dom. rewrite (um_dom _ _ _ HU), (config_dom stb st) by apply HS.
      by apply not_elem_of_dom.
  - by rewrite (um_hash _ _ _ HU).
  - rewrite (um_msym _ _ _ HU). apply HS.
  - rewrite (um_mval _ _ _ HU). apply HS.
  - constructor; unfold valid; simpl; rewrite (um_hash _ _ _ HU), Hh.
    + intros x Hx. rewrite (um_dom _ _ _ HU), (config_dom stb st) in Hx by apply HS. rewrite <- (cl_valid _ HL x Hx).
      apply elem_of_dom in Hx as [yb Eb]. destruct (Hsim x yb Eb) as (y2 & E2 & [_ Hv _]).
      split; intros (z & Ez & Hz); eexists; (split; [done|]); congruence.
    + intros x Hx. destruct (cl_type _ HL x Hx) as (yb & Eb & Ht). destruct (Hsim x yb Eb) as (y2 & E2 & [Hc _ _]).
      exists y2. split; [done|]. destruct (same_fields _ _ Hc) as (_ & -> & _). done.
Qed.
Lemma rebased_values st2 k x : rebased st2 → value_of (k_syms st2) mv k x = value_of (k_syms stb) mv k x.
Proof using. intros HB. apply (value_of_similar _ _ _ (λ _, True)); [done|..|done]. intros y _. apply HB. Qed.
Lemma rebased_agrees st2 : rebased st2 → agrees stb rank → agrees st2 rank.
Proof using.
  intros HB HA m Em. rewrite (rb_msym _ HB) in Em. destruct (HA m Em) as [Hd Hv].
  rewrite (similar_dom _ _ (rb_syms _ HB)), (rb_mval _ HB). split; [done|]. by rewrite rebased_values.
Qed.
Lemma clear_rebased n Q : agrees stb rank → (size (k_syms stb) < n)%nat →
  (∀ st2 st3, rebased st2 → started st2 rank st3 → (∀ m, k_modules_sym st3 = Some m → valid st3 m) →
     (∀ x, valid st3 x → ¬ valid st2 x → written st2 rank st3 x) → same_unknown st2 st3 → Q tt st3) → wp (sym_clear_all_valid n) Q st.
Proof using HC HL HS.
  intros HA Hn HQ. unfold sym_clear_all_valid, for_all_symbols. apply wp_bind, wp_bind, wp_get. eapply wp_mono; [apply clear_marks|].
  { apply Forall_forall. intros x Hx. rewrite (sd_hash _ _ _ HS) in Hx. destruct (cl_type _ HL x Hx) as (yb & Eb & Ht).
    assert (x ∈ dom (k_syms st)) as [y E]%elem_of_dom by (rewrite (config_dom stb st) by apply HS; apply elem_of_dom; eauto).
    exists y. split; [done|]. destruct (started_config _ _ _ _ _ HS E) as (z & Ez & Hz). destruct (same_fields _ _ Hz) as (_ & -> & _). congruence. }
  intros [] st2 HU. apply wp_bind, wp_upd. fold (start n).
  pose proof (unmarked_rebased st2 (k_change_count st2 + 1) (k_menus st2) (k_out st2) (k_next st2) HU) as HB. set (st2' := Kst _ _ _ _ _ _ _ _) in *.
  eapply wp_mono; [apply (start_ok st2' rank)|].
  - apply (computable_similar stb); [apply HB|done].
  - apply HB.
  - by apply rebased_agrees.
  - eapply Nat.le_lt_trans; [apply invalid_size|]. by rewrite <- size_dom, (similar_dom _ _ (rb_syms _ HB)), size_dom.
  - intros [] st3 (H3 & H4 & H5 & H6). by eapply HQ.
Qed.

Lemma set_refused n s y val : k_syms st !! s = Some y → ¬ acceptable y val → sym_set_tristate_value n s val st = Ok (false, st).
Proof using HS.
  intros E Ha. unfold acceptable in Ha. unfold sym_set_tristate_value, sym_tristate_within_range, get, ret, bind at 1, get_sym at 1. rewrite E.
  unfold bind at 1 2 3, get_sym. rewrite E, (sd_mval _ _ _ HS). rewrite bool_decide_true by tauto. fold mv.
  destruct (tristate_within_range _ y val); [tauto|done].
Qed.

Lemma set_then_calc n s y val :
  s ∈ concat (k_hash stb) → valid st s → k_syms st !! s = Some y → is_bool_type (y_type y) = true → agrees stb rank →
  (∀ m, k_modules_sym stb = Some m → ¬ rtc (depends (k_syms stb)) m s) → acceptable y val → (size (k_syms stb) < n)%nat →
  wp (sym_set_tristate_value n s val) (λ b st1, b = true ∧
    wp (sym_calc_value n s) (λ _ st2, ∃ y2, k_syms st2 !! s = Some y2 ∧ v_tri (y_curr y2) = val) st1) st.
Proof using HC HL HS.
  intros Hs Hv E Ht HA Hm Ha Hn. destruct (started_config _ _ _ _ _ HS E) as (yb & Eb & Hc).
  destruct (same_fields _ _ Hc) as (_ & Ht0 & _ & _ & _ & _ & _ & Hcv & _). destruct (cp_plain _ _ HC s yb Eb) as [_ Hcv0].
  assert (has SYMBOL_VALID y = true) as Hvy by (destruct Hv as (w & Ew & Hw); congruence).
  eapply wp_set; [done..|congruence|done|]. intros st1 [(y1 & E1 & Hv1 & Hc1)|[Hne (st2 & HR & HS1 & Hm1)]]; (split; [done|]).
  { destruct n as [|n]; [lia|]. cbn [sym_calc_value]. apply wp_bind. eapply wp_get_sym; [done|]. rewrite Hv1. apply wp_ret. eauto. }
  destruct Ha as [Ha|Ha]; [done|].
  assert (computable st2 rank) as HC2 by (apply (reset_computable s val); [done|done|]; by rewrite Eb, <- Ht, Ht0).
  pose proof (reset_cleared _ _ _ HR) as HL2. pose proof (started_computable st2 rank HC2 HL2 st1 HS1) as HC1.
  assert (dom (k_syms st1) = dom (k_syms stb)) as Hdom.
  { rewrite (config_dom st2 st1) by apply HS1. by eapply reset_dom. }
  eapply wp_mono; [apply (calc_value_settled st1 rank HC1 n s (S (rank s)) st1)|].
  - rewrite Hdom. apply elem_of_dom. eauto.
  - intros m Em. left. auto.
  - lia.
  - by apply start_inv.
  - eapply Nat.le_lt_trans; [apply invalid_size|]. by rewrite <- size_dom, Hdom, size_dom.
  - intros [] st3 (HI3 & _ & Hv3 & _). destruct (iv_settled _ _ _ _ HI3 s ltac:(lia) Hv3) as (y3 & E3 & Hi & _).
    exists y3. split; [done|]. pose proof (reset_value s y val st2 Hs Hv E Ht Ha HR) as Hval.
    rewrite (sd_mval _ _ _ HS1), (started_values st2 rank HC2 HL2 st1 HS1), (rs_mval _ _ _ HR) in Hi. by rewrite <- Hval, <- Hi.
Qed.
End set.
