(* ===== verification/KSymbolThm.v ===== *)
(** * The symbols of the configuration: the properties of symbol.c *)

From stdpp Require Import base numbers list option strings gmap relations.
From S2P Require Import Prelude CString KExpr KSymbol KSymbolEnds KSymbolCheck KSymbolTable KSymbolRef KSymbolCalc KSymbolSet.
Local Open Scope Z_scope.
Local Open Scope c_scope.

(** ** An example *)

(** The state a program leaves. *)
Definition left_by {A} (m : K A) (st : kst) : kst := match m st with Ok (_, st') => st' | Err _ => st end.

Definition prompt_if (e : option expr) : property := Property P_PROMPT (Some "prompt"%string) e Tno None None.
Definition default_if (v : expr) (e : option expr) : property := Property P_DEFAULT None e Tno (Some v) None.
Definition range_if (a b : symbol) (e : option expr) : property := Property P_RANGE None e Tno (Some (ERange a b)) None.
Definition declare (s : symbol) (t : symbol_type) (l : list property) (rev : option expr) : K unit :=
  mod_sym s (λ y, Sym (y_name y) t (y_curr y) (y_def y) (y_auto y) (y_visible y) (y_flags y) l rev (y_rev_tri y)).

(** FOO is a tristate with default m, BAR depends on it and is selected by
    BAZ, NUM is a number between 10 and 20 with default 5 for FOO; the nameless
    symbol, [modules_sym], has the value of MODULES, as conf_parse sets it up. *)
Definition FOO : symbol := 5%positive.
Definition BAR : symbol := 6%positive.
Definition BAZ : symbol := 7%positive.
Definition NUM : symbol := 8%positive.
Definition MODULES : symbol := 12%positive.
Definition the_modules : symbol := 13%positive.
Definition set_modules_sym (s : symbol) : K unit := upd (λ st,
  Kst (k_syms st) (k_hash st) (k_next st) (Some s) (k_modules_val st) (k_change_count st) (k_menus st) (k_out st)).
Definition demo : kst := left_by (
  lookups [("FOO", false); ("BAR", false); ("BAZ", false); ("NUM", false); ("10", true); ("20", true); ("5", true);
           ("MODULES", false)]%string;;;
  m <- sym_lookup None false;;
  declare m S_BOOLEAN [default_if (ESymbol MODULES) None] None;;;
  set_modules_sym m;;;
  declare MODULES S_BOOLEAN [prompt_if None; default_if (ESymbol symbol_yes) None] None;;;
  declare FOO S_TRISTATE [prompt_if None; default_if (ESymbol symbol_mod) (Some (ESymbol m))] None;;;
  declare BAR S_TRISTATE [prompt_if (Some (ESymbol FOO))] (Some (ESymbol BAZ));;;
  declare BAZ S_BOOLEAN [prompt_if None; default_if (ESymbol symbol_no) None] None;;;
  declare NUM S_INT [prompt_if None; range_if 9%positive 10%positive None; default_if (ESymbol 11%positive) (Some (ESymbol FOO))] None;;;
  set_modules_val Tyes) init_kst.
(** With the value of [modules_sym]. *)
Definition demo' : kst := left_by (start 20) demo.
Definition demo_rank (s : symbol) : nat :=
  if bool_decide (s = BAR ∨ s = NUM) then 4%nat else if bool_decide (s = FOO) then 3%nat
  else if bool_decide (s = the_modules) then 2%nat else if bool_decide (s = MODULES ∨ s = BAZ) then 1%nat else 0%nat.

(** The conditions of [computable], decided. *)
Lemma computable_decided st rank :
  map_Forall (λ x y, (has SYMBOL_VALID y = false → Forall (λ d, d ∈ dom (k_syms st) ∧ (rank d < rank x)%nat) (deps y) ∧ wf_sym y = true) ∧
    sym_is_choice y = false ∧ sym_is_choice_value y = false ∧
    (has SYMBOL_VALID y = true → is_str (v_val (y_curr y)) = true)) (k_syms st) →
  (λ y, (has SYMBOL_VALID y, y_curr y)) <$> (k_syms st !! symbol_no) = Some (true, Value lit_n Tno) →
  (λ y, (has SYMBOL_VALID y, y_curr y)) <$> (k_syms st !! symbol_empty) = Some (true, Value lit_empty Tno) →
  computable st rank.
Proof.
  intros HF Hn He.
  assert (∀ x v, (λ y, (has SYMBOL_VALID y, y_curr y)) <$> (k_syms st !! x) = Some (true, v) →
    ∃ y, k_syms st !! x = Some y ∧ has SYMBOL_VALID y = true ∧ y_curr y = v) as Hc.
  { intros x v. destruct (k_syms st !! x) as [y|]; [|done]. intros [= ? ?]. eauto. }
  constructor; [..|by apply Hc|by apply Hc].
  - intros x y d E Hv Hd. destruct (HF x y E) as (H & _). destruct (H Hv) as [H' _]. rewrite Forall_forall in H'. auto.
  - intros x y E. by destruct (HF x y E) as (_ & H1 & H2 & _).
  - intros x y E. by destruct (HF x y E) as (_ & _ & _ & H).
  - intros x y E Hv. destruct (HF x y E) as (H & _). by destruct (H Hv).
Qed.
Ltac decided := refine (proj1 (bool_decide_eq_true _) _); vm_compute; reflexivity.

Lemma cleared_decided st :
  map_Forall (λ x y, has SYMBOL_VALID y = bool_decide (x ∉ concat (k_hash st))) (k_syms st) →
  Forall (λ x, match k_syms st !! x with Some y => bool_decide (y_type y ≠ S_OTHER) | None => false end = true) (concat (k_hash st)) →
  cleared st.
Proof.
  intros HF Ht. constructor.
  - intros x [y E]%elem_of_dom. split.
    + intros (z & Ez & Hz). rewrite (HF x z Ez) in Hz. by apply bool_decide_eq_true in Hz.
    + intros Hx. exists y. split; [done|]. rewrite (HF x y E). by apply bool_decide_true.
  - intros x Hx. rewrite Forall_forall in Ht. specialize (Ht x Hx). destruct (k_syms st !! x) as [y|]; [|done].
    exists y. split; [done|]. by apply bool_decide_eq_true in Ht.
Qed.

Lemma demo_computable : computable demo demo_rank.
Proof. apply computable_decided; [decided|reflexivity..]. Qed.
Lemma demo'_computable : computable demo' demo_rank.
Proof. apply computable_decided; [decided|reflexivity..]. Qed.
(** [modules_sym] has its value. *)
Definition modules_known (st : kst) : Prop := ∀ m, k_modules_sym st = Some m → valid st m.
Lemma known_free st d : modules_known st → free st d.
Proof. intros H m Hm. left. auto. Qed.
Lemma modules_decided st m : k_modules_sym st = Some m → has SYMBOL_VALID <$> k_syms st !! m = Some true → modules_known st.
Proof.
  intros E H m' E'. assert (m' = m) as -> by congruence. unfold valid. destruct (k_syms st !! m) as [y|]; [|done].
  injection H as H. eauto.
Qed.
Lemma demo'_known : modules_known demo'.
Proof. by apply (modules_decided _ the_modules). Qed.

(** ** Values *)

(** C20: In a configuration without choices and recursion in which modules_sym
    has its value, computing any symbols in any order ends without fault, changes nothing of the
    configuration, and gives each of them the value, visibility and reverse
    dependency of the reference equations, and marks it for saving exactly when
    it is visible or has a default. *)
Theorem calc_value_reference st rank l n :
  computable st rank → modules_known st → Forall (.∈ dom (k_syms st)) l → (invalid st < n)%nat →
  let mv := k_modules_val st in
  let V := λ x, value_of (k_syms st) mv (S (rank x)) x in
  ∃ st', calc_list n l st = Ok (tt, st') ∧ config st' = config st ∧
    ∀ s, s ∈ l → ∃ y, k_syms st' !! s = Some y ∧ has SYMBOL_VALID y = true ∧ info y = V s ∧
      (¬ valid st s → known (y_type y) = true → y_visible y = vis_of V mv y ∧ y_rev_tri y = rev_of V mv y ∧
         has SYMBOL_WRITE y = saved_of V mv y).
Proof.
  intros HC Hk Hl Hn mv V. set (r := S (max_list (rank <$> l))).
  destruct (calc_list_settled st rank HC n r l st) as ([] & st' & E & HI & He & Hv).
  - rewrite Forall_forall in *. intros d Hd. split; [by apply Hl|]. split; [by apply known_free|]. apply Nat.lt_succ_r, max_list_elem_of_le, list_elem_of_fmap. eauto.
  - by apply start_inv.
  - done.
  - exists st'. split; [done|]. split; [apply He|]. intros s Hs. rewrite Forall_forall in Hv. pose proof (Hv s Hs) as (y & Ey & Hy).
    destruct (iv_settled _ _ _ _ HI s) as (z & Ez & Hi & _ & Hvr).
    { apply Nat.lt_succ_r, max_list_elem_of_le, list_elem_of_fmap. eauto. } { by exists y. }
    assert (z = y) as -> by congruence. exists y. split; [done|]. split; [done|]. split; [done|]. intros Hnv Hkn.
    destruct (Hvr Hnv Hkn) as [Hvi Hre]. split; [done|]. split; [done|].
    destruct (iv_written _ _ _ _ HI s) as (w & Ew & Hw); [|by exists y|done|].
    { apply Nat.lt_succ_r, max_list_elem_of_le, list_elem_of_fmap. eauto. }
    assert (w = y) as -> by congruence. by apply Hw.
Qed.
Lemma calc_value_reference_witness :
  ∃ st', calc_list 20 [NUM; BAR] demo' = Ok (tt, st') ∧
    ∃ y, k_syms st' !! NUM = Some y ∧ info y = Syminfo S_INT false (Some "NUM"%string) Tno "10".
Proof.
  destruct (calc_value_reference demo' demo_rank [NUM; BAR] 20 demo'_computable demo'_known) as (st' & E & _ & H).
  - decided.
  - vm_compute. lia.
  - exists st'. split; [exact E|]. destruct (H NUM) as (y & Ey & _ & Hi & _); [left|]. exists y. split; [exact Ey|].
    rewrite Hi. vm_compute. reflexivity.
Defined.

(** C30: The computation of a value always ends, also in configurations with
    choices and recursive dependencies: with more steps of depth than there
    are symbols without value it does not run out of them; when it returns,
    the symbol is valid and the configuration is as it was. *)
Theorem calc_value_ends n s st :
  (invalid st < n)%nat →
  match sym_calc_value n s st with
  | Ok (_, st') => valid st' s ∧ config st' = config st
  | Err f => f ≠ NoFuel
  end.
Proof.
  intros Hn. pose proof (ends_calc_value n s st Hn) as H. destruct (sym_calc_value n s st) as [[[] st']|] eqn:E; [|done].
  split; [by eapply calc_value_valid|apply H].
Qed.
(** Two symbols that are prompted only if the other one is set. *)
Definition loop_demo : kst := left_by (
  lookups [("FOO", false); ("BAR", false)]%string;;;
  declare FOO S_BOOLEAN [prompt_if (Some (ESymbol BAR))] None;;;
  declare BAR S_BOOLEAN [prompt_if (Some (ESymbol FOO))] None) init_kst.
Lemma calc_value_ends_witness :
  match sym_calc_value 3 FOO loop_demo with
  | Ok (_, st') => valid st' FOO ∧ config st' = config loop_demo
  | Err f => f ≠ NoFuel
  end.
Proof. apply (calc_value_ends 3 FOO loop_demo). vm_compute. lia. Defined.

(** The value computed for an int symbol with a range lies in it, when the
    bounds are in order: it is printed and read back without change. *)
Theorem int_in_range st rank n s y p a b :
  let V := λ x, value_of (k_syms st) (k_modules_val st) (S (rank x)) x in
  computable st rank → modules_known st → (invalid st < n)%nat → k_syms st !! s = Some y → has SYMBOL_VALID y = false → y_type y = S_INT →
  first_of V is_range (y_prop y) = Some p → pr_expr p = Some (ERange a b) → bound V 10 a ≤ bound V 10 b →
  ∃ st' y', sym_calc_value n s st = Ok (tt, st') ∧ k_syms st' !! s = Some y' ∧
    bound V 10 a ≤ strtol_base 10 (bytes (val_string (v_val (y_curr y')))) ≤ bound V 10 b.
Proof.
  intros V HC Hk Hn E Hv Ht Hp Hr Hab.
  destruct (calc_value_settled st rank HC n s (S (rank s)) st) as ([] & st' & Ec & HI & _ & Hv' & _).
  - apply elem_of_dom. eauto.
  - by apply known_free.
  - lia.
  - by apply start_inv.
  - done.
  - destruct (iv_settled _ _ _ _ HI s ltac:(lia) Hv') as (y' & E' & Hi & _). exists st', y'. split; [done|]. split; [done|].
    assert (val_string (v_val (y_curr y')) = s_val (V s)) as -> by (unfold V; by rewrite <- Hi).
    assert (V s = equation V (k_modules_val st) y) as -> by (by apply (value_of_equation _ _ _ (cp_ranks _ _ HC))).
    unfold equation, ranged. rewrite Hv, Ht, Hp, Hr. by apply in_range_bounds.
Qed.
Lemma int_in_range_witness :
  ∃ st' y', sym_calc_value 20 NUM demo' = Ok (tt, st') ∧ k_syms st' !! NUM = Some y' ∧
    10 ≤ strtol_base 10 (bytes (val_string (v_val (y_curr y')))) ≤ 20.
Proof.
  destruct (k_syms demo' !! NUM) as [y|] eqn:E; [|vm_compute in E; discriminate E].
  assert (E' := E). vm_compute in E'. injection E' as E'.
  refine (int_in_range demo' demo_rank 20 NUM y (range_if 9%positive 10%positive None) 9%positive 10%positive
    demo'_computable demo'_known _ E _ _ _ _ _); try (rewrite <- E'; vm_compute; reflexivity); vm_compute; [lia|reflexivity|discriminate].
Defined.

(** A string symbol whose default is a boolean takes n, also from a boolean that is y. *)
Definition string_demo : kst := left_by (
  lookups [("FOO", false); ("BAR", false)]%string;;;
  declare FOO S_STRING [default_if (ESymbol BAR) None] None;;;
  declare BAR S_BOOLEAN [prompt_if None; default_if (ESymbol symbol_yes) None] None) init_kst.
Definition value_after (l : list symbol) (st : kst) (s : symbol) : option symbol_value :=
  y_curr <$> k_syms (left_by (calc_list 20 l) st) !! s.
Lemma bool_default_of_string :
  value_after [FOO; BAR] string_demo BAR = Some (Value lit_n Tyes) ∧
  value_after [FOO; BAR] string_demo FOO = Some (Value lit_n Tno).
Proof. split; vm_compute; reflexivity. Qed.

(** ** Setting values *)

(** C27: In a configuration without choices and recursion, after computing
    modules_sym and any other symbols, setting a boolean or tristate symbol on
    which modules_sym does not depend is refused, without any effect, exactly
    when the value is neither the present one nor within the limits of
    visibility and reverse dependency; an accepted value is what the next
    computation gives. *)
Theorem set_value_taken stb rank l n s :
  computable stb rank → cleared stb → agrees stb rank → Forall (.∈ dom (k_syms stb)) l → s ∈ l → s ∈ concat (k_hash stb) →
  (∀ m, k_modules_sym stb = Some m → ¬ rtc (depends (k_syms stb)) m s) →
  is_bool_type <$> (y_type <$> k_syms stb !! s) = Some true → (size (k_syms stb) < n)%nat →
  ∃ st y, (start n;;; calc_list n l) stb = Ok (tt, st) ∧ k_syms st !! s = Some y ∧ ∀ val,
    (acceptable stb y val → ∃ st1 st2 y2, sym_set_tristate_value n s val st = Ok (true, st1) ∧
       sym_calc_value n s st1 = Ok (tt, st2) ∧ k_syms st2 !! s = Some y2 ∧ sym_get_tristate_value y2 = val) ∧
    (¬ acceptable stb y val → sym_set_tristate_value n s val st = Ok (false, st)).
Proof.
  intros HC HL HA Hl Hs Ht Hm Hb Hn.
  destruct (start_then_calc stb rank HC HL n l HA Hl Hn) as ([] & st & E & HS & Hv).
  rewrite Forall_forall in Hv. pose proof (Hv s Hs) as (y & Ey & Hy). exists st, y. split; [done|]. split; [done|].
  destruct (started_config _ _ _ _ _ HS Ey) as (yb & Eb & Hc). destruct (same_fields _ _ Hc) as (_ & Hty & _).
  rewrite Eb in Hb. injection Hb as Hb. intros val. split; intros Ha.
  - destruct (set_then_calc stb rank HC HL st HS n s y val) as (b & st1 & E1 & -> & [] & st2 & E2 & y2 & Ey2 & H2); try done.
    { by apply Hv. } { by rewrite Hty. }
    by exists st1, st2, y2.
  - by eapply set_refused.
Qed.
Lemma set_value_taken_witness :
  ∃ st y, (start 20;;; calc_list 20 [BAR]) demo = Ok (tt, st) ∧ k_syms st !! BAR = Some y ∧ ∀ val,
    (acceptable demo y val → ∃ st1 st2 y2, sym_set_tristate_value 20 BAR val st = Ok (true, st1) ∧
       sym_calc_value 20 BAR st1 = Ok (tt, st2) ∧ k_syms st2 !! BAR = Some y2 ∧ sym_get_tristate_value y2 = val) ∧
    (¬ acceptable demo y val → sym_set_tristate_value 20 BAR val st = Ok (false, st)).
Proof.
  apply (set_value_taken demo demo_rank [BAR] 20 BAR demo_computable).
  - apply cleared_decided; decided.
  - intros m Em. vm_compute in Em. injection Em as <-. split; [decided|vm_compute; reflexivity].
  - decided.
  - left.
  - decided.
  - intros m Em Hd%(depends_rank _ _ demo_computable). vm_compute in Em. injection Em as <-. vm_compute in Hd. lia.
  - reflexivity.
  - decided.
Defined.

(** ** The table *)

(** C29: The hash table behaves as a map: of any sequence of lookups, two with
    other names than y, m and n give the same symbol exactly if name and
    constant flag are the same, those three names give the fixed symbols, and
    sym_find then finds the symbols that were looked up without the flag, and
    no others. *)
Theorem lookups_refine_map l :
  ∃ r st', lookups l init_kst = Ok (r, st') ∧ length r = length l ∧
    (∀ i j n c n' c' s s', l !! i = Some (n, c) → l !! j = Some (n', c') → r !! i = Some s → r !! j = Some s' →
       const_name n = None → const_name n' = None → s = s' ↔ (n, c) = (n', c')) ∧
    (∀ i n c s, l !! i = Some (n, c) → const_name n = Some s → r !! i = Some s) ∧
    (∀ n, const_name n = None → ∃ o, sym_find (Some n) st' = Ok (o, st') ∧
       ∀ s, o = Some s ↔ ∃ i, l !! i = Some (n, false) ∧ r !! i = Some s).
Proof.
  destruct (lookups_spec l init_kst ∅ init_represents) as (r & st' & m & E & HR & HF & _ & Honly).
  assert (∀ i n c s, l !! i = Some (n, c) → r !! i = Some s → answer m n c = Some s) as Hans.
  { intros i n c s Hl Hr. by apply (Forall2_lookup_lr _ _ _ _ _ _ HF Hl Hr). }
  pose proof (Forall2_length _ _ _ HF) as Hlen. exists r, st'. split; [done|]. split; [done|]. split; [|split].
  - intros i j n c n' c' s s' Hi Hj Hri Hrj Hn Hn'. pose proof (Hans _ _ _ _ Hi Hri) as A. pose proof (Hans _ _ _ _ Hj Hrj) as A'.
    split; [intros ->; by eapply answer_inj|]. intros [= -> ->]. congruence.
  - intros i n c s Hi Hn. destruct (lookup_lt_is_Some_2 r i) as [s' Hs'].
    { rewrite <- Hlen. by eapply lookup_lt_Some. }
    rewrite Hs'. f_equal. pose proof (Hans _ _ _ _ Hi Hs') as A. unfold answer in A. rewrite Hn in A. congruence.
  - intros n Hn. exists (answer m n false). split; [by apply find_spec|]. intros s. split.
    + intros A. destruct (Honly _ _ _ A) as [A0|Hin]; [unfold answer in A0; by rewrite Hn, lookup_empty in A0|].
      apply list_elem_of_lookup in Hin as [i Hi]. exists i. split; [done|].
      destruct (lookup_lt_is_Some_2 r i) as [s' Hs']; [rewrite <- Hlen; by eapply lookup_lt_Some|].
      pose proof (Hans _ _ _ _ Hi Hs'). congruence.
    + intros (i & Hi & Hr). by eapply Hans.
Qed.

(** ** Recursive dependencies *)

(** C28: The search for recursive dependencies ends, changes nothing but its
    marks and the output, and prints something exactly if some symbol of the
    table reaches a cycle of the dependencies it follows. *)
Theorem check_reports_recursion n st :
  graph_ok (graph st) → unchecked st → (size (k_syms st) < n)%nat →
  Forall (.∈ dom (k_syms st)) (concat (k_hash st)) →
  ∃ st', check_all n st = Ok (tt, st') ∧ graph st' = graph st ∧ k_hash st' = k_hash st ∧
    (k_out st' ≠ k_out st ↔ ∃ s, s ∈ concat (k_hash st) ∧ checked_type (graph st) s ∧ recursive (graph st) s).
Proof.
  intros HG Hu Hn Hl. destruct (check_all_recursive n st HG Hu Hn Hl) as (st' & E & S & H).
  exists st'. split; [done|]. split; [apply S|]. split; [apply S|done].
Qed.
Lemma graph_ok_decided G :
  map_Forall (λ _ y, Forall (.∈ dom G) (check_syms y) ∧ Forall (λ e, opt_proper e = true) (followed_exprs y)) G → graph_ok G.
Proof.
  intros HF. constructor.
  - intros s d (y & E & Hd). destruct (HF s y E) as [H _]. rewrite Forall_forall in H. auto.
  - intros s y E. by destruct (HF s y E).
Qed.
Lemma unchecked_decided st :
  map_Forall (λ _ y, has SYMBOL_CHECKED y = false ∧ has SYMBOL_CHECK y = false) (k_syms st) → unchecked st.
Proof. intros HF s. split; intros (y & E & Hy); destruct (HF s y E); congruence. Qed.
Lemma check_reports_recursion_witness :
  ∃ st', check_all 20 loop_demo = Ok (tt, st') ∧ k_out st' ≠ [].
Proof.
  destruct (check_reports_recursion 20 loop_demo) as (st' & E & _ & _ & H).
  - apply graph_ok_decided. decided.
  - apply unchecked_decided. decided.
  - decided.
  - decided.
  - exists st'. split; [exact E|]. apply H. exists FOO. split; [decided|].
    assert (∀ a b y, graph loop_demo !! a = Some y → bool_decide (b ∈ check_syms y) = true → follows (graph loop_demo) a b) as Hf.
    { intros a b y Ey Hb. exists y. split; [exact Ey|]. by apply bool_decide_eq_true in Hb. }
    split; [eexists; split; [vm_compute; reflexivity|discriminate]|]. exists FOO. split; [reflexivity|].
    apply (tc_l _ _ BAR); [|apply tc_once]; (eapply Hf; [vm_compute; reflexivity|vm_compute; reflexivity]).
Defined.

(** A is at least B, with default 5; B is at most A, with default 7. *)
Definition range_demo : kst := left_by (
  lookups [("A", false); ("B", false); ("0", true); ("99", true); ("5", true); ("7", true)]%string;;;
  declare 5%positive S_INT [range_if 6%positive 8%positive None; default_if (ESymbol 9%positive) None] None;;;
  declare 6%positive S_INT [range_if 7%positive 5%positive None; default_if (ESymbol 10%positive) None] None) init_kst.
(** The search does not follow the bounds of ranges: for two numbers that
    bound each other it prints nothing, although their values depend on which
    one is computed first (both 5, or both 7). *)
Theorem range_recursion_unreported :
  (∃ st', check_all 20 range_demo = Ok (tt, st') ∧ k_out st' = []) ∧
  tc (depends (k_syms range_demo)) 5%positive 5%positive ∧
  val_string ∘ v_val <$> value_after [5; 6]%positive range_demo 5%positive = Some "5"%string ∧
  val_string ∘ v_val <$> value_after [6; 5]%positive range_demo 5%positive = Some "7"%string.
Proof.
  split; [eexists; split; [vm_compute; reflexivity|reflexivity]|].
  split; [|split; vm_compute; reflexivity].
  assert (∀ a b y, k_syms range_demo !! a = Some y → has SYMBOL_VALID y = false → bool_decide (b ∈ deps y) = true → depends (k_syms range_demo) a b) as Hd.
  { intros a b y Ey Hv Hb. exists y. split; [exact Ey|]. split; [exact Hv|]. by apply bool_decide_eq_true in Hb. }
  apply (tc_l _ _ 6%positive); [|apply tc_once]; (eapply Hd; vm_compute; reflexivity).
Qed.
