(* ===== verification/KConf.v ===== *)
(** * Reading configurations (scripts/kconfig/confdata.c)

    A configuration is a text with a line for each symbol.  [conf_read_simple]
    takes the values of the lines as user values (or as those of auto.conf);
    [conf_read] computes the symbols and drops user values that do not count.

    The environment [env] gives what the system calls return, from the
    operations so far.  [fgets] delivers at most 1023 characters, none of them
    NUL.  The texts of warnings are kept as their parts. *)

From stdpp Require Import base numbers list option strings gmap.
From Stdlib Require Import Ascii.
From S2P Require Import Prelude CString KExpr KSymbol.
Local Open Scope Z_scope.
Local Open Scope c_scope.

(** ** The system *)

Inductive io :=
  | IWrite (path text : string)     (* fopen, fprintf, fclose *)
  | IRename (from to : string)
  | ITouch (path : string)          (* open with O_CREAT | O_TRUNC, close *)
  | IMkdir (path : string)
  | IChdir (path : string).
Inductive open_result := OpenOk | OpenNoent | OpenErr.
Record env := Env {
  e_getenv : string → option string;
  e_read : list io → string → option string;       (* fopen for reading: the text *)
  e_exists : list io → string → bool;              (* stat succeeds *)
  e_isdir : list io → string → bool;
  e_writable : list io → string → bool;            (* fopen for writing succeeds *)
  e_rename : list io → string → string → bool;
  e_mkdir : list io → string → bool;
  e_chdir : list io → string → bool;
  e_open : list io → string → open_result;
  e_pid : string;
  e_ctime : string }.

(** ** Menus *)

(** [menu->prompt] is a property of the symbol of the menu or, without one, of
    its own. *)
Inductive prompt := PromptOf (s : symbol) (i : nat) | PromptOwn (p : property).
Record menu_rec := Menu {
  mn_next : option menu;
  mn_parent : option menu;
  mn_list : option menu;
  mn_sym : option symbol;
  mn_prompt : option prompt }.

(** ** The state *)

Record conf := Conf {
  c_k : kst;
  c_menus : gmap menu menu_rec;
  c_root : menu;                    (* &rootmenu *)
  c_defconfig : option symbol;      (* sym_defconfig_list *)
  c_filename : string;              (* conf_filename *)
  c_lineno : Z;
  c_warnings : Z;
  c_unsaved : Z;
  c_stderr : list string;
  c_io : list io }.

Definition C : Type → Type := M conf.
Definition set_k (st : kst) (c : conf) : conf :=
  Conf st (c_menus c) (c_root c) (c_defconfig c) (c_filename c) (c_lineno c) (c_warnings c) (c_unsaved c) (c_stderr c) (c_io c).
Definition set_counts (name : string) (line warn unsaved : Z) (err : list string) (c : conf) : conf :=
  Conf (c_k c) (c_menus c) (c_root c) (c_defconfig c) name line warn unsaved err (c_io c).
(** An operation on the symbols. *)
Definition onk {A} (m : K A) : C A := λ c,
  match m (c_k c) with Ok (a, st) => Ok (a, set_k st c) | Err f => Err f end.
Definition cget {A} (f : conf → A) : C A := λ c, Ok (f c, c).
Definition cupd (f : conf → conf) : C unit := λ c, Ok (tt, f c).
Definition log_io (e : io) : C unit := cupd (λ c,
  Conf (c_k c) (c_menus c) (c_root c) (c_defconfig c) (c_filename c) (c_lineno c) (c_warnings c) (c_unsaved c) (c_stderr c)
    (c_io c ++ [e])).

Definition conf_warning (msg : list string) : C unit := cupd (λ c,
  set_counts (c_filename c) (c_lineno c) (c_warnings c + 1) (c_unsaved c)
    (c_stderr c ++ [c_filename c; ":"%string; print_d (c_lineno c); ":warning: "%string] ++ msg ++ [newline]) c).

Definition set_change_count (f : Z → Z) : K unit := upd (λ st,
  Kst (k_syms st) (k_hash st) (k_next st) (k_modules_sym st) (k_modules_val st)
    (f (k_change_count st)) (k_menus st) (k_out st)).

(** ** Strings *)

(** A string of [size] bytes with its NUL fits. *)
Definition room (size : nat) (s : string) : C unit :=
  lift (if bool_decide (String.length s < size)%nat then Ok tt else Err OutOfBounds).
(** [strchr]: what is before the character, and what is after it. *)
Fixpoint cut (a : ascii) (s : string) : option (string * string) :=
  match s with
  | EmptyString => None
  | String b s' =>
      if bool_decide (b = a) then Some (EmptyString, s')
      else match cut a s' with Some (l, r) => Some (String b l, r) | None => None end
  end.
(** What is after a prefix. *)
Fixpoint after (p s : string) : option string :=
  match p, s with
  | EmptyString, _ => Some s
  | String a p', String b s' => if bool_decide (a = b) then after p' s' else None
  | String _ _, EmptyString => None
  end.
Definition newline_char : ascii := ascii_of_nat 10.
Definition return_char : ascii := ascii_of_nat 13.
Definition quote_char : ascii := ascii_of_nat 34.
Definition backslash_char : ascii := ascii_of_nat 92.

(** The longest start of letters, digits and underscores. *)
Fixpoint span_name (s : string) : string * string :=
  match s with
  | EmptyString => (EmptyString, EmptyString)
  | String a s' =>
      let c := Z.of_nat (nat_of_ascii a) in
      if isalpha c || isdigit c || bool_decide (c = 95) then
        let '(l, r) := span_name s' in (String a l, r)
      else (EmptyString, s)
  end.

(** [fgets] with room for [size] characters and the NUL. *)
Fixpoint fgets_lines (size left : nat) (line : string) (s : string) : list string :=
  match s with
  | EmptyString => if bool_decide (line = EmptyString) then [] else [line]
  | String a s' =>
      let line' := (line +:+ String a EmptyString)%string in
      match left with
      | S (S left') =>
          if bool_decide (a = newline_char) then line' :: fgets_lines size size EmptyString s'
          else fgets_lines size (S left') line' s'
      | _ => line' :: fgets_lines size size EmptyString s'
      end
  end.
Definition lines_of (text : string) : list string := fgets_lines 1023 1023 EmptyString text.

(** ** Names of files *)

Section conf.
Context (E : env) (n : nat).
Let getenv := e_getenv E.

Definition conf_get_configname : string := default ".config"%string (getenv "KCONFIG_CONFIG").

(** [$NAME] stands for the value of a symbol; every turn takes a [$] away.
    Both buffers have 256 bytes. *)
Definition SYMBOL_MAXLENGTH : nat := 256.
Fixpoint expand_loop (fuel : nat) (res inp : string) : C string :=
  match fuel with
  | O => lift (Err NoFuel)
  | S fuel' =>
      match cut "$"%char inp with
      | None => room SYMBOL_MAXLENGTH (res +:+ inp)%string;;; ret (res +:+ inp)%string
      | Some (before, src) =>
          let res1 := (res +:+ before)%string in
          room SYMBOL_MAXLENGTH res1;;;
          let '(name, rest) := span_name src in
          room SYMBOL_MAXLENGTH name;;;
          sym <- onk (sym_lookup (Some name) false);;
          onk (sym_calc_value n sym);;;
          v <- onk (sym_get_string_value sym);;
          str <- lift (chars v);;
          room SYMBOL_MAXLENGTH (res1 +:+ str)%string;;;
          expand_loop fuel' (res1 +:+ str)%string rest
      end
  end.
Definition conf_expand_value (inp : string) : C string := expand_loop (S (String.length inp)) EmptyString inp.

Definition PATH_MAX : nat := 4096.
Definition conf_get_default_confname : C string :=
  name <- conf_expand_value "arch/$ARCH/defconfig"%string;;
  match getenv "srctree" with
  | None => ret name
  | Some tree =>
      let fullname := (tree +:+ "/" +:+ name)%string in
      room (PATH_MAX + 1) fullname;;;
      h <- cget c_io;;
      ret (if e_exists E h fullname then fullname else name)
  end.

(** The file, or the file under $srctree. *)
Definition zconf_fopen (name : string) : C (option string) :=
  h <- cget c_io;;
  match e_read E h name with
  | Some text => ret (Some text)
  | None =>
      if bool_decide (String.get 0 name = Some "/"%char) then ret None
      else match getenv "srctree" with
           | None => ret None
           | Some tree =>
               let fullname := (tree +:+ "/" +:+ name)%string in
               room (PATH_MAX + 1) fullname;;;
               ret (e_read E h fullname)
           end
  end.

(** ** The values of a configuration *)

Inductive slot := DefUser | DefAuto.
#[export] Instance slot_eq_dec : EqDecision slot.
Proof. solve_decision. Defined.
(** [SYMBOL_DEF << def] and [def[def]]. *)
Definition def_flag (d : slot) : Z := match d with DefUser => SYMBOL_DEF_USER | DefAuto => SYMBOL_DEF_AUTO end.
Definition def_of (d : slot) (y : sym) : symbol_value := match d with DefUser => y_def y | DefAuto => y_auto y end.
Definition set_def_of (d : slot) (v : symbol_value) (y : sym) : sym :=
  match d with DefUser => set_def v y | DefAuto => set_auto v y end.

(** The old values are taken away. *)
Definition clear_def (d : slot) (y : sym) : sym :=
  let y1 := del_flags (Z.lor (def_flag d) SYMBOL_VALID) (add_flags SYMBOL_CHANGED y) in
  let y2 := if sym_is_choice y1 then add_flags (def_flag d) y1 else y1 in
  set_def_of d (Value VNull Tno) y2.

(** The symbol of a line; [other] is the type of one that was unknown. *)
Definition line_symbol (d : slot) (name : string) (other : symbol_type) : C (option symbol) :=
  match d with
  | DefUser =>
      s <- onk (sym_find (Some name));;
      match s with
      | Some x => ret (Some x)
      | None => conf_warning ["trying to assign nonexistent symbol "%string; name];;; ret None
      end
  | DefAuto =>
      s <- onk (sym_lookup (Some name) false);;
      onk (mod_sym s (λ y, if bool_decide (y_type y = S_UNKNOWN) then set_type other y else y));;;
      ret (Some s)
  end.
Definition sym_name (y : sym) : string := default "(null)"%string (y_name y).
Definition set_tri (d : slot) (t : tristate) (y : sym) : sym :=
  add_flags (def_flag d) (set_def_of d (Value (v_val (def_of d y)) t) y).

(** [true] when the end of the loop body is reached ([break]), [false] for
    [continue]. *)
Definition read_unset (d : slot) (name : string) : C (option symbol * bool) :=
  s <- line_symbol d name S_BOOLEAN;;
  match s with
  | None => ret (None, true)
  | Some x =>
      y <- onk (get_sym x);;
      if has (def_flag d) y then
        conf_warning ["trying to reassign symbol "%string; sym_name y];;; ret (s, true)
      else if is_bool_type (y_type y) then onk (mod_sym x (set_tri d Tno));;; ret (s, true)
      else ret (s, true)
  end.

(** Up to the closing quote, backslashes taken away. *)
Fixpoint unquote (s : string) : option string :=
  match s with
  | EmptyString => None
  | String a s' =>
      if bool_decide (a = quote_char) then Some EmptyString
      else if bool_decide (a = backslash_char) then
        match s' with
        | EmptyString => None
        | String b s'' => option_map (String b) (unquote s'')
        end
      else option_map (String a) (unquote s')
  end.
Definition invalid_value (p : string) (y : sym) : C unit :=
  conf_warning ["symbol value '"%string; p; "' invalid for "%string; sym_name y].

(** The case [done] of the switch. *)
Definition read_string (d : slot) (x : symbol) (p : string) : C (option symbol * bool) :=
  valid <- onk (sym_string_valid x p);;
  if (valid : bool) then
    a <- onk fresh;;
    onk (mod_sym x (λ y, add_flags (def_flag d) (set_def_of d (Value (VStr a p) (v_tri (def_of d y))) y)));;;
    ret (Some x, true)
  else
    y <- onk (get_sym x);;
    invalid_value p y;;;
    ret (Some x, false).
Definition read_quoted (d : slot) (x : symbol) (p : string) : C (option symbol * bool) :=
  match p with
  | String a p' =>
      if bool_decide (a = quote_char) then
        match unquote p' with
        | Some v => read_string d x v
        | None => conf_warning ["invalid string found"%string];;; ret (Some x, false)
        end
      else ret (Some x, true)
  | EmptyString => ret (Some x, true)
  end.
Definition starts_with (a : ascii) (p : string) : bool := bool_decide (String.get 0 p = Some a).
Definition read_bool (d : slot) (x : symbol) (y : sym) (p : string) : C (option symbol * bool) :=
  if starts_with "y" p then onk (mod_sym x (set_tri d Tyes));;; ret (Some x, true)
  else if starts_with "n" p then onk (mod_sym x (set_tri d Tno));;; ret (Some x, true)
  else invalid_value p y;;; ret (Some x, true).
Definition read_value (d : slot) (name p : string) : C (option symbol * bool) :=
  s <- line_symbol d name S_OTHER;;
  match s with
  | None => ret (None, true)
  | Some x =>
      y <- onk (get_sym x);;
      if has (def_flag d) y then
        conf_warning ["trying to reassign symbol "%string; sym_name y];;; ret (s, true)
      else
        match y_type y with
        | S_TRISTATE =>
            if starts_with "m" p then onk (mod_sym x (set_tri d Tmod));;; ret (s, true)
            else read_bool d x y p
        | S_BOOLEAN => read_bool d x y p
        | S_OTHER =>
            if negb (starts_with quote_char p) then
              onk (mod_sym x (set_type S_STRING));;; read_string d x p
            else read_quoted d x p
        | S_STRING => read_quoted d x p
        | S_INT | S_HEX => read_string d x p
        | S_UNKNOWN => ret (s, true)
        end
  end.

(** The end of a line taken away. *)
Fixpoint strip_return (s : string) : string :=
  match s with
  | EmptyString => EmptyString
  | String a EmptyString => if bool_decide (a = return_char) then EmptyString else s
  | String a s' => String a (strip_return s')
  end.
Definition strip_line (p : string) : string :=
  match cut newline_char p with Some (l, _) => strip_return l | None => p end.

(** One line; [stale] is what the buffer holds from its third character on, for
    a line of one character.  The result has the new one.  (After a line that
    begins with CONFIG_ it begins with N, so the characters that are
    overwritten there make no difference.) *)
Definition third (line stale : string) : string :=
  match line with String _ (String _ r) => r | _ => stale end.
Definition read_line (d : slot) (line stale : string) : C (option symbol * bool * string) :=
  let rest := third line stale in
  match line with
  | String a _ =>
      if bool_decide (a = "#"%char) then
        match after "CONFIG_" rest with
        | None => ret (None, false, rest)
        | Some r =>
            match cut " "%char r with
            | None => ret (None, false, rest)
            | Some (name, p) =>
                let rest' := ("CONFIG_" +:+ name)%string in
                match after "is not set" p with
                | None => ret (None, false, rest')
                | Some _ => '(s, b) <- read_unset d name;; ret (s, b, rest')
                end
            end
        end
      else if bool_decide (a = "C"%char) then
        match after "CONFIG_" line with
        | None => conf_warning ["unexpected data"%string];;; ret (None, false, rest)
        | Some r =>
            match cut "="%char r with
            | None => ret (None, false, rest)
            | Some (name, p) => '(s, b) <- read_value d name (strip_line p);; ret (s, b, rest)
            end
        end
      else if bool_decide (a = return_char) || bool_decide (a = newline_char) then ret (None, true, rest)
      else conf_warning ["unexpected data"%string];;; ret (None, false, rest)
  | EmptyString => ret (None, true, rest)
  end.

(** The value of a choice follows those of its symbols. *)
Definition read_choice (d : slot) (x : symbol) : C unit :=
  y <- onk (get_sym x);;
  if negb (sym_is_choice_value y) then ret tt
  else
    prop <- onk (sym_get_choice_prop x);;
    p <- onk (non_null prop);;
    cso <- onk (lift (prop_get_symbol p));;
    cs <- onk (non_null cso);;
    yc <- onk (get_sym cs);;
    let old := v_tri (def_of d yc) in
    let inconsistent :=
      conf_warning [sym_name y; " creates inconsistent choice state"%string];;;
      onk (mod_sym cs (del_flags (def_flag d))) in
    match v_tri (def_of d y) with
    | Tno => ret tt
    | Tmod => if bool_decide (old = Tyes) then inconsistent else ret tt
    | Tyes =>
        if bool_decide (old ≠ Tno) then inconsistent
        else onk (mod_sym cs (λ z, set_def_of d (Value (VSym x) (v_tri (def_of d z))) z))
    end;;;
    onk (mod_sym cs (λ z, set_def_of d (Value (v_val (def_of d z)) (tri_or (v_tri (def_of d z)) (v_tri (def_of d y)))) z)).

Definition next_line : C unit := cupd (λ c,
  set_counts (c_filename c) (c_lineno c + 1) (c_warnings c) (c_unsaved c) (c_stderr c) c).
Fixpoint read_lines (d : slot) (lines : list string) (stale : string) : C unit :=
  match lines with
  | [] => ret tt
  | line :: lines' =>
      next_line;;;
      '(s, b, stale') <- read_line d line stale;;
      match s with Some x => if (b : bool) then read_choice d x else ret tt | None => ret tt end;;;
      read_lines d lines' stale'
  end.

(** The first default of the symbol with option defconfig_list whose file can
    be opened. *)
Fixpoint default_file (l : list property) : C (option (string * string)) :=
  match l with
  | [] => ret None
  | p :: l' =>
      if is_default p then
        t <- onk (KSymbol.expr_calc_value (sym_calc_value n) (pr_vis p));;
        e <- (if bool_decide (t = Tno) then ret None else onk (e <- non_null (pr_expr p);; ret (Some e)));;
        match e with
        | Some (ESymbol s) =>
            y <- onk (get_sym s);;
            nm <- onk (non_null (y_name y));;
            name <- conf_expand_value nm;;
            text <- zconf_fopen name;;
            match text with
            | Some t =>
                onk (print ["#"%string; newline; "# using defaults found in "%string; name; newline; "#"%string; newline]);;;
                ret (Some (name, t))
            | None => default_file l'
            end
        | _ => default_file l'
        end
      else default_file l'
  end.
Definition open_config (name : option string) : C (option (string * string)) :=
  match name with
  | Some nm => text <- zconf_fopen nm;; ret (option_map (pair nm) text)
  | None =>
      text <- zconf_fopen conf_get_configname;;
      match text with
      | Some t => ret (Some (conf_get_configname, t))
      | None =>
          onk (set_change_count (λ k, k + 1));;;
          ds <- cget c_defconfig;;
          match ds with
          | None => ret None
          | Some s => y <- onk (get_sym s);; default_file (y_prop y)
          end
      end
  end.

(** From the label [load] on; [junk] is what the line buffer holds at first. *)
Definition load_config (d : slot) (name text junk : string) : C unit :=
  cupd (λ c, set_counts name 0 0 0 (c_stderr c) c);;;
  onk (for_all_symbols (λ s, mod_sym s (clear_def d)));;;
  read_lines d (lines_of text) junk;;;
  onk (ms <- get k_modules_sym;; match ms with Some s => sym_calc_value n s | None => ret tt end).
Definition conf_read_simple (name : option string) (d : slot) (junk : string) : C Z :=
  file <- open_config name;;
  match file with
  | None => ret 1
  | Some (nm, text) => load_config d nm text junk;;; ret 0
  end.

(** ** Reading the user's configuration *)

(** The calculated value is the saved one, or there is neither. *)
Definition value_agrees (y : sym) : res bool :=
  if sym_is_choice y || has SYMBOL_AUTO y then Ok true
  else if sym_has_value y && has SYMBOL_WRITE y then
    if is_bool_type (y_type y) then Ok (bool_decide (v_tri (y_def y) = sym_get_tristate_value y))
    else rbind (chars (v_val (y_curr y))) (λ a, rbind (chars (v_val (y_def y))) (λ b, Ok (bool_decide (a = b))))
  else Ok (negb (sym_has_value y) && negb (has SYMBOL_WRITE y)).
Definition add_unsaved : C unit := cupd (λ c,
  set_counts (c_filename c) (c_lineno c) (c_warnings c) (c_unsaved c + 1) (c_stderr c) c).

(** User values that do not count are dropped. *)
Definition check_user_value (s : symbol) : K unit :=
  y <- get_sym s;;
  if sym_has_value y && negb (sym_is_choice_value y) then
    (if bool_decide (y_visible y = Tno) then mod_sym s (del_flags SYMBOL_DEF_USER) else ret tt);;;
    match y_type y with
    | S_STRING | S_INT | S_HEX =>
        str <- lift (chars (v_val (y_def y)));;
        ok <- sym_string_within_range n s str;;
        if (ok : bool) then ret tt else mod_sym s (del_flags (Z.lor SYMBOL_VALID SYMBOL_DEF_USER))
    | _ => ret tt
    end
  else ret tt.

(** A choice is set by the user only if all its visible symbols are. *)
Fixpoint and_flags (flags : Z) (l : list symbol) : K Z :=
  match l with
  | [] => ret flags
  | d :: l' =>
      y <- get_sym d;;
      and_flags (if bool_decide (y_visible y ≠ Tno) then Z.land flags (y_flags y) else flags) l'
  end.
Definition check_choice_user (s : symbol) : K unit :=
  y <- get_sym s;;
  if sym_is_choice y then
    prop <- sym_get_choice_prop s;;
    p <- non_null prop;;
    values <- lift (choice_values p);;
    flags <- and_flags (y_flags y) values;;
    mod_sym s (λ z, set_flags (Z.land (y_flags z) (Z.lor flags (Z.lnot SYMBOL_DEF_USER))) z)
  else ret tt.
Definition read_symbol (s : symbol) : C unit :=
  onk (sym_calc_value n s);;;
  y <- onk (get_sym s);;
  agrees <- lift (value_agrees y);;
  (if (agrees : bool) then ret tt else add_unsaved);;;
  onk (check_user_value s);;;
  onk (check_choice_user s).

(** [for_all_symbols] with a body that uses the whole state. *)
Fixpoint each_symbol (f : symbol → C unit) (l : list symbol) : C unit :=
  match l with
  | [] => ret tt
  | s :: l' =>
      y <- onk (get_sym s);;
      (if bool_decide (y_type y = S_OTHER) then ret tt else f s);;;
      each_symbol f l'
  end.
Definition conf_read (name : option string) (junk : string) : C Z :=
  onk (set_change_count (λ _, 0));;;
  r <- conf_read_simple name DefUser junk;;
  if bool_decide (r ≠ 0) then ret 1
  else
    h <- cget (λ c, k_hash (c_k c));;
    each_symbol read_symbol (concat h);;;
    w <- cget c_warnings;;
    u <- cget c_unsaved;;
    onk (set_change_count (λ k, if bool_decide (w ≠ 0) || bool_decide (u ≠ 0) then k + 1 else k));;;
    ret 0.
End conf.
