(* ===== verification/KConfWrite.v ===== *)
(** * Writing configurations (scripts/kconfig/confdata.c, part of menu.c)

    [conf_write] goes through the menus and writes a line for each symbol that
    is to be saved, [conf_write_autoconf] writes those of all symbols for the
    build, after [conf_split_config] has touched a file for every symbol whose
    value changed. *)

From stdpp Require Import base numbers list option strings gmap.
From Stdlib Require Import Ascii.
From S2P Require Import Prelude CString KExpr KSymbol KConf.
Local Open Scope Z_scope.
Local Open Scope c_scope.

Section write.
Context (E : env) (n : nat).
Let getenv := e_getenv E.
Let calc (s : symbol) : K unit := sym_calc_value n s.

(** ** Menus *)

Definition get_menu (m : menu) : C menu_rec := λ c,
  match c_menus c !! m with Some r => Ok (r, c) | None => Err BadAccess end.
Definition get_prompt (p : prompt) : C property :=
  match p with
  | PromptOf s i =>
      y <- onk (get_sym s);;
      lift match y_prop y !! i with Some p => Ok p | None => Err BadAccess end
  | PromptOwn p => ret p
  end.
Definition set_prompt_tri (m : menu) (p : prompt) (t : tristate) : C unit :=
  match p with
  | PromptOf s i => onk (mod_sym s (set_prop_tri i t))
  | PromptOwn q => cupd (λ c,
      Conf (c_k c)
        (alter (λ r, Menu (mn_next r) (mn_parent r) (mn_list r) (mn_sym r) (Some (PromptOwn (set_pr_tri t q)))) m (c_menus c))
        (c_root c) (c_defconfig c) (c_filename c) (c_lineno c) (c_warnings c) (c_unsaved c) (c_stderr c) (c_io c))
  end.

(** [any_visible] is the loop over the entries of a menu. *)
Fixpoint menu_is_visible (fuel : nat) (m : menu) : C bool :=
  match fuel with
  | O => lift (Err NoFuel)
  | S fuel' =>
      r <- get_menu m;;
      match mn_prompt r with
      | None => ret false
      | Some p =>
          visible <- match mn_sym r with
                     | Some s => onk (calc s);;; q <- get_prompt p;; ret (pr_tri q)
                     | None =>
                         q <- get_prompt p;;
                         t <- onk (KSymbol.expr_calc_value calc (pr_vis q));;
                         set_prompt_tri m p t;;;
                         ret t
                     end;;
          if bool_decide (visible ≠ Tno) then ret true
          else match mn_sym r with
               | None => ret false
               | Some s =>
                   y <- onk (get_sym s);;
                   if bool_decide (sym_get_tristate_value y = Tno) then ret false
                   else any_visible fuel' (mn_list r)
               end
      end
  end
with any_visible (fuel : nat) (child : option menu) : C bool :=
  match fuel with
  | O => lift (Err NoFuel)
  | S fuel' =>
      match child with
      | None => ret false
      | Some m =>
          v <- menu_is_visible fuel' m;;
          if (v : bool) then ret true
          else r <- get_menu m;; any_visible fuel' (mn_next r)
      end
  end.
Definition menu_get_prompt (m : menu) : C (option string) :=
  r <- get_menu m;;
  match mn_prompt r with
  | Some p => q <- get_prompt p;; ret (pr_text q)
  | None =>
      match mn_sym r with
      | Some s => y <- onk (get_sym s);; ret (y_name y)
      | None => ret None
      end
  end.

(** The next menu in the order of the text: the first entry, else the next
    one, else that of the nearest parent that has one. *)
Fixpoint climb (fuel : nat) (m : option menu) : C (option menu) :=
  match fuel with
  | O => lift (Err NoFuel)
  | S fuel' =>
      match m with
      | None => ret None
      | Some x =>
          r <- get_menu x;;
          match mn_next r with Some y => ret (Some y) | None => climb fuel' (mn_parent r) end
      end
  end.
Definition next_menu (fuel : nat) (r : menu_rec) : C (option menu) :=
  match mn_list r, mn_next r with
  | Some x, _ => ret (Some x)
  | None, Some x => ret (Some x)
  | None, None => climb fuel (mn_parent r)
  end.

(** ** The text of a symbol *)

Fixpoint escape (s : string) : string :=
  match s with
  | EmptyString => EmptyString
  | String a s' =>
      if bool_decide (a = quote_char ∨ a = backslash_char) then String backslash_char (String a (escape s'))
      else String a (escape s')
  end.
Definition quoted (s : string) : string := (String quote_char (escape s) +:+ String quote_char EmptyString)%string.

Definition config_line (name value : string) : string := ("CONFIG_" +:+ name +:+ "=" +:+ value +:+ newline)%string.
(** The type is that of the symbol, the values those it has. *)
Definition symbol_line (t : symbol_type) (name : string) (tri : tristate) (str : string) : string :=
  match t with
  | S_BOOLEAN | S_TRISTATE =>
      match tri with
      | Tno => ("# CONFIG_" +:+ name +:+ " is not set" +:+ newline)%string
      | Tmod => config_line name "m"
      | Tyes => config_line name "y"
      end
  | S_STRING => config_line name (quoted str)
  | S_HEX | S_INT => config_line name str
  | S_UNKNOWN | S_OTHER => EmptyString
  end.
(** The string value where it is printed. *)
Definition printed_value (y : sym) : res string :=
  match y_type y with
  | S_STRING | S_HEX | S_INT => chars (string_value y)
  | _ => Ok EmptyString
  end.

Definition write_symbol (s : symbol) : C string :=
  y0 <- onk (get_sym s);;
  if has SYMBOL_CHOICE y0 then ret EmptyString
  else
    onk (calc s);;;
    y <- onk (get_sym s);;
    if negb (has SYMBOL_WRITE y) then ret EmptyString
    else
      onk (mod_sym s (del_flags SYMBOL_WRITE));;;
      (if bool_decide (y_type y = S_TRISTATE) then
         ms <- onk (get k_modules_sym);;
         m <- onk (non_null ms);;
         onk (calc m);;; ret tt
       else ret tt);;;
      y' <- onk (get_sym s);;
      str <- lift (printed_value y');;
      ret (symbol_line (y_type y') (sym_name y') (sym_get_tristate_value y') str).
Definition write_menu (fuel : nat) (m : menu) : C string :=
  r <- get_menu m;;
  match mn_sym r with
  | Some s => write_symbol s
  | None =>
      v <- menu_is_visible fuel m;;
      if (v : bool) then
        t <- menu_get_prompt m;;
        ret (newline +:+ "#" +:+ newline +:+ "# " +:+ default "(null)" t +:+ newline +:+ "#" +:+ newline)%string
      else ret EmptyString
  end.
Fixpoint write_menus (fuel : nat) (m : option menu) (text : string) : C string :=
  match fuel with
  | O => lift (Err NoFuel)
  | S fuel' =>
      match m with
      | None => ret text
      | Some x =>
          t <- write_menu fuel' x;;
          r <- get_menu x;;
          next <- next_menu fuel' r;;
          write_menus fuel' next (text +:+ t)%string
      end
  end.

(** ** The file *)

Fixpoint rcut (a : ascii) (s : string) : option (string * string) :=
  match cut a s with
  | None => None
  | Some (l, r) =>
      match s with
      | EmptyString => None
      | String b s' =>
          match rcut a s' with
          | Some (l', r') => Some (String b l', r')
          | None => Some (l, r)
          end
      end
  end.
Definition PATH_SIZE : nat := 128.
(** The directory with its slash, and the name in it. *)
Definition split_path (name : option string) : C (string * string) :=
  let base := conf_get_configname E in
  match name with
  | None | Some EmptyString => ret (EmptyString, base)
  | Some nm =>
      h <- cget c_io;;
      if e_exists E h nm && e_isdir E h nm then
        room PATH_SIZE (nm +:+ "/")%string;;; ret ((nm +:+ "/")%string, base)
      else match rcut "/"%char nm with
           | Some (dir, rest) =>
               room PATH_SIZE (dir +:+ "/")%string;;;
               ret ((dir +:+ "/")%string, if bool_decide (rest = EmptyString) then base else rest)
           | None => ret (EmptyString, nm)
           end
  end.
Definition env_set (v : option string) : bool :=
  match v with Some (String _ _) => true | _ => false end.
Definition kernel_version : C string :=
  s <- onk (sym_lookup (Some "KERNELVERSION"%string) false);;
  onk (calc s);;;
  v <- onk (sym_get_string_value s);;
  match v with
  | VStr _ str => ret str
  | VNull => ret "(null)"%string
  | VSym _ => lift (Err TypeConfusion)
  end.
Definition conf_header (version : string) : string :=
  ("#" +:+ newline +:+ "# Automatically generated make config: don't edit" +:+ newline +:+
   "# Linux kernel version: " +:+ version +:+ newline +:+
   (if env_set (getenv "KCONFIG_NOTIMESTAMP") then EmptyString else "# " +:+ e_ctime E) +:+
   "#" +:+ newline)%string.

Definition conf_write (fuel : nat) (name : option string) : C Z :=
  '(dirname, basename) <- split_path name;;
  let newname := (dirname +:+ basename)%string in
  room PATH_SIZE newname;;;
  let overwrite := env_set (getenv "KCONFIG_OVERWRITECONFIG") in
  let tmpname := if overwrite then EmptyString else (dirname +:+ ".tmpconfig." +:+ e_pid E)%string in
  room PATH_SIZE tmpname;;;
  let outname := if overwrite then newname else tmpname in
  h <- cget c_io;;
  if negb (e_writable E h outname) then ret 1
  else
    version <- kernel_version;;
    count <- onk (get k_change_count);;
    (if bool_decide (count = 0) then onk (sym_clear_all_valid n) else ret tt);;;
    root <- cget c_root;;
    rr <- get_menu root;;
    text <- write_menus fuel (mn_list rr) (conf_header version);;
    log_io (IWrite outname text);;;
    renamed <- (if overwrite then ret true
                else
                  let old := (newname +:+ ".old")%string in
                  room PATH_SIZE old;;;
                  log_io (IRename newname old);;;
                  h' <- cget c_io;;
                  log_io (IRename tmpname newname);;;
                  ret (e_rename E h' tmpname newname));;
    if negb renamed then ret 1
    else
      onk (print ["#"%string; newline; "# configuration written to "%string; newname; newline; "#"%string; newline]);;;
      onk (set_change_count (λ _, 0));;;
      ret 0.

(** ** The files of the build *)

(** A file for each symbol whose value differs from that of auto.conf. *)
Definition value_changed (y : sym) : res bool :=
  if has SYMBOL_WRITE y then
    if has SYMBOL_DEF_AUTO y then
      match y_type y with
      | S_BOOLEAN | S_TRISTATE => Ok (bool_decide (sym_get_tristate_value y ≠ v_tri (y_auto y)))
      | S_STRING | S_HEX | S_INT =>
          rbind (chars (string_value y)) (λ a, rbind (chars (v_val (y_auto y))) (λ b, Ok (bool_decide (a ≠ b))))
      | S_UNKNOWN | S_OTHER => Ok true
      end
    else
      match y_type y with
      | S_BOOLEAN | S_TRISTATE => Ok (bool_decide (sym_get_tristate_value y ≠ Tno))
      | _ => Ok true
      end
  else Ok (has SYMBOL_DEF_AUTO y).

Fixpoint path_chars (s : string) : string :=
  match s with
  | EmptyString => EmptyString
  | String a s' =>
      let b := ascii_of_nat (Z.to_nat (tolower (Z.of_nat (nat_of_ascii a)))) in
      String (if bool_decide (b = "_"%char) then "/"%char else b) (path_chars s')
  end.
Definition symbol_path (name : string) : string := (path_chars name +:+ ".h")%string.

(** The directories on the way are made unless they exist; [false] when one
    cannot be made. *)
Fixpoint make_dirs (done rest : string) : C bool :=
  match rest with
  | EmptyString => ret true
  | String a rest' =>
      let done' := (done +:+ String a EmptyString)%string in
      if bool_decide (a = "/"%char) then
        h <- cget c_io;;
        if e_exists E h done then make_dirs done' rest'
        else
          log_io (IMkdir done);;;
          if e_mkdir E h done then make_dirs done' rest' else ret false
      else make_dirs done' rest'
  end.
Definition touch (path : string) : C bool :=
  h <- cget c_io;;
  match e_open E h path with
  | OpenOk => log_io (ITouch path);;; ret true
  | OpenErr => ret false
  | OpenNoent =>
      made <- make_dirs EmptyString path;;
      if negb made then ret false
      else
        h' <- cget c_io;;
        match e_open E h' path with
        | OpenOk => log_io (ITouch path);;; ret true
        | _ => ret false
        end
  end.
Definition split_symbol (s : symbol) : C bool :=
  onk (calc s);;;
  y <- onk (get_sym s);;
  match (if has SYMBOL_AUTO y then None else y_name y) with
  | None => ret true
  | Some name =>
      changed <- lift (value_changed y);;
      if negb changed then ret true
      else room PATH_SIZE (symbol_path name);;; touch (symbol_path name)
  end.
(** Until one fails. *)
Fixpoint split_symbols (l : list symbol) : C bool :=
  match l with
  | [] => ret true
  | s :: l' =>
      y <- onk (get_sym s);;
      ok <- (if bool_decide (y_type y = S_OTHER) then ret true else split_symbol s);;
      if (ok : bool) then split_symbols l' else ret false
  end.
Definition chdir (path : string) : C bool :=
  h <- cget c_io;; log_io (IChdir path);;; ret (e_chdir E h path).
Definition autoconf_name : string := default "include/config/auto.conf"%string (getenv "KCONFIG_AUTOCONFIG").
Definition conf_split_config (junk : string) : C Z :=
  conf_read_simple E n (Some autoconf_name) DefAuto junk;;;
  there <- chdir "include/config";;
  if negb there then ret 1
  else
    h <- cget (λ c, k_hash (c_k c));;
    ok <- split_symbols (concat h);;
    back <- chdir "../..";;
    ret (if negb back then 1 else if (ok : bool) then 0 else 1).

(** util.c: the files the configuration was read from. *)
Fixpoint dep_lines (files : list string) : string :=
  match files with
  | [] => EmptyString
  | [f] => (String (ascii_of_nat 9) f +:+ newline)%string
  | f :: files' => (String (ascii_of_nat 9) f +:+ " " +:+ String backslash_char newline +:+ dep_lines files')%string
  end.
Definition tab : string := String (ascii_of_nat 9) EmptyString.
Definition dep_text (files : list string) : string :=
  ("deps_config := " +:+ String backslash_char newline +:+ dep_lines files +:+
   newline +:+ "include/config/auto.conf: " +:+ String backslash_char newline +:+
   tab +:+ "$(deps_config)" +:+ newline +:+ newline +:+ "$(deps_config): ;" +:+ newline)%string.
Definition file_write_dep (files : list string) (name : option string) : C Z :=
  h <- cget c_io;;
  if negb (e_writable E h "..config.tmp") then ret 1
  else
    log_io (IWrite "..config.tmp" (dep_text files));;;
    log_io (IRename "..config.tmp" (default ".kconfig.d"%string name));;;
    ret 0.

(** The lines of auto.conf and autoconf.h for a symbol. *)
Definition define_line (name value : string) : string := ("#define CONFIG_" +:+ name +:+ " " +:+ value +:+ newline)%string.
Definition has_hex_prefix (str : string) : bool := has_0x str.
Definition auto_lines (t : symbol_type) (name : string) (tri : tristate) (str : string) : string * string :=
  match t with
  | S_BOOLEAN | S_TRISTATE =>
      match tri with
      | Tno => (EmptyString, EmptyString)
      | Tmod => (config_line name "m", define_line (name +:+ "_MODULE")%string "1")
      | Tyes => (config_line name "y", define_line name "1")
      end
  | S_STRING => (config_line name (quoted str), define_line name (quoted str))
  | S_HEX => (config_line name str, define_line name (if has_hex_prefix str then str else ("0x" +:+ str)%string))
  | S_INT => (config_line name str, define_line name str)
  | S_UNKNOWN | S_OTHER => (EmptyString, EmptyString)
  end.
Fixpoint auto_symbols (l : list symbol) (conf head : string) : C (string * string) :=
  match l with
  | [] => ret (conf, head)
  | s :: l' =>
      y0 <- onk (get_sym s);;
      if bool_decide (y_type y0 = S_OTHER) then auto_symbols l' conf head
      else
        onk (calc s);;;
        y <- onk (get_sym s);;
        match (if has SYMBOL_WRITE y then y_name y else None) with
        | None => auto_symbols l' conf head
        | Some name =>
            str <- lift (printed_value y);;
            let '(a, b) := auto_lines (y_type y) name (sym_get_tristate_value y) str in
            auto_symbols l' (conf +:+ a)%string (head +:+ b)%string
        end
  end.
Definition auto_header (version : string) : string :=
  ("#" +:+ newline +:+ "# Automatically generated make config: don't edit" +:+ newline +:+
   "# Linux kernel version: " +:+ version +:+ newline +:+ "# " +:+ e_ctime E +:+ "#" +:+ newline)%string.
Definition head_header (version : string) : string :=
  ("/*" +:+ newline +:+ " * Automatically generated C config: don't edit" +:+ newline +:+
   " * Linux kernel version: " +:+ version +:+ newline +:+ " * " +:+ e_ctime E +:+ " */" +:+ newline +:+
   "#define AUTOCONF_INCLUDED" +:+ newline)%string.
Definition autoheader_name : string := default "include/linux/autoconf.h"%string (getenv "KCONFIG_AUTOHEADER").

(** A rename whose failure ends the function. *)
Definition rename_to (from to : string) (rest : C Z) : C Z :=
  h <- cget c_io;;
  log_io (IRename from to);;;
  if e_rename E h from to then rest else ret 1.
Definition conf_write_autoconf (files : list string) (junk : string) : C Z :=
  onk (sym_clear_all_valid n);;;
  file_write_dep files (Some "include/config/auto.conf.cmd"%string);;;
  r <- conf_split_config junk;;
  if bool_decide (r ≠ 0) then ret 1
  else
    h <- cget c_io;;
    if negb (e_writable E h ".tmpconfig") then ret 1
    else if negb (e_writable E h ".tmpconfig.h") then log_io (IWrite ".tmpconfig" EmptyString);;; ret 1
    else
      version <- kernel_version;;
      l <- cget (λ c, concat (k_hash (c_k c)));;
      '(text, head) <- auto_symbols l (auto_header version) (head_header version);;
      log_io (IWrite ".tmpconfig" text);;;
      log_io (IWrite ".tmpconfig.h" head);;;
      rename_to ".tmpconfig.h" autoheader_name
        (rename_to ".tmpconfig" autoconf_name (ret 0)).
End write.
