(* ===== verification/KConfLine.v ===== *)
(** * A line that was written is read back *)

From stdpp Require Import base numbers list option strings gmap.
From Stdlib Require Import Ascii.
From S2P Require Import Prelude CString KExpr KSymbol KSymbolEnds KSymbolCheck KSymbolTable KSymbolCalc KConf KConfWrite.
Local Open Scope Z_scope.
Local Open Scope c_scope.

(** ** Strings *)

Fixpoint lacks (a : ascii) (s : string) : bool :=
  match s with EmptyString => true | String b s' => negb (bool_decide (b = a)) && lacks a s' end.

Lemma app_cons_str a s t : (String a s +:+ t)%string = String a (s +:+ t).
Proof. done. Qed.
Lemma app_nil_str s : (s +:+ EmptyString)%string = s.
Proof. induction s as [|a s IH]; [done|]. by rewrite app_cons_str, IH. Qed.
Lemma app_assoc_str s t u : ((s +:+ t) +:+ u)%string = (s +:+ (t +:+ u))%string.
Proof. induction s as [|a s IH]; [done|]. by rewrite !app_cons_str, IH. Qed.
Lemma length_app_str s t : String.length (s +:+ t) = (String.length s + String.length t)%nat.
Proof. induction s as [|a s IH]; [done|]. rewrite app_cons_str. simpl. by rewrite IH. Qed.
Lemma lacks_app a s t : lacks a (s +:+ t) = lacks a s && lacks a t.
Proof. induction s as [|b s IH]; [done|]. rewrite app_cons_str. simpl. by rewrite IH, andb_assoc. Qed.

Lemma cut_app a l r : lacks a l = true → cut a (l +:+ String a r) = Some (l, r).
Proof.
  induction l as [|b l IH]; intros H; [simpl; by rewrite bool_decide_true|].
  simpl in H. apply andb_true_iff in H as [Hb Hl]. rewrite app_cons_str. simpl.
  apply negb_true_iff in Hb. rewrite Hb. by rewrite IH.
Qed.
Lemma after_app p s : after p (p +:+ s) = Some s.
Proof. induction p as [|a p IH]; [done|]. rewrite app_cons_str. simpl. by rewrite bool_decide_true. Qed.
Lemma cut_none a s : lacks a s = true → cut a s = None.
Proof.
  induction s as [|b s IH]; [done|]. simpl. intros [Hb Hs]%andb_true_iff. apply negb_true_iff in Hb. by rewrite Hb, IH.
Qed.

Lemma unquote_escape s r : unquote (escape s +:+ String quote_char r) = Some s.
Proof.
  induction s as [|a s IH]; [done|]. cbn [escape]. case_bool_decide as Ha.
  - rewrite !app_cons_str. cbn [unquote]. rewrite bool_decide_false by done. rewrite bool_decide_true by done. by rewrite IH.
  - rewrite app_cons_str. cbn [unquote]. rewrite !bool_decide_false by tauto. by rewrite IH.
Qed.
Lemma lacks_escape a s : a ≠ quote_char → a ≠ backslash_char → lacks a (escape s) = lacks a s.
Proof.
  intros H1 H2. induction s as [|b s IH]; [done|]. cbn [escape]. case_bool_decide; simpl; rewrite IH; [|done].
  by rewrite bool_decide_false.
Qed.

(** The value before the newline, when it does not end in a return. *)
Fixpoint ends_in_return (s : string) : bool :=
  match s with
  | EmptyString => false
  | String a EmptyString => bool_decide (a = return_char)
  | String _ s' => ends_in_return s'
  end.
Lemma strip_return_id s : ends_in_return s = false → strip_return s = s.
Proof.
  induction s as [|a s IH]; [done|]. destruct s as [|b s]; [simpl; by intros ->|]. intros H.
  change (strip_return (String a (String b s))) with (String a (strip_return (String b s))). by rewrite IH.
Qed.
Lemma strip_line_id s : lacks newline_char s = true → ends_in_return s = false → strip_line (s +:+ newline) = s.
Proof.
  intros H1 H2. unfold strip_line. change newline with (String newline_char EmptyString).
  rewrite cut_app by done. by apply strip_return_id.
Qed.
Lemma ends_quote s : ends_in_return (s +:+ String quote_char EmptyString) = false.
Proof. induction s as [|a s IH]; [done|]. rewrite app_cons_str. destruct s as [|b s]; [done|]. exact IH. Qed.

(** ** Names and values *)

Definition name_char (a : ascii) : bool :=
  let c := Z.of_nat (nat_of_ascii a) in isalpha c || isdigit c || bool_decide (c = 95).
Lemma name_lacks a s : all_chars name_char s = true → name_char a = false → lacks a s = true.
Proof.
  intros H Ha. induction s as [|b s IH]; [done|]. simpl in *. apply andb_true_iff in H as [Hb Hs].
  rewrite IH by done. rewrite bool_decide_false; [done|]. intros ->. congruence.
Qed.
(** A value that a number can have is read as it is. *)
Lemma number_plain t str : known_string t = true → t ≠ S_STRING → string_valid t str = true →
  lacks newline_char str = true ∧ ends_in_return str = false.
Proof.
  intros Ht Hs Hv. assert (all_chars (λ a, negb (bool_decide (a = newline_char)) && negb (bool_decide (a = return_char))) str = true) as H.
  { assert (∀ p s, (∀ a, p a = true → a ≠ newline_char ∧ a ≠ return_char) → all_chars p s = true →
      all_chars (λ a, negb (bool_decide (a = newline_char)) && negb (bool_decide (a = return_char))) s = true) as Hall.
    { intros p s Hp. induction s as [|a s IH]; [done|]. simpl. intros [Ha Hs']%andb_true_iff. destruct (Hp a Ha).
      rewrite !bool_decide_false by done. simpl. by apply IH. }
    assert (∀ a, ascii_digit a = true → a ≠ newline_char ∧ a ≠ return_char) as Hd by (intros a Ha; split; intros ->; done).
    assert (∀ a, ascii_xdigit a = true → a ≠ newline_char ∧ a ≠ return_char) as Hx by (intros a Ha; split; intros ->; done).
    destruct t; try done; unfold string_valid in Hv.
    - assert (all_chars ascii_digit (strip_minus str) = true) as Hm.
      { destruct (strip_minus str) as [|ch rest]; [done|]. simpl. by apply andb_true_iff in Hv as [[-> _]%andb_true_iff ->]. }
      apply (Hall _ _ Hd) in Hm. destruct str as [|a str]; [done|]. unfold strip_minus in Hm.
      destruct (decide (a = "-"%char)) as [->|Ha]; [exact Hm|].
      assert (strip_minus (String a str) = String a str) as E by (unfold strip_minus; repeat (case_match; try done)).
      unfold strip_minus in E. by rewrite E in Hm.
    - assert (all_chars ascii_xdigit (strip_0x str) = true) as Hm by by destruct (strip_0x str).
      apply (Hall _ _ Hx) in Hm. unfold strip_0x in Hm. destruct (has_0x str) eqn:E0; [|done].
      destruct str as [|a [|b str]]; try done. unfold has_0x in E0. simpl in *. rewrite Hm, andb_true_r.
      assert ((a = "0" ∧ (b = "x" ∨ b = "X"))%char) as [-> [-> | ->]]; [|done..].
      repeat (case_match; try done); auto. }
  clear Hv Ht Hs. induction str as [|a str IH]; [done|]. simpl in H. apply andb_true_iff in H as [[Ha Hb]%andb_true_iff H].
  destruct (IH H) as [I1 I2]. split; [simpl; by rewrite Ha, I1|]. destruct str; [|done]. simpl. by apply negb_true_iff in Hb.
Qed.

(** ** One line *)

(** A symbol with the value that is saved. *)
Record entry := Entry { en_sym : symbol; en_name : string; en_type : symbol_type; en_tri : tristate; en_str : string }.
Definition entry_line (e : entry) : string := symbol_line (en_type e) (en_name e) (en_tri e) (en_str e).
(** Names are those of the configuration language; numbers are numbers; a
    string has no newline; a boolean is not m. *)
Definition entry_ok (e : entry) : bool :=
  all_chars name_char (en_name e) && bool_decide (const_name (en_name e) = None) &&
  match en_type e with
  | S_BOOLEAN => bool_decide (en_tri e ≠ Tmod)
  | S_TRISTATE => true
  | S_INT | S_HEX => string_valid (en_type e) (en_str e)
  | S_STRING => lacks newline_char (en_str e)
  | S_UNKNOWN | S_OTHER => false
  end.
Definition saved (e : entry) (v : symbol_value) : Prop :=
  if is_bool_type (en_type e) then v_tri v = en_tri e else ∃ a, v_val v = VStr a (en_str e).
Definition takes (e : entry) (y y' : sym) : Prop := ∃ v, y' = add_flags SYMBOL_DEF_USER (set_def v y) ∧ saved e v.

(** A change of one symbol; addresses may have been used. *)
Record changed (c c' : conf) (x : symbol) (y' : sym) : Prop := {
  ch_conf : c' = set_k (c_k c') c;
  ch_syms : k_syms (c_k c') = <[x := y']> (k_syms (c_k c));
  ch_hash : k_hash (c_k c') = k_hash (c_k c);
  ch_msym : k_modules_sym (c_k c') = k_modules_sym (c_k c);
  ch_mval : k_modules_val (c_k c') = k_modules_val (c_k c);
  ch_next : (k_next (c_k c) ≤ k_next (c_k c'))%positive }.

(** The symbol of a line is in the table, with its type and without a value. *)
Record awaits (c : conf) (e : entry) (y : sym) : Prop := {
  aw_table : ∃ m, indexes (c_k c) m ∧ m !! (en_name e, false) = Some (en_sym e);
  aw_sym : k_syms (c_k c) !! en_sym e = Some y;
  aw_type : y_type y = en_type e;
  aw_new : has SYMBOL_DEF_USER y = false;
  aw_plain : sym_is_choice_value y = false }.

Lemma line_symbol_found c e y other : awaits c e y → const_name (en_name e) = None →
  line_symbol DefUser (en_name e) other c = Ok (Some (en_sym e), c).
Proof.
  intros [(m & HR & Hm) _ _ _ _] Hn. unfold line_symbol, bind, onk. rewrite (find_indexed _ _ _ HR).
  unfold answer. rewrite Hn, Hm. unfold ret, set_k. by destruct c.
Qed.
Lemma onk_get_sym c x y : k_syms (c_k c) !! x = Some y → onk (get_sym x) c = Ok (y, c).
Proof. intros E. unfold onk, get_sym. rewrite E. by destruct c. Qed.

Definition put_state (c : conf) (x : symbol) (y : sym) : conf := set_k (with_sym (c_k c) x y) c.
Lemma onk_mod_sym c x y f : k_syms (c_k c) !! x = Some y → onk (mod_sym x f) c = Ok (tt, put_state c x (f y)).
Proof. intros E. unfold onk. by rewrite (mod_sym_ok _ _ _ _ E). Qed.
Lemma put_changed c x y : changed c (put_state c x y) x y.
Proof. by constructor. Qed.

Lemma read_set_tri c e y t : awaits c e y → is_bool_type (en_type e) = true → en_tri e = t →
  ∃ c' y', onk (mod_sym (en_sym e) (set_tri DefUser t)) c = Ok (tt, c') ∧ takes e y y' ∧ changed c c' (en_sym e) y'.
Proof.
  intros HA Ht Et. eexists _, _. split; [apply onk_mod_sym, HA|]. split; [|apply put_changed].
  exists (Value (v_val (y_def y)) t). split; [done|]. unfold saved. by rewrite Ht.
Qed.
Lemma read_string_ok c e y : awaits c e y → is_bool_type (en_type e) = false → string_valid (en_type e) (en_str e) = true →
  ∃ c' y', read_string DefUser (en_sym e) (en_str e) c = Ok ((Some (en_sym e), true), c') ∧ takes e y y' ∧ changed c c' (en_sym e) y'.
Proof.
  intros HA Ht Hv. pose proof (aw_sym _ _ _ HA) as E. unfold read_string, sym_string_valid. unfold bind at 1, onk at 1, bind at 1, get_sym at 1.
  rewrite E. cbn [ret]. rewrite (aw_type _ _ _ HA), Hv. unfold bind at 1, onk at 1, fresh.
  set (c1 := set_k (Kst _ _ _ _ _ _ _ _) _). assert (k_syms (c_k c1) !! en_sym e = Some y) as E1 by done.
  erewrite bind_ok by (by apply onk_mod_sym). set (v := Value (VStr (k_next (c_k c)) (en_str e)) (v_tri (y_def y))).
  eexists _, (add_flags SYMBOL_DEF_USER (set_def v y)). split; [done|]. split.
  - exists v. split; [done|]. unfold saved. rewrite Ht. by eexists.
  - constructor; try done. simpl. lia.
Qed.

Lemma line_prefix a r : after "CONFIG_" ("CONFIG_" +:+ a +:+ r) = Some (a +:+ r)%string.
Proof. apply after_app. Qed.
Lemma read_config_line c d name value stale : all_chars name_char name = true →
  lacks newline_char value = true → ends_in_return value = false →
  ∃ stale', read_line d (config_line name value) stale c =
    ('(s, b) <- read_value d name value;; ret (s, b, stale')) c.
Proof.
  intros Hn Hl Hr. assert (cut "="%char (name +:+ "=" +:+ value +:+ newline)%string = Some (name, value +:+ newline)%string) as E
    by (by apply cut_app, name_lacks).
  unfold config_line. generalize dependent (name +:+ "=" +:+ value +:+ newline)%string. intros r E.
  eexists. unfold read_line. change ("CONFIG_" +:+ r)%string with (String "C" ("ONFIG_" +:+ r)%string).
  cbv beta iota zeta.
  rewrite bool_decide_false by done. rewrite bool_decide_true by done.
  change (String "C" ("ONFIG_" +:+ r)%string) with ("CONFIG_" +:+ r)%string. rewrite after_app, E, strip_line_id by done.
  reflexivity.
Qed.
Lemma read_unset_line c d name stale : all_chars name_char name = true →
  ∃ stale', read_line d ("# CONFIG_" +:+ name +:+ " is not set" +:+ newline)%string stale c =
    ('(s, b) <- read_unset d name;; ret (s, b, stale')) c.
Proof.
  intros Hn. assert (cut " "%char (name +:+ " is not set" +:+ newline)%string = Some (name, "is not set" +:+ newline)%string) as E
    by (by apply cut_app, name_lacks).
  generalize dependent (name +:+ " is not set" +:+ newline)%string. intros r E.
  eexists. unfold read_line. change ("# CONFIG_" +:+ r)%string with (String "#" (String " " ("CONFIG_" +:+ r)%string)).
  cbv beta iota zeta.
  rewrite bool_decide_true by done. cbn [third]. rewrite after_app, E.
  reflexivity.
Qed.

(** What is done with the text of a value, for a symbol of type [t]. *)
Definition by_type (d : slot) (x : symbol) (y : sym) (p : string) (t : symbol_type) : C (option symbol * bool) :=
  match t with
  | S_TRISTATE =>
      if starts_with "m" p then onk (mod_sym x (set_tri d Tmod));;; ret (Some x, true)
      else read_bool d x y p
  | S_BOOLEAN => read_bool d x y p
  | S_OTHER =>
      if negb (starts_with quote_char p) then onk (mod_sym x (set_type S_STRING));;; read_string d x p
      else read_quoted d x p
  | S_STRING => read_quoted d x p
  | S_INT | S_HEX => read_string d x p
  | S_UNKNOWN => ret (Some x, true)
  end.
Lemma read_value_found c e y p : awaits c e y → const_name (en_name e) = None →
  read_value DefUser (en_name e) p c = by_type DefUser (en_sym e) y p (en_type e) c.
Proof.
  intros HA Hc. unfold read_value. erewrite bind_ok by (by eapply line_symbol_found). cbv beta iota.
  erewrite bind_ok by apply onk_get_sym, HA. unfold def_flag. rewrite (aw_new _ _ _ HA), (aw_type _ _ _ HA).
  by destruct (en_type e).
Qed.
Lemma read_quoted_escape c d x str : read_quoted d x (quoted str) c = read_string d x str c.
Proof.
  unfold quoted, read_quoted. rewrite app_cons_str, bool_decide_true by done. by rewrite unquote_escape.
Qed.

(** What is after the = in the line. *)
Definition value_text (e : entry) : string :=
  match en_type e with
  | S_BOOLEAN | S_TRISTATE => if bool_decide (en_tri e = Tmod) then "m" else "y"
  | S_STRING => quoted (en_str e)
  | _ => en_str e
  end.
Definition unset (e : entry) : bool := is_bool_type (en_type e) && bool_decide (en_tri e = Tno).
(** The line without its newline. *)
Definition entry_body (e : entry) : string :=
  if unset e then ("# CONFIG_" +:+ en_name e +:+ " is not set")%string
  else ("CONFIG_" +:+ en_name e +:+ "=" +:+ value_text e)%string.

Lemma entry_line_unset e : unset e = true → entry_line e = ("# CONFIG_" +:+ en_name e +:+ " is not set" +:+ newline)%string.
Proof.
  unfold unset, entry_line. intros [Hb Ht]%andb_true_iff. apply bool_decide_eq_true in Ht as ->. by destruct (en_type e).
Qed.
Lemma entry_line_value e : entry_ok e = true → unset e = false → entry_line e = config_line (en_name e) (value_text e).
Proof.
  unfold entry_ok, unset, entry_line, value_text. intros [_ Ht]%andb_true_iff Hu. by destruct (en_type e), (en_tri e).
Qed.
Lemma entry_line_body e : entry_ok e = true → entry_line e = (entry_body e +:+ newline)%string.
Proof.
  intros Hok. unfold entry_body. destruct (unset e) eqn:Hu; [by rewrite entry_line_unset, !app_assoc_str|].
  rewrite entry_line_value by done. unfold config_line. by rewrite !app_assoc_str.
Qed.
Lemma value_text_plain e : entry_ok e = true → lacks newline_char (value_text e) = true ∧ ends_in_return (value_text e) = false.
Proof.
  unfold entry_ok, value_text. intros [_ Ht]%andb_true_iff. destruct (en_type e) eqn:Ety; try done.
  1-2: by destruct (bool_decide (en_tri e = Tmod)).
  1-2: by apply (number_plain (en_type e)); rewrite Ety.
  unfold quoted. rewrite app_cons_str. split; [|by apply (ends_quote (String quote_char (escape (en_str e))))].
  simpl. rewrite lacks_app, lacks_escape by done. by rewrite Ht.
Qed.
Lemma entry_body_lacks e : entry_ok e = true → lacks newline_char (entry_body e) = true.
Proof.
  intros Hok. destruct (value_text_plain e Hok) as [Hv _]. unfold entry_ok in Hok. apply andb_true_iff in Hok as [[Hn _]%andb_true_iff _].
  pose proof (name_lacks newline_char (en_name e) Hn eq_refl) as Hl. unfold entry_body. destruct (unset e); rewrite !lacks_app, Hl; [done|]. by rewrite Hv.
Qed.

(** The text of a value gives the symbol the value. *)
Lemma read_by_type c e y : awaits c e y → entry_ok e = true → unset e = false →
  ∃ c' y', by_type DefUser (en_sym e) y (value_text e) (en_type e) c = Ok ((Some (en_sym e), true), c') ∧
    takes e y y' ∧ changed c c' (en_sym e) y'.
Proof.
  intros HA Hok Hno. unfold entry_ok in Hok. apply andb_true_iff in Hok as [_ Ht]. unfold unset, value_text in *.
  destruct (en_type e) eqn:Ety; try done.
  1-2: assert (∃ t, en_tri e = t ∧ t ≠ Tno) as (t & Et & Hno') by (exists (en_tri e); split; [done|intros E; by rewrite E in Hno]);
    destruct (read_set_tri c e y t HA) as (c' & y' & Hm & HT & HC); [by rewrite Ety|done|]; exists c', y'; split; [|done];
    rewrite Et; unfold by_type, read_bool; destruct t; try done.
  - by rewrite Et in Ht.
  - rewrite bool_decide_false by done. change (starts_with "y" "y") with true. cbv iota. by rewrite (bind_ok _ _ _ _ _ Hm).
  - rewrite bool_decide_true by done. change (starts_with "m" "m") with true. cbv iota. by rewrite (bind_ok _ _ _ _ _ Hm).
  - rewrite bool_decide_false by done. change (starts_with "m" "y") with false. change (starts_with "y" "y") with true. cbv iota.
    by rewrite (bind_ok _ _ _ _ _ Hm).
  - apply read_string_ok; [done|by rewrite Ety|by rewrite Ety].
  - apply read_string_ok; [done|by rewrite Ety|by rewrite Ety].
  - unfold by_type. rewrite read_quoted_escape. apply read_string_ok; [done|by rewrite Ety|by rewrite Ety].
Qed.

(** The line of an entry gives its symbol the value. *)
Lemma read_entry c e y stale : awaits c e y → entry_ok e = true →
  ∃ c' y' stale', read_line DefUser (entry_line e) stale c = Ok ((Some (en_sym e), true, stale'), c') ∧
    takes e y y' ∧ changed c c' (en_sym e) y'.
Proof.
  intros HA Hok. pose proof Hok as [[Hn Hc]%andb_true_iff Ht]%andb_true_iff. apply bool_decide_eq_true in Hc.
  destruct (unset e) eqn:Hu.
  - apply andb_true_iff in Hu as Hu'. destruct Hu' as [Hb Hno]. apply bool_decide_eq_true in Hno.
    destruct (read_set_tri c e y Tno HA Hb Hno) as (c' & y' & Hm & HT & HC).
    rewrite entry_line_unset by done. destruct (read_unset_line c DefUser (en_name e) stale Hn) as [stale' Hs].
    exists c', y', stale'. split; [|done]. rewrite Hs.
    assert (read_unset DefUser (en_name e) c = Ok ((Some (en_sym e), true), c')) as Hr; [|by rewrite (bind_ok _ _ _ _ _ Hr)].
    unfold read_unset. erewrite bind_ok by (by eapply line_symbol_found). cbv beta iota. erewrite bind_ok by apply onk_get_sym, HA.
    unfold def_flag. rewrite (aw_new _ _ _ HA), (aw_type _ _ _ HA), Hb. by rewrite (bind_ok _ _ _ _ _ Hm).
  - destruct (read_by_type c e y HA Hok Hu) as (c' & y' & Hr & HT & HC). rewrite entry_line_value by done.
    destruct (value_text_plain e Hok) as [P1 P2].
    destruct (read_config_line c DefUser (en_name e) (value_text e) stale Hn P1 P2) as [stale' Hs].
    exists c', y', stale'. split; [|done]. rewrite Hs.
    rewrite <- (read_value_found _ _ y) in Hr by done. by rewrite (bind_ok _ _ _ _ _ Hr).
Qed.
