(* ===== verification/KConfText.v ===== *)
(** * A text of lines and comments that is read

    [lines_of] gives back the lines of a text, comments change nothing, and
    the lines of different symbols set each of them. *)

From stdpp Require Import base numbers list option strings gmap.
From Stdlib Require Import Ascii.
From S2P Require Import Prelude CString KExpr KSymbol KSymbolEnds KSymbolTable KSymbolCalc KConf KConfWrite KConfLine.
Local Open Scope Z_scope.
Local Open Scope c_scope.

(** ** The lines of a text *)

Lemma fgets_line size s : ∀ left acc rest, lacks newline_char s = true → (String.length s < left)%nat →
  fgets_lines size left acc (s +:+ newline +:+ rest) = (acc +:+ s +:+ newline)%string :: fgets_lines size size EmptyString rest.
Proof.
  change newline with (String newline_char EmptyString).
  induction s as [|a s IH]; intros left acc rest Hs Hl.
  - destruct left as [|[|left]]; [simpl in Hl; lia|done|].
    change ((EmptyString +:+ String newline_char EmptyString +:+ rest)%string) with (String newline_char rest). cbn [fgets_lines].
    by rewrite bool_decide_true.
  - simpl in Hs, Hl. apply andb_true_iff in Hs as [Ha Hs]. apply negb_true_iff in Ha. destruct left as [|[|left]]; [lia..|].
    rewrite app_cons_str. cbn [fgets_lines]. rewrite Ha, IH by (done || lia). f_equal. by rewrite app_assoc_str, app_cons_str.
Qed.

(** A text of whole lines that fit the buffer. *)
Definition fits (s : string) : Prop := lacks newline_char s = true ∧ (String.length s < 1023)%nat.
Fixpoint join (lines : list string) : string :=
  match lines with [] => EmptyString | s :: l => (s +:+ newline +:+ join l)%string end.
Lemma lines_of_join lines : Forall fits lines → lines_of (join lines) = (λ s, s +:+ newline)%string <$> lines.
Proof.
  intros H. unfold lines_of. induction H as [|s l [Hs Hl] _ IH]; [done|]. cbn [join fmap list_fmap].
  rewrite fgets_line by done. by rewrite IH.
Qed.
Lemma join_app l1 l2 : join (l1 ++ l2) = (join l1 +:+ join l2)%string.
Proof. induction l1 as [|s l1 IH]; [done|]. cbn [join app]. by rewrite IH, !app_assoc_str. Qed.

(** ** Comments *)

Definition is_none {A} (o : option A) : bool := match o with None => true | Some _ => false end.
(** An empty line, or a # that is not followed by something that looks like a
    symbol. *)
Definition comment (s : string) : bool :=
  match s with
  | EmptyString => true
  | String a EmptyString => bool_decide (a = "#"%char)
  | String a (String _ r) => bool_decide (a = "#"%char) && is_none (after "CONFIG_" r)
  end.
Lemma after_none a p s t : lacks a p = true → after p s = None → after p (s +:+ String a t) = None.
Proof.
  revert s. induction p as [|b p IH]; intros s Hp Hs; [done|]. simpl in Hp. apply andb_true_iff in Hp as [Hb Hp].
  apply negb_true_iff, bool_decide_eq_false in Hb. destruct s as [|c s].
  - change (EmptyString +:+ String a t)%string with (String a t). cbn [after]. by rewrite bool_decide_false.
  - rewrite app_cons_str. cbn [after] in *. case_bool_decide; [by apply IH|done].
Qed.
Lemma read_comment d s stale c : comment s = true →
  ∃ o stale', read_line d (s +:+ newline)%string stale c = Ok ((None, o, stale'), c).
Proof.
  intros H. destruct s as [|a [|b r]].
  - by exists true, stale.
  - apply bool_decide_eq_true in H as ->. exists false, EmptyString. done.
  - apply andb_true_iff in H as [Ha Hr]. apply bool_decide_eq_true in Ha as ->.
    exists false, (r +:+ newline)%string. rewrite !app_cons_str. unfold read_line. cbv beta iota zeta.
    rewrite bool_decide_true by done. cbn [third].
    assert (after "CONFIG_" (r +:+ newline)%string = None) as Hn; [|by rewrite Hn].
    apply after_none; [done|]. by destruct (after "CONFIG_" r).
Qed.

(** ** All the lines *)

Inductive item := Comment (s : string) | Saved (e : entry).
Definition item_body (i : item) : string := match i with Comment s => s | Saved e => entry_body e end.
Definition item_ok (i : item) : bool := match i with Comment s => comment s | Saved e => entry_ok e end.
Definition entries (l : list item) : list entry := omap (λ i, match i with Saved e => Some e | Comment _ => None end) l.

(** Only the values of the entries are changed, and the number of the line. *)
Record reads_to (c c' : conf) (es : list entry) : Prop := {
  rt_conf : c' = set_counts (c_filename c) (c_lineno c') (c_warnings c) (c_unsaved c) (c_stderr c) (set_k (c_k c') c);
  rt_hash : k_hash (c_k c') = k_hash (c_k c);
  rt_msym : k_modules_sym (c_k c') = k_modules_sym (c_k c);
  rt_mval : k_modules_val (c_k c') = k_modules_val (c_k c);
  rt_next : (k_next (c_k c) ≤ k_next (c_k c'))%positive;
  rt_entry e : e ∈ es → ∃ y y', k_syms (c_k c) !! en_sym e = Some y ∧ k_syms (c_k c') !! en_sym e = Some y' ∧ takes e y y';
  rt_other x : x ∉ en_sym <$> es → k_syms (c_k c') !! x = k_syms (c_k c) !! x }.

Lemma reads_refl c : reads_to c c [].
Proof. constructor; try done; [by destruct c|by intros e ?%elem_of_nil]. Qed.
Lemma takes_key e y y' : takes e y y' → key_of y' = key_of y.
Proof.
  intros (v & -> & _). unfold key_of. simpl. f_equal. change (has SYMBOL_CONST (add_flags SYMBOL_DEF_USER (set_def v y)) = has SYMBOL_CONST y).
  has_flags. apply orb_false_r.
Qed.
Lemma takes_flags e y y' : takes e y y' → sym_is_choice_value y' = sym_is_choice_value y.
Proof.
  intros (v & -> & _). unfold sym_is_choice_value. has_flags. apply orb_false_r.
Qed.
Lemma awaits_other c c' e y e1 y1 y1' : awaits c e y → awaits c e1 y1 → takes e1 y1 y1' → changed c c' (en_sym e1) y1' →
  en_sym e1 ≠ en_sym e → awaits c' e y.
Proof.
  intros [(m & HR & Hm) E Ht Hn Hp] HA HT HC Hne. constructor; [|by rewrite (ch_syms _ _ _ _ HC), lookup_insert_ne|done..].
  exists m. split; [|done]. apply (indexes_same (c_k c)); [done|apply HC|].
  intros x. rewrite (ch_syms _ _ _ _ HC). destruct (decide (x = en_sym e1)) as [->|Hx].
  - rewrite lookup_insert_eq, (aw_sym _ _ _ HA). simpl. by rewrite (takes_key _ _ _ HT).
  - by rewrite lookup_insert_ne.
Qed.

(** One line after another. *)
Definition line_to (c : conf) : conf :=
  set_counts (c_filename c) (c_lineno c + 1) (c_warnings c) (c_unsaved c) (c_stderr c) c.
Lemma read_items l : ∀ c stale,
  Forall (λ i, item_ok i = true) l → NoDup (en_sym <$> entries l) → Forall (λ e, ∃ y, awaits c e y) (entries l) →
  ∃ c', read_lines DefUser ((λ i, item_body i +:+ newline)%string <$> l) stale c = Ok (tt, c') ∧ reads_to c c' (entries l).
Proof.
  induction l as [|i l IH]; intros c stale Hok Hnd Haw; [exists c; split; [done|apply reads_refl]|].
  inversion_clear Hok as [|? ? Hi Hok']. cbn [fmap list_fmap read_lines].
  assert (∀ e y, awaits c e y → awaits (line_to c) e y) as Hline by (intros e y []; by constructor).
  assert (next_line c = Ok (tt, line_to c)) as Hnl by done. rewrite (bind_ok _ _ _ _ _ Hnl). destruct i as [s|e]; cbn [item_body item_ok] in *.
  - destruct (read_comment DefUser s stale (line_to c) Hi) as (o & stale' & Er). rewrite (bind_ok _ _ _ _ _ Er). cbv beta iota.
    assert (ret tt (line_to c) = Ok (tt, line_to c)) as Hr by done. rewrite (bind_ok _ _ _ _ _ Hr).
    destruct (IH (line_to c) stale') as (c' & E & HR); [done|done| |].
    { eapply Forall_impl; [exact Haw|]. intros e (y & Hy). eauto. }
    exists c'. split; [exact E|]. destruct HR as [R1 R2 R3 R4 R5 R6 R7]. by constructor.
  - cbn [entries omap list_omap] in Hnd, Haw. fold (entries l) in Hnd, Haw. inversion_clear Hnd as [|? ? Hnin Hnd'].
    inversion_clear Haw as [|? ? (y & Hy) Haw'].
    destruct (read_entry (line_to c) e y stale (Hline _ _ Hy) Hi) as (c1 & y1 & stale' & Er & HT & HC).
    rewrite <- entry_line_body by done. rewrite (bind_ok _ _ _ _ _ Er). cbv beta iota.
    assert (k_syms (c_k c1) !! en_sym e = Some y1) as E1 by (by rewrite (ch_syms _ _ _ _ HC), lookup_insert_eq).
    assert (read_choice DefUser (en_sym e) c1 = Ok (tt, c1)) as Hch.
    { unfold read_choice. erewrite bind_ok by (by apply onk_get_sym). by rewrite (takes_flags _ _ _ HT), (aw_plain _ _ _ Hy). }
    rewrite (bind_ok _ _ _ _ _ Hch). destruct (IH c1 stale') as (c' & E & HR); [done|done| |].
    { rewrite Forall_forall in *. intros e' He'. destruct (Haw' e' He') as (y' & Hy'). exists y'.
      apply (awaits_other (line_to c) c1 e' y' e y y1); auto. intros Heq. apply Hnin. rewrite Heq. by apply list_elem_of_fmap_2. }
    exists c'. split; [exact E|]. destruct HR as [R1 R2 R3 R4 R5 R6 R7]. destruct HC as [C1 C2 C3 C4 C5 C6]. constructor.
    + rewrite R1 at 1. by rewrite C1.
    + by rewrite R2, C3.
    + by rewrite R3, C4.
    + by rewrite R4, C5.
    + by etransitivity.
    + intros e' [->|He']%elem_of_cons.
      * exists y, y1. split; [apply Hy|]. by rewrite R7.
      * destruct (R6 e' He') as (y2 & y3 & E2 & E3 & HT'). exists y2, y3. split; [|done].
        rewrite C2, lookup_insert_ne in E2; [done|]. intros Heq. apply Hnin. rewrite Heq. by apply list_elem_of_fmap_2.
    + intros z Hx. cbn [fmap list_fmap] in Hx. apply not_elem_of_cons in Hx as [Hx1 Hx2]. rewrite R7 by done. by rewrite C2, lookup_insert_ne.
Qed.
