(* ===== verification/KConfFixed.v ===== *)
(** * Saved values are values again

    When the user values of a configuration are replaced by the values that
    were computed, for the symbols that are saved, and dropped for the others,
    the equations of [KSymbolRef] have the same solution. *)

From stdpp Require Import base numbers list option strings gmap.
From S2P Require Import Prelude CString KExpr KSymbol KSymbolEnds KSymbolRef KSymbolCalc.
Local Open Scope Z_scope.

(** The same symbol, with another user value. *)
Record recast (y y2 : sym) : Prop := {
  rc_name : y_name y2 = y_name y;
  rc_type : y_type y2 = y_type y;
  rc_auto : y_auto y2 = y_auto y;
  rc_prop : erase_prop <$> y_prop y2 = erase_prop <$> y_prop y;
  rc_rev : y_rev y2 = y_rev y;
  rc_const : has SYMBOL_CONST y2 = has SYMBOL_CONST y;
  rc_choice : sym_is_choice y2 = sym_is_choice y;
  rc_choiceval : sym_is_choice_value y2 = sym_is_choice_value y }.
#[export] Instance recast_preorder : PreOrder recast.
Proof.
  split; [by intros y; constructor|]. intros y1 y2 y3 [] []. constructor; congruence.
Qed.
Lemma recast_config y y2 : recast y y2 → config_of (set_def (y_def y) (set_flags (y_flags y) y2)) = config_of y.
Proof. intros [H1 H2 H3 H4 H5 _ _ _]. unfold config_of. simpl. by rewrite H1, H2, H3, H4, H5. Qed.
Lemma config_recast y y2 : config_of y2 = config_of y → recast y y2.
Proof. intros H. destruct (same_fields _ _ H) as (? & ? & ? & ? & ? & ? & ? & ? & ?). pose proof (same_auto _ _ H). by constructor. Qed.

Section recast.
Context (Sg : symbol → syminfo) (mv : tristate) (y y2 : sym) (HR : recast y y2).
Let z : sym := set_def (y_def y) (set_flags (y_flags y) y2).
Let Hz : config_of z = config_of y := recast_config _ _ HR.

Lemma recast_fields : y_name y2 = y_name y ∧ y_type y2 = y_type y.
Proof using Hz. destruct (same_fields _ _ Hz) as (Hn & Ht & _). done. Qed.
Lemma recast_deps : deps y2 = deps y.
Proof using Hz. exact (same_deps _ _ Hz). Qed.
Lemma recast_vis : vis_of Sg mv y2 = vis_of Sg mv y.
Proof using Hz. exact (same_vis Sg mv _ _ Hz). Qed.
Lemma recast_rev : rev_of Sg mv y2 = rev_of Sg mv y.
Proof using Hz. exact (same_rev Sg mv _ _ Hz). Qed.
Lemma recast_default : default_tri Sg y2 = default_tri Sg y ∧ default_str Sg y2 = default_str Sg y.
Proof using Hz. exact (same_default Sg _ _ Hz). Qed.
Lemma recast_ranged str : ranged Sg y2 str = ranged Sg y str.
Proof using Hz.
  unfold ranged. pose proof (same_first Sg _ _ Hz is_range pr_expr (λ _, eq_refl) (λ _, eq_refl)) as H.
  change (y_prop z) with (y_prop y2) in H. rewrite (proj2 recast_fields). destruct (base_of (y_type y)); [|done].
  destruct (first_of Sg is_range (y_prop y2)), (first_of Sg is_range (y_prop y)); try done. injection H as H. by rewrite H.
Qed.
Lemma recast_wf : forallb wf_prop (y_prop y) = true → forallb wf_prop (y_prop y2) = true.
Proof using Hz.
  destruct (same_fields _ _ Hz) as (_ & _ & _ & _ & Hp & _).
  assert (∀ l, forallb wf_prop (erase_prop <$> l) = forallb wf_prop l) as H.
  { induction l as [|p l IH]; [done|]. cbn. by rewrite <- IH. }
  change (y_prop z) with (y_prop y2) in Hp. rewrite <- (H (y_prop y2)), Hp. by rewrite H.
Qed.

(** A user value that is the value of the symbol, or does not count. *)
Lemma tri_of_saved : is_bool_type (y_type y) = true → sym_has_value y2 = true → v_tri (y_def y2) = tri_of Sg mv y →
  tri_of Sg mv y2 = tri_of Sg mv y.
Proof using Hz.
  intros Ht Hu Hv. unfold tri_of at 1. rewrite Hu, Hv, recast_vis, recast_rev, (proj1 recast_default), (proj2 recast_fields).
  unfold tri_of. assert (∀ r, rounded mv (y_type y) r = match r with Tmod => rounded mv (y_type y) Tmod | _ => r end) as Hr by (by intros []).
  assert (type_of mv (y_type y) = S_BOOLEAN → vis_of Sg mv y ≠ Tmod ∧ rev_of Sg mv y ≠ Tmod) as Hb.
  { intros E. unfold vis_of, rev_of, rounded. rewrite E. split.
    - destruct (foldr tri_or Tno (prompt_conds Sg (y_prop y))); done.
    - destruct (match y_rev y with Some e => calc_value Sg e | None => Tno end); done. }
  assert (rounded mv (y_type y) Tmod = if bool_decide (type_of mv (y_type y) = S_BOOLEAN) then Tyes else Tmod) as Hm.
  { unfold rounded. by rewrite bool_decide_true by done. }
  rewrite !Hr, Hm. clear Hr Hm. destruct (decide (type_of mv (y_type y) = S_BOOLEAN)) as [E|E].
  - rewrite (bool_decide_true (type_of mv (y_type y) = S_BOOLEAN)) by done. destruct (Hb E) as [H1 H2]. revert H1 H2.
    generalize (vis_of Sg mv y) (rev_of Sg mv y) (default_tri Sg y) (if sym_has_value y then v_tri (y_def y) else default_tri Sg y).
    intros v r d u. by destruct v, r, d, u.
  - rewrite (bool_decide_false (type_of mv (y_type y) = S_BOOLEAN)) by done. clear Hb.
    generalize (vis_of Sg mv y) (rev_of Sg mv y) (default_tri Sg y) (if sym_has_value y then v_tri (y_def y) else default_tri Sg y).
    intros v r d u. by destruct v, r, d, u.
Qed.
Lemma tri_of_unsaved : vis_of Sg mv y = Tno ∨ sym_has_value y = false ∧ sym_has_value y2 = false → tri_of Sg mv y2 = tri_of Sg mv y.
Proof using Hz.
  intros H. unfold tri_of. rewrite recast_vis, recast_rev, (proj1 recast_default), (proj2 recast_fields).
  destruct H as [->|[-> ->]]; [|done]. assert (∀ t, tri_and t Tno = Tno) as Hn by by intros []. by rewrite !Hn.
Qed.
Lemma str_of_saved : sym_has_value y2 = true → val_string (v_val (y_def y2)) = ranged Sg y (str_of Sg mv y) →
  ranged Sg y (ranged Sg y (str_of Sg mv y)) = ranged Sg y (str_of Sg mv y) →
  ranged Sg y2 (str_of Sg mv y2) = ranged Sg y (str_of Sg mv y).
Proof using Hz.
  intros Hu Hv Hr. rewrite recast_ranged. unfold str_of at 1. rewrite recast_vis, Hu, Hv, (proj2 recast_default), andb_true_r.
  destruct (bool_decide (vis_of Sg mv y ≠ Tno)) eqn:Hvis; [done|]. unfold str_of. by rewrite Hvis.
Qed.
Lemma str_of_unsaved : vis_of Sg mv y = Tno ∨ sym_has_value y = false ∧ sym_has_value y2 = false →
  ranged Sg y2 (str_of Sg mv y2) = ranged Sg y (str_of Sg mv y).
Proof using Hz.
  intros H. rewrite recast_ranged. unfold str_of. rewrite recast_vis, (proj2 recast_default).
  destruct H as [->|[-> ->]]; [done|]. by rewrite !andb_false_r.
Qed.
End recast.

(** ** All symbols *)

Section fixed.
Context (S S2 : gmap symbol sym) (mv : tristate) (rank : symbol → nat) (HS : ranks S rank).
Let V (x : symbol) : syminfo := value_of S mv (Datatypes.S (rank x)) x.

(** The user value of [y2] is the value of [x]. *)
Definition keeps (x : symbol) (y2 : sym) : Prop :=
  if is_bool_type (y_type y2) then v_tri (y_def y2) = s_tri (V x)
  else val_string (v_val (y_def y2)) = s_val (V x) ∧ ranged V y2 (s_val (V x)) = s_val (V x).
Record resaved (x : symbol) (y y2 : sym) : Prop := {
  rs_recast : recast y y2;
  rs_valid : has SYMBOL_VALID y2 = has SYMBOL_VALID y;
  rs_curr : has SYMBOL_VALID y = true → y_curr y2 = y_curr y;
  rs_value : has SYMBOL_VALID y = false → known (y_type y) = true →
    (sym_has_value y2 = true ∧ keeps x y2) ∨ vis_of V mv y = Tno ∨ (sym_has_value y = false ∧ sym_has_value y2 = false) }.
Context (HR : ∀ x, option_relation (resaved x) (λ _, False) (λ _, False) (S !! x) (S2 !! x)).

Lemma resaved_equation x y y2 : S !! x = Some y → resaved x y y2 → equation V mv y2 = V x.
Proof using HS.
  intros E [Hc Hv Hcu Hval]. assert (V x = equation V mv y) as HV by by apply (value_of_equation S mv rank HS).
  rewrite HV. destruct (recast_fields _ _ Hc) as [Hn Ht]. unfold equation. rewrite Hv, Hn, Ht, (rc_const _ _ Hc).
  destruct (has SYMBOL_VALID y) eqn:Hvy; [unfold info; by rewrite Hn, Ht, (rc_const _ _ Hc), Hcu|].
  destruct (known (y_type y)) eqn:Hk; [|by destruct (y_type y)]. specialize (Hval eq_refl eq_refl).
  unfold equation in HV. rewrite Hvy in HV. destruct (is_bool_type (y_type y)) eqn:Hb.
  - assert (s_tri (V x) = tri_of V mv y) as Ht' by (rewrite HV; by destruct (y_type y)).
    assert (tri_of V mv y2 = tri_of V mv y) as Htri.
    { destruct Hval as [[Hu Hs]|Hs]; [|by apply tri_of_unsaved]. unfold keeps in Hs. rewrite Ht, Hb in Hs.
      apply tri_of_saved; try done. congruence. }
    destruct (y_type y); by rewrite ?Htri.
  - assert (s_val (V x) = ranged V y (str_of V mv y)) as Ht' by (rewrite HV; by destruct (y_type y)).
    assert (ranged V y2 (str_of V mv y2) = ranged V y (str_of V mv y)) as Hstr.
    { destruct Hval as [[Hu Hs]|Hs]; [|by apply str_of_unsaved]. unfold keeps in Hs. rewrite Ht, Hb, Ht' in Hs.
      destruct Hs as [Hs1 Hs2]. rewrite (recast_ranged V _ _ Hc) in Hs2. by apply str_of_saved. }
    destruct (y_type y); by rewrite ?Hstr.
Qed.
Lemma resaved_ranks : ranks S2 rank.
Proof using HS HR.
  intros x y2 d E2 Hv Hd. pose proof (HR x) as Hx. rewrite E2 in Hx. destruct (S !! x) as [y|] eqn:E; [|done]. simpl in Hx.
  destruct Hx as [Hc Hvy _ _]. rewrite (recast_deps _ _ Hc) in Hd. destruct (HS x y d E) as [[w Ew]%elem_of_dom Hr]; [congruence|done|].
  split; [|done]. pose proof (HR d) as Hd'. rewrite Ew in Hd'. destruct (S2 !! d) eqn:E'; [|done]. apply elem_of_dom. eauto.
Qed.
Lemma resaved_values x : value_of S2 mv (Datatypes.S (rank x)) x = V x.
Proof using HS HR.
  assert (∀ k x, (rank x < k)%nat → value_of S2 mv (Datatypes.S (rank x)) x = V x) as H; [|apply (H (Datatypes.S (rank x))); lia].
  clear x. induction k as [|k IH]; intros x Hx; [lia|]. pose proof (HR x) as Hrx. destruct (S2 !! x) as [y2|] eqn:E2.
  2: { unfold V. cbn [value_of]. rewrite E2. by destruct (S !! x). }
  destruct (S !! x) as [y|] eqn:E; [|done]. simpl in Hrx. rewrite (value_of_equation S2 mv rank resaved_ranks _ _ E2).
  rewrite <- (resaved_equation x y y2) by done. apply equation_deps. intros Hv d Hd. apply IH.
  destruct (resaved_ranks x y2 d E2 Hv Hd). lia.
Qed.
End fixed.
