(* ===== verification/KConfMenus.v ===== *)
(** * The order of the menus in a configuration (conf_write)

    [conf_write] walks through the menus by their pointers.  For menus that
    form a tree it comes to each of them once, in the order of the text, and
    ends. *)

From stdpp Require Import base numbers list option strings gmap.
From S2P Require Import Prelude CString KExpr KSymbol KSymbolEnds KSymbolCalc KConf KConfWrite.
Local Open Scope Z_scope.
Local Open Scope c_scope.

(** ** Trees of menus *)

Inductive mtree := Node (m : menu) (sub : list mtree).
Fixpoint order (t : mtree) : list menu := let '(Node m sub) := t in m :: concat (map order sub).
Definition orders (ts : list mtree) : list menu := concat (map order ts).

(** What of a menu is not changed when it is written. *)
Definition prompt_shape (p : prompt) : prompt :=
  match p with PromptOf s i => PromptOf s i | PromptOwn q => PromptOwn (erase_prop q) end.
Definition shape (r : menu_rec) : menu_rec :=
  Menu (mn_next r) (mn_parent r) (mn_list r) (mn_sym r) (prompt_shape <$> mn_prompt r).

(** [o] is the first of the entries [ts] of the menu [p]. *)
Inductive laid (menus : gmap menu menu_rec) : menu → option menu → list mtree → Prop :=
  | laid_nil p : laid menus p None []
  | laid_cons p m r sub ts :
      menus !! m = Some r → mn_parent r = Some p → laid menus m (mn_list r) sub → laid menus p (mn_next r) ts →
      laid menus p (Some m) (Node m sub :: ts).

Section walk.
Context (menus : gmap menu menu_rec) (n : nat).

Definition shaped (c : conf) : Prop := ∀ m, shape <$> c_menus c !! m = shape <$> menus !! m.
Lemma wp_menu c m r (Q : menu_rec → conf → Prop) : shaped c → menus !! m = Some r →
  (∀ r', c_menus c !! m = Some r' → shape r' = shape r → Q r' c) → wp (get_menu m) Q c.
Proof using.
  intros HS E HQ. specialize (HS m). rewrite E in HS. unfold get_menu. destruct (c_menus c !! m) as [r'|] eqn:E'; [|done].
  injection HS as H1 H2 H3 H4 H5. exists r', c. rewrite E'. split; [done|]. apply HQ; [done|]. unfold shape. by rewrite H1, H2, H3, H4, H5.
Qed.
Lemma shape_links r r' : shape r' = shape r → mn_next r' = mn_next r ∧ mn_parent r' = mn_parent r ∧ mn_list r' = mn_list r ∧ mn_sym r' = mn_sym r.
Proof using. by intros [=]. Qed.

(** After the entries of [p] comes [k]. *)
Definition after_menu (p : menu) (k : option menu) (d : nat) : Prop :=
  ∀ fuel c Q, (d ≤ fuel)%nat → shaped c → Q k c → wp (climb fuel (Some p)) Q c.
Lemma after_root m r : menus !! m = Some r → mn_next r = None → mn_parent r = None → after_menu m None 2.
Proof using.
  intros E Hn Hp fuel c Q Hf HS HQ. destruct fuel as [|[|fuel]]; [lia..|]. cbn [climb]. apply wp_bind. eapply wp_menu; [done..|].
  intros r' _ (H1 & H2 & _)%shape_links. rewrite H1, H2, Hn, Hp. by apply wp_ret.
Qed.
Lemma after_entry m r p k d : menus !! m = Some r → mn_parent r = Some p → after_menu p k d →
  after_menu m (match mn_next r with Some y => Some y | None => k end) (S d).
Proof using.
  intros E Hp HA fuel c Q Hf HS HQ. destruct fuel as [|fuel]; [lia|]. cbn [climb]. apply wp_bind. eapply wp_menu; [done..|].
  intros r' _ (H1 & H2 & _)%shape_links. rewrite H1, H2, Hp. destruct (mn_next r); [by apply wp_ret|].
  apply HA; [lia|done|done].
Qed.

Lemma wp_next r' r m p k d fuel c Q :
  menus !! m = Some r → shape r' = shape r → mn_parent r = Some p → after_menu p k d → (d ≤ fuel)%nat → shaped c →
  Q (match mn_list r with Some x => Some x | None => match mn_next r with Some y => Some y | None => k end end) c →
  wp (next_menu fuel r') Q c.
Proof using.
  intros E (H1 & H2 & H3 & _)%shape_links Hp HA Hf HS HQ. unfold next_menu. rewrite H1, H2, H3, Hp.
  destruct (mn_list r); [by apply wp_ret|]. destruct (mn_next r); [by apply wp_ret|]. by apply HA.
Qed.

(** An invariant of what was visited and of the text. *)
Context (I : list menu → string → conf → Prop).
Context (HI : ∀ l text c, I l text c → shaped c).
Context (Hvisit : ∀ l text c m r fuel, I l text c → menus !! m = Some r → (0 < fuel)%nat →
  wp (write_menu n fuel m) (λ t c', I (l ++ [m]) (text +:+ t)%string c') c).

Lemma walk_laid p o ts : laid menus p o ts → ∀ k d N l Q, after_menu p k d → (d ≤ N)%nat → (1 < N)%nat →
  (∀ fuel text c, I (l ++ orders ts) text c → (N ≤ fuel)%nat → wp (write_menus n fuel k text) Q c) →
  ∀ fuel text c, I l text c → (N + 2 * length (orders ts) ≤ fuel)%nat →
    wp (write_menus n fuel (match o with Some m => Some m | None => k end) text) Q c.
Proof using HI Hvisit.
  induction 1 as [p|p m r sub ts E Hp _ IHsub _ IHts]; intros k d N l Q HA Hd HN Hk fuel text c Hc Hf.
  { apply Hk; [by rewrite app_nil_r|]. simpl in Hf. lia. }
  assert (orders (Node m sub :: ts) = m :: orders sub ++ orders ts) as Ho by done. rewrite Ho in *.
  cbn [length] in Hf. rewrite length_app in Hf. destruct fuel as [|fuel]; [lia|]. cbn [write_menus].
  apply wp_bind. eapply wp_mono; [eapply Hvisit; [done..|lia]|]. intros t c1 HI1. pose proof (HI _ _ _ HI1) as HS1.
  apply wp_bind. eapply wp_menu; [done..|]. intros r' _ Hr'. apply wp_bind. eapply wp_next; [done|done|done|done|lia|done|].
  eapply (IHsub _ (S d) (N + 2 * length (orders ts) + 1)%nat); [by eapply after_entry|lia|lia| |exact HI1|lia].
  intros fuel2 text2 c2 HI2 Hf2. eapply (IHts k d N); [done|done|done| |exact HI2|lia].
  intros fuel3 text3 c3 HI3 Hf3. apply Hk; [|done]. rewrite <- !app_assoc in HI3. exact HI3.
Qed.

(** The entries of the root menu. *)
Lemma walk_root root r ts fuel text c :
  menus !! root = Some r → mn_next r = None → mn_parent r = None → laid menus root (mn_list r) ts →
  I [] text c → (2 + 2 * length (orders ts) < fuel)%nat →
  wp (write_menus n fuel (mn_list r) text) (λ text' c', I (orders ts) text' c') c.
Proof using HI Hvisit.
  intros E Hn Hp HL Hc Hf.
  assert (mn_list r = match mn_list r with Some m => Some m | None => None end) as -> by by destruct (mn_list r).
  eapply (walk_laid _ _ _ HL None 2 2 []); [by eapply after_root|lia|lia| |done|lia].
  intros fuel' text' c' HI' Hf'. destruct fuel' as [|fuel']; [lia|]. by apply wp_ret.
Qed.
End walk.
