(* ===== verification/KConfSave.v ===== *)
(** * The lines that conf_write writes

    Every symbol of a menu that is visible or has a default gets one line, with
    the value that the equations of [KSymbolRef] give it. *)

From stdpp Require Import base numbers list option strings gmap.
From S2P Require Import Prelude CString KExpr KSymbol KSymbolEnds KSymbolCheck KSymbolTable KSymbolRef KSymbolCalc KSymbolSet.
From S2P Require Import KConf KConfWrite KConfLine KConfText KConfMenus.
Local Open Scope Z_scope.
Local Open Scope c_scope.

Lemma wp_onk {A} (m : K A) Q c : wp m (λ a st, Q a (set_k st c)) (c_k c) → wp (onk m) Q c.
Proof. intros (a & st & E & H). exists a, (set_k st c). unfold onk. by rewrite E. Qed.
Lemma wp_cget {A} (f : conf → A) Q c : Q (f c) c → wp (cget f) Q c.
Proof. intros H. by exists (f c), c. Qed.
Lemma wp_cupd f Q c : Q tt (f c) → wp (cupd f) Q c.
Proof. intros H. by exists tt, (f c). Qed.
Lemma set_k_k st c : c_k (set_k st c) = st.
Proof. done. Qed.

Section save.
Context (stb : kst) (rank : symbol → nat) (HC : computable stb rank) (HL : cleared stb).
Context (n : nat) (Hn : (size (k_syms stb) < n)%nat).
Let mv : tristate := k_modules_val stb.
Let V (x : symbol) : syminfo := value_of (k_syms stb) mv (S (rank x)) x.

(** ** Values and marks *)

(** The symbols with values have the marks for writing, except those that were
    written, [W]; the marks of symbols without a type stay. *)
Record kinv (W : list symbol) (st : kst) : Prop := {
  ki_started : started stb rank st;
  ki_modules m : k_modules_sym stb = Some m → valid st m;
  ki_written : Forall (valid st) W;
  ki_marked x : valid st x → x ∈ concat (k_hash stb) → ∃ y, k_syms st !! x = Some y ∧
    (known (y_type y) = true → has SYMBOL_WRITE y = saved_of V mv y && bool_decide (x ∉ W));
  ki_unknown : same_unknown stb st }.

Lemma kinv_calc W s st Q : kinv W st → s ∈ dom (k_syms stb) →
  (∀ st', kinv W st' → valid st' s → (∀ x, valid st x → k_syms st' !! x = k_syms st !! x) → Q tt st') →
  wp (sym_calc_value n s) Q st.
Proof using HC HL Hn.
  intros [HS Hm HW Hmk Hun] Hs HQ. eapply wp_mono; [by apply (started_calc stb rank HC HL)|].
  intros [] st' (HS' & Hev & (Hfr & Hnew & Hun') & Hv). apply HQ; [|done|done].
  assert (∀ x, valid st x → valid st' x) as Hmono by apply Hev. constructor; [done|auto|by eapply Forall_impl| |apply (same_unknown_trans _ st); [apply HS|done|done]].
  intros x Hx Hin. destruct (k_syms st !! x) as [y|] eqn:E.
  2: { destruct Hx as (y & E' & _). assert (x ∈ dom (k_syms st)) as [z Ez]%elem_of_dom; [|congruence].
       rewrite <- (config_dom _ _ (ev_config _ _ Hev)). apply elem_of_dom. eauto. }
  destruct (has SYMBOL_VALID y) eqn:Hy.
  - destruct (Hmk x) as (z & Ez & Hz); [by exists y|done|]. assert (z = y) as -> by congruence. exists y. rewrite Hfr by (by exists y). done.
  - assert (¬ valid st x) as Hnx by (intros (z & Ez & Hz); congruence). destruct (Hnew x Hx Hnx) as (z & Ez & Hz). exists z. split; [done|].
    intros Hk. rewrite (Hz Hk), bool_decide_true, andb_true_r; [done|]. intros HxW. rewrite Forall_forall in HW. by apply Hnx, HW.
Qed.

Lemma kinv_same W st st' : kinv W st →
  k_syms st' = k_syms st → k_hash st' = k_hash st → k_modules_sym st' = k_modules_sym st → k_modules_val st' = k_modules_val st → kinv W st'.
Proof using.
  intros HK E1 E2 E3 E4. destruct st, st'. simpl in *. subst. destruct HK as [[S1 S2 S3 S4 S5 S6] Hm HW Hmk Hun].
  constructor; [constructor|..]; assumption.
Qed.

(** A change of a record that shows neither in its configuration nor in its value. *)
Definition same_value (y y' : sym) : Prop :=
  config_of y' = config_of y ∧ has SYMBOL_VALID y' = has SYMBOL_VALID y ∧ y_curr y' = y_curr y ∧
  y_visible y' = y_visible y ∧ y_rev_tri y' = y_rev_tri y.
Lemma started_put st s y y' : started stb rank st → k_syms st !! s = Some y → s ∈ concat (k_hash stb) → same_value y y' →
  started stb rank (with_sym st s y').
Proof using.
  intros HS E Hin (Hc & Hv & Hcu & Hvi & Hre). destruct HS as [S1 S2 S3 S4 S5 S6]. constructor; try done.
  - rewrite <- S1. unfold config. simpl. rewrite fmap_insert. apply insert_id. rewrite lookup_fmap, E. simpl. by rewrite Hc.
  - intros x Hx. simpl. rewrite lookup_insert_ne by (intros ->; done). auto.
  - intros x (z & Ez & Hz). simpl in Ez. destruct (decide (x = s)) as [->|Hx].
    + rewrite lookup_insert_eq in Ez. injection Ez as <-. destruct (S6 s) as (w & Ew & Hi & Hst & Hvr); [exists y; split; [done|congruence]|].
      assert (w = y) as -> by congruence. destruct (same_fields _ _ Hc) as (Hnm & Ht & _ & _ & _ & Hco & _).
      exists y'. simpl. rewrite lookup_insert_eq. split; [done|]. unfold info in *. rewrite Hnm, Ht, Hco, Hcu. split; [done|]. split; [done|].
      rewrite Hvi, Hre. by rewrite (same_vis _ _ _ _ Hc), (same_rev _ _ _ _ Hc).
    + rewrite lookup_insert_ne in Ez by done. destruct (S6 x) as (w & Ew & Hw); [by exists z|]. exists w. simpl. by rewrite lookup_insert_ne.
Qed.
Lemma kinv_write W s st y : kinv W st → k_syms st !! s = Some y → known (y_type y) = true → has SYMBOL_VALID y = true → s ∈ concat (k_hash stb) →
  kinv (W ++ [s]) (with_sym st s (del_flags SYMBOL_WRITE y)).
Proof using.
  clear HC HL Hn. intros [HS Hm HW Hmk Hun] E Hkn Hv Hin. set (y' := del_flags SYMBOL_WRITE y).
  assert (same_value y y') as HV by (split; [apply mild_del_write|]; split; [unfold y'; has_flags; apply andb_true_r|done]).
  assert (∀ x, valid st x → valid (with_sym st s y') x) as Hval.
  { intros x (z & Ez & Hz). destruct (decide (x = s)) as [->|Hx].
    - exists y'. simpl. rewrite lookup_insert_eq. split; [done|]. by rewrite (proj1 (proj2 HV)).
    - exists z. simpl. by rewrite lookup_insert_ne. }
  constructor.
  - by eapply started_put.
  - auto.
  - apply Forall_app. split; [by eapply Forall_impl|]. apply Forall_singleton, Hval. by exists y.
  - intros x (z & Ez & Hz) Hx. simpl in Ez. destruct (decide (x = s)) as [->|Hne].
    + exists y'. simpl. rewrite lookup_insert_eq. split; [done|]. intros _. unfold y'. rewrite del_write.
      rewrite bool_decide_false, andb_false_r; [done|]. set_solver.
    + rewrite lookup_insert_ne in Ez by done. destruct (Hmk x) as (w & Ew & Hw); [by exists z|done|]. exists w. simpl. rewrite lookup_insert_ne by done.
      split; [done|]. intros Hk. rewrite (Hw Hk). f_equal. apply bool_decide_ext. set_solver.
  - apply (same_unknown_trans _ st); [apply HS|done|]. eapply same_unknown_put; [done|done|by left].
Qed.

Lemma kinv_value W st x : kinv W st → valid st x → settled stb rank st x.
Proof using. intros HK. apply HK. Qed.

(** Conditions of prompts. *)
Lemma kinv_expr W e : ∀ st Q, kinv W st → (∀ d, d ∈ expr_syms e → d ∈ dom (k_syms stb)) →
  (∀ st', kinv W st' → Q (calc_value V e) st') → wp (calc_expr (sym_calc_value n) e) Q st.
Proof using HC HL Hn.
  assert (∀ st a b (g : bool → tristate) Q, kinv W st → a ∈ dom (k_syms stb) → b ∈ dom (k_syms stb) →
    (∀ st', kinv W st' → Q (g (bool_decide (KExpr.sym_get_string_value V a = KExpr.sym_get_string_value V b))) st') →
    wp (sym_calc_value n a;;; sym_calc_value n b;;; v1 <- sym_get_string_value a;; v2 <- sym_get_string_value b;;
        str1 <- lift (chars v1);; str2 <- lift (chars v2);; ret (g (bool_decide (str1 = str2)))) Q st) as Hcmp.
  { intros st a b g Q HK Ha Hb HQ. apply wp_bind. eapply kinv_calc; [done..|]. intros st1 HK1 V1 _.
    apply wp_bind. eapply kinv_calc; [done..|]. intros st2 HK2 V2 F2.
    assert (valid st2 a) as V1' by (destruct V1 as (z & Ez & Hz); exists z; rewrite F2 by (by exists z); done).
    destruct V1' as (ya & Ea & Hya) eqn:Hx. destruct (settled_string _ _ _ _ _ (kinv_value _ _ _ HK2 V1') Ea) as [aa Haa]. clear Hx.
    destruct V2 as (yb & Eb & Hyb) eqn:Hx. destruct (settled_string _ _ _ _ _ (kinv_value _ _ _ HK2 V2) Eb) as [ab Hab]. clear Hx.
    unfold sym_get_string_value. apply wp_bind, wp_bind. eapply wp_get_sym; [done|]. apply wp_ret, wp_bind, wp_bind.
    eapply wp_get_sym; [done|]. apply wp_ret, wp_bind. eapply wp_lift; [by rewrite Haa|]. apply wp_bind.
    eapply wp_lift; [by rewrite Hab|]. apply wp_ret. by apply HQ. }
  induction e as [a|l IH|a b|a b|l IHl r IHr|l IHl r IHr|vs|a b]; intros st Q HK He HQ; cbn [calc_expr calc_value expr_syms] in *.
  - apply wp_bind. eapply kinv_calc; [done|apply He; set_solver|]. intros st1 HK1 Hv _. pose proof (kinv_value _ _ _ HK1 Hv) as (z & Ez & Hi & _).
    apply wp_bind. eapply wp_get_sym; [done|]. apply wp_ret.
    assert (s_tri (V a) = sym_get_tristate_value z) as Ht by (unfold V, mv; rewrite <- Hi; done). rewrite Ht in HQ. by apply HQ.
  - apply wp_bind. eapply IH; [done..|]. intros st1 HK1. apply wp_ret. by apply HQ.
  - apply (Hcmp st a b (λ t, if t then Tyes else Tno)); [done|apply He; set_solver|apply He; set_solver|done].
  - apply (Hcmp st a b (λ t, if t then Tno else Tyes)); [done|apply He; set_solver|apply He; set_solver|done].
  - apply wp_bind. eapply IHl; [done|intros; apply He; set_solver|]. intros st1 HK1. apply wp_bind.
    eapply IHr; [done|intros; apply He; set_solver|]. intros st2 HK2. by apply wp_ret, HQ.
  - apply wp_bind. eapply IHl; [done|intros; apply He; set_solver|]. intros st1 HK1. apply wp_bind.
    eapply IHr; [done|intros; apply He; set_solver|]. intros st2 HK2. by apply wp_ret, HQ.
  - apply wp_bind, wp_upd, wp_ret, HQ. by eapply kinv_same.
  - apply wp_bind, wp_upd, wp_ret, HQ. by eapply kinv_same.
Qed.

(** ** The line of a symbol *)

Definition entry_of (x : symbol) : entry := Entry x (default "" (s_name (V x)))%string (s_type (V x)) (s_tri (V x)) (s_val (V x)).
Lemma line_of st x y nm : settled stb rank st x → k_syms st !! x = Some y → known (y_type y) = true → y_name y = Some nm →
  ∃ str, printed_value y = Ok str ∧
    symbol_line (y_type y) (sym_name y) (sym_get_tristate_value y) str = entry_line (entry_of x).
Proof using.
  intros (z & Ez & Hi & Hs & _) E Hk Hnm. assert (z = y) as -> by congruence. unfold entry_of. change (info y = V x) in Hi. rewrite <- Hi.
  unfold entry_line, info. simpl. rewrite Hnm. unfold sym_name. rewrite Hnm. unfold printed_value, string_value, sym_get_tristate_value.
  destruct (v_val (y_curr y)) as [|a str|]; [done| |done]. destruct (y_type y); try done; by eexists.
Qed.

(** A symbol whose line can be read. *)
Definition writable (x : symbol) : Prop :=
  x ∈ concat (k_hash stb) ∧ ∃ y nm, k_syms stb !! x = Some y ∧ known (y_type y) = true ∧ y_name y = Some nm ∧ has SYMBOL_CONST y = false ∧
    (saved_of V mv y = true → entry_ok (entry_of x) = true ∧ (String.length (entry_body (entry_of x)) < 1023)%nat).
(** A title that is read as a comment. *)
Definition title (q : property) : string := ("# " +:+ default "(null)" (pr_text q))%string.
Definition menu_ok (r : menu_rec) : Prop :=
  match mn_sym r, mn_prompt r with
  | Some s, _ => writable s
  | None, None => True
  | None, Some (PromptOwn q) =>
      (∀ d, d ∈ opt_syms (pr_vis q) → d ∈ dom (k_syms stb)) ∧ comment (title q) = true ∧ fits (title q)
  | None, Some (PromptOf _ _) => False
  end.

Context (menus : gmap menu menu_rec) (Hmenus : ∀ m r, menus !! m = Some r → menu_ok r).
Context (Hmods : k_modules_sym stb ≠ None).
Context (c0 : conf) (head : list item).

(** The lines of a menu after [items], and those of all menus: a symbol has one
    line, with the first of its menus. *)
Definition menu_items (items : list item) (m : menu) : list item :=
  match menus !! m with
  | None => []
  | Some r =>
      match mn_sym r, mn_prompt r with
      | Some s, _ =>
          match k_syms stb !! s with
          | Some y => if saved_of V mv y && bool_decide (s ∉ en_sym <$> entries items) then [Saved (entry_of s)] else []
          | None => []
          end
      | None, Some (PromptOwn q) =>
          if bool_decide (cond V (pr_vis q) = Tno) then [] else [Comment ""; Comment "#"; Comment (title q); Comment "#"]
      | None, _ => []
      end
  end.
Definition file_items (head : list item) (l : list menu) : list item :=
  foldl (λ items m, items ++ menu_items items m) head l.

(** The lines after the menus [l]. *)
Record saved_lines (l : list menu) (items : list item) : Prop := {
  sl_ok : Forall (λ i, item_ok i = true) items;
  sl_fits : Forall fits (item_body <$> items);
  sl_nodup : NoDup (en_sym <$> entries items);
  sl_entry e : e ∈ entries items → e = entry_of (en_sym e) ∧ writable (en_sym e) ∧
    ∃ y, k_syms stb !! en_sym e = Some y ∧ saved_of V mv y = true;
  sl_all m r s y : m ∈ l → menus !! m = Some r → mn_sym r = Some s → k_syms stb !! s = Some y → saved_of V mv y = true →
    s ∈ en_sym <$> entries items }.
Definition only_values (c : conf) : Prop :=
  c = Conf (c_k c) (c_menus c) (c_root c0) (c_defconfig c0) (c_filename c0) (c_lineno c0) (c_warnings c0) (c_unsaved c0) (c_stderr c0) (c_io c0).
Lemma only_values_k st c : only_values c → only_values (set_k st c).
Proof using. unfold only_values. intros H. destruct c. simpl in *. injection H as -> -> -> -> -> -> -> ->. done. Qed.
Record writing (l : list menu) (text : string) (c : conf) : Prop := {
  wg_conf : only_values c;
  wg_shaped : shaped menus c;
  wg_text : text = join (item_body <$> file_items head l);
  wg_lines : saved_lines l (file_items head l);
  wg_inv : kinv (en_sym <$> entries (file_items head l)) (c_k c) }.
Lemma file_items_snoc l m : file_items head (l ++ [m]) = file_items head l ++ menu_items (file_items head l) m.
Proof using. unfold file_items. by rewrite foldl_app. Qed.

Lemma entries_app l1 l2 : entries (l1 ++ l2) = entries l1 ++ entries l2.
Proof using. apply omap_app. Qed.
Lemma lines_more l m items items' : saved_lines l items → Forall (λ i, item_ok i = true) items' → Forall fits (item_body <$> items') →
  entries items' = [] →
  (∀ r s y, menus !! m = Some r → mn_sym r = Some s → k_syms stb !! s = Some y → saved_of V mv y = true → s ∈ en_sym <$> entries items) →
  saved_lines (l ++ [m]) (items ++ items').
Proof using.
  intros [S1 S2 S3 S4 S5] H1 H2 He Hm. assert (entries (items ++ items') = entries items) as Heq by (by rewrite entries_app, He, app_nil_r).
  constructor; rewrite ?Heq; try done.
  - by apply Forall_app.
  - rewrite fmap_app. by apply Forall_app.
  - intros m' r s y [Hin|Hin%list_elem_of_singleton]%elem_of_app; [by eapply S5|subst m'; by eapply Hm].
Qed.

Lemma visit_symbol l text c m r s : writing l text c → menus !! m = Some r → mn_sym r = Some s →
  wp (write_symbol n s) (λ t c', writing (l ++ [m]) (text +:+ t)%string c') c.
Proof using HC HL Hn Hmenus Hmods.
  intros [Hf HSh Ht HSl HK] Em Es. set (items := file_items head l) in *. pose proof (Hmenus _ _ Em) as Hok. unfold menu_ok in Hok. rewrite Es in Hok.
  pose proof Hok as (Htab & yb & nm & Eb & Hk & Hnm & Hco & Hfit).
  assert (∀ st y, started stb rank st → k_syms st !! s = Some y → config_of y = config_of yb) as Hcfg.
  { intros st y HS E. destruct (started_config _ _ _ _ _ HS E) as (z & Ez & Hz). congruence. }
  assert (s ∈ dom (k_syms stb)) as Hdom by (apply elem_of_dom; eauto).
  assert (s ∈ dom (k_syms (c_k c))) as [y0 E0]%elem_of_dom by (rewrite (config_dom stb (c_k c)) by apply HK; done).
  unfold write_symbol. apply wp_bind, wp_onk. eapply wp_get_sym; [done|].
  assert (has SYMBOL_CHOICE y0 = false) as ->.
  { destruct (same_fields _ _ (Hcfg _ _ (ki_started _ _ HK) E0)) as (_ & _ & _ & _ & _ & _ & Hch & _).
    destruct (cp_plain _ _ HC s yb Eb) as [Hch' _]. unfold sym_is_choice in *. congruence. }
  apply wp_bind, wp_onk. eapply kinv_calc; [exact HK|done|]. intros st1 HK1 Hv1 _. pose proof Hv1 as (y & E & Hv).
  pose proof (Hcfg _ _ (ki_started _ _ HK1) E) as Hc. destruct (same_fields _ _ Hc) as (Hnm' & Hty & _).
  apply wp_bind, wp_onk. rewrite !set_k_k. eapply wp_get_sym; [done|].
  destruct (ki_marked _ _ HK1 s Hv1 Htab) as (z & Ez & Hw). assert (z = y) as -> by congruence. rewrite Hw by congruence.
  rewrite (same_saved V mv _ _ Hc). destruct (saved_of V mv yb && bool_decide (s ∉ en_sym <$> entries items)) eqn:Hsv; cbn [negb].
  2: { assert (file_items head (l ++ [m]) = items) as Hit.
       { rewrite file_items_snoc. unfold menu_items. fold items. rewrite Em, Es, Eb, Hsv. apply app_nil_r. }
       apply wp_ret. constructor; [by repeat apply only_values_k|done|..]; rewrite Hit; [by rewrite app_nil_str| |done].
       rewrite <- (app_nil_r items). apply lines_more; try done.
       intros r' s' y' Er Es' Ey' Hs'. assert (s' = s) as -> by congruence. assert (y' = yb) as -> by congruence.
       rewrite Hs' in Hsv. apply bool_decide_eq_false in Hsv. by apply dec_stable. }
  assert (file_items head (l ++ [m]) = items ++ [Saved (entry_of s)]) as Hit.
  { rewrite file_items_snoc. unfold menu_items. fold items. by rewrite Em, Es, Eb, Hsv. }
  apply andb_true_iff in Hsv as [Hs Hnew]. apply bool_decide_eq_true in Hnew. destruct (Hfit Hs) as [Hok' Hlen].
  apply wp_bind, wp_onk. rewrite !set_k_k. exists tt. eexists. split; [by apply mod_sym_ok|].
  pose proof (kinv_write _ _ _ _ HK1 E ltac:(congruence) Hv Htab) as HK2. set (W := (en_sym <$> entries items) ++ [s]) in *. set (st2 := with_sym _ _ _) in *.
  apply wp_bind.
  match goal with |- wp _ ?R _ => assert (∀ st3, kinv W st3 → R tt (set_k st3 c)) as Hend end.
  { intros st3 HK3. assert (valid st3 s) as Hv3.
    { pose proof (ki_written _ _ HK3) as HF. rewrite Forall_forall in HF. apply HF. apply elem_of_app. right. by left. }
    pose proof Hv3 as (y3 & E3 & _). pose proof (Hcfg _ _ (ki_started _ _ HK3) E3) as Hc3. destruct (same_fields _ _ Hc3) as (Hn3 & Ht3 & _).
    apply wp_bind, wp_onk. eapply wp_get_sym; [done|].
    destruct (line_of st3 s y3 nm (kinv_value _ _ _ HK3 Hv3) E3) as (str & Hpr & Hline); [congruence..|].
    apply wp_bind. eapply wp_lift; [done|]. apply wp_ret. rewrite Hline. rewrite entry_line_body by done.
    constructor; [by repeat apply only_values_k|done|..]; rewrite Hit; [|clear Ht|by rewrite entries_app, fmap_app].
    { rewrite Ht, fmap_app, join_app. cbn [fmap list_fmap join item_body]. by rewrite app_nil_str. }
    destruct HSl as [S1 S2 S3 S4 S5]. constructor; rewrite ?entries_app, ?fmap_app.
    - apply Forall_app. split; [done|]. by apply Forall_singleton.
    - apply Forall_app. split; [done|]. apply Forall_singleton. split; [by apply entry_body_lacks|done].
    - apply NoDup_app. split; [done|]. split; [|apply NoDup_singleton]. intros x Hx ->%list_elem_of_singleton. done.
    - intros e [He| ->%list_elem_of_singleton]%elem_of_app; [by apply S4|]. split; [done|]. split; [done|]. by exists yb.
    - intros m' r' s' y' [Hin|Hin%list_elem_of_singleton]%elem_of_app Er Es' Ey' Hs'; apply elem_of_app; [left; by eapply S5|right].
      subst m'. assert (s' = s) as -> by congruence. by left. }
  destruct (bool_decide (y_type y = S_TRISTATE)); [|apply wp_ret; by apply (Hend st2)].
  destruct (k_modules_sym stb) as [ms|] eqn:Ems; [|done]. apply wp_bind, wp_onk, wp_get. rewrite !set_k_k.
  assert (k_modules_sym st2 = Some ms) as -> by (rewrite <- Ems; apply HK2).
  apply wp_bind, wp_onk. eapply wp_lift; [done|]. apply wp_bind, wp_onk. rewrite !set_k_k.
  pose proof (ki_modules _ _ HK2 ms Ems) as (ym & Em' & Hvm). destruct n as [|n']; [lia|]. cbn [sym_calc_value].
  apply wp_bind. eapply wp_get_sym; [done|]. rewrite Hvm. apply wp_ret, wp_ret. by apply Hend.
Qed.

(** ** The title of a menu *)

Lemma comments_ok t : comment t = true → fits t →
  Forall (λ i, item_ok i = true) [Comment ""; Comment "#"; Comment t; Comment "#"] ∧
  Forall fits (item_body <$> [Comment ""; Comment "#"; Comment t; Comment "#"]).
Proof using.
  clear HC HL Hn Hmenus Hmods. intros Hc Hf. split; [by repeat constructor|]. simpl.
  assert (fits "") as H0 by (split; [done|simpl; lia]). assert (fits "#") as H1 by (split; [done|simpl; lia]).
  repeat (apply Forall_cons; split; [done|]). done.
Qed.
Lemma shaped_tri m q t c : shaped menus c → mn_prompt <$> c_menus c !! m = Some (Some (PromptOwn q)) →
  wp (set_prompt_tri m (PromptOwn q) t) (λ _ c', shaped menus c' ∧ c_k c' = c_k c ∧ (only_values c → only_values c')) c.
Proof using.
  clear HC HL Hn Hmenus Hmods. intros HS Hp. unfold set_prompt_tri. apply wp_cupd. split; [|split; [done|]].
  - intros m'. rewrite <- (HS m'). simpl. destruct (decide (m' = m)) as [->|Hne]; [|by rewrite lookup_alter_ne].
    rewrite lookup_alter_eq. destruct (c_menus c !! m) as [r|]; [|done]. injection Hp as Hp. simpl. unfold shape. simpl. by rewrite Hp.
  - unfold only_values. intros H. destruct c. simpl in *. injection H as -> -> -> -> -> -> -> ->. done.
Qed.
Lemma shape_prompt r r' q : shape r' = shape r → mn_prompt r = Some (PromptOwn q) →
  ∃ q', mn_prompt r' = Some (PromptOwn q') ∧ pr_vis q' = pr_vis q ∧ pr_text q' = pr_text q.
Proof using.
  intros [= _ _ _ _ Hp] E. rewrite E in Hp. destruct (mn_prompt r') as [[s i|q']|]; try done. simpl in Hp.
  injection Hp as H1 H2 H3 H4 H5. by exists q'.
Qed.

Lemma visit_menu l text c m r fuel : writing l text c → menus !! m = Some r → (0 < fuel)%nat →
  wp (write_menu n fuel m) (λ t c', writing (l ++ [m]) (text +:+ t)%string c') c.
Proof using HC HL Hn Hmenus Hmods.
  intros HW Em Hf. unfold write_menu. apply wp_bind. eapply wp_menu; [apply HW|done|]. intros r1 E1 Hs1.
  destruct (shape_links _ _ Hs1) as (_ & _ & _ & ->). destruct (mn_sym r) as [s|] eqn:Es; [by eapply visit_symbol|].
  pose proof (Hmenus _ _ Em) as Hok. unfold menu_ok in Hok. rewrite Es in Hok.
  destruct HW as [Hf0 HSh Ht HSl HK]. set (items := file_items head l) in *.
  assert (∀ items' c', menu_items items m = items' → only_values c' → shaped menus c' → kinv (en_sym <$> entries items) (c_k c') →
    Forall (λ i, item_ok i = true) items' → Forall fits (item_body <$> items') → entries items' = [] →
    writing (l ++ [m]) (text +:+ join (item_body <$> items'))%string c') as Hend.
  { intros items' c' H0 H1 H2 H3 H4 H5 H6. assert (file_items head (l ++ [m]) = items ++ items') as Hit by (rewrite file_items_snoc; by f_equal).
    constructor; [done|done|..]; rewrite Hit.
    - by rewrite fmap_app, join_app, <- Ht.
    - eapply lines_more; [done..|]. intros r' s y Er Es' _ _. congruence.
    - by rewrite entries_app, H6, app_nil_r. }
  unfold menu_items in Hend. rewrite Em, Es in Hend.
  apply wp_bind. destruct fuel as [|fuel]; [lia|]. cbn [menu_is_visible].
  apply wp_bind. eapply wp_menu; [done..|]. intros r2 E2 Hs2. assert (r2 = r1) as -> by congruence.
  destruct (shape_links _ _ Hs1) as (_ & _ & _ & ->). rewrite Es. destruct (mn_prompt r) as [p|] eqn:Ep.
  2: { assert (mn_prompt r1 = None) as ->. { unfold shape in Hs1. injection Hs1 as _ _ _ _ Hp. rewrite Ep in Hp. by destruct (mn_prompt r1). }
       apply wp_ret, wp_ret. apply (Hend []); done. }
  destruct p as [|q]; [done|]. destruct Hok as (Hd & Hc & Hfit). destruct (shape_prompt _ _ _ Hs1 Ep) as (q1 & Eq1 & Hv1 & Ht1).
  rewrite Eq1. apply wp_bind, wp_bind, wp_ret, wp_bind, wp_onk.
  match goal with |- wp _ ?R _ => assert (∀ st, kinv (en_sym <$> entries items) st → R (cond V (pr_vis q)) st) as Hrest end.
  { intros st HK1. apply wp_bind. eapply wp_mono; [apply shaped_tri; [done|]|].
    { simpl. rewrite E1. simpl. by rewrite Eq1. }
    intros [] c2 (HS2 & Ek2 & Hf2). rewrite set_k_k in Ek2. specialize (Hf2 ltac:(by apply only_values_k)). apply wp_ret.
    rewrite <- Ek2 in HK1. destruct (decide (cond V (pr_vis q) = Tno)) as [Htno|Htno].
    - rewrite bool_decide_false by tauto. rewrite bool_decide_true in Hend by done. apply wp_ret, wp_ret. by apply (Hend []).
    - rewrite bool_decide_true by done. rewrite bool_decide_false in Hend by done.
      apply wp_ret. unfold menu_get_prompt. apply wp_bind, wp_bind. eapply wp_menu; [done..|]. intros r3 _ Hs3.
      destruct (shape_prompt _ _ _ Hs3 Ep) as (q3 & Eq3 & _ & Ht3). rewrite Eq3. apply wp_bind, wp_ret, wp_ret, wp_ret.
      assert (newline +:+ "#" +:+ newline +:+ "# " +:+ default "(null)" (pr_text q3) +:+ newline +:+ "#" +:+ newline =
        join (item_body <$> [Comment ""; Comment "#"; Comment (title q); Comment "#"]))%string as ->.
      { cbn [fmap list_fmap item_body join]. unfold title. rewrite Ht3, !app_assoc_str, app_nil_str. done. }
      destruct (comments_ok _ Hc Hfit). by apply Hend. }
  rewrite Hv1. destruct (pr_vis q) as [e|]; [|by apply wp_ret, Hrest]. by apply (kinv_expr _ _ _ _ HK Hd).
Qed.

(** ** All menus *)

Lemma write_all root r ts fuel text c :
  menus !! root = Some r → mn_next r = None → mn_parent r = None → laid menus root (mn_list r) ts → c_menus c = menus →
  only_values c → text = join (item_body <$> head) → Forall (λ i, item_ok i = true) head → Forall fits (item_body <$> head) →
  entries head = [] → kinv [] (c_k c) → (2 + 2 * length (orders ts) < fuel)%nat →
  wp (write_menus n fuel (mn_list r) text) (λ text' c', writing (orders ts) text' c') c.
Proof using HC HL Hn Hmenus Hmods.
  intros Er Hnx Hp HLd Hms Hf Ht H1 H2 H3 HK Hfu. eapply (walk_root menus n writing); try done.
  - intros l t c' HW. apply HW.
  - intros l t c' m r' fu HW Em Hfu'. by eapply visit_menu.
  - constructor; [done|by intros m; rewrite Hms|..]; change (file_items head []) with head; [done| |by rewrite H3].
    constructor; rewrite ?H3; try done.
    + constructor.
    + by intros e ?%elem_of_nil.
    + by intros m ? ? ? ?%elem_of_nil.
Qed.
End save.
