(* ===== verification/KConfLoad.v ===== *)
(** * Reading a saved configuration (conf_read_simple)

    The values that were saved become the user values, all others are dropped;
    so every symbol has the value that it had. *)

From stdpp Require Import base numbers list option strings gmap.
From S2P Require Import Prelude CString KExpr KSymbol KSymbolEnds KSymbolCheck KSymbolTable KSymbolRef KSymbolCalc KSymbolSet.
From S2P Require Import KConf KConfWrite KConfLine KConfText KConfFixed KConfMenus KConfSave.
Local Open Scope Z_scope.
Local Open Scope c_scope.

(** ** The old values are taken away *)

Record dropped (y y' : sym) : Prop := {
  dr_recast : recast y y';
  dr_valid : has SYMBOL_VALID y' = false;
  dr_user : sym_has_value y' = false }.
Lemma recast_key y y' : recast y y' → key_of y' = key_of y.
Proof. intros []. unfold key_of. congruence. Qed.
Lemma clear_recast y : recast y (clear_def DefUser y) ∧ has SYMBOL_VALID (clear_def DefUser y) = false ∧
  sym_has_value (clear_def DefUser y) = sym_is_choice y.
Proof.
  unfold clear_def. set (y1 := del_flags _ _).
  assert (has SYMBOL_CONST y1 = has SYMBOL_CONST y ∧ sym_is_choice y1 = sym_is_choice y ∧ sym_is_choice_value y1 = sym_is_choice_value y ∧
    has SYMBOL_VALID y1 = false ∧ sym_has_value y1 = false) as (H1 & H2 & H3 & H4 & H5).
  { unfold y1, sym_is_choice, sym_is_choice_value, sym_has_value. simpl def_flag. has_flags.
    by rewrite !orb_false_r, !andb_true_r, !andb_false_r. }
  rewrite H2. set (y2 := if sym_is_choice y then _ else _).
  assert (has SYMBOL_CONST y2 = has SYMBOL_CONST y ∧ sym_is_choice y2 = sym_is_choice y ∧ sym_is_choice_value y2 = sym_is_choice_value y ∧
    has SYMBOL_VALID y2 = false ∧ sym_has_value y2 = sym_is_choice y) as (F1 & F2 & F3 & F4 & F5).
  { unfold y2. destruct (sym_is_choice y) eqn:Hc; [|done]. unfold sym_is_choice, sym_is_choice_value, sym_has_value in *.
    simpl def_flag. has_flags. by rewrite !orb_false_r, H1, H2, H3, H4, H5. }
  assert (y_name y2 = y_name y ∧ y_type y2 = y_type y ∧ y_auto y2 = y_auto y ∧ y_prop y2 = y_prop y ∧ y_rev y2 = y_rev y) as (F6 & F7 & F10 & F8 & F9)
    by (unfold y2; by destruct (sym_is_choice y)).
  split; [|split; [exact F4|exact F5]]. constructor; simpl; [done|done|done|by rewrite F8|done|exact F1|exact F2|exact F3].
Qed.

(** The symbols are cleared in turn; [R] is what is known of a cleared one. *)
Record cleared_to (R : sym → sym → Prop) (l : list symbol) (st st' : kst) : Prop := {
  ct_hash : k_hash st' = k_hash st;
  ct_msym : k_modules_sym st' = k_modules_sym st;
  ct_mval : k_modules_val st' = k_modules_val st;
  ct_in x y : x ∈ l → k_syms st !! x = Some y → ∃ y', k_syms st' !! x = Some y' ∧ R y y';
  ct_out x : x ∉ l → k_syms st' !! x = k_syms st !! x }.
Section clearing.
Context (ok : sym → Prop) (R : sym → sym → Prop).
Context (Hok : ∀ y y', recast y y' → ok y → ok y').
Context (Hstep : ∀ y, ok y → R y (clear_def DefUser y)) (Htrans : ∀ y y1 y2, recast y y1 → R y1 y2 → R y y2).
Lemma clear_values l : ∀ st, Forall (λ x, ∃ y, k_syms st !! x = Some y ∧ y_type y ≠ S_OTHER ∧ ok y) l →
  wp (for_symbols (λ s, mod_sym s (clear_def DefUser)) l) (λ _ st', cleared_to R l st st') st.
Proof using Hok Hstep Htrans.
  induction l as [|s l IH]; intros st Hl; cbn [for_symbols]; [apply wp_ret; constructor; try done; by intros x y ?%elem_of_nil|].
  inversion_clear Hl as [|? ? (y & E & Ht & Hc) Hl']. apply wp_bind. eapply wp_get_sym; [done|]. rewrite bool_decide_false by done.
  apply wp_bind. exists tt. eexists. split; [by apply mod_sym_ok|]. pose proof (Hstep y Hc) as HD.
  pose proof (proj1 (clear_recast y)) as HRc. set (y1 := clear_def DefUser y) in *.
  eapply wp_mono; [apply IH|].
  { eapply Forall_impl; [done|]. intros w (z & Ez & Hz1 & Hz2). simpl. destruct (decide (w = s)) as [->|Hx].
    - exists y1. rewrite lookup_insert_eq. split; [done|]. split; [by rewrite (rc_type _ _ HRc)|by eapply Hok].
    - exists z. by rewrite lookup_insert_ne. }
  intros [] st' [H1 H2 H3 H4 H5]. constructor; [done..| |].
  - intros w z Hx Ez. destruct (decide (w = s)) as [->|Hne].
    + assert (z = y) as -> by congruence. destruct (decide (s ∈ l)) as [Hin|Hnin].
      * destruct (H4 s y1 Hin) as (y' & E' & HD'); [simpl; by rewrite lookup_insert_eq|]. exists y'. split; [done|].
        by eapply Htrans.
      * exists y1. rewrite H5 by done. simpl. by rewrite lookup_insert_eq.
    + apply elem_of_cons in Hx as [?|Hx]; [done|]. apply H4; [done|]. simpl. by rewrite lookup_insert_ne.
  - intros w [Hne Hx]%not_elem_of_cons. rewrite H5 by done. simpl. by rewrite lookup_insert_ne.
Qed.
End clearing.
Lemma clear_dropped y : sym_is_choice y = false → dropped y (clear_def DefUser y).
Proof. intros Hc. destruct (clear_recast y) as (H1 & H2 & H3). constructor; [done|done|congruence]. Qed.
Lemma dropped_trans y y1 y2 : recast y y1 → dropped y1 y2 → dropped y y2.
Proof. intros H []. constructor; [by etransitivity|done..]. Qed.
Lemma clear_plain l st : Forall (λ x, ∃ y, k_syms st !! x = Some y ∧ y_type y ≠ S_OTHER ∧ sym_is_choice y = false) l →
  wp (for_symbols (λ s, mod_sym s (clear_def DefUser)) l) (λ _ st', cleared_to dropped l st st') st.
Proof.
  apply (clear_values (λ y, sym_is_choice y = false)); [|exact clear_dropped|exact dropped_trans].
  intros y y' H Hc. by rewrite (rc_choice _ _ H).
Qed.

Section load.
Context (stb : kst) (rank : symbol → nat) (HC : computable stb rank) (HL : cleared stb) (HA : agrees stb rank).
Context (n : nat) (Hn : (size (k_syms stb) < n)%nat).
Context (tbl : gmap (string * bool) symbol) (Htbl : indexes stb tbl).
Let mv : tristate := k_modules_val stb.
Let V (x : symbol) : syminfo := value_of (k_syms stb) mv (S (rank x)) x.
#[local] Abbreviation entry_of := (KConfSave.entry_of stb rank).

(** ** The lines of the file *)

Context (items : list item).
Context (Hok : Forall (λ i, item_ok i = true) items) (Hfits : Forall fits (item_body <$> items)) (Hnd : NoDup (en_sym <$> entries items)).
Context (Hes : ∀ e, e ∈ entries items → e = entry_of (en_sym e) ∧ writable stb rank (en_sym e)).

Lemma entries_ok e : e ∈ entries items → entry_ok e = true.
Proof using Hok.
  intros He. apply list_elem_of_omap in He as (i & Hi & Heq). destruct i as [|e']; [done|]. injection Heq as ->.
  rewrite Forall_forall in Hok. by apply (Hok _ Hi).
Qed.

(** A state in which the values were dropped. *)
Record blank (st : kst) : Prop := {
  bl_hash : k_hash st = k_hash stb;
  bl_msym : k_modules_sym st = k_modules_sym stb;
  bl_mval : k_modules_val st = mv;
  bl_in x yb : x ∈ concat (k_hash stb) → k_syms stb !! x = Some yb → ∃ y, k_syms st !! x = Some y ∧ dropped yb y;
  bl_out x : x ∉ concat (k_hash stb) → k_syms st !! x = k_syms stb !! x }.
Lemma started_blank st st' : started stb rank st → cleared_to dropped (concat (k_hash stb)) st st' → blank st'.
Proof using.
  intros HS [H1 H2 H3 H4 H5]. constructor.
  - rewrite H1. apply HS.
  - rewrite H2. apply HS.
  - rewrite H3. apply HS.
  - intros x yb Hx Eb. assert (x ∈ dom (k_syms st)) as [y E]%elem_of_dom by (rewrite (config_dom stb st) by apply HS; apply elem_of_dom; eauto).
    destruct (H4 x y Hx E) as (y' & E' & HD). exists y'. split; [done|]. eapply dropped_trans; [|done].
    destruct (started_config _ _ _ _ _ HS E) as (z & Ez & Hz). apply config_recast. congruence.
  - intros x Hx. rewrite H5 by done. by apply (sd_const _ _ _ HS).
Qed.

Lemma writable_found x : writable stb rank x → entry_ok (entry_of x) = true → tbl !! (en_name (entry_of x), false) = Some x.
Proof using HC Htbl.
  clear Hes Hnd Hok Hfits items.
  intros (Htab & yb & nm & Eb & Hk & Hnm & Hco & _) Hok. apply (ix_map _ _ Htbl). apply andb_true_iff in Hok as [[_ Hc]%andb_true_iff _].
  apply bool_decide_eq_true in Hc. split; [done|].
  assert (en_name (entry_of x) = nm) as ->.
  { unfold KConfSave.entry_of, en_name. rewrite (value_of_equation _ _ _ (cp_ranks _ _ HC) _ _ Eb). unfold equation.
    destruct (has SYMBOL_VALID yb); [|destruct (y_type yb)]; simpl; by rewrite Hnm. }
  split; [|by exists yb]. apply list_elem_of_In, in_concat in Htab as (l & Hl%list_elem_of_In & Hx%list_elem_of_In).
  apply list_elem_of_lookup in Hl as [h Eh]. assert (in_chain stb h x) as Hch by by exists l.
  destruct (ix_chain _ _ Htbl h x Hch) as (y & E & Hy). assert (y = yb) as -> by congruence. rewrite Hnm in Hy. by rewrite <- Hy.
Qed.
Lemma blank_awaits st c e : blank st → c_k c = st → e ∈ entries items → ∃ y, awaits c e y.
Proof using HC HL Htbl Hok Hes.
  intros HB <- He. destruct (Hes e He) as [Heq Hw]. pose proof Hw as (Htab & yb & nm & Eb & Hk & Hnm & Hco & _).
  destruct (bl_in _ HB _ _ Htab Eb) as (y & E & [HR _ Hu]). exists y. constructor; [|done|..].
  - exists tbl. split.
    + apply (indexes_same stb); [done|apply HB|]. intros x. destruct (decide (x ∈ concat (k_hash stb))) as [Hx|Hx].
      * destruct (k_syms stb !! x) as [z|] eqn:Ez.
        -- destruct (bl_in _ HB x z Hx Ez) as (z' & -> & [HR' _ _]). simpl. by rewrite (recast_key _ _ HR').
        -- exfalso. destruct (cl_type _ HL x Hx) as (z & Ez' & _). congruence.
      * by rewrite (bl_out _ HB).
    + rewrite Heq at 1. apply writable_found; [done|]. rewrite <- Heq. by apply entries_ok.
  - rewrite (rc_type _ _ HR), Heq. unfold KConfSave.entry_of, en_type. rewrite (value_of_equation _ _ _ (cp_ranks _ _ HC) _ _ Eb).
    unfold equation. destruct (has SYMBOL_VALID yb); [done|]. by destruct (y_type yb).
  - done.
  - rewrite (rc_choiceval _ _ HR). by apply (cp_plain _ _ HC (en_sym e)).
Qed.

(** ** The symbols after reading *)

Record restored (st : kst) : Prop := {
  rd_hash : k_hash st = k_hash stb;
  rd_msym : k_modules_sym st = k_modules_sym stb;
  rd_mval : k_modules_val st = mv;
  rd_in x yb : x ∈ concat (k_hash stb) → k_syms stb !! x = Some yb → ∃ y, k_syms st !! x = Some y ∧ recast yb y ∧
    has SYMBOL_VALID y = false ∧
    ((∃ e, e ∈ entries items ∧ en_sym e = x ∧ sym_has_value y = true ∧ saved e (y_def y)) ∨
     (x ∉ en_sym <$> entries items ∧ sym_has_value y = false));
  rd_out x : x ∉ concat (k_hash stb) → k_syms st !! x = k_syms stb !! x }.
Lemma takes_recast e y y' : takes e y y' → recast y y' ∧ has SYMBOL_VALID y' = has SYMBOL_VALID y ∧ sym_has_value y' = true ∧ saved e (y_def y').
Proof using.
  intros (v & -> & Hs). split; [constructor; try done|split; [|split; [|exact Hs]]];
    unfold sym_is_choice, sym_is_choice_value, sym_has_value.
  - change (has SYMBOL_CONST (add_flags SYMBOL_DEF_USER y) = has SYMBOL_CONST y). has_flags. apply orb_false_r.
  - change (has SYMBOL_CHOICE (add_flags SYMBOL_DEF_USER y) = has SYMBOL_CHOICE y). has_flags. apply orb_false_r.
  - change (has SYMBOL_CHOICEVAL (add_flags SYMBOL_DEF_USER y) = has SYMBOL_CHOICEVAL y). has_flags. apply orb_false_r.
  - change (has SYMBOL_VALID (add_flags SYMBOL_DEF_USER y) = has SYMBOL_VALID y). has_flags. apply orb_false_r.
  - change (has SYMBOL_DEF_USER (add_flags SYMBOL_DEF_USER y) = true). has_flags. apply orb_true_r.
Qed.
Lemma reads_restored c c' : blank (c_k c) → reads_to c c' (entries items) → restored (c_k c').
Proof using Hes.
  intros HB [R1 R2 R3 R4 R5 R6 R7]. constructor.
  - rewrite R2. apply HB.
  - rewrite R3. apply HB.
  - rewrite R4. apply HB.
  - intros x yb Hx Eb. destruct (bl_in _ HB x yb Hx Eb) as (y & E & [HR Hv Hu]).
    destruct (decide (x ∈ en_sym <$> entries items)) as [Hin|Hnin].
    + apply list_elem_of_fmap in Hin as (e & -> & He). destruct (R6 e He) as (z & y' & Ez & E' & HT).
      assert (z = y) as -> by congruence. destruct (takes_recast _ _ _ HT) as (HR' & Hv' & Hu' & Hs). exists y'. split; [done|].
      split; [by etransitivity|]. split; [congruence|]. left. by exists e.
    + exists y. rewrite R7 by done. split; [done|]. split; [done|]. split; [done|]. by right.
  - intros x Hx. rewrite R7; [by apply HB|]. intros (e & -> & He)%list_elem_of_fmap. destruct (Hes e He) as (_ & Ht & _). done.
Qed.

(** ** The values after reading *)

Context (Hstay : ∀ e yb, e ∈ entries items → k_syms stb !! en_sym e = Some yb → ranged V yb (s_val (V (en_sym e))) = s_val (V (en_sym e))).
Context (Hcover : ∀ x yb, x ∈ concat (k_hash stb) → k_syms stb !! x = Some yb → known (y_type yb) = true →
  x ∉ en_sym <$> entries items → vis_of V mv yb = Tno ∨ sym_has_value yb = false).

Lemma not_valid x yb : x ∈ concat (k_hash stb) → k_syms stb !! x = Some yb → has SYMBOL_VALID yb = false.
Proof using HL.
  intros Hx Eb. apply not_true_iff_false. intros Hv. apply (cl_valid _ HL x); [apply elem_of_dom; eauto|by exists yb|done].
Qed.
Lemma value_fields x yb : k_syms stb !! x = Some yb → s_type (V x) = y_type yb ∧ s_name (V x) = y_name yb.
Proof using HC.
  intros Eb. unfold V. rewrite (value_of_equation _ _ _ (cp_ranks _ _ HC) _ _ Eb). unfold equation.
  destruct (has SYMBOL_VALID yb); [done|]. by destruct (y_type yb).
Qed.
Lemma saved_entry e yb v : e ∈ entries items → k_syms stb !! en_sym e = Some yb → saved e v →
  if is_bool_type (y_type yb) then v_tri v = s_tri (V (en_sym e)) else ∃ a, v_val v = VStr a (s_val (V (en_sym e))).
Proof using HC Hes.
  intros He Eb Hs. destruct (Hes e He) as [Heq _]. rewrite <- (proj1 (value_fields _ _ Eb)).
  change (s_type (V (en_sym e))) with (en_type (entry_of (en_sym e))). change (s_tri (V (en_sym e))) with (en_tri (entry_of (en_sym e))).
  change (s_val (V (en_sym e))) with (en_str (entry_of (en_sym e))). rewrite <- Heq. exact Hs.
Qed.
Lemma restored_resaved st : restored st → ∀ x, option_relation (resaved (k_syms stb) mv rank x) (λ _, False) (λ _, False) (k_syms stb !! x) (k_syms st !! x).
Proof using HC HL Hes Hstay Hcover.
  intros HR x. destruct (decide (x ∈ concat (k_hash stb))) as [Hx|Hx].
  - destruct (cl_type _ HL x Hx) as (yb & Eb & _). rewrite Eb. destruct (rd_in _ HR x yb Hx Eb) as (y & -> & HRc & Hv & Hcase). simpl.
    pose proof (not_valid x yb Hx Eb) as Hvb. constructor; [done|congruence|congruence|]. intros _ Hk.
    destruct Hcase as [(e & He & Hex & Hu & Hs)|[Hnin Hu]].
    + left. split; [done|]. subst x. pose proof (saved_entry e yb _ He Eb Hs) as Hs'.
      change (if is_bool_type (y_type y) then v_tri (y_def y) = s_tri (V (en_sym e))
        else val_string (v_val (y_def y)) = s_val (V (en_sym e)) ∧ ranged V y (s_val (V (en_sym e))) = s_val (V (en_sym e))).
      rewrite (rc_type _ _ HRc). destruct (is_bool_type (y_type yb)); [done|].
      destruct Hs' as [a ->]. split; [done|]. rewrite (recast_ranged V yb y HRc). by apply Hstay.
    + right. destruct (Hcover x yb Hx Eb Hk Hnin) as [H|H]; [by left|by right].
  - rewrite (rd_out _ HR x Hx). destruct (k_syms stb !! x) as [yb|] eqn:Eb; [|done]. simpl. constructor; [done|done|done|].
    intros Hv _. exfalso. assert (valid stb x) as (z & Ez & Hz); [|congruence]. apply (cl_valid _ HL); [apply elem_of_dom; eauto|done].
Qed.
Lemma restored_values st x : restored st → value_of (k_syms st) mv (S (rank x)) x = V x.
Proof using HC HL Hes Hstay Hcover.
  intros HR. apply (resaved_values (k_syms stb) (k_syms st) mv rank (cp_ranks _ _ HC)). by apply restored_resaved.
Qed.
Lemma restored_dom st : restored st → dom (k_syms st) = dom (k_syms stb).
Proof using HC HL Hes Hstay Hcover.
  intros HR. apply set_eq. intros x. rewrite !elem_of_dom. pose proof (restored_resaved st HR x) as Hx.
  destruct (k_syms stb !! x), (k_syms st !! x); simpl in Hx; try done; by split; eauto.
Qed.
Lemma restored_cleared st : restored st → cleared st.
Proof using HC HL Hes Hstay Hcover.
  intros HR. constructor; rewrite (rd_hash _ HR).
  - intros x Hx. rewrite (restored_dom _ HR) in Hx. rewrite <- (cl_valid _ HL x Hx). apply elem_of_dom in Hx as [yb Eb].
    pose proof (restored_resaved st HR x) as Hr. rewrite Eb in Hr. destruct (k_syms st !! x) as [y|] eqn:E; [|done].
    destruct Hr as [_ Hv _ _]. split; intros (z & Ez & Hz); eexists; (split; [done|]); congruence.
  - intros x Hx. destruct (cl_type _ HL x Hx) as (yb & Eb & Ht). destruct (rd_in _ HR x yb Hx Eb) as (y & E & HRc & _).
    exists y. split; [done|]. by rewrite (rc_type _ _ HRc).
Qed.
Lemma restored_agrees st : restored st → agrees st rank.
Proof using HC HL HA Hes Hstay Hcover.
  intros HR m Em. rewrite (rd_msym _ HR) in Em. destruct (HA m Em) as [Hd Ht].
  rewrite (restored_dom _ HR), (rd_mval _ HR). split; [done|]. by rewrite restored_values.
Qed.
Lemma restored_computable st : restored st → computable st rank.
Proof using HC HL Hes Hstay Hcover.
  intros HR. pose proof (restored_resaved st HR) as Hrs.
  assert (∀ x y, k_syms st !! x = Some y → ∃ yb, k_syms stb !! x = Some yb ∧ resaved (k_syms stb) mv rank x yb y) as Hback.
  { intros x y E. specialize (Hrs x). rewrite E in Hrs. destruct (k_syms stb !! x) as [yb|]; [|done]. eauto. }
  assert (∀ x v, (∃ y, k_syms stb !! x = Some y ∧ has SYMBOL_VALID y = true ∧ y_curr y = v) →
    ∃ y, k_syms st !! x = Some y ∧ has SYMBOL_VALID y = true ∧ y_curr y = v) as Hconst.
  { intros x v (yb & Eb & Hv & Hy). specialize (Hrs x). rewrite Eb in Hrs. destruct (k_syms st !! x) as [y|]; [|done].
    destruct Hrs as [_ Hvy Hcu _]. exists y. split; [done|]. rewrite Hvy, Hcu; done. }
  constructor; [..|by apply Hconst, HC|by apply Hconst, HC].
  - eapply resaved_ranks; [apply HC|exact Hrs].
  - intros x y E. destruct (Hback x y E) as (yb & Eb & [HRc _ _ _]). rewrite (rc_choice _ _ HRc), (rc_choiceval _ _ HRc).
    by apply (cp_plain _ _ HC x).
  - intros x y E Hv. destruct (Hback x y E) as (yb & Eb & [_ Hvy Hcu _]). rewrite Hcu by congruence. apply (cp_valid _ _ HC x); congruence.
  - intros x y E Hv. destruct (Hback x y E) as (yb & Eb & [HRc Hvy _ _]). pose proof (cp_sym _ _ HC x yb Eb ltac:(congruence)) as Hw.
    unfold wf_sym in *. rewrite (rc_type _ _ HRc), (rc_name _ _ HRc).
    assert (sym_has_value y = true → is_bool_type (y_type y) = false → is_str (v_val (y_def y)) = true) as Hstr.
    { intros Hu Hb. destruct (decide (x ∈ concat (k_hash stb))) as [Hx|Hx].
      - destruct (rd_in _ HR x yb Hx Eb) as (y' & E' & _ & _ & Hcase). assert (y' = y) as -> by congruence.
        destruct Hcase as [(e & He & Hex & _ & Hs)|[_ Hu']]; [|congruence]. subst x.
        pose proof (saved_entry e yb _ He Eb Hs) as Hs'. rewrite <- (rc_type _ _ HRc), Hb in Hs'. by destruct Hs' as [a ->].
      - exfalso. rewrite (rd_out _ HR x Hx) in E. assert (y = yb) as -> by congruence.
        assert (valid stb x) as (z & Ez & Hz); [|congruence]. apply (cl_valid _ HL); [apply elem_of_dom; eauto|done]. }
    rewrite (rc_type _ _ HRc) in Hstr. destruct (y_type yb) eqn:Ety; try done; apply andb_true_iff in Hw as [_ Hw]; apply andb_true_iff;
      (split; [|by eapply recast_wf]); destruct (sym_has_value y); try done; simpl; by apply Hstr.
Qed.

(** ** conf_read_simple from the label load on *)

Lemma load_config_ok c name junk : started stb rank (c_k c) →
  wp (load_config n DefUser name (join (item_body <$> items)) junk) (λ _ c', ∃ st,
    restored st ∧ started st rank (c_k c') ∧ (∀ m, k_modules_sym st = Some m → valid (c_k c') m) ∧
    c_warnings c' = 0 ∧ c_unsaved c' = 0 ∧ c_stderr c' = c_stderr c ∧ c_io c' = c_io c) c.
Proof using HC HL HA Hn Htbl Hok Hfits Hnd Hes Hstay Hcover.
  intros HS. unfold load_config. apply wp_bind, wp_cupd, wp_bind, wp_onk. unfold for_all_symbols. apply wp_bind, wp_get.
  assert (∀ x, x ∈ concat (k_hash stb) → ∃ y, k_syms (c_k c) !! x = Some y ∧ y_type y ≠ S_OTHER ∧ sym_is_choice y = false) as Hall.
  { intros x Hx. destruct (cl_type _ HL x Hx) as (yb & Eb & Ht).
    assert (x ∈ dom (k_syms (c_k c))) as [y E]%elem_of_dom by (rewrite (config_dom stb (c_k c)) by apply HS; apply elem_of_dom; eauto).
    exists y. split; [done|]. destruct (started_config _ _ _ _ _ HS E) as (z & Ez & Hz). assert (z = yb) as -> by congruence.
    destruct (same_fields _ _ Hz) as (_ & -> & _ & _ & _ & _ & -> & _). split; [done|]. by apply (cp_plain _ _ HC x). }
  simpl c_k. rewrite (sd_hash _ _ _ HS). eapply wp_mono; [apply clear_plain, Forall_forall, Hall|].
  intros [] st1 H1. pose proof (started_blank _ _ HS H1) as HB. set (c1 := set_k st1 _).
  destruct (read_items items c1 junk Hok Hnd) as (c2 & E & HR).
  { apply Forall_forall. intros e He. by apply (blank_awaits st1). }
  apply wp_bind. exists tt, c2. split; [by rewrite lines_of_join, <- list_fmap_compose|].
  pose proof (reads_restored c1 c2 HB HR) as HRd. fold (start n).
  assert (c_warnings c2 = 0 ∧ c_unsaved c2 = 0 ∧ c_stderr c2 = c_stderr c ∧ c_io c2 = c_io c) as (F1 & F2 & F3 & F4).
  { rewrite (rt_conf _ _ _ HR). done. }
  apply wp_onk. eapply wp_mono; [apply (start_ok (c_k c2) rank)|].
  - by apply restored_computable.
  - by apply restored_cleared.
  - by apply restored_agrees.
  - eapply Nat.le_lt_trans; [apply invalid_size|]. by rewrite <- size_dom, (restored_dom _ HRd), size_dom.
  - intros [] st3 (H3 & H4 & _). exists (c_k c2). split; [done|]. split; [done|]. split; [|done]. intros m Hm. apply H4.
    by rewrite (sd_msym _ _ _ H3).
Qed.

(** The symbols then have the values they had. *)
Lemma restored_calc st st' l : restored st → started st rank st' → (∀ m, k_modules_sym st = Some m → valid st' m) →
  Forall (.∈ dom (k_syms stb)) l →
  wp (calc_list n l) (λ _ st'', ∀ x, x ∈ l → ∃ y, k_syms st'' !! x = Some y ∧ info y = V x) st'.
Proof using HC HL HA Hn Hes Hstay Hcover.
  intros HR HS Hm Hl. pose proof (restored_computable _ HR) as HC2. pose proof (restored_cleared _ HR) as HL2.
  pose proof (started_computable st rank HC2 HL2 st' HS) as HC3.
  set (r := S (max_list (rank <$> elements (dom (k_syms stb))))).
  assert (∀ x, x ∈ dom (k_syms stb) → (rank x < r)%nat) as Hr.
  { intros x Hx. apply Nat.lt_succ_r, max_list_elem_of_le, list_elem_of_fmap. exists x. split; [done|]. by apply elem_of_elements. }
  assert (dom (k_syms st') = dom (k_syms stb)) as Hdom by (rewrite (config_dom st st') by apply HS; by apply restored_dom).
  eapply wp_mono; [apply (calc_list_settled st' rank HC3 n r l st')|].
  - eapply Forall_impl; [done|]. intros d Hd. rewrite Hdom. split; [done|]. split; [|by apply Hr].
    intros m Em. left. apply Hm. by rewrite <- (sd_msym _ _ _ HS).
  - by apply start_inv.
  - eapply Nat.le_lt_trans; [apply invalid_size|]. by rewrite <- size_dom, Hdom, size_dom.
  - intros [] st'' (HI & _ & Hv) x Hx. rewrite Forall_forall in Hv. rewrite Forall_forall in Hl.
    destruct (iv_settled _ _ _ _ HI x) as (y & E & Hi & _); [by apply Hr, Hl|by apply Hv|]. exists y. split; [done|].
    rewrite Hi, (sd_mval _ _ _ HS), (started_values st rank HC2 HL2 st' HS), (rd_mval _ HR). by apply restored_values.
Qed.
End load.
