(* ===== verification/KConfAny.v ===== *)
(** * Reading any file (conf_read_simple)

    Whatever the file contains, the lines are read without a fault; only user
    values change, and those of numbers and strings are valid. *)

From stdpp Require Import base numbers list option strings gmap.
From Stdlib Require Import Ascii.
From S2P Require Import Prelude CString KExpr KSymbol KSymbolEnds KSymbolCheck KSymbolTable KSymbolRef KSymbolCalc KSymbolSet.
From S2P Require Import KConf KConfWrite KConfLine KConfText KConfFixed KConfMenus KConfSave KConfLoad.
Local Open Scope Z_scope.
Local Open Scope c_scope.

(** A user value of a number or a string is one. *)
Definition user_ok (y : sym) : Prop := sym_has_value y = true → known_string (y_type y) = true →
  ∃ a s, v_val (y_def y) = VStr a s ∧ string_valid (y_type y) s = true.

(** Only user values are changed. *)
Record revalued (y y' : sym) : Prop := {
  rv_recast : recast y y';
  rv_valid : has SYMBOL_VALID y' = has SYMBOL_VALID y;
  rv_curr : y_curr y' = y_curr y;
  rv_user : user_ok y → user_ok y' }.
#[export] Instance revalued_preorder : PreOrder revalued.
Proof.
  split; [by intros y; constructor|]. intros y1 y2 y3 [] []. constructor; [by etransitivity|congruence|congruence|auto].
Qed.
Record tame (st st' : kst) : Prop := {
  tm_hash : k_hash st' = k_hash st;
  tm_msym : k_modules_sym st' = k_modules_sym st;
  tm_mval : k_modules_val st' = k_modules_val st;
  tm_syms x : option_relation revalued (λ _, False) (λ _, False) (k_syms st !! x) (k_syms st' !! x) }.
#[export] Instance tame_preorder : PreOrder tame.
Proof.
  split; [intros st; constructor; try done; intros x; by destruct (k_syms st !! x)|].
  intros s1 s2 s3 [] []. constructor; [congruence..|]. intros x. specialize (tm_syms0 x). specialize (tm_syms1 x).
  destruct (k_syms s1 !! x), (k_syms s2 !! x), (k_syms s3 !! x); simpl in *; try done. by etransitivity.
Qed.
Lemma tame_put st st' x y y' : k_syms st !! x = Some y → revalued y y' → k_syms st' = <[x := y']> (k_syms st) →
  k_hash st' = k_hash st → k_modules_sym st' = k_modules_sym st → k_modules_val st' = k_modules_val st → tame st st'.
Proof.
  intros E HR Es Eh Em Ev. constructor; [done..|]. intros z. rewrite Es. destruct (decide (z = x)) as [->|Hz].
  - by rewrite lookup_insert_eq, E.
  - rewrite lookup_insert_ne by done. by destruct (k_syms st !! z).
Qed.

Section any.
Context (tbl : gmap (string * bool) symbol).

(** The choice that a symbol is a value of. *)
Definition choice_of (y : sym) : option symbol := match pr_expr <$> choice_prop y with Some (Some (ESymbol cs)) => Some cs | _ => None end.
(** The table can be searched, what is found exists, and the values of choices
    have a choice, which is not a number or a string. *)
Record searchable (st : kst) : Prop := {
  se_index : indexes st tbl;
  se_const n s : const_name n = Some s → s ∈ dom (k_syms st);
  se_type x y : k_syms st !! x = Some y → y_type y ≠ S_OTHER;
  se_choice x y : k_syms st !! x = Some y → sym_is_choice_value y = true →
    ∃ cs yc, choice_of y = Some cs ∧ k_syms st !! cs = Some yc ∧ known_string (y_type yc) = false }.
Lemma tame_dom st st' : tame st st' → dom (k_syms st') = dom (k_syms st).
Proof using.
  intros HT. apply set_eq. intros x. rewrite !elem_of_dom. pose proof (tm_syms _ _ HT x) as H.
  destruct (k_syms st !! x), (k_syms st' !! x); simpl in H; try done; by split; eauto.
Qed.
Lemma tame_at st st' x y : tame st st' → k_syms st !! x = Some y → ∃ y', k_syms st' !! x = Some y' ∧ revalued y y'.
Proof using.
  intros HT E. pose proof (tm_syms _ _ HT x) as H. rewrite E in H. destruct (k_syms st' !! x) as [y'|]; [by exists y'|done].
Qed.
Lemma tame_back st st' x y' : tame st st' → k_syms st' !! x = Some y' → ∃ y, k_syms st !! x = Some y ∧ revalued y y'.
Proof using.
  intros HT E. pose proof (tm_syms _ _ HT x) as H. rewrite E in H. destruct (k_syms st !! x) as [y|]; [by exists y|done].
Qed.
Lemma choice_of_recast y y' : recast y y' → choice_of y' = choice_of y.
Proof using.
  intros [_ _ _ H _ _ _ _]. unfold choice_of.
  assert (pr_expr <$> choice_prop y' = pr_expr <$> choice_prop y) as ->; [|done]. unfold choice_prop. revert H. generalize (y_prop y) (y_prop y'). intros l l'. revert l.
  induction l' as [|p' l' IH]; intros [|p l] H; try done. cbn.
  assert (erase_prop p' = erase_prop p ∧ erase_prop <$> l' = erase_prop <$> l) as [Hp Hl] by by (split; [apply (inj Some); exact (f_equal head H)|exact (f_equal tail H)]).
  assert (pr_type p' = pr_type p) as Ht by exact (f_equal pr_type Hp). assert (pr_expr p' = pr_expr p) as He by exact (f_equal pr_expr Hp).
  rewrite Ht. destruct (decide (pr_type p = P_CHOICE)); [by f_equal/=|]. specialize (IH l Hl).
  destruct (list_find _ l') as [[]|], (list_find _ l) as [[]|]; simpl in *; congruence.
Qed.
Lemma searchable_tame st st' : searchable st → tame st st' → searchable st'.
Proof using.
  intros [HI Hc Hty Hp] HT. constructor.
  - apply (indexes_same st); [done|apply HT|]. intros x. pose proof (tm_syms _ _ HT x) as H.
    destruct (k_syms st !! x), (k_syms st' !! x); simpl in H; try done. simpl. by rewrite (recast_key _ _ (rv_recast _ _ H)).
  - intros n s Hn. rewrite (tame_dom _ _ HT). eauto.
  - intros x y' E'. destruct (tame_back _ _ _ _ HT E') as (y & E & H). rewrite (rc_type _ _ (rv_recast _ _ H)). eauto.
  - intros x y' E'. destruct (tame_back _ _ _ _ HT E') as (y & E & H). rewrite (rc_choiceval _ _ (rv_recast _ _ H)). intros Hcv.
    destruct (Hp x y E Hcv) as (cs & yc & Hcs & Ec & Ht). destruct (tame_at _ _ _ _ HT Ec) as (yc' & Ec' & H').
    exists cs, yc'. rewrite (choice_of_recast _ _ (rv_recast _ _ H)), (rc_type _ _ (rv_recast _ _ H')). done.
Qed.

(** Programs that do not fail and only change user values and count warnings. *)
Record calm (c c' : conf) : Prop := {
  cm_tame : tame (c_k c) (c_k c');
  cm_io : c_io c' = c_io c;
  cm_warnings : c_warnings c ≤ c_warnings c' }.
#[export] Instance calm_preorder : PreOrder calm.
Proof using.
  split; [intros c; constructor; done|]. intros c1 c2 c3 [] []. constructor; [by etransitivity|congruence|lia].
Qed.
Definition does {A} (m : C A) (P : A → Prop) (c : conf) : Prop := wp m (λ a c', calm c c' ∧ P a) c.
Lemma does_ret {A} (a : A) P c : P a → does (ret a) P c.
Proof using. intros H. apply wp_ret. by split. Qed.
Lemma does_bind {A B} (m : C A) (k : A → C B) P R c : does m P c → (∀ a c', calm c c' → P a → does (k a) R c') → does (bind m k) R c.
Proof using.
  intros Hm Hk. apply wp_bind. eapply wp_mono; [exact Hm|]. intros a c' [H1 H2]. eapply wp_mono; [by apply Hk|].
  intros b c'' [H3 H4]. split; [by etransitivity|done].
Qed.
Lemma does_warning msg c : does (conf_warning msg) (λ _, True) c.
Proof using. apply wp_cupd. split; [|done]. constructor; [reflexivity|done|simpl; lia]. Qed.
Lemma does_with_sym {B} x y (k : sym → C B) R c : k_syms (c_k c) !! x = Some y → does (k y) R c → does (bind (onk (get_sym x)) k) R c.
Proof using.
  intros E H. apply wp_bind, wp_onk. eapply wp_get_sym; [done|]. assert (set_k (c_k c) c = c) as -> by by destruct c. done.
Qed.
Lemma does_mod_sym x y f c : k_syms (c_k c) !! x = Some y → revalued y (f y) → does (onk (mod_sym x f)) (λ _, True) c.
Proof using.
  intros E HR. apply wp_onk. exists tt. eexists. split; [by apply mod_sym_ok|]. split; [|done].
  constructor; [|done|done]. by eapply tame_put.
Qed.

(** ** The lines *)

Lemma user_flag_recast y v : recast y (add_flags SYMBOL_DEF_USER (set_def v y)) ∧
  has SYMBOL_VALID (add_flags SYMBOL_DEF_USER (set_def v y)) = has SYMBOL_VALID y.
Proof using.
  set (e := Entry 1%positive EmptyString (if is_bool_type (y_type y) then S_BOOLEAN else S_INT) (v_tri v) EmptyString).
  split; [constructor; try done|]; unfold sym_is_choice, sym_is_choice_value.
  - change (has SYMBOL_CONST (add_flags SYMBOL_DEF_USER y) = has SYMBOL_CONST y). has_flags. apply orb_false_r.
  - change (has SYMBOL_CHOICE (add_flags SYMBOL_DEF_USER y) = has SYMBOL_CHOICE y). has_flags. apply orb_false_r.
  - change (has SYMBOL_CHOICEVAL (add_flags SYMBOL_DEF_USER y) = has SYMBOL_CHOICEVAL y). has_flags. apply orb_false_r.
  - change (has SYMBOL_VALID (add_flags SYMBOL_DEF_USER y) = has SYMBOL_VALID y). has_flags. apply orb_false_r.
Qed.
Lemma revalued_tri y t : is_bool_type (y_type y) = true → revalued y (set_tri DefUser t y).
Proof using.
  intros Hb. destruct (user_flag_recast y (Value (v_val (y_def y)) t)) as [H1 H2]. constructor; [done|done|done|].
  intros _ _ Hk. simpl in Hk. by destruct (y_type y).
Qed.
Lemma revalued_str y a p : string_valid (y_type y) p = true →
  revalued y (add_flags SYMBOL_DEF_USER (set_def (Value (VStr a p) (v_tri (y_def y))) y)).
Proof using.
  intros Hv. destruct (user_flag_recast y (Value (VStr a p) (v_tri (y_def y)))) as [H1 H2]. constructor; [done|done|done|].
  intros _ _ _. by exists a, p.
Qed.

Lemma line_symbol_any name other c : searchable (c_k c) →
  does (line_symbol DefUser name other) (λ o, ∀ x, o = Some x → x ∈ dom (k_syms (c_k c))) c.
Proof using.
  intros HS. unfold line_symbol. eapply does_bind with (P := λ o, ∀ x, o = Some x → x ∈ dom (k_syms (c_k c))).
  - apply wp_onk. exists (answer tbl name false), (c_k c). split; [apply find_indexed, HS|]. split; [by destruct c|].
    intros x Hx. unfold answer in Hx. destruct (const_name name) as [s|] eqn:Hn; [injection Hx as <-; by apply (se_const _ HS name)|].
    apply (ix_map _ _ (se_index _ HS)) in Hx as (_ & _ & y & E & _). apply elem_of_dom. eauto.
  - intros [x|] c' Hc' Hx; [by apply does_ret|]. eapply does_bind; [apply does_warning|]. intros _ c'' _ _. by apply does_ret.
Qed.
Lemma calm_dom c c' x : calm c c' → x ∈ dom (k_syms (c_k c)) → x ∈ dom (k_syms (c_k c')).
Proof using. intros H. by rewrite (tame_dom _ _ (cm_tame _ _ H)). Qed.
(** The symbol that is passed on exists. *)
Definition known_at (c : conf) (r : option symbol * bool) : Prop := ∀ x, r.1 = Some x → x ∈ dom (k_syms (c_k c)).

Lemma mod_then x y f (r : option symbol * bool) c : k_syms (c_k c) !! x = Some y → revalued y (f y) → r.1 = Some x →
  does (onk (mod_sym x f);;; ret r) (known_at c) c.
Proof using.
  intros E HR Hr. eapply does_bind; [by eapply does_mod_sym|]. intros _ c' Hc _. apply does_ret. intros x' Hx'.
  assert (x' = x) as -> by congruence. apply elem_of_dom. eauto.
Qed.
Lemma warn_then msg x y (r : option symbol * bool) c : k_syms (c_k c) !! x = Some y → r.1 = Some x →
  does (conf_warning msg;;; ret r) (known_at c) c.
Proof using.
  intros E Hr. eapply does_bind; [apply does_warning|]. intros _ c' Hc _. apply does_ret. intros x' Hx'.
  assert (x' = x) as -> by congruence. apply elem_of_dom. eauto.
Qed.
Lemma ret_known x y (r : option symbol * bool) c : k_syms (c_k c) !! x = Some y → r.1 = Some x → does (ret r) (known_at c) c.
Proof using. intros E Hr. apply does_ret. intros x' Hx'. assert (x' = x) as -> by congruence. apply elem_of_dom. eauto. Qed.

Lemma read_string_any x y p c : k_syms (c_k c) !! x = Some y → does (read_string DefUser x p) (known_at c) c.
Proof using.
  intros E. unfold read_string, sym_string_valid. apply wp_bind, wp_onk, wp_bind. eapply wp_get_sym; [done|]. apply wp_ret.
  assert (set_k (c_k c) c = c) as Hc by by destruct c. rewrite Hc. destruct (string_valid (y_type y) p) eqn:Hv.
  - apply wp_bind, wp_onk. exists (k_next (c_k c)). eexists. split; [done|]. apply wp_bind, wp_onk. exists tt. eexists. split; [by apply mod_sym_ok|].
    apply wp_ret. split.
    + constructor; [|done|done]. eapply tame_put; [exact E|by apply (revalued_str y (k_next (c_k c)))|done..].
    + intros x' [= <-]. apply elem_of_dom. eauto.
  - apply wp_bind, wp_onk. eapply wp_get_sym; [done|]. rewrite Hc. by eapply warn_then.
Qed.
Lemma read_quoted_any x y p c : k_syms (c_k c) !! x = Some y → does (read_quoted DefUser x p) (known_at c) c.
Proof using.
  intros E. unfold read_quoted. destruct p as [|a p]; [by eapply ret_known|]. case_bool_decide; [|by eapply ret_known].
  destruct (unquote p); [by eapply read_string_any|by eapply warn_then].
Qed.
Lemma read_bool_any x y p c : k_syms (c_k c) !! x = Some y → is_bool_type (y_type y) = true → does (read_bool DefUser x y p) (known_at c) c.
Proof using.
  intros E Hb. unfold read_bool. destruct (starts_with "y" p); [eapply mod_then; [done|by apply revalued_tri|done]|].
  destruct (starts_with "n" p); [eapply mod_then; [done|by apply revalued_tri|done]|]. by eapply warn_then.
Qed.
Lemma known_calm c c' r : calm c c' → known_at c' r → known_at c r.
Proof using. intros H Hr x Hx. rewrite <- (tame_dom _ _ (cm_tame _ _ H)). by apply Hr. Qed.
Lemma does_known (m : C (option symbol * bool)) c c' : calm c c' → does m (known_at c') c' → does m (known_at c) c'.
Proof using. intros Hc Hm. eapply wp_mono; [exact Hm|]. intros r c'' [H1 H2]. split; [done|]. by eapply known_calm. Qed.

(** The symbol that [line_symbol] gives, when it is one of the table. *)
Lemma with_line_symbol name other (k : option symbol → C (option symbol * bool)) c : searchable (c_k c) →
  (∀ c', calm c c' → does (k None) (known_at c') c') →
  (∀ x y c', calm c c' → k_syms (c_k c') !! x = Some y → y_type y ≠ S_OTHER → does (k (Some x)) (known_at c') c') →
  does (bind (line_symbol DefUser name other) k) (known_at c) c.
Proof using.
  intros HS Hnone Hsome. eapply does_bind; [by apply line_symbol_any|]. intros [x|] c1 H1 Hx; apply does_known; auto.
  specialize (Hx x eq_refl). eapply calm_dom, elem_of_dom in Hx as [y E]; [|done]. eapply Hsome; [done|done|].
  apply (se_type _ (searchable_tame _ _ HS (cm_tame _ _ H1)) x y E).
Qed.
Lemma read_value_any name p c : searchable (c_k c) → does (read_value DefUser name p) (known_at c) c.
Proof using.
  intros HS. apply with_line_symbol; [done|intros c' _; by apply does_ret|]. intros x y c' _ E Ht. eapply does_with_sym; [done|].
  destruct (has _ y); [by eapply warn_then|]. destruct (y_type y) eqn:Et; try done.
  - by eapply ret_known.
  - eapply read_bool_any; [done|by rewrite Et].
  - destruct (starts_with "m" p); [eapply mod_then; [done|apply revalued_tri; by rewrite Et|done]|]. eapply read_bool_any; [done|by rewrite Et].
  - by eapply read_string_any.
  - by eapply read_string_any.
  - by eapply read_quoted_any.
Qed.
Lemma read_unset_any name c : searchable (c_k c) → does (read_unset DefUser name) (known_at c) c.
Proof using.
  intros HS. apply with_line_symbol; [done|intros c' _; by apply does_ret|]. intros x y c' _ E Ht. eapply does_with_sym; [done|].
  destruct (has _ y); [by eapply warn_then|]. destruct (is_bool_type (y_type y)) eqn:Et; [|by eapply ret_known].
  eapply mod_then; [done|by apply revalued_tri|done].
Qed.
Lemma then_rest (m : C (option symbol * bool)) rest c : does m (known_at c) c →
  does ('(s, b) <- m;; ret (s, b, rest)) (λ r : option symbol * bool * string, known_at c r.1) c.
Proof using. intros H. eapply does_bind; [exact H|]. intros [s b] c' _ Hr. by apply does_ret. Qed.
Lemma no_symbol (b : bool) rest c : does (ret (None, b, rest)) (λ r : option symbol * bool * string, known_at c r.1) c.
Proof using. by apply does_ret. Qed.
Lemma warn_no_symbol msg (b : bool) rest c : does (conf_warning msg;;; ret (None, b, rest)) (λ r : option symbol * bool * string, known_at c r.1) c.
Proof using. eapply does_bind; [apply does_warning|]. intros _ c' _ _. by apply does_ret. Qed.
Lemma read_line_any line stale c : searchable (c_k c) → does (read_line DefUser line stale) (λ r : option symbol * bool * string, known_at c r.1) c.
Proof using.
  intros HS. unfold read_line. destruct line as [|a line]; [apply no_symbol|]. case_bool_decide.
  - destruct (after _ _) as [r|]; [|apply no_symbol]. destruct (cut _ r) as [[name p]|]; [|apply no_symbol].
    destruct (after _ p); [|apply no_symbol]. by apply then_rest, read_unset_any.
  - case_bool_decide.
    + destruct (after _ _) as [r|]; [|apply warn_no_symbol]. destruct (cut _ r) as [[name p]|]; [|apply no_symbol].
      by apply then_rest, read_value_any.
    + destruct (_ || _); [apply no_symbol|apply warn_no_symbol].
Qed.

(** ** The choices *)

Lemma does_mod_choice cs f c : (∃ yc, k_syms (c_k c) !! cs = Some yc ∧ known_string (y_type yc) = false) →
  (∀ y, recast y (f y) ∧ has SYMBOL_VALID (f y) = has SYMBOL_VALID y ∧ y_curr (f y) = y_curr y) → does (onk (mod_sym cs f)) (λ _, True) c.
Proof using.
  intros (yc & E & Ht) Hf. destruct (Hf yc) as (HR & Hv & Hcu). eapply does_mod_sym; [done|]. constructor; [done..|].
  intros _ _ Hk. by rewrite (rc_type _ _ HR), Ht in Hk.
Qed.
Lemma valued_recast v y : recast y (set_def_of DefUser v y) ∧ has SYMBOL_VALID (set_def_of DefUser v y) = has SYMBOL_VALID y ∧
  y_curr (set_def_of DefUser v y) = y_curr y.
Proof using. done. Qed.
Lemma unset_recast y : recast y (del_flags SYMBOL_DEF_USER y) ∧ has SYMBOL_VALID (del_flags SYMBOL_DEF_USER y) = has SYMBOL_VALID y ∧
  y_curr (del_flags SYMBOL_DEF_USER y) = y_curr y.
Proof using.
  split; [|split; [|done]]; [constructor; try done; unfold sym_is_choice, sym_is_choice_value|]; has_flags; by rewrite andb_true_r.
Qed.
Lemma choice_again cs c c' : calm c c' → (∃ yc, k_syms (c_k c) !! cs = Some yc ∧ known_string (y_type yc) = false) →
  ∃ yc, k_syms (c_k c') !! cs = Some yc ∧ known_string (y_type yc) = false.
Proof using.
  intros Hc (yc & E & Ht). destruct (tame_at _ _ _ _ (cm_tame _ _ Hc) E) as (yc' & E' & H). exists yc'.
  by rewrite (rc_type _ _ (rv_recast _ _ H)).
Qed.
Lemma read_choice_any x c : searchable (c_k c) → x ∈ dom (k_syms (c_k c)) → does (read_choice DefUser x) (λ _, True) c.
Proof using.
  intros HS [y E]%elem_of_dom. unfold read_choice. eapply does_with_sym; [done|].
  destruct (sym_is_choice_value y) eqn:Hc; [|by apply does_ret]. destruct (se_choice _ HS x y E Hc) as (cs & yc & Hcs & Ec & Ht).
  unfold sym_get_choice_prop, choice_of in *. destruct (choice_prop y) as [p|] eqn:Hp; [|done]. simpl in Hcs.
  assert (set_k (c_k c) c = c) as Hset by by destruct c.
  apply wp_bind, wp_onk, wp_bind. eapply wp_get_sym; [done|]. apply wp_ret. rewrite Hset, Hp.
  apply wp_bind, wp_onk. eapply wp_lift; [done|]. rewrite Hset. apply wp_bind, wp_onk. apply (wp_lift _ (Some cs)).
  { unfold prop_get_symbol. destruct (pr_expr p) as [[]|]; congruence. }
  rewrite Hset. apply wp_bind, wp_onk. eapply wp_lift; [done|]. rewrite Hset.
  assert (∃ yc, k_syms (c_k c) !! cs = Some yc ∧ known_string (y_type yc) = false) as Hch by by exists yc.
  eapply does_with_sym; [done|]. eapply does_bind with (P := λ _, True).
  - assert (does (conf_warning [sym_name y; " creates inconsistent choice state"%string];;;
      onk (mod_sym cs (del_flags (def_flag DefUser)))) (λ _, True) c).
    { eapply does_bind; [apply does_warning|]. intros _ c' Hc' _. apply does_mod_choice; [by eapply choice_again|]. intros z. apply unset_recast. }
    destruct (v_tri (def_of DefUser y)); [by apply does_ret|case_bool_decide; [done|by apply does_ret]|].
    case_bool_decide; [done|]. apply does_mod_choice; [done|]. intros z. apply valued_recast.
  - intros _ c' Hc' _. apply does_mod_choice; [by eapply choice_again|]. intros z. apply valued_recast.
Qed.

(** ** The file *)

Lemma read_lines_any lines stale c : searchable (c_k c) → does (read_lines DefUser lines stale) (λ _, True) c.
Proof using.
  revert stale c. induction lines as [|line lines IH]; intros stale c HS; [by apply does_ret|]. cbn [read_lines].
  eapply does_bind with (P := λ _, True); [apply wp_cupd; split; [constructor; [reflexivity|done|simpl; lia]|done]|]. intros _ c1 H1 _. eapply does_bind.
  { apply read_line_any. eapply searchable_tame; [exact HS|apply H1]. }
  intros [[s b] stale'] c2 H2 Hs. assert (calm c c2) as H02 by (by etransitivity). eapply does_bind with (P := λ _, True).
  - destruct s as [x|]; [|by apply does_ret]. destruct b; [|by apply does_ret]. apply read_choice_any.
    + eapply searchable_tame; [exact HS|apply H02].
    + eapply calm_dom; [exact H2|]. by apply Hs.
  - intros _ c3 H3 _. apply IH. eapply searchable_tame; [exact HS|]. apply cm_tame. by etransitivity.
Qed.

(** ** conf_read_simple *)

(** The values are dropped, except that choices count as set. *)
Record wiped (y y' : sym) : Prop := {
  wi_recast : recast y y';
  wi_valid : has SYMBOL_VALID y' = false;
  wi_user : user_ok y' }.
Definition choice_typed (y : sym) : Prop := sym_is_choice y = true → known_string (y_type y) = false.
Lemma clear_wiped y : choice_typed y → wiped y (clear_def DefUser y).
Proof using.
  intros Hc. destruct (clear_recast y) as (H1 & H2 & H3). constructor; [done|done|]. intros Hu Hk.
  rewrite (rc_type _ _ H1), Hc in Hk; [done|congruence].
Qed.
Lemma wiped_trans y y1 y2 : recast y y1 → wiped y1 y2 → wiped y y2.
Proof using. intros H []. constructor; [by etransitivity|done..]. Qed.
Lemma clear_any l st : Forall (λ x, ∃ y, k_syms st !! x = Some y ∧ y_type y ≠ S_OTHER ∧ choice_typed y) l →
  wp (for_symbols (λ s, mod_sym s (clear_def DefUser)) l) (λ _ st', cleared_to wiped l st st') st.
Proof using.
  apply (clear_values choice_typed); [|exact clear_wiped|exact wiped_trans].
  intros y y' H. unfold choice_typed. by rewrite (rc_choice _ _ H), (rc_type _ _ H).
Qed.

(** What reading leaves of the symbols: those of the table have other user
    values, which are valid. *)
Record reread (st st' : kst) : Prop := {
  rr_hash : k_hash st' = k_hash st;
  rr_msym : k_modules_sym st' = k_modules_sym st;
  rr_mval : k_modules_val st' = k_modules_val st;
  rr_syms x : option_relation recast (λ _, False) (λ _, False) (k_syms st !! x) (k_syms st' !! x);
  rr_in x y : x ∈ concat (k_hash st) → k_syms st' !! x = Some y → has SYMBOL_VALID y = false ∧ user_ok y;
  rr_out x y y' : x ∉ concat (k_hash st) → k_syms st !! x = Some y → k_syms st' !! x = Some y' →
    has SYMBOL_VALID y' = has SYMBOL_VALID y ∧ y_curr y' = y_curr y }.
Lemma reread_tame st st1 st2 : cleared_to wiped (concat (k_hash st)) st st1 → (∀ x, x ∈ concat (k_hash st) → x ∈ dom (k_syms st)) →
  tame st1 st2 → reread st st2.
Proof using.
  intros [H1 H2 H3 H4 H5] Hd HT. assert (∀ x y, x ∈ concat (k_hash st) → k_syms st2 !! x = Some y →
    ∃ y0 y1, k_syms st !! x = Some y0 ∧ wiped y0 y1 ∧ revalued y1 y) as Hin.
  { intros x y Hx E. destruct (tame_back _ _ _ _ HT E) as (y1 & E1 & HR). apply Hd in Hx as Hy. apply elem_of_dom in Hy as [y0 E0].
    destruct (H4 x y0 Hx E0) as (y1' & E1' & HW). exists y0, y1. split; [done|]. split; [congruence|done]. }
  constructor.
  - rewrite (tm_hash _ _ HT). done.
  - rewrite (tm_msym _ _ HT). done.
  - rewrite (tm_mval _ _ HT). done.
  - intros x. pose proof (tm_syms _ _ HT x) as Hx. destruct (decide (x ∈ concat (k_hash st))) as [Hin'|Hout].
    + pose proof (Hd x Hin') as [y0 E0]%elem_of_dom. destruct (H4 x y0 Hin' E0) as (y1 & E1 & [HW _ _]). rewrite E0. rewrite E1 in Hx.
      destruct (k_syms st2 !! x) as [y2|]; [|done]. simpl in *. transitivity y1; [done|]. by apply rv_recast.
    + rewrite (H5 x Hout) in Hx. destruct (k_syms st !! x), (k_syms st2 !! x); simpl in *; try done. by apply rv_recast.
  - intros x y Hx E. destruct (Hin x y Hx E) as (y0 & y1 & _ & [_ HV HU] & HR). split; [by rewrite (rv_valid _ _ HR)|by apply (rv_user _ _ HR)].
  - intros x y y' Hx E E'. destruct (tame_back _ _ _ _ HT E') as (y1 & E1 & HR). rewrite (H5 x Hx) in E1.
    assert (y1 = y) as -> by congruence. split; [apply (rv_valid _ _ HR)|apply (rv_curr _ _ HR)].
Qed.

(** The table's symbols exist. *)
Lemma table_dom st x : indexes st tbl → x ∈ concat (k_hash st) → x ∈ dom (k_syms st).
Proof using.
  intros HI Hx. apply list_elem_of_In, in_concat in Hx as (l & Hl%list_elem_of_In & Hx%list_elem_of_In).
  apply list_elem_of_lookup in Hl as [h Eh]. destruct (ix_chain _ _ HI h x) as (y & E & _); [by exists l|]. apply elem_of_dom. eauto.
Qed.
Lemma wiped_searchable st st1 : searchable st → cleared_to wiped (concat (k_hash st)) st st1 → searchable st1.
Proof using.
  intros HS [H1 H2 H3 H4 H5]. assert (∀ x, option_relation recast (λ _, False) (λ _, False) (k_syms st !! x) (k_syms st1 !! x)) as HR.
  { intros x. destruct (decide (x ∈ concat (k_hash st))) as [Hx|Hx].
    - pose proof (table_dom _ x (se_index _ HS) Hx) as [y E]%elem_of_dom. destruct (H4 x y Hx E) as (y1 & E1 & [HW _ _]). by rewrite E, E1.
    - rewrite (H5 x Hx). by destruct (k_syms st !! x). }
  assert (∀ x y1, k_syms st1 !! x = Some y1 → ∃ y, k_syms st !! x = Some y ∧ recast y y1) as Hback.
  { intros x y1 E1. specialize (HR x). rewrite E1 in HR. destruct (k_syms st !! x) as [y|]; [by exists y|done]. }
  assert (∀ x y, k_syms st !! x = Some y → ∃ y1, k_syms st1 !! x = Some y1 ∧ recast y y1) as Hforth.
  { intros x y E. specialize (HR x). rewrite E in HR. destruct (k_syms st1 !! x) as [y1|]; [by exists y1|done]. }
  constructor.
  - apply (indexes_same st); [apply HS|done|]. intros x. specialize (HR x).
    destruct (k_syms st !! x), (k_syms st1 !! x); simpl in HR; try done. simpl. by rewrite (recast_key _ _ HR).
  - intros m s Hm. apply (se_const _ HS) in Hm as [y E]%elem_of_dom. destruct (Hforth s y E) as (y1 & E1 & _). apply elem_of_dom. eauto.
  - intros x y1 E1. destruct (Hback x y1 E1) as (y & E & H). rewrite (rc_type _ _ H). by apply (se_type _ HS x).
  - intros x y1 E1. destruct (Hback x y1 E1) as (y & E & H). rewrite (rc_choiceval _ _ H), (choice_of_recast _ _ H). intros Hc.
    destruct (se_choice _ HS x y E Hc) as (cs & yc & Hcs & Ec & Ht). destruct (Hforth cs yc Ec) as (yc1 & Ec1 & H').
    exists cs, yc1. by rewrite (rc_type _ _ H').
Qed.

(** Up to the computation of [modules_sym] nothing fails. *)
Lemma load_any n name text junk c : searchable (c_k c) → (∀ x y, k_syms (c_k c) !! x = Some y → choice_typed y) →
  ∃ c1, load_config n DefUser name text junk c = onk (start n) c1 ∧ reread (c_k c) (c_k c1) ∧
    c_io c1 = c_io c ∧ 0 ≤ c_warnings c1.
Proof using.
  intros HS Hct. unfold load_config. fold (start n).
  assert (Forall (λ x, ∃ y, k_syms (c_k c) !! x = Some y ∧ y_type y ≠ S_OTHER ∧ choice_typed y) (concat (k_hash (c_k c)))) as Hl.
  { apply Forall_forall. intros x Hx. pose proof (table_dom _ x (se_index _ HS) Hx) as [y E]%elem_of_dom. exists y. split; [done|].
    split; [by apply (se_type _ HS x)|by apply (Hct x)]. }
  destruct (clear_any _ _ Hl) as ([] & st1 & E1 & H1).
  set (c0 := set_counts name 0 0 0 (c_stderr c) c). set (c1 := set_k st1 c0).
  destruct (read_lines_any (lines_of text) junk c1) as ([] & c2 & E2 & H2 & _).
  { by eapply wiped_searchable. }
  exists c2. split.
  - rewrite (bind_ok _ _ _ tt c0) by done. rewrite (bind_ok _ _ _ tt c1).
    + by rewrite (bind_ok _ _ _ tt c2).
    + unfold onk, for_all_symbols. rewrite (bind_ok _ _ _ (k_hash (c_k c)) (c_k c)) by done. by rewrite E1.
  - split; [|split; [by rewrite (cm_io _ _ H2)|exact (cm_warnings _ _ H2)]].
    eapply reread_tame; [exact H1|intros x; by apply table_dom, HS|apply H2].
Qed.
End any.

(** ** Configurations without choices and recursion *)

Section plain.
Context (stb : kst) (rank : symbol → nat) (HC : computable stb rank) (HL : cleared stb).

(** Computing [modules_sym] does not fail, whatever [modules_val] is. *)
Lemma start_any n : (∀ m, k_modules_sym stb = Some m → m ∈ dom (k_syms stb)) → (invalid stb < n)%nat →
  wp (start n) (λ _ st, config st = config stb) stb.
Proof using HC HL.
  intros HA Hn. unfold start. apply wp_bind, wp_get. destruct (k_modules_sym stb) as [m|] eqn:Em; [|by apply wp_ret].
  pose proof (HA m eq_refl) as [y E]%elem_of_dom. destruct n as [|n]; [lia|]. cbn [sym_calc_value]. apply wp_bind. eapply wp_get_sym; [done|].
  destruct (has SYMBOL_VALID y) eqn:Hv; [by apply wp_ret|]. set (r := S (max_list (rank <$> elements (dom (k_syms stb))))).
  assert (∀ x, x ∈ dom (k_syms stb) → (rank x < r)%nat) as Hr.
  { intros x Hx. apply Nat.lt_succ_r, max_list_elem_of_le, list_elem_of_fmap. exists x. split; [done|]. by apply elem_of_elements. }
  eapply wp_mono; [apply (calc_new stb rank HC n m r stb y y (calc_value_settled stb rank HC n)); try done|].
  - intros d Hd m' Hm'. right. assert (m' = m) as -> by congruence. intros Hdm%(depends_rank stb rank HC).
    destruct (cp_ranks _ _ HC m y d E Hv Hd). lia.
  - intros _ x Hx. destruct (cl_type _ HL x Hx) as (z & Ez & _). apply elem_of_dom. eauto.
  - apply Hr, elem_of_dom. eauto.
  - by apply start_inv.
  - intros [] st'' (st' & HE & _ & HI & _). rewrite <- (ev_config _ _ (iv_evolves _ _ _ _ HI)). apply map_eq. intros x. unfold config.
    rewrite !lookup_fmap. pose proof (ec_syms _ _ _ HE x) as Hx. destruct (k_syms st' !! x), (k_syms st'' !! x); simpl in *; try done.
    by rewrite (proj1 Hx).
Qed.

(** After reading, the values can be computed again. *)
Context (st st1 : kst) (HS : started stb rank st) (HR : reread st st1).
(** A symbol read again. *)
Record again (x : symbol) (yb y : sym) : Prop := {
  ag_recast : recast yb y;
  ag_valid : has SYMBOL_VALID y = has SYMBOL_VALID yb;
  ag_curr : has SYMBOL_VALID yb = true → y_curr y = y_curr yb;
  ag_user : has SYMBOL_VALID yb = false → user_ok y }.
Lemma reread_again x : option_relation (again x) (λ _, False) (λ _, False) (k_syms stb !! x) (k_syms st1 !! x).
Proof using HL HS HR.
  pose proof (rr_syms _ _ HR x) as Hx. destruct (k_syms st !! x) as [y|] eqn:E.
  - destruct (started_config _ _ _ _ _ HS E) as (yb & Eb & Hc). rewrite Eb. destruct (k_syms st1 !! x) as [y1|] eqn:E1; [|done]. simpl in *.
    assert (recast yb y1) as HRc by (etransitivity; [by apply config_recast|done]).
    assert (x ∈ dom (k_syms stb)) as Hd by (apply elem_of_dom; eauto). destruct (decide (x ∈ concat (k_hash st))) as [Hin|Hout].
    + destruct (rr_in _ _ HR x y1 Hin E1) as [Hv Hu]. rewrite (sd_hash _ _ _ HS) in Hin. assert (has SYMBOL_VALID yb = false) as Hvb.
      { apply not_true_iff_false. intros Hvb. apply (cl_valid _ HL x Hd); [by exists yb|done]. }
      constructor; [done|congruence|congruence|done].
    + destruct (rr_out _ _ HR x y y1 Hout E E1) as [Hv Hcu]. rewrite (sd_hash _ _ _ HS) in Hout.
      rewrite (sd_const _ _ _ HS x Hout) in E. assert (y = yb) as -> by congruence.
      assert (valid stb x) as (z & Ez & Hz) by by apply (cl_valid _ HL x Hd). constructor; [done|done|done|congruence].
  - assert (k_syms stb !! x = None) as ->.
    { apply not_elem_of_dom. rewrite <- (config_dom stb st) by apply HS. by apply not_elem_of_dom. }
    by destruct (k_syms st1 !! x).
Qed.
Lemma again_back x y : k_syms st1 !! x = Some y → ∃ yb, k_syms stb !! x = Some yb ∧ again x yb y.
Proof using HL HS HR.
  intros E. pose proof (reread_again x) as H. rewrite E in H. destruct (k_syms stb !! x) as [yb|]; [by exists yb|done].
Qed.
Lemma again_forth x yb : k_syms stb !! x = Some yb → ∃ y, k_syms st1 !! x = Some y ∧ again x yb y.
Proof using HL HS HR.
  intros E. pose proof (reread_again x) as H. rewrite E in H. destruct (k_syms st1 !! x) as [y|]; [by exists y|done].
Qed.
Lemma reread_computable : computable st1 rank.
Proof using HC HL HS HR.
  assert (∀ x v, (∃ y, k_syms stb !! x = Some y ∧ has SYMBOL_VALID y = true ∧ y_curr y = v) →
    ∃ y, k_syms st1 !! x = Some y ∧ has SYMBOL_VALID y = true ∧ y_curr y = v) as Hconst.
  { intros x v (yb & Eb & Hv & Hy). destruct (again_forth x yb Eb) as (y & E & [_ Hvy Hcu _]). exists y. rewrite Hvy, Hcu; done. }
  constructor; [..|by apply Hconst, HC|by apply Hconst, HC].
  - intros x y d E Hv Hd. destruct (again_back x y E) as (yb & Eb & [HRc Hvb _ _]). rewrite (recast_deps _ _ HRc) in Hd.
    destruct (cp_ranks _ _ HC x yb d Eb) as [[z Ez]%elem_of_dom Hr]; [congruence|done|]. split; [|done].
    destruct (again_forth d z Ez) as (z' & Ez' & _). apply elem_of_dom. eauto.
  - intros x y E. destruct (again_back x y E) as (yb & Eb & [HRc _ _ _]). rewrite (rc_choice _ _ HRc), (rc_choiceval _ _ HRc).
    by apply (cp_plain _ _ HC x).
  - intros x y E Hv. destruct (again_back x y E) as (yb & Eb & [_ Hvb Hcu _]). rewrite Hcu by congruence. apply (cp_valid _ _ HC x yb Eb). congruence.
  - intros x y E Hv. destruct (again_back x y E) as (yb & Eb & [HRc Hvb _ Hu]). pose proof (cp_sym _ _ HC x yb Eb ltac:(congruence)) as Hw.
    specialize (Hu ltac:(congruence)). unfold wf_sym, user_ok in *. rewrite (rc_type _ _ HRc), (rc_name _ _ HRc) in *.
    destruct (y_type yb); try done; apply andb_true_iff in Hw as [_ Hw]; apply andb_true_iff; (split; [|by eapply recast_wf]);
      (destruct (sym_has_value y); [|done]); by destruct (Hu eq_refl eq_refl) as (a & s & -> & _).
Qed.
Lemma reread_cleared : cleared st1.
Proof using HC HL HS HR.
  constructor; rewrite (rr_hash _ _ HR), (sd_hash _ _ _ HS).
  - intros x Hx. pose proof Hx as [y E]%elem_of_dom. destruct (again_back x y E) as (yb & Eb & [_ Hv _ _]).
    rewrite <- (cl_valid _ HL x) by (apply elem_of_dom; eauto). split; intros (z & Ez & Hz); eexists; (split; [done|]); congruence.
  - intros x Hx. destruct (cl_type _ HL x Hx) as (yb & Eb & Ht). destruct (again_forth x yb Eb) as (y & E & [HRc _ _ _]).
    exists y. split; [done|]. by rewrite (rc_type _ _ HRc).
Qed.
Lemma reread_size : size (k_syms st1) = size (k_syms stb).
Proof using HL HS HR.
  rewrite <- !size_dom. f_equal. apply set_eq. intros x. rewrite !elem_of_dom. pose proof (reread_again x) as H.
  destruct (k_syms stb !! x), (k_syms st1 !! x); simpl in H; try done; by split; eauto.
Qed.
End plain.

(** What is left after the lines does not fail either. *)
Lemma reread_starts stb rank n st st1 : computable stb rank → cleared stb → started stb rank st →
  (∀ m, k_modules_sym stb = Some m → m ∈ dom (k_syms stb)) → (size (k_syms stb) < n)%nat → reread st st1 →
  wp (start n) (λ _ st2, config st2 = config st1) st1.
Proof.
  intros HC HL HS Hm Hn HR. apply (start_any st1 rank).
  - by apply (reread_computable stb rank HC HL st).
  - by apply (reread_cleared stb rank HC HL st).
  - intros m Em. rewrite (rr_msym _ _ HR), (sd_msym _ _ _ HS) in Em. pose proof (Hm m Em) as [y Ey]%elem_of_dom.
    destruct (again_forth stb rank HL _ _ HS HR m y Ey) as (z & Ez & _). apply elem_of_dom. eauto.
  - eapply Nat.le_lt_trans; [apply invalid_size|]. by rewrite (reread_size stb rank HL _ _ HS HR).
Qed.
