(* ===== verification/KConfRound.v ===== *)
(** * Writing a configuration and reading it again (confdata.c)

    [conf_write] followed by [conf_read_simple] on its file, composed of the
    parts in KConfSave.v and KConfLoad.v. *)

From stdpp Require Import base numbers list option strings gmap.
From S2P Require Import Prelude CString KExpr KSymbol KSymbolEnds KSymbolCheck KSymbolTable KSymbolRef KSymbolCalc KSymbolSet.
From S2P Require Import KConf KConfWrite KConfLine KConfText KConfFixed KConfMenus KConfSave KConfLoad.
Local Open Scope Z_scope.
Local Open Scope c_scope.

(** ** The header *)

Section header.
Context (E : env).
(** The lines of the header, with the version and the time. *)
Definition header_items (version time : string) : list item :=
  [Comment "#"; Comment "# Automatically generated make config: don't edit"; Comment ("# Linux kernel version: " +:+ version)%string] ++
  (if env_set (e_getenv E "KCONFIG_NOTIMESTAMP") then [] else [Comment ("# " +:+ time)%string]) ++ [Comment "#"].
Record header_ok (version time : string) : Prop := {
  hd_version : fits ("# Linux kernel version: " +:+ version)%string;
  hd_ctime : e_ctime E = (time +:+ newline)%string;
  hd_time : fits ("# " +:+ time)%string;
  hd_comment : comment ("# " +:+ time)%string = true }.
Lemma header_text version time : header_ok version time → conf_header E version = join (item_body <$> header_items version time).
Proof using.
  intros []. unfold conf_header, header_items. rewrite hd_ctime0.
  destruct (env_set _); cbn [app fmap list_fmap item_body join]; rewrite ?app_assoc_str, ?app_nil_str; done.
Qed.
Lemma header_items_ok version time : header_ok version time →
  Forall (λ i, item_ok i = true) (header_items version time) ∧ Forall fits (item_body <$> header_items version time) ∧
  entries (header_items version time) = [].
Proof using.
  intros [H1 H2 H3 H4]. assert (fits "#" ∧ fits "# Automatically generated make config: don't edit") as [F1 F2] by (split; split; try done; simpl; lia).
  unfold header_items. destruct (env_set _); (split; [|split]); try done; cbn [app fmap list_fmap item_body]; by repeat (apply Forall_cons; split).
Qed.
End header.

(** ** Other bases with the same values *)

Section rebase.
Context (stb : kst) (rank : symbol → nat) (HC : computable stb rank).
Let mv : tristate := k_modules_val stb.
Let V (x : symbol) : syminfo := value_of (k_syms stb) mv (S (rank x)) x.
Context (st2 : kst) (HB : rebased stb st2).

Lemma rebased_value x : value_of (k_syms st2) (k_modules_val st2) (S (rank x)) x = V x.
Proof using HB. rewrite (rb_mval _ _ HB). by apply rebased_values. Qed.
Lemma rebased_sym x y2 : k_syms st2 !! x = Some y2 → ∃ y, k_syms stb !! x = Some y ∧ similar y y2.
Proof using HB. intros E. by apply (similar_lookup _ _ _ _ (rb_syms _ _ HB)). Qed.
Lemma rebased_sym' x y : k_syms stb !! x = Some y → ∃ y2, k_syms st2 !! x = Some y2 ∧ similar y y2.
Proof using HB. intros E. pose proof (rb_syms _ _ HB x) as H. rewrite E in H. destruct (k_syms st2 !! x); [eauto|done]. Qed.
Lemma rebased_saved y y2 : similar y y2 →
  saved_of (λ x, value_of (k_syms st2) (k_modules_val st2) (S (rank x)) x) (k_modules_val st2) y2 = saved_of V mv y.
Proof using HB.
  intros [Hc _ _]. rewrite (rb_mval _ _ HB), <- (same_saved V mv _ _ Hc). apply saved_of_ext. intros d _. by apply rebased_values.
Qed.
Lemma rebased_entry x : entry_of st2 rank x = entry_of stb rank x.
Proof using HB. unfold entry_of. by rewrite rebased_value. Qed.
Lemma rebased_writable x : writable stb rank x → writable st2 rank x.
Proof using HB.
  intros (Hx & y & nm & E & Hk & Hn & Hc & Hw). split; [by rewrite (rb_hash _ _ HB)|]. destruct (rebased_sym' x y E) as (y2 & E2 & HS).
  destruct (same_fields _ _ (si_config _ _ HS)) as (Hn2 & Ht2 & _ & _ & _ & Hc2 & _). exists y2, nm. split; [done|]. rewrite Ht2, Hn2, Hc2.
  split; [done|]. split; [done|]. split; [done|]. rewrite rebased_entry, (rebased_saved y y2 HS). done.
Qed.
Lemma rebased_menu r : menu_ok stb rank r → menu_ok st2 rank r.
Proof using HB.
  unfold menu_ok. destruct (mn_sym r); [apply rebased_writable|]. destruct (mn_prompt r) as [[|q]|]; try done.
  by rewrite (similar_dom _ _ (rb_syms _ _ HB)).
Qed.
Lemma rebased_indexes tbl : indexes stb tbl → indexes st2 tbl.
Proof using HB.
  intros HI. apply (indexes_same stb); [done|apply HB|]. intros x. pose proof (rb_syms _ _ HB x) as H.
  destruct (k_syms stb !! x) as [y|], (k_syms st2 !! x) as [y2|]; simpl in H; try done. simpl.
  by rewrite (recast_key _ _ (config_recast _ _ (si_config _ _ H))).
Qed.
Lemma rebased_items menus head l : file_items st2 rank menus head l = file_items stb rank menus head l.
Proof using HB.
  unfold file_items. revert head. induction l as [|m l IH]; intros head; [done|]. cbn [foldl].
  assert (menu_items st2 rank menus head m = menu_items stb rank menus head m) as ->; [|apply IH].
  unfold menu_items. destruct (menus !! m) as [r|]; [|done]. destruct (mn_sym r) as [s|].
  - pose proof (rb_syms _ _ HB s) as H. destruct (k_syms stb !! s) as [y|], (k_syms st2 !! s) as [y2|]; simpl in H; try done.
    by rewrite (rebased_saved y y2 H), rebased_entry.
  - destruct (mn_prompt r) as [[|q]|]; try done. by rewrite (cond_ext _ V) by (intros; apply rebased_value).
Qed.
End rebase.
Lemma rebased_refl stb : cleared stb → rebased stb stb.
Proof. intros HL. constructor; try done. intros x. by destruct (k_syms stb !! x). Qed.

(** ** Writing the file *)

Section write.
Context (E : env) (stb : kst) (rank : symbol → nat) (HC : computable stb rank) (HL : cleared stb) (HA : agrees stb rank).
Context (tbl : gmap (string * bool) symbol) (Htbl : indexes stb tbl).
Context (n : nat) (Hn : (size (k_syms stb) < n)%nat).
Let mv : tristate := k_modules_val stb.
Let V (x : symbol) : syminfo := value_of (k_syms stb) mv (S (rank x)) x.

(** The symbol KERNELVERSION, whose value is in the header. *)
Context (kv : symbol) (Hkv : tbl !! ("KERNELVERSION"%string, false) = Some kv).
Definition version : string := KExpr.sym_get_string_value V kv.

Lemma kv_dom : kv ∈ dom (k_syms stb).
Proof using Htbl Hkv. apply (ix_map _ _ Htbl) in Hkv as (_ & _ & y & Ey & _). apply elem_of_dom. eauto. Qed.
Lemma lookup_kv st : started stb rank st → sym_lookup (Some "KERNELVERSION"%string) false st = Ok (kv, st).
Proof using Htbl Hkv.
  intros HS. unfold sym_lookup. change (const_name "KERNELVERSION") with (@None symbol). cbv iota.
  assert (indexes st tbl) as HI.
  { apply (indexes_same stb); [done|apply HS|]. intros x. assert (config st !! x = config stb !! x) as H by by rewrite (sd_config _ _ _ HS).
    unfold config in H. rewrite !lookup_fmap in H. destruct (k_syms st !! x), (k_syms stb !! x); try done. simpl in *.
    apply (inj Some) in H. by rewrite (recast_key _ _ (config_recast _ _ H)). }
  unfold bind at 1, chain, get. unfold bind at 1. rewrite (search_indexed st tbl) by done. by rewrite Hkv.
Qed.
(** The value, with the symbol computed or not. *)
Lemma kernel_version_new c Q : kinv stb rank [] (c_k c) → (∀ st, kinv stb rank [] st → Q version (set_k st c)) → wp (kernel_version n) Q c.
Proof using HC HL Htbl Hkv Hn.
  intros HK HQ. unfold kernel_version. apply wp_bind, wp_onk. exists kv, (c_k c). split; [by apply lookup_kv, HK|]. apply wp_bind, wp_onk.
  eapply (kinv_calc stb rank HC HL n Hn); [exact HK|apply kv_dom|]. intros st HK1 Hv1 _. pose proof (kinv_value _ _ _ _ _ HK1 Hv1) as HS.
  pose proof HS as (y & Ey & _). destruct (settled_string _ _ _ _ _ HS Ey) as [a Ha].
  apply wp_bind, wp_onk. unfold sym_get_string_value. apply wp_bind. rewrite set_k_k. eapply wp_get_sym; [done|]. apply wp_ret. rewrite Ha.
  apply wp_ret. by apply HQ.
Qed.
Lemma kernel_version_old c Q : started stb rank (c_k c) → valid (c_k c) kv → Q version c → wp (kernel_version n) Q c.
Proof using Htbl Hkv Hn.
  intros HS Hv HQ. unfold kernel_version.
  apply wp_bind, wp_onk. exists kv, (c_k c). split; [by apply lookup_kv|]. apply wp_bind, wp_onk.
  pose proof Hv as (y & Ey & Hy). destruct n as [|n']; [lia|]. cbn [sym_calc_value]. apply wp_bind. rewrite set_k_k. eapply wp_get_sym; [done|].
  rewrite Hy. apply wp_ret. pose proof (sd_valid _ _ _ HS kv Hv) as HSt. destruct (settled_string _ _ _ _ _ HSt Ey) as [a Ha].
  apply wp_bind, wp_onk. unfold sym_get_string_value. apply wp_bind. rewrite set_k_k. eapply wp_get_sym; [done|]. apply wp_ret. rewrite Ha.
  apply wp_ret. destruct c. exact HQ.
Qed.

(** The file that is written, and its names. *)
Record destination (name : option string) (c : conf) (dir base : string) : Prop := {
  ds_split : split_path E name c = Ok ((dir, base), c);
  ds_new : (String.length (dir +:+ base) < PATH_SIZE)%nat;
  ds_tmp : env_set (e_getenv E "KCONFIG_OVERWRITECONFIG") = false →
    (String.length (dir +:+ ".tmpconfig." +:+ e_pid E) < PATH_SIZE ∧ String.length ((dir +:+ base) +:+ ".old") < PATH_SIZE)%nat ∧
    ∀ h, e_rename E h (dir +:+ ".tmpconfig." +:+ e_pid E)%string (dir +:+ base)%string = true;
  ds_writable : e_writable E (c_io c)
    (if env_set (e_getenv E "KCONFIG_OVERWRITECONFIG") then (dir +:+ base)%string else (dir +:+ ".tmpconfig." +:+ e_pid E)%string) = true }.
Definition out_name (dir base : string) : string :=
  if env_set (e_getenv E "KCONFIG_OVERWRITECONFIG") then (dir +:+ base)%string else (dir +:+ ".tmpconfig." +:+ e_pid E)%string.

(** Menus that can be saved. *)
Record saveable (c : conf) (r : menu_rec) (ts : list mtree) : Prop := {
  sb_root : c_menus c !! c_root c = Some r;
  sb_next : mn_next r = None;
  sb_parent : mn_parent r = None;
  sb_laid : laid (c_menus c) (c_root c) (mn_list r) ts;
  sb_menus m r : c_menus c !! m = Some r → menu_ok stb rank r;
  sb_modules : k_modules_sym stb ≠ None }.

(** The values were computed since they were written, or there was no change. *)
Definition ready (c : conf) : Prop :=
  kinv stb rank [] (c_k c) ∨
  (started stb rank (c_k c) ∧ valid (c_k c) kv ∧ k_change_count (c_k c) = 0).

(** After the computation of [modules_sym] nothing was written. *)
Lemma start_kinv : wp (start n) (λ _ st, kinv stb rank [] st) stb.
Proof using HC HL HA Hn.
  eapply wp_mono.
  { apply (start_ok stb rank HC HL n HA). eapply Nat.le_lt_trans; [apply invalid_size|done]. }
  intros [] st (HS & Hm & Hw & Hun). constructor; [done| |done| |done].
  - intros m Em. apply Hm. by rewrite (sd_msym _ _ _ HS).
  - intros x Hx Hin. assert (¬ valid stb x) as Hnx.
    { intros Hv. apply (cl_valid _ HL x); [|done|done]. destruct Hv as (z & Ez & _). apply elem_of_dom. eauto. }
    destruct (Hw x Hx Hnx) as (y & Ey & Hy). exists y. split; [done|]. intros Hk. rewrite (Hy Hk), bool_decide_true, andb_true_r; [done|].
    apply not_elem_of_nil.
Qed.

(** What is left to do, with a base on which the marks are right. *)
Lemma wp_prepare {A} (rest : string → C A) c Q : ready c →
  (∀ st2 st, rebased stb st2 → kinv st2 rank [] st → wp (rest version) Q (set_k st c)) →
  wp (version <- kernel_version n;; count <- onk (get k_change_count);;
      (if bool_decide (count = 0) then onk (sym_clear_all_valid n) else ret tt);;; rest version) Q c.
Proof using HC HL HA Htbl Hkv Hn.
  intros HR HQ. pose proof (rebased_refl _ HL) as Hrefl.
  assert (∀ c', started stb rank (c_k c') → (∀ st, set_k st c' = set_k st c) →
    wp (onk (sym_clear_all_valid n)) (λ _ c'', wp (rest version) Q c'') c') as Hclear.
  { intros c' HS Hc. apply wp_onk. eapply (clear_rebased stb rank HC HL (c_k c') HS n); [done|done|].
    intros st2 st3 HB HS3 Hm3 Hw3 Hu3. rewrite Hc. apply (HQ st2); [done|]. constructor; [done| |done| |done].
    - intros m Em. apply Hm3. by rewrite (sd_msym _ _ _ HS3).
    - intros x Hx Hin. assert (¬ valid st2 x) as Hnx.
      { intros Hv. apply (cl_valid _ (rb_cleared _ _ HB) x); [|done|done]. destruct Hv as (z & Ez & _). apply elem_of_dom. eauto. }
      destruct (Hw3 x Hx Hnx) as (y & Ey & Hy). exists y. split; [done|]. intros Hk. rewrite (Hy Hk), bool_decide_true, andb_true_r; [done|].
      apply not_elem_of_nil. }
  destruct HR as [HK|(HS & Hv & Hcc)].
  - apply wp_bind. apply kernel_version_new; [done|]. intros st HK1. apply wp_bind, wp_onk, wp_get. apply wp_bind.
    rewrite set_k_k. change (set_k st (set_k st c)) with (set_k st c). case_bool_decide.
    + apply Hclear; [apply HK1|done].
    + apply wp_ret. by apply (HQ stb).
  - apply wp_bind. apply kernel_version_old; [done|done|]. apply wp_bind, wp_onk, wp_get. rewrite Hcc, bool_decide_true by done.
    apply wp_bind. apply Hclear; [done|done].
Qed.

(** What [conf_write] leaves: the text of the lines, and the same values. *)
Record wrote (c c1 : conf) (ts : list mtree) (dir base time text : string) : Prop := {
  wr_log : ∃ l, c_io c1 = c_io c ++ IWrite (out_name dir base) text :: l;
  wr_same : c_stderr c1 = c_stderr c;
  wr_count : k_change_count (c_k c1) = 0;
  wr_lines : ∃ st2 items, rebased stb st2 ∧ started st2 rank (c_k c1) ∧
    text = join (item_body <$> items) ∧ saved_lines st2 rank (c_menus c) (orders ts) items;
  wr_text : text = join (item_body <$> file_items stb rank (c_menus c) (header_items E version time) (orders ts)) }.
Lemma wp_room size s c Q : (String.length s < size)%nat → Q tt c → wp (room size s) Q c.
Proof using. intros H HQ. unfold room. rewrite bool_decide_true by done. by eapply wp_lift. Qed.
Lemma started_same st st' st2 : started st2 rank st → k_syms st' = k_syms st → k_hash st' = k_hash st →
  k_modules_sym st' = k_modules_sym st → k_modules_val st' = k_modules_val st → started st2 rank st'.
Proof using.
  intros HS E1 E2 E3 E4. destruct st, st'. simpl in *. subst. destruct HS. by constructor.
Qed.
Lemma write_ok fuel name c dir base r ts time : ready c → saveable c r ts → destination name c dir base →
  header_ok E version time → (2 + 2 * length (orders ts) < fuel)%nat →
  wp (conf_write E n fuel name) (λ res c1, res = 0 ∧ ∃ text, wrote c c1 ts dir base time text) c.
Proof using HC HL HA Htbl Hkv Hn.
  intros HR [S1 S2 S3 S4 S5 S6] [D1 D2 D3 D4] HH Hf. pose proof (header_items_ok E _ _ HH) as (H1 & H2 & H3).
  unfold conf_write. apply wp_bind. exists (dir, base), c. split; [done|]. cbv beta iota zeta.
  apply wp_bind, wp_room; [done|]. apply wp_bind. unfold out_name. set (ow := env_set (e_getenv E "KCONFIG_OVERWRITECONFIG")) in *.
  assert ((if ow then (dir +:+ base)%string else if ow then EmptyString else (dir +:+ ".tmpconfig." +:+ e_pid E)%string) =
    if ow then (dir +:+ base)%string else (dir +:+ ".tmpconfig." +:+ e_pid E)%string) as -> by by destruct ow.
  apply wp_room; [destruct ow; [unfold PATH_SIZE; simpl; lia|by apply D3]|]. apply wp_bind, wp_cget. rewrite D4. cbn [negb].
  apply wp_prepare; [done|]. intros st2 st HB HK. apply wp_bind, wp_cget, wp_bind. eapply (wp_mono _ (λ a c', a = r ∧ c' = set_k st c)).
  { exists r, (set_k st c). split; [|by split]. unfold get_menu. simpl. by rewrite S1. }
  intros ? ? [-> ->]. rewrite (header_text E _ _ HH). apply wp_bind.
  eapply wp_mono.
  { eapply (write_all st2 rank (computable_similar _ _ _ (rb_syms _ _ HB) HC) (rb_cleared _ _ HB) n) with (c0 := c) (root := c_root c); try done.
    - by rewrite <- size_dom, (similar_dom _ _ (rb_syms _ _ HB)), size_dom.
    - intros m r' Em. eapply rebased_menu; [done|by eapply S5].
    - by rewrite (rb_msym _ _ HB). }
  intros text c1 [Hc1 _ Ht HSl HK1]. set (items := file_items st2 rank (c_menus c) (header_items E version time) (orders ts)) in *.
  assert (∀ c2 l, c_k c2 = c_k c1 → c_stderr c2 = c_stderr c → c_io c2 = c_io c ++ IWrite (out_name dir base) text :: l →
    wp (onk (print ["#"; newline; "# configuration written to "; (dir +:+ base)%string; newline; "#"; newline]%string);;;
        onk (set_change_count (λ _ : Z, 0));;; ret 0) (λ (res : Z) c3, res = 0 ∧ ∃ text, wrote c c3 ts dir base time text) c2) as Hend.
  { intros c2 l E1 E2 E3. apply wp_bind, wp_onk, wp_upd, wp_bind, wp_onk, wp_upd, wp_ret. split; [done|]. exists text.
    constructor; [exists l; exact E3|exact E2|done|..]. 2: by rewrite <- (rebased_items stb rank st2 HB).
    exists st2, items. split; [done|]. split; [|done].
    rewrite E1. by apply (started_same (c_k c1)); [apply HK1|..]. }
  unfold log_io at 1. apply wp_bind, wp_cupd. apply wp_bind. unfold out_name in Hend. fold ow in Hend.
  assert (c_stderr c1 = c_stderr c ∧ c_io c1 = c_io c) as [F1 F2] by (unfold only_values in Hc1; rewrite Hc1; done).
  destruct ow.
  - apply wp_ret. cbn [negb]. eapply (Hend _ []); [done|done|]. simpl. by rewrite F2.
  - destruct D3 as ((D5 & D6) & D7); [done|]. apply wp_bind, wp_room; [done|]. apply wp_bind, wp_cupd, wp_bind, wp_cget, wp_bind, wp_cupd, wp_ret.
    rewrite D7. cbn [negb]. eapply (Hend _ [_; _]); [done|done|]. simpl. rewrite F2, <- !app_assoc. done.
Qed.

(** ** Reading it again *)

(** Every symbol with a prompt is the symbol of one of the menus. *)
Definition covered (c : conf) (ts : list mtree) : Prop := ∀ x yb p, x ∈ concat (k_hash stb) → k_syms stb !! x = Some yb →
  p ∈ y_prop yb → is_prompt p = true → ∃ m r, m ∈ orders ts ∧ c_menus c !! m = Some r ∧ mn_sym r = Some x.
(** The bounds of ranges are in order, and those of hex numbers not negative. *)
Definition ordered : Prop := ∀ x yb base p a b, x ∈ concat (k_hash stb) → k_syms stb !! x = Some yb → base_of (y_type yb) = Some base →
  first_of V is_range (y_prop yb) = Some p → pr_expr p = Some (ERange a b) →
  bound V base a ≤ bound V base b ∧ (y_type yb = S_HEX → 0 ≤ bound V base a).
(** A number that was put into its range stays as it is. *)
Definition in_ranges : Prop := ∀ x yb, x ∈ concat (k_hash stb) → k_syms stb !! x = Some yb → ranged V yb (s_val (V x)) = s_val (V x).

Lemma ordered_ranges : ordered → in_ranges.
Proof using HC HL.
  intros HO x yb Hx Eb. destruct (base_of (y_type yb)) as [base|] eqn:Hb; [|unfold ranged; by rewrite Hb].
  assert (s_val (V x) = ranged V yb (str_of V mv yb)) as ->.
  { unfold V. rewrite (value_of_equation _ _ _ (cp_ranks _ _ HC) _ _ Eb). unfold equation. rewrite (not_valid stb HL x yb Hx Eb).
    by destruct (y_type yb). }
  unfold ranged. rewrite Hb. destruct (first_of V is_range (y_prop yb)) as [p|] eqn:Ep; [|done].
  destruct (pr_expr p) as [[]|] eqn:Ee; try done. destruct (HO x yb base p _ _ Hx Eb Hb Ep Ee). by apply in_range_again.
Qed.
Lemma unsaved_invisible y : saved_of V mv y = false → vis_of V mv y = Tno.
Proof using.
  intros [H _]%orb_false_iff. apply bool_decide_eq_false in H. apply dec_stable in H. destruct (is_bool_type (y_type y)); [|done].
  by destruct (vis_of V mv y), (rev_of V mv y).
Qed.
Lemma unprompted_invisible y : (∀ p, p ∈ y_prop y → is_prompt p = false) → vis_of V mv y = Tno.
Proof using.
  intros H. unfold vis_of. assert (prompt_conds V (y_prop y) = []) as ->; [|done]. unfold prompt_conds.
  assert (filter (λ p, is_prompt p = true) (y_prop y) = []) as ->; [|done]. induction (y_prop y) as [|p l IH]; [done|].
  rewrite filter_cons_False by (rewrite (H p); [done|by left]). apply IH. intros q Hq. apply H. by right.
Qed.
Lemma read_ok (E' : env) c c1 ts dir base time text nm junk : wrote c c1 ts dir base time text → covered c ts → in_ranges →
  e_read E' (c_io c1) nm = Some text →
  wp (conf_read_simple E' n (Some nm) DefUser junk) (λ res c2, res = 0 ∧ c_warnings c2 = 0 ∧ c_stderr c2 = c_stderr c ∧
    ∀ l, Forall (.∈ dom (k_syms stb)) l → wp (calc_list n l) (λ _ st, ∀ x, x ∈ l → ∃ y, k_syms st !! x = Some y ∧ info y = V x) (c_k c2)) c1.
Proof using HC HL HA Htbl Hn.
  intros [_ W2 _ (st2 & items & HB & HS & -> & [S1 S2 S3 S4 S5]) _] Hcov Hrng Hrd.
  pose proof (computable_similar _ _ _ (rb_syms _ _ HB) HC) as HC2. pose proof (rebased_agrees stb rank st2 HB HA) as HA2.
  assert (dom (k_syms st2) = dom (k_syms stb)) as Hdom by apply (similar_dom _ _ (rb_syms _ _ HB)).
  assert (size (k_syms st2) < n)%nat as Hn2 by by rewrite <- size_dom, Hdom, size_dom.
  assert (∀ e, e ∈ entries items → e = entry_of st2 rank (en_sym e) ∧ writable st2 rank (en_sym e)) as Hes.
  { intros e He. destruct (S4 e He) as (A & B & _). done. }
  assert (∀ x, value_of (k_syms st2) (k_modules_val st2) (S (rank x)) x = V x) as HV by (intros; by apply rebased_value).
  assert (∀ e yb, e ∈ entries items → k_syms st2 !! en_sym e = Some yb →
    ranged (λ x, value_of (k_syms st2) (k_modules_val st2) (S (rank x)) x) yb (s_val (value_of (k_syms st2) (k_modules_val st2) (S (rank (en_sym e))) (en_sym e))) =
    s_val (value_of (k_syms st2) (k_modules_val st2) (S (rank (en_sym e))) (en_sym e))) as Hstay.
  { intros e y2 He E2. destruct (rebased_sym stb st2 HB _ _ E2) as (y & Ey & HSy). rewrite (ranged_ext _ V) by (intros; apply HV).
    rewrite HV, (recast_ranged V y y2) by (by apply config_recast, HSy). apply Hrng; [|done]. rewrite <- (rb_hash _ _ HB). by apply Hes. }
  assert (∀ x y2, x ∈ concat (k_hash st2) → k_syms st2 !! x = Some y2 → known (y_type y2) = true → x ∉ en_sym <$> entries items →
    vis_of (λ x, value_of (k_syms st2) (k_modules_val st2) (S (rank x)) x) (k_modules_val st2) y2 = Tno ∨ sym_has_value y2 = false) as Hcover.
  { intros x y2 Hx E2 _ Hnin. left. destruct (rebased_sym stb st2 HB _ _ E2) as (y & Ey & HSy). rewrite (rb_hash _ _ HB) in Hx.
    rewrite (rb_mval _ _ HB). rewrite (vis_of_ext _ V) by (intros; rewrite <- (rb_mval _ _ HB); apply HV).
    rewrite (same_vis V _ _ _ (si_config _ _ HSy)). destruct (saved_of V mv y) eqn:Hsv; [|by apply unsaved_invisible].
    apply unprompted_invisible. intros p Hp. apply not_true_iff_false. intros Hpr. destruct (Hcov x y p Hx Ey Hp Hpr) as (m & r & Hm & Em & Es).
    apply Hnin, (S5 m r x y2); try done. by rewrite (rebased_saved stb rank st2 HB y y2). }
  unfold conf_read_simple, open_config, zconf_fopen. apply wp_bind, wp_bind, wp_bind, wp_cget. rewrite Hrd. apply wp_ret, wp_ret. cbn [option_map].
  apply wp_bind. eapply wp_mono.
  { eapply (load_config_ok st2 rank HC2 (rb_cleared _ _ HB) HA2 n Hn2 tbl) with (items := items); try done.
    by eapply rebased_indexes. }
  intros [] c2 (st & HR & HS2 & Hm2 & F1 & F2 & F3 & F4). apply wp_ret. split; [done|]. split; [done|]. split; [congruence|].
  intros l Hl. eapply wp_mono.
  { eapply (restored_calc st2 rank HC2 (rb_cleared _ _ HB) HA2 n Hn2 items) with (st := st); try done. by rewrite Hdom. }
  intros [] st' Hv x Hx. destruct (Hv x Hx) as (y & Ey & Hi). exists y. split; [done|]. rewrite Hi. apply HV.
Qed.
End write.
