(* ===== verification/KConfThm.v ===== *)
(** * The configuration file: the properties of confdata.c *)

From stdpp Require Import base numbers list option strings gmap.
From Stdlib Require Import Ascii.
From S2P Require Import Prelude CString KExpr KSymbol KSymbolEnds KSymbolCheck KSymbolTable KSymbolRef KSymbolCalc KSymbolSet KSymbolThm.
From S2P Require Import KConf KConfWrite KConfLine KConfText KConfFixed KConfMenus KConfSave KConfLoad KConfAny KConfRound.
Local Open Scope Z_scope.
Local Open Scope c_scope.

(** ** An example *)

(** The symbols of a configuration with a string that needs quotes, a number
    with a range, and a tristate that depends on another one. *)
Definition NAME : symbol := 7%positive.
Definition VERSION : symbol := 13%positive.
Definition the_modules' : symbol := 15%positive.
Definition quoting : string := String quote_char (String "a" (String backslash_char EmptyString)).
Definition with_value (s : symbol) (v : symbol_value) : K unit := mod_sym s (λ y, set_def v (add_flags SYMBOL_DEF_USER y)).
Definition saved_demo : kst := left_by (
  lookups [("FOO", false); ("BAR", false); ("NAME", false); ("NUM", false); ("10", true); ("20", true); ("5", true);
           ("MODULES", false); ("KERNELVERSION", false); ("2.6.19", true)]%string;;;
  m <- sym_lookup None false;;
  declare m S_BOOLEAN [default_if (ESymbol MODULES) None] None;;;
  set_modules_sym m;;;
  declare MODULES S_BOOLEAN [prompt_if None; default_if (ESymbol symbol_yes) None] None;;;
  declare FOO S_TRISTATE [prompt_if None; default_if (ESymbol symbol_mod) (Some (ESymbol m))] None;;;
  declare BAR S_TRISTATE [prompt_if (Some (ESymbol FOO))] None;;;
  with_value BAR (Value VNull Tyes);;;
  declare NAME S_STRING [prompt_if None] None;;;
  with_value NAME (Value (VStr 100 quoting) Tno);;;
  declare NUM S_INT [prompt_if None; range_if 9%positive 10%positive None; default_if (ESymbol 11%positive) (Some (ESymbol FOO))] None;;;
  declare VERSION S_STRING [default_if (ESymbol 14%positive) None] None;;;
  set_modules_val Tyes) init_kst.
Definition saved_rank (s : symbol) : nat :=
  if bool_decide (s = BAR ∨ s = NUM) then 4%nat else if bool_decide (s = FOO) then 3%nat
  else if bool_decide (s = the_modules') then 2%nat else if bool_decide (s = MODULES ∨ s = VERSION) then 1%nat else 0%nat.

(** The menu "Things" with FOO, which has BAR below it, NAME and NUM; NUM comes
    a second time at the end. *)
Definition entry_menu (next parent list : option menu) (s : symbol) : menu_rec := Menu next parent list (Some s) (Some (PromptOf s 0)).
Definition title_menu (next parent list : option menu) (text : string) : menu_rec :=
  Menu next parent list None (Some (PromptOwn (Property P_MENU (Some text) None Tno None None))).
Definition saved_menus : gmap menu menu_rec := list_to_map [
  (1, title_menu None None (Some 2) "Linux Kernel Configuration");
  (2, entry_menu (Some 3) (Some 1) None MODULES);
  (3, title_menu (Some 8) (Some 1) (Some 4) "Things");
  (4, entry_menu (Some 6) (Some 3) (Some 5) FOO);
  (5, entry_menu None (Some 4) None BAR);
  (6, entry_menu (Some 7) (Some 3) None NAME);
  (7, entry_menu None (Some 3) None NUM);
  (8, entry_menu None (Some 1) None NUM)]%positive.
Definition saved_tree : list mtree :=
  [Node 2 []; Node 3 [Node 4 [Node 5 []]; Node 6 []; Node 7 []]; Node 8 []]%positive.
Definition conf_with (st : kst) : conf := Conf st saved_menus 1%positive None "" 0 0 0 [] [].
Definition quiet_env : env := Env (λ _, None) (λ _ _, None) (λ _ _, false) (λ _ _, false) (λ _ _, true) (λ _ _ _, true)
  (λ _ _, true) (λ _ _, true) (λ _ _, OpenOk) "1" ("Wed Nov 29 21:57:37 2006" +:+ newline).

(** ** The conditions, decided *)

Definition writable_b (stb : kst) (rank : symbol → nat) (x : symbol) : bool :=
  bool_decide (x ∈ concat (k_hash stb)) &&
  match k_syms stb !! x with
  | Some y => known (y_type y) && bool_decide (is_Some (y_name y)) && negb (has SYMBOL_CONST y) &&
      (negb (saved_of (λ x, value_of (k_syms stb) (k_modules_val stb) (S (rank x)) x) (k_modules_val stb) y) ||
       entry_ok (entry_of stb rank x) && bool_decide (String.length (entry_body (entry_of stb rank x)) < 1023)%nat)
  | None => false
  end.
Definition menu_ok_b (stb : kst) (rank : symbol → nat) (r : menu_rec) : bool :=
  match mn_sym r, mn_prompt r with
  | Some s, _ => writable_b stb rank s
  | None, None => true
  | None, Some (PromptOwn q) =>
      bool_decide (Forall (.∈ dom (k_syms stb)) (opt_syms (pr_vis q))) && comment (title q) && lacks newline_char (title q) &&
      bool_decide (String.length (title q) < 1023)%nat
  | None, Some (PromptOf _ _) => false
  end.
Lemma writable_decided stb rank x : writable_b stb rank x = true → writable stb rank x.
Proof.
  intros [Hx H]%andb_true_iff. apply bool_decide_eq_true in Hx. split; [done|]. destruct (k_syms stb !! x) as [y|]; [|done].
  apply andb_true_iff in H as [[[Hk Hn]%andb_true_iff Hc]%andb_true_iff Hs]. apply bool_decide_eq_true in Hn as [nm Hn].
  exists y, nm. split; [done|]. split; [done|]. split; [done|]. split; [by apply negb_true_iff in Hc|]. intros Hsv. rewrite Hsv in Hs.
  apply andb_true_iff in Hs as [He Hl]. by apply bool_decide_eq_true in Hl.
Qed.
Lemma menu_ok_decided stb rank r : menu_ok_b stb rank r = true → menu_ok stb rank r.
Proof.
  unfold menu_ok_b, menu_ok. destruct (mn_sym r); [apply writable_decided|]. destruct (mn_prompt r) as [[|q]|]; try done.
  intros [[[Hd Hc]%andb_true_iff Hl]%andb_true_iff Hn]%andb_true_iff. apply bool_decide_eq_true in Hd, Hn. rewrite Forall_forall in Hd. done.
Qed.

(** The table of the example. *)
Lemma saved_indexes : ∃ tbl, indexes saved_demo tbl ∧ tbl !! ("KERNELVERSION"%string, false) = Some VERSION.
Proof.
  destruct (lookups_spec [("FOO", false); ("BAR", false); ("NAME", false); ("NUM", false); ("10", true); ("20", true); ("5", true);
    ("MODULES", false); ("KERNELVERSION", false); ("2.6.19", true)]%string init_kst ∅ init_represents) as (r & st & tbl & E & HR & HF & _).
  destruct (lookup_nameless st tbl false HR) as (st' & E' & HR' & _). exists tbl. split.
  - apply (indexes_same st'); [by apply represents_indexes|..].
    + vm_compute in E. injection E as _ <-. vm_compute in E'. injection E' as <-. vm_compute. reflexivity.
    + intros x. vm_compute in E. injection E as _ <-. vm_compute in E'. injection E' as <-.
      match goal with |- key_of <$> k_syms ?a !! x = key_of <$> k_syms ?b !! x =>
        assert (key_of <$> k_syms a = key_of <$> k_syms b) as H by (vm_compute; reflexivity);
        apply (f_equal (.!! x)) in H; by rewrite !lookup_fmap in H end.
  - assert (r !! 8%nat = Some VERSION) as Hr by (vm_compute in E; injection E as <- _; reflexivity).
    destruct (Forall2_lookup_r _ _ _ _ _ HF Hr) as (k & Hk & Ha). injection Hk as <-. exact Ha.
Qed.

(** ** Writing and reading *)

(** A configuration without choices and recursion, its table, and steps of
    depth for the computation of its values. *)
Record configured (stb : kst) (rank : symbol → nat) (tbl : gmap (string * bool) symbol) (n : nat) (kv : symbol) : Prop := {
  cf_computable : computable stb rank;
  cf_cleared : cleared stb;
  cf_agrees : agrees stb rank;
  cf_table : indexes stb tbl;
  cf_version : tbl !! ("KERNELVERSION"%string, false) = Some kv;
  cf_steps : (size (k_syms stb) < n)%nat }.
Arguments cf_computable {_ _ _ _ _}.
Arguments cf_cleared {_ _ _ _ _}.
Arguments cf_agrees {_ _ _ _ _}.
Arguments cf_table {_ _ _ _ _}.
Arguments cf_version {_ _ _ _ _}.
Arguments cf_steps {_ _ _ _ _}.

(** The example has the properties that the theorems need. *)
Definition saved_conf : conf := conf_with (left_by (start 30) saved_demo).
Lemma saved_computable : computable saved_demo saved_rank.
Proof. apply computable_decided; [decided|reflexivity..]. Qed.
Lemma saved_cleared : cleared saved_demo.
Proof. apply cleared_decided; decided. Qed.
Lemma saved_agrees : agrees saved_demo saved_rank.
Proof. intros m Em. vm_compute in Em. injection Em as <-. split; [decided|vm_compute; reflexivity]. Qed.
Lemma saved_configured : ∃ tbl, configured saved_demo saved_rank tbl 30 VERSION.
Proof.
  destruct saved_indexes as (tbl & HI & Hv). exists tbl.
  constructor; [apply saved_computable|apply saved_cleared|apply saved_agrees|exact HI|exact Hv|]. vm_compute. lia.
Qed.
Lemma saved_ready : ready saved_demo saved_rank VERSION saved_conf.
Proof.
  left. destruct (start_kinv saved_demo saved_rank saved_computable saved_cleared saved_agrees 30) as ([] & st & E & HK).
  { vm_compute. lia. }
  unfold saved_conf, left_by. by rewrite E.
Qed.
Lemma saved_saveable : saveable saved_demo saved_rank saved_conf (title_menu None None (Some 2%positive) "Linux Kernel Configuration") saved_tree.
Proof.
  constructor; [vm_compute; reflexivity|reflexivity|reflexivity| | |intros H; vm_compute in H; discriminate H].
  - change (c_menus saved_conf) with saved_menus. change (c_root saved_conf) with 1%positive.
    repeat (eapply laid_nil || (eapply laid_cons; [vm_compute; reflexivity|reflexivity|simpl..])).
  - change (c_menus saved_conf) with saved_menus. intros m r Em. apply menu_ok_decided.
    assert (map_Forall (λ _ r, menu_ok_b saved_demo saved_rank r = true) saved_menus) as HF by decided. by apply (HF m r).
Qed.
Lemma saved_destination : destination quiet_env (Some ".config"%string) saved_conf "" ".config".
Proof.
  constructor; [reflexivity|unfold PATH_SIZE; simpl; lia| |reflexivity]. intros _. split; [|done]. unfold PATH_SIZE. simpl. lia.
Qed.
Lemma saved_header : header_ok quiet_env (version saved_demo saved_rank VERSION) "Wed Nov 29 21:57:37 2006".
Proof.
  assert (version saved_demo saved_rank VERSION = "2.6.19"%string) as -> by (vm_compute; reflexivity).
  constructor; [|reflexivity| |reflexivity]; split; try reflexivity; simpl; lia.
Qed.
Definition covered_b (stb : kst) (c : conf) (ts : list mtree) : bool :=
  forallb (λ x, match k_syms stb !! x with
    | Some y => forallb (λ p, negb (is_prompt p)) (y_prop y) || existsb (λ m, bool_decide ((c_menus c !! m ≫= mn_sym) = Some x)) (orders ts)
    | None => true end) (concat (k_hash stb)).
Lemma covered_decided stb c ts : covered_b stb c ts = true → covered stb c ts.
Proof.
  intros HF x yb p Hx Eb Hp Hpr. unfold covered_b in HF. rewrite forallb_forall in HF. specialize (HF x ltac:(by apply list_elem_of_In)).
  rewrite Eb in HF. apply orb_true_iff in HF as [HF|HF].
  - rewrite forallb_forall in HF. specialize (HF p ltac:(by apply list_elem_of_In)). by rewrite Hpr in HF.
  - apply existsb_exists in HF as (m & Hm%list_elem_of_In & Es). apply bool_decide_eq_true in Es.
    apply bind_Some in Es as (r & Em & Es). by exists m, r.
Qed.
Lemma saved_covered : covered saved_demo saved_conf saved_tree.
Proof. apply covered_decided. vm_compute. reflexivity. Qed.
Definition ordered_b (stb : kst) (rank : symbol → nat) : bool :=
  let V := λ x, value_of (k_syms stb) (k_modules_val stb) (S (rank x)) x in
  forallb (λ x, match k_syms stb !! x with
    | Some y =>
        match base_of (y_type y), first_of V is_range (y_prop y) with
        | Some base, Some p =>
            match pr_expr p with
            | Some (ERange a b) => bool_decide (bound V base a ≤ bound V base b) && (negb (bool_decide (y_type y = S_HEX)) || bool_decide (0 ≤ bound V base a))
            | _ => true
            end
        | _, _ => true
        end
    | None => true end) (concat (k_hash stb)).
Lemma ordered_decided stb rank : ordered_b stb rank = true → ordered stb rank.
Proof.
  intros HF x yb base p a b Hx Eb Hb Ep Ee. unfold ordered_b in HF. rewrite forallb_forall in HF. specialize (HF x ltac:(by apply list_elem_of_In)).
  rewrite Eb, Hb, Ep, Ee in HF. apply andb_true_iff in HF as [H1 H2]. apply bool_decide_eq_true in H1. split; [done|]. intros Ht.
  rewrite bool_decide_true in H2 by done. by apply bool_decide_eq_true in H2.
Qed.
Lemma saved_ordered : ordered saved_demo saved_rank.
Proof. apply ordered_decided. vm_compute. reflexivity. Qed.

(** C22: In a configuration without choices and recursion whose menus form a
    tree, conf_write ends and succeeds, and the file it writes consists of the
    header and then, in the order of the menus, the titles of the visible menus
    and one line for each symbol that is visible or has a default, with the
    value that the reference equations give it. *)
Theorem conf_write_reference E stb rank tbl n kv c fuel name dir base r ts time :
  configured stb rank tbl n kv → ready stb rank kv c → saveable stb rank c r ts → destination E name c dir base →
  header_ok E (version stb rank kv) time → (2 + 2 * length (orders ts) < fuel)%nat →
  ∃ c1 l, conf_write E n fuel name c = Ok (0, c1) ∧ k_change_count (c_k c1) = 0 ∧
    c_io c1 = c_io c ++ IWrite (out_name E dir base)
      (join (item_body <$> file_items stb rank (c_menus c) (header_items E (version stb rank kv) time) (orders ts))) :: l.
Proof.
  intros HF HR HS HD HH Hf.
  destruct (write_ok E stb rank (cf_computable HF) (cf_cleared HF) (cf_agrees HF) tbl (cf_table HF) n (cf_steps HF) kv (cf_version HF)
    fuel name c dir base r ts time HR HS HD HH Hf) as (res & c1 & Ec & -> & text & [[l Hl] _ Hc _ ->]).
  by exists c1, l.
Qed.

Lemma conf_write_reference_witness :
  ∃ c1 l, conf_write quiet_env 30 40 (Some ".config"%string) saved_conf = Ok (0, c1) ∧ k_change_count (c_k c1) = 0 ∧
    c_io c1 = IWrite ".tmpconfig.1" (join (item_body <$> [Comment "#"; Comment "# Automatically generated make config: don't edit";
      Comment "# Linux kernel version: 2.6.19"; Comment "# Wed Nov 29 21:57:37 2006"; Comment "#"; Saved (Entry MODULES "MODULES" S_BOOLEAN Tyes "n");
      Comment ""; Comment "#"; Comment "# Things"; Comment "#"; Saved (Entry FOO "FOO" S_TRISTATE Tmod "n");
      Saved (Entry BAR "BAR" S_TRISTATE Tmod "n"); Saved (Entry NAME "NAME" S_STRING Tno quoting); Saved (Entry NUM "NUM" S_INT Tno "10")])%string) :: l.
Proof.
  destruct saved_configured as (tbl & HF).
  destruct (conf_write_reference quiet_env saved_demo saved_rank tbl 30 VERSION saved_conf 40 (Some ".config"%string) "" ".config" _ saved_tree
    "Wed Nov 29 21:57:37 2006" HF saved_ready saved_saveable saved_destination saved_header) as (c1 & l & E & Hc & Hl).
  { vm_compute. lia. }
  exists c1, l. split; [exact E|]. split; [exact Hc|]. rewrite Hl. vm_compute. reflexivity.
Defined.

(** C21: A configuration that was written is read back as it is, if it can be
    read at all.  The conditions: no choices and no recursion; every symbol
    with a prompt is in the menus, and the symbols of the menus have types and
    names of letters, digits and underscores; the bounds of ranges are in
    order, those of hex symbols not negative; an int or hex symbol that is
    saved has a number as its value, not the empty string; no string and no
    title has a newline, no title reads like the line of an unset symbol, and
    no line is longer than the 1023 characters that the buffer takes.  Then
    conf_write, if it can open and rename its files, writes a text from which
    conf_read_simple, wherever it finds it, restores the values of all symbols
    without a warning, whatever the line buffer held. *)
Theorem saved_configuration_restored E stb rank tbl n kv c fuel name dir base r ts time :
  configured stb rank tbl n kv → ready stb rank kv c → saveable stb rank c r ts → destination E name c dir base →
  header_ok E (version stb rank kv) time → (2 + 2 * length (orders ts) < fuel)%nat →
  covered stb c ts → ordered stb rank →
  ∃ text c1 l, conf_write E n fuel name c = Ok (0, c1) ∧ c_io c1 = c_io c ++ IWrite (out_name E dir base) text :: l ∧
    ∀ E' nm junk, e_read E' (c_io c1) nm = Some text →
      ∃ c2, conf_read_simple E' n (Some nm) DefUser junk c1 = Ok (0, c2) ∧ c_warnings c2 = 0 ∧ c_stderr c2 = c_stderr c ∧
        ∀ l, Forall (.∈ dom (k_syms stb)) l → ∃ st, calc_list n l (c_k c2) = Ok (tt, st) ∧
          ∀ x, x ∈ l → ∃ y, k_syms st !! x = Some y ∧ info y = value_of (k_syms stb) (k_modules_val stb) (S (rank x)) x.
Proof.
  intros HF HR HS HD HH Hf Hcov Hrng.
  destruct (write_ok E stb rank (cf_computable HF) (cf_cleared HF) (cf_agrees HF) tbl (cf_table HF) n (cf_steps HF) kv (cf_version HF)
    fuel name c dir base r ts time HR HS HD HH Hf) as (res & c1 & Ec & -> & text & HW).
  destruct (wr_log _ _ _ _ _ _ _ _ _ _ _ HW) as [l Hl]. exists text, c1, l. split; [done|]. split; [done|]. intros E' nm junk Hrd.
  destruct (read_ok E stb rank (cf_computable HF) (cf_cleared HF) (cf_agrees HF) tbl (cf_table HF) n (cf_steps HF) kv
    E' c c1 ts dir base time text nm junk HW Hcov (ordered_ranges stb rank (cf_computable HF) (cf_cleared HF) Hrng) Hrd) as (res & c2 & Er & -> & Hw & He & Hv).
  exists c2. split; [done|]. split; [done|]. split; [done|]. intros l' Hl'. destruct (Hv l' Hl') as ([] & st & Es & H). by exists st.
Qed.
Lemma saved_configuration_restored_witness :
  ∃ text c1 l, conf_write quiet_env 30 40 (Some ".config"%string) saved_conf = Ok (0, c1) ∧ c_io c1 = IWrite ".tmpconfig.1" text :: l ∧
    ∀ E' nm junk, e_read E' (c_io c1) nm = Some text →
      ∃ c2, conf_read_simple E' 30 (Some nm) DefUser junk c1 = Ok (0, c2) ∧ c_warnings c2 = 0 ∧ c_stderr c2 = [] ∧
        ∃ st, calc_list 30 [NAME; BAR] (c_k c2) = Ok (tt, st) ∧
          (info <$> k_syms st !! NAME) = Some (Syminfo S_STRING false (Some "NAME"%string) Tno quoting) ∧
          (info <$> k_syms st !! BAR) = Some (Syminfo S_TRISTATE false (Some "BAR"%string) Tmod "n").
Proof.
  destruct saved_configured as (tbl & HF).
  destruct (saved_configuration_restored quiet_env saved_demo saved_rank tbl 30 VERSION saved_conf 40 (Some ".config"%string) "" ".config" _ saved_tree
    "Wed Nov 29 21:57:37 2006" HF saved_ready saved_saveable saved_destination saved_header) as (text & c1 & l & E & Hl & Hrd).
  { vm_compute. lia. } { exact saved_covered. } { exact saved_ordered. }
  exists text, c1, l. split; [exact E|]. split; [exact Hl|]. intros E' nm junk He. destruct (Hrd E' nm junk He) as (c2 & Er & Hw & Hs & Hv).
  exists c2. split; [exact Er|]. split; [exact Hw|]. split; [exact Hs|]. destruct (Hv [NAME; BAR]) as (st & Es & H); [decided|].
  exists st. split; [exact Es|]. split.
  - destruct (H NAME) as (y & -> & Hy); [left|]. simpl. rewrite Hy. vm_compute. reflexivity.
  - destruct (H BAR) as (y & -> & Hy); [right; left|]. simpl. rewrite Hy. vm_compute. reflexivity.
Defined.

(** ** Any file *)

(** C23: conf_read_simple reads whatever it finds: for any text and whatever the
    line buffer held, choices included, no line makes it fail; only user values
    change, and those of numbers and strings are valid; what is left is the
    computation of modules_sym, which does not fail either in a configuration
    without choices and recursion. *)
Theorem any_file_read E n tbl c nm text junk :
  searchable tbl (c_k c) → (∀ x y, k_syms (c_k c) !! x = Some y → choice_typed y) → e_read E (c_io c) nm = Some text →
  ∃ c1, conf_read_simple E n (Some nm) DefUser junk c = (onk (start n);;; ret 0) c1 ∧
    reread (c_k c) (c_k c1) ∧ c_io c1 = c_io c ∧ 0 ≤ c_warnings c1 ∧
    ∀ stb rank, computable stb rank → cleared stb → started stb rank (c_k c) →
      (∀ m, k_modules_sym stb = Some m → m ∈ dom (k_syms stb)) → (size (k_syms stb) < n)%nat →
      ∃ c2, conf_read_simple E n (Some nm) DefUser junk c = Ok (0, c2) ∧ config (c_k c2) = config (c_k c1).
Proof.
  intros HS Hct He. destruct (load_any tbl n nm text junk c HS Hct) as (c1 & El & HR & Hio & Hw). exists c1.
  assert (conf_read_simple E n (Some nm) DefUser junk c = (onk (start n);;; ret 0) c1) as Er.
  { unfold conf_read_simple, open_config. rewrite (bind_ok _ _ _ (Some (nm, text)) c); [unfold bind; by rewrite El|].
    unfold zconf_fopen, bind, cget. by rewrite He. }
  split; [done|]. split; [done|]. split; [done|]. split; [done|]. intros stb rank HC HL Hst Hm Hn.
  destruct (reread_starts stb rank n (c_k c) (c_k c1) HC HL Hst Hm Hn HR) as ([] & st2 & E2 & H2).
  exists (set_k st2 c1). split; [|done]. rewrite Er. unfold bind, onk. by rewrite E2.
Qed.

(** The example with a file of all kinds of lines. *)
Definition odd_text : string := join ["CONFIG_FOO=maybe"; "CONFIG_NUM=1x"; "CONFIG_NOTHING=y"; "CONFIG_NAME=quotes"; "nonsense";
  "CONFIG_NUM=12"; "CONFIG_NUM=13"; "# CONFIG_BAR is not set"; "CONFIG_y=n"]%string.
Definition odd_env : env := Env (λ _, None) (λ _ _, Some odd_text) (λ _ _, false) (λ _ _, false) (λ _ _, true) (λ _ _ _, true)
  (λ _ _, true) (λ _ _, true) (λ _ _, OpenOk) "1" "".
Lemma saved_searchable : ∃ tbl, searchable tbl saved_demo.
Proof.
  destruct saved_indexes as (tbl & HI & _). exists tbl.
  assert (map_Forall (λ _ y, y_type y ≠ S_OTHER ∧ sym_is_choice_value y = false) (k_syms saved_demo)) as HF by decided.
  constructor; [done| |intros x y E; by apply (HF x)|intros x y E Hc; destruct (HF x y E) as [_ H]; congruence].
  intros m s Hm. unfold const_name in Hm.
  repeat (case_bool_decide; [injection Hm as <-; apply elem_of_dom; vm_compute; eauto|]). done.
Qed.
Lemma any_file_read_witness :
  ∃ c2, conf_read_simple odd_env 30 (Some ".config"%string) DefUser "" (conf_with saved_demo) = Ok (0, c2) ∧
    (λ y, v_val (y_def y)) <$> k_syms (c_k c2) !! NUM = Some (VStr 16 "12").
Proof.
  destruct saved_searchable as (tbl & HS).
  destruct (any_file_read odd_env 30 tbl (conf_with saved_demo) ".config" odd_text "" HS) as (c1 & E & HR & _ & _ & H).
  - assert (map_Forall (λ _ y, sym_is_choice y = false) (k_syms saved_demo)) as HF by decided.
    cbn [c_k conf_with]. intros x y Ex Hc. pose proof (HF x y Ex) as Hf. cbv beta in Hf. exfalso. congruence.
  - reflexivity.
  - destruct (H saved_demo saved_rank saved_computable saved_cleared) as (c2 & E2 & _).
    + cbn [c_k conf_with]. apply started_refl, saved_computable.
    + intros m Em. vm_compute in Em. injection Em as <-. decided.
    + vm_compute. lia.
    + exists c2. split; [exact E2|]. clear H E HR HS c1. vm_compute in E2. injection E2 as <-. vm_compute. reflexivity.
Defined.
