(* ===== verification/KConfSplit.v ===== *)
(** * The files of changed symbols (conf_split_config)

    Before the configuration is written for the build, a file is touched for
    every symbol whose value is not the one of the last auto.conf.  These files
    are what the dependencies that fixdep prints name. *)

From stdpp Require Import base numbers list option strings gmap.
From Stdlib Require Import Ascii.
From S2P Require Import Prelude CString KExpr KSymbol KSymbolEnds KSymbolRef KSymbolCalc KSymbolSet.
From S2P Require Import KConf KConfWrite KConfLine KConfText KConfFixed KConfMenus KConfSave KConfRound.
Local Open Scope Z_scope.
Local Open Scope c_scope.

(** The files that were touched; touching and making directories. *)
Definition touches (l : list io) : list string := omap (λ e, match e with ITouch p => Some p | _ => None end) l.
Definition prepares (e : io) : bool := match e with ITouch _ | IMkdir _ => true | IChdir _ | IWrite _ _ | IRename _ _ => false end.
Lemma touches_app a b : touches (a ++ b) = touches a ++ touches b.
Proof. apply omap_app. Qed.

Section env.
Context (E : env).

(** The system carried out an operation that comes after [h], and all those of
    a list; what was written is in the log only if its file could be opened. *)
Definition works (h : list io) (e : io) : bool :=
  match e with
  | IRename a b => e_rename E h a b
  | ITouch p => match e_open E h p with OpenOk => true | OpenNoent | OpenErr => false end
  | IMkdir p => e_mkdir E h p
  | IChdir p => e_chdir E h p
  | IWrite _ _ => true
  end.
Fixpoint worked (h l : list io) : bool :=
  match l with [] => true | e :: l' => works h e && worked (h ++ [e]) l' end.
Lemma worked_app a : ∀ h b, worked h (a ++ b) = worked h a && worked (h ++ a) b.
Proof using.
  induction a as [|e a IH]; intros h b; cbn [worked app]; [by rewrite app_nil_r|].
  by rewrite IH, <- app_assoc, andb_assoc.
Qed.

(** From [c] to [c'] files were touched and nothing else was done; all of it
    worked, if [ok]. *)
Definition prepared (ok : bool) (c c' : conf) (paths : list string) : Prop :=
  ∃ l, c_io c' = c_io c ++ l ∧ touches l = paths ∧ forallb prepares l = true ∧ (ok = true → worked (c_io c) l = true).
Lemma prepared_refl ok c c' : c_io c' = c_io c → prepared ok c c' [].
Proof using. intros H. exists []. by rewrite app_nil_r. Qed.
Lemma prepared_trans ok c c1 c2 a b : prepared true c c1 a → prepared ok c1 c2 b → prepared ok c c2 (a ++ b).
Proof using.
  intros (l1 & I1 & <- & F1 & W1) (l2 & I2 & <- & F2 & W2). exists (l1 ++ l2). rewrite forallb_app, F1, F2.
  split; [by rewrite I2, I1, app_assoc|]. split; [apply touches_app|]. split; [done|]. intros Hok.
  by rewrite worked_app, W1, <- I1, W2.
Qed.

(** Making directories touches nothing, and does not change the symbols. *)
Definition logged (ok : bool) (c c' : conf) (paths : list string) : Prop := c_k c' = c_k c ∧ prepared ok c c' paths.
Lemma logged_refl ok c : logged ok c c [].
Proof using. split; [done|]. by apply prepared_refl. Qed.
Lemma logged_trans ok c c1 c2 a b : logged true c c1 a → logged ok c1 c2 b → logged ok c c2 (a ++ b).
Proof using. intros [K1 H1] [K2 H2]. split; [congruence|]. by eapply prepared_trans. Qed.
Lemma logged_any ok c c' a : logged true c c' a → logged ok c c' a.
Proof using. intros [K (l & I & T & F & W)]. split; [done|]. exists l. auto. Qed.
Lemma wp_log e Q c : prepares e = true → (∀ c', logged (works (c_io c) e) c c' (touches [e]) → Q tt c') → wp (log_io e) Q c.
Proof using.
  intros He H. apply wp_cupd, H. split; [done|]. exists [e]. cbn [forallb worked]. rewrite He, !andb_true_r. auto.
Qed.
Lemma make_dirs_ok rest : ∀ done c, wp (make_dirs E done rest) (λ b c', logged b c c' []) c.
Proof using.
  induction rest as [|a rest IH]; intros dn c; cbn [make_dirs]; [apply wp_ret, logged_refl|]. case_bool_decide; [|apply IH].
  apply wp_bind, wp_cget. destruct (e_exists E (c_io c) dn); [apply IH|]. apply wp_bind, wp_log; [done|]. intros c1 H1. cbn [works] in H1.
  destruct (e_mkdir E (c_io c) dn); [|by apply wp_ret]. eapply wp_mono; [apply IH|]. intros b c2 H2. by apply (logged_trans b c c1 c2 [] []).
Qed.
(** A file is touched, or the result is false. *)
Lemma touch_ok p c : wp (touch E p) (λ b c', logged b c c' (if b : bool then [p] else [])) c.
Proof using.
  unfold touch. apply wp_bind, wp_cget. destruct (e_open E (c_io c) p) eqn:Eo.
  - apply wp_bind, wp_log; [done|]. intros c1 H1. cbn [works] in H1. rewrite Eo in H1. by apply wp_ret.
  - apply wp_bind. eapply wp_mono; [apply make_dirs_ok|]. intros b c1 H1. destruct b; cbn [negb]; [|by apply wp_ret].
    apply wp_bind, wp_cget. destruct (e_open E (c_io c1) p) eqn:Eo1; [|by apply wp_ret, logged_any..]. apply wp_bind, wp_log; [done|]. intros c2 H2.
    cbn [works] in H2. rewrite Eo1 in H2. apply wp_ret. by apply (logged_trans true c c1 c2 [] [p]).
  - apply wp_ret, logged_refl.
Qed.
End env.

Section split.
Context (E : env) (stb : kst) (rank : symbol → nat) (HC : computable stb rank) (HL : cleared stb).
Context (n : nat) (Hn : (size (k_syms stb) < n)%nat).
Let mv : tristate := k_modules_val stb.
Let V (x : symbol) : syminfo := value_of (k_syms stb) mv (S (rank x)) x.

(** The value of the symbol is not the one in auto.conf, which has no lines
    for the value n.  The marks of a symbol without a type stay as they are. *)
Definition out_of_date (x : symbol) (y : sym) : bool :=
  if negb (known (y_type y)) then has SYMBOL_WRITE y || has SYMBOL_DEF_AUTO y
  else if saved_of V mv y then
    if has SYMBOL_DEF_AUTO y then
      if is_bool_type (y_type y) then bool_decide (s_tri (V x) ≠ v_tri (y_auto y))
      else bool_decide (s_val (V x) ≠ val_string (v_val (y_auto y)))
    else negb (is_bool_type (y_type y)) || bool_decide (s_tri (V x) ≠ Tno)
  else has SYMBOL_DEF_AUTO y.
Definition stale_path (x : symbol) : option string :=
  match k_syms stb !! x with
  | Some y => if has SYMBOL_AUTO y then None else match y_name y with Some nm => if out_of_date x y then Some (symbol_path nm) else None | None => None end
  | None => None
  end.
(** A symbol of the table whose value in auto.conf is a string if it has to be;
    the path fits into its buffer. *)
Record splittable (x : symbol) : Prop := {
  sp_table : x ∈ concat (k_hash stb);
  sp_auto y : k_syms stb !! x = Some y → has SYMBOL_DEF_AUTO y = true → is_bool_type (y_type y) = false → is_str (v_val (y_auto y)) = true;
  sp_path p : stale_path x = Some p → (String.length p < PATH_SIZE)%nat }.

(** The mark for writing of a symbol that was computed. *)
Lemma mark_of st x y yb : kinv stb rank [] st → valid st x → x ∈ concat (k_hash stb) → k_syms st !! x = Some y →
  config_of y = config_of yb → known (y_type y) = true → has SYMBOL_WRITE y = saved_of V mv yb.
Proof using.
  intros HK Hv Hx Ey Hc Hk. destruct (ki_marked _ _ _ _ HK x Hv Hx) as (z & Ez & Hw). assert (z = y) as -> by congruence.
  rewrite (Hw Hk), bool_decide_true, andb_true_r by apply not_elem_of_nil. apply (same_saved V mv _ _ Hc).
Qed.
Lemma value_changed_ok st x y yb : kinv stb rank [] st → valid st x → x ∈ concat (k_hash stb) → k_syms st !! x = Some y → k_syms stb !! x = Some yb →
  splittable x → value_changed y = Ok (out_of_date x yb).
Proof using HC HL.
  intros HK Hv Hx Ey Eb [_ Ha _]. specialize (Ha yb Eb).
  destruct (started_config _ _ _ _ _ (ki_started _ _ _ _ HK) Ey) as (yb' & Eb' & Hc). assert (yb' = yb) as -> by congruence.
  destruct (same_fields _ _ Hc) as (_ & Ht & _). destruct (same_auto_flags _ _ Hc) as [Hda _]. pose proof (same_auto _ _ Hc) as Hau.
  destruct (known (y_type yb)) eqn:Hk.
  2: { unfold value_changed, out_of_date. rewrite Hda, Ht, Hk, (ki_unknown _ _ _ _ HK x yb y Eb Ey Hk). cbn [negb].
       destruct (has SYMBOL_WRITE yb), (has SYMBOL_DEF_AUTO yb); try done; by destruct (y_type yb). }
  pose proof (mark_of st x y yb HK Hv Hx Ey Hc ltac:(by rewrite Ht)) as Hw.
  destruct (kinv_value _ _ _ _ _ HK Hv) as (z & Ez' & Hi & Hs & _). assert (z = y) as -> by congruence. fold mv in Hi. change (info y = V x) in Hi.
  assert (sym_get_tristate_value y = s_tri (V x)) as Htri by by rewrite <- Hi. assert (val_string (v_val (y_curr y)) = s_val (V x)) as Hval by by rewrite <- Hi.
  unfold value_changed, out_of_date. rewrite Hw, Hda, Hau, Ht, Htri, Hk. cbn [negb]. destruct (saved_of V mv yb); [|done].
  destruct (has SYMBOL_DEF_AUTO yb); [|by destruct (y_type yb)]. unfold string_value. rewrite Ht. specialize (Ha eq_refl).
  destruct (is_bool_type (y_type yb)) eqn:Hb; [by destruct (y_type yb)|]. specialize (Ha eq_refl). rewrite <- Hval.
  destruct (v_val (y_curr y)) as [|a str|]; [done| |done]. destruct (v_val (y_auto yb)) as [|a' str'|]; [done| |done]. by destruct (y_type yb).
Qed.
Lemma split_symbol_ok x c : kinv stb rank [] (c_k c) → splittable x →
  wp (split_symbol E n x) (λ b c', kinv stb rank [] (c_k c') ∧ prepared E b c c' (if b : bool then option_list (stale_path x) else [])) c.
Proof using HC HL Hn.
  intros HK HS. destruct (cl_type _ HL x (sp_table _ HS)) as (yb & Eb & _). assert (x ∈ dom (k_syms stb)) as Hd by (apply elem_of_dom; eauto).
  unfold split_symbol. apply wp_bind, wp_onk. eapply (kinv_calc stb rank HC HL n Hn); [done|done|]. intros st1 HK1 Hv _. pose proof Hv as (y & Ey & _).
  apply wp_bind, wp_onk. eapply wp_get_sym; [done|]. set (c1 := set_k _ _).
  assert (kinv stb rank [] (c_k c1) ∧ c_io c1 = c_io c) as [HK' Hio] by done.
  destruct (started_config _ _ _ _ _ (ki_started _ _ _ _ HK1) Ey) as (yb' & Eb' & Hc). assert (yb' = yb) as -> by congruence.
  destruct (same_fields _ _ Hc) as (Hnm & _). destruct (same_auto_flags _ _ Hc) as [_ ->]. rewrite Hnm.
  assert (∀ b : bool, option_list (stale_path x) = [] → wp (ret b) (λ (b : bool) c', kinv stb rank [] (c_k c') ∧
    prepared E b c c' (if b then option_list (stale_path x) else [])) c1) as Hskip.
  { intros b Hp. apply wp_ret. split; [done|]. rewrite Hp. destruct b; by apply prepared_refl. }
  pose proof (sp_path _ HS) as Hpath. unfold stale_path in *. rewrite Eb in *. destruct (has SYMBOL_AUTO yb); [by apply Hskip|].
  destruct (y_name yb) as [nm|]; [|by apply Hskip].
  apply wp_bind. eapply wp_lift; [exact (value_changed_ok _ _ _ _ HK1 Hv (sp_table _ HS) Ey Eb HS)|].
  destruct (out_of_date x yb); cbn [negb]; [|by apply Hskip].
  apply wp_bind. eapply wp_lift; [by rewrite bool_decide_true by by apply Hpath|]. eapply wp_mono; [apply touch_ok|].
  intros b c2 [Hk Hp]. rewrite Hk. split; [done|]. by apply (prepared_trans E b c c1 c2 [] _ (prepared_refl E true _ _ Hio)).
Qed.

(** The symbols of the table have records. *)
Lemma table_record st x : kinv stb rank [] st → x ∈ concat (k_hash stb) →
  ∃ y yb, k_syms st !! x = Some y ∧ k_syms stb !! x = Some yb ∧ config_of y = config_of yb ∧ y_type y ≠ S_OTHER.
Proof using HL.
  intros HK Hx. destruct (cl_type _ HL x Hx) as (yb & Eb & Ht).
  assert (x ∈ dom (k_syms st)) as [y Ey]%elem_of_dom by (rewrite (config_dom stb st) by apply HK; apply elem_of_dom; eauto).
  destruct (started_config _ _ _ _ _ (ki_started _ _ _ _ HK) Ey) as (yb' & Eb' & Hc). assert (yb' = yb) as -> by congruence.
  exists y, yb. destruct (same_fields _ _ Hc) as (_ & Hty & _). by rewrite Hty.
Qed.

(** The files, in the order of the symbols; the first that cannot be touched
    is the last. *)
Lemma split_symbols_ok l : ∀ c, kinv stb rank [] (c_k c) → Forall splittable l →
  wp (split_symbols E n l) (λ b c', kinv stb rank [] (c_k c') ∧ ∃ ps, prepared E b c c' ps ∧
    if b : bool then ps = omap stale_path l else ps `prefix_of` omap stale_path l) c.
Proof using HC HL Hn.
  induction l as [|x l IH]; intros c HK HF; cbn [split_symbols].
  { apply wp_ret. split; [done|]. exists []. split; [by apply prepared_refl|done]. }
  inversion_clear HF as [|? ? HS HF']. destruct (table_record _ x HK (sp_table _ HS)) as (y & yb & Ey & Eb & Hc & Ht).
  apply wp_bind, wp_onk. eapply wp_get_sym; [done|]. rewrite bool_decide_false by done.
  apply wp_bind. assert (set_k (c_k c) c = c) as -> by by destruct c. eapply wp_mono; [by apply split_symbol_ok|].
  intros b c1 (HK1 & H1). cbn [omap list_omap]. destruct b.
  - eapply wp_mono; [by apply IH|]. intros b c2 (HK2 & ps & H2 & Hps). split; [done|]. eexists. split; [by eapply prepared_trans|].
    destruct (stale_path x) as [p|], b; simpl; try done; [by rewrite Hps|by apply prefix_cons].
  - apply wp_ret. split; [done|]. exists []. split; [done|]. apply prefix_nil.
Qed.

(** ** auto.conf and autoconf.h *)

Fixpoint all_text (l : list string) : string :=
  match l with [] => EmptyString | s :: l' => (s +:+ all_text l')%string end.
(** What is written for a symbol. *)
Definition auto_pair (x : symbol) : string * string :=
  match k_syms stb !! x with
  | Some y =>
      if known (y_type y) && saved_of V mv y then
        match y_name y with Some nm => auto_lines (y_type y) nm (s_tri (V x)) (s_val (V x)) | None => (EmptyString, EmptyString) end
      else (EmptyString, EmptyString)
  | None => (EmptyString, EmptyString)
  end.
Lemma auto_line_of st x y nm : settled stb rank st x → k_syms st !! x = Some y → y_name y = Some nm →
  ∃ str, printed_value y = Ok str ∧ auto_lines (y_type y) nm (sym_get_tristate_value y) str =
    auto_lines (y_type y) nm (s_tri (V x)) (s_val (V x)).
Proof using.
  intros (z & Ez & Hi & Hs & _) Ey Hnm. assert (z = y) as -> by congruence. change (info y = V x) in Hi. rewrite <- Hi.
  unfold info, printed_value, string_value, sym_get_tristate_value. simpl.
  destruct (v_val (y_curr y)) as [|a str|]; [done| |done]. destruct (y_type y); by eexists.
Qed.
Lemma auto_symbols_ok l : ∀ text head c, kinv stb rank [] (c_k c) → (∀ x, x ∈ l → x ∈ concat (k_hash stb)) →
  wp (auto_symbols n l text head) (λ r c', r = (text +:+ all_text (fst <$> (auto_pair <$> l)), head +:+ all_text (snd <$> (auto_pair <$> l)))%string ∧
    kinv stb rank [] (c_k c') ∧ c_io c' = c_io c) c.
Proof using HC HL Hn.
  induction l as [|x l IH]; intros text head c HK Hl; cbn [auto_symbols].
  { apply wp_ret. simpl. by rewrite !app_nil_str. }
  assert (x ∈ concat (k_hash stb)) as Hx by (apply Hl; left). destruct (table_record _ x HK Hx) as (y0 & yb & Ey0 & Eb & _ & Ht).
  apply wp_bind, wp_onk. eapply wp_get_sym; [done|]. rewrite bool_decide_false by done. apply wp_bind, wp_onk.
  eapply (kinv_calc stb rank HC HL n Hn); [done|apply elem_of_dom; eauto|]. intros st1 HK1 Hv _. pose proof Hv as (y & Ey & _).
  apply wp_bind, wp_onk. eapply wp_get_sym; [done|].
  destruct (started_config _ _ _ _ _ (ki_started _ _ _ _ HK1) Ey) as (yb' & Eb' & Hc). assert (yb' = yb) as -> by congruence.
  destruct (same_fields _ _ Hc) as (Hnm & Hty & _).
  assert (∀ a b, auto_pair x = (a, b) → wp (auto_symbols n l (text +:+ a)%string (head +:+ b)%string) (λ r c', r =
    (text +:+ all_text (fst <$> (auto_pair <$> x :: l)), head +:+ all_text (snd <$> (auto_pair <$> x :: l)))%string ∧
    kinv stb rank [] (c_k c') ∧ c_io c' = c_io c) (set_k st1 c)) as Hrest.
  { intros a b Hab. eapply wp_mono; [apply IH; [done|intros; apply Hl; by right]|]. intros r c' (-> & HK' & Hio). cbn [fmap list_fmap all_text].
    rewrite Hab. simpl. by rewrite !app_assoc_str. }
  assert (¬ (known (y_type yb) && saved_of V mv yb = true ∧ y_name yb ≠ None) → auto_pair x = (EmptyString, EmptyString)) as Hnone.
  { intros H. unfold auto_pair. rewrite Eb. destruct (known _ && saved_of _ _ _); [|done]. destruct (y_name yb); [|done]. exfalso. by apply H. }
  assert ((if has SYMBOL_WRITE y then y_name y else None) = None → wp (auto_symbols n l text head) (λ r c', r =
    (text +:+ all_text (fst <$> (auto_pair <$> x :: l)), head +:+ all_text (snd <$> (auto_pair <$> x :: l)))%string ∧
    kinv stb rank [] (c_k c') ∧ c_io c' = c_io c) (set_k st1 c)) as Hskip.
  { intros Hw. specialize (Hrest EmptyString EmptyString). rewrite !app_nil_str in Hrest. apply Hrest, Hnone. intros [Hs Hn'].
    apply andb_true_iff in Hs as [Hk Hs]. rewrite (mark_of st1 x y yb HK1 Hv Hx Ey Hc ltac:(congruence)), Hs in Hw. congruence. }
  destruct (has SYMBOL_WRITE y) eqn:Hw; [|by apply Hskip]. destruct (y_name y) as [nm|] eqn:En; [|by apply Hskip].
  destruct (auto_line_of st1 x y nm (kinv_value _ _ _ _ _ HK1 Hv) Ey En) as (str & Hp & Hl').
  apply wp_bind. eapply wp_lift; [done|]. rewrite Hl'. destruct (auto_lines (y_type y) nm (s_tri (V x)) (s_val (V x))) as [a b] eqn:Eab.
  apply Hrest. unfold auto_pair. rewrite Eb, <- Hnm, <- Hty, Eab.
  destruct (known (y_type y)) eqn:Hk; [|by destruct (y_type y)].
  by rewrite <- (mark_of st1 x y yb HK1 Hv Hx Ey Hc Hk), Hw.
Qed.
End split.
