(* ===== verification/KConfBuild.v ===== *)
(** * The files of the build (conf_split_config, conf_write_autoconf): properties

    What is touched and written for a configuration that is given to the build,
    and in which order. *)

From stdpp Require Import base numbers list option strings gmap.
From Stdlib Require Import Ascii.
From S2P Require Import Prelude CString KExpr KSymbol KSymbolEnds KSymbolCheck KSymbolTable KSymbolRef KSymbolCalc KSymbolSet KSymbolThm.
From S2P Require Import KConf KConfWrite KConfLine KConfText KConfFixed KConfMenus KConfSave KConfRound KConfThm KConfSplit.
Local Open Scope Z_scope.
Local Open Scope c_scope.

(** ** The parts *)

(** [conf_split_config] after auto.conf was read. *)
Definition split_rest (E : env) (n : nat) : C Z :=
  there <- chdir E "include/config";;
  if negb there then ret 1
  else
    h <- cget (λ c, k_hash (c_k c));;
    ok <- split_symbols E n (concat h);;
    back <- chdir E "../..";;
    ret (if negb back then 1 else if (ok : bool) then 0 else 1).
(** What comes before in [conf_write_autoconf]. *)
Definition read_auto (E : env) (n : nat) (junk : string) : C Z := conf_read_simple E n (Some (autoconf_name E)) DefAuto junk.
Definition before_split (E : env) (n : nat) (files : list string) (junk : string) : C Z :=
  onk (sym_clear_all_valid n);;;
  file_write_dep E files (Some "include/config/auto.conf.cmd"%string);;;
  read_auto E n junk.

(** An operation of the log puts a new file in the place of [p]. *)
Definition puts (E : env) (p : string) (h : list io) (e : io) : bool :=
  match e with
  | IWrite q _ => bool_decide (q = p)
  | IRename from q => bool_decide (q = p) && e_rename E h from q
  | ITouch _ | IMkdir _ | IChdir _ => false
  end.
Fixpoint replaced (E : env) (p : string) (h l : list io) : bool :=
  match l with [] => false | e :: l' => puts E p h e || replaced E p (h ++ [e]) l' end.
Lemma replaced_app E p a : ∀ h b, replaced E p h (a ++ b) = replaced E p h a || replaced E p (h ++ a) b.
Proof.
  induction a as [|e a IH]; intros h b; cbn [replaced app]; [by rewrite app_nil_r|].
  by rewrite IH, <- app_assoc, orb_assoc.
Qed.
Lemma replaced_prepares E p m : ∀ h, forallb prepares m = true → replaced E p h m = false.
Proof.
  induction m as [|e m IH]; intros h; cbn [replaced forallb]; [done|]. intros [He Hm]%andb_true_iff.
  rewrite IH by done. by destruct e.
Qed.

Section build.
Context (E : env) (stb : kst) (rank : symbol → nat) (tbl : gmap (string * bool) symbol) (n : nat) (kv : symbol).
Context (HF : configured stb rank tbl n kv).
Let mv : tristate := k_modules_val stb.
Let V (x : symbol) : syminfo := value_of (k_syms stb) mv (S (rank x)) x.

(** The files of the symbols that are out of date, and the texts. *)
Definition stale_files : list string := omap (stale_path stb rank) (concat (k_hash stb)).
Definition auto_text : string := (auto_header E (version stb rank kv) +:+ all_text (fst <$> (auto_pair stb rank <$> concat (k_hash stb))))%string.
Definition head_text : string := (head_header E (version stb rank kv) +:+ all_text (snd <$> (auto_pair stb rank <$> concat (k_hash stb))))%string.
Definition final_steps : list io := [IWrite ".tmpconfig" auto_text; IWrite ".tmpconfig.h" head_text;
  IRename ".tmpconfig.h" (autoheader_name E); IRename ".tmpconfig" (autoconf_name E)].

(** What is done in the directory of the files. *)
Definition inside (m : list io) : list io := IChdir "include/config" :: m ++ [IChdir "../.."].
Record split_log (c c' : conf) (r : Z) (l m : list io) : Prop := {
  sg_log : c_io c' = c_io c ++ l;
  sg_where : l = [IChdir "include/config"] ∨ l = inside m;
  sg_only : forallb prepares m = true;
  sg_some : touches m `prefix_of` stale_files;
  sg_all : r = 0 → l = inside m ∧ touches m = stale_files ∧ worked E (c_io c) l = true }.
Lemma chdir_ok p Q c : (∀ c', c_k c' = c_k c → c_io c' = c_io c ++ [IChdir p] → Q (e_chdir E (c_io c) p) c') → wp (chdir E p) Q c.
Proof using. intros H. unfold chdir. apply wp_bind, wp_cget, wp_bind, wp_cupd, wp_ret, H; done. Qed.
Lemma inside_worked h m : e_chdir E h "include/config" = true → worked E (h ++ [IChdir "include/config"]) m = true →
  e_chdir E ((h ++ [IChdir "include/config"]) ++ m) "../.." = true → worked E h (inside m) = true.
Proof using. intros H1 H2 H3. unfold inside. cbn [worked works]. by rewrite H1, worked_app, H2; cbn [worked works]; rewrite H3. Qed.
Lemma split_ok c : kinv stb rank [] (c_k c) → Forall (splittable stb rank) (concat (k_hash stb)) →
  wp (split_rest E n) (λ r c', kinv stb rank [] (c_k c') ∧ ∃ l m, split_log c c' r l m) c.
Proof using HF.
  intros HK HS. unfold split_rest. apply wp_bind, chdir_ok. intros c1 K1 I1. destruct (e_chdir E (c_io c) _) eqn:C1; cbn [negb].
  2: { apply wp_ret. rewrite K1. split; [done|]. exists [IChdir "include/config"], []. constructor; [done|by left|done|apply prefix_nil|done]. }
  rewrite <- K1 in HK. apply wp_bind, wp_cget, wp_bind. rewrite (sd_hash _ _ _ (ki_started _ _ _ _ HK)).
  eapply wp_mono; [apply (split_symbols_ok E stb rank (cf_computable HF) (cf_cleared HF) n (cf_steps HF)); done|].
  intros ok c2 (HK2 & ps & (m & I2 & <- & F2 & W2) & Hps). apply wp_bind, chdir_ok. intros c3 K3 I3. apply wp_ret. rewrite K3. split; [done|].
  exists (inside m), m. constructor; [by rewrite I3, I2, I1, <- !app_assoc|by right|done|..]; destruct ok; try done; [by rewrite Hps|..];
    destruct (e_chdir E (c_io c2) _) eqn:C2; try done. intros _. split; [done|]. split; [done|].
  rewrite I2, I1 in C2. rewrite I1 in W2. by apply inside_worked; [|apply W2|].
Qed.

(** The end of [conf_write_autoconf]. *)
Definition autoconf_end : C Z :=
  h <- cget c_io;;
  if negb (e_writable E h ".tmpconfig") then ret 1
  else if negb (e_writable E h ".tmpconfig.h") then log_io (IWrite ".tmpconfig" EmptyString);;; ret 1
  else
    version <- kernel_version n;;
    l <- cget (λ c, concat (k_hash (c_k c)));;
    '(text, head) <- auto_symbols n l (auto_header E version) (head_header E version);;
    log_io (IWrite ".tmpconfig" text);;;
    log_io (IWrite ".tmpconfig.h" head);;;
    rename_to E ".tmpconfig.h" (autoheader_name E)
      (rename_to E ".tmpconfig" (autoconf_name E) (ret 0)).

(** What it does after the log [h]. *)
Record end_log (h : list io) (r : Z) (l : list io) : Prop := {
  el_steps : l `prefix_of` final_steps ∨ l = [IWrite ".tmpconfig" EmptyString];
  el_opened p text : IWrite p text ∈ l → e_writable E h p = true;
  el_done : r = 0 ↔ l = final_steps ∧ worked E h l = true;
  el_old : r ≠ 0 → autoconf_name E ∉ [".tmpconfig"; ".tmpconfig.h"; autoheader_name E]%string → replaced E (autoconf_name E) h l = false }.
Lemma end_cases h r l :
  (l = [] ∧ r = 1) ∨
  (e_writable E h ".tmpconfig" = true ∧ (
    (l = [IWrite ".tmpconfig" EmptyString] ∧ r = 1) ∨
    (e_writable E h ".tmpconfig.h" = true ∧ (
      (l = take 3 final_steps ∧ r = 1) ∨
      (l = final_steps ∧ e_rename E (h ++ take 2 final_steps) ".tmpconfig.h" (autoheader_name E) = true ∧
       r = if e_rename E (h ++ take 3 final_steps) ".tmpconfig" (autoconf_name E) then 0 else 1))))) →
  end_log h r l.
Proof using.
  clear HF. assert (∀ a : list io, a `prefix_of` final_steps → a `prefix_of` final_steps ∨ a = [IWrite ".tmpconfig" EmptyString]) as Hl by (by left).
  assert (∀ k, take k final_steps `prefix_of` final_steps) as Hp by (intros k; exists (drop k final_steps); by rewrite take_drop).
  assert (autoconf_name E ∉ [".tmpconfig"; ".tmpconfig.h"; autoheader_name E]%string →
    ".tmpconfig"%string ≠ autoconf_name E ∧ ".tmpconfig.h"%string ≠ autoconf_name E ∧ autoheader_name E ≠ autoconf_name E) as Hn3.
  { rewrite !not_elem_of_cons. intros (? & ? & ? & _). auto. }
  intros [[-> ->]|[H1 [[-> ->]|[H2 [[-> ->]|(-> & H3 & ->)]]]]].
  - constructor; [apply Hl, prefix_nil|by intros ? ? ?%elem_of_nil|by split; [|intros [? _]]|done].
  - constructor; [by right|by intros p text [= -> _]%list_elem_of_singleton|by split; [|intros [? _]]|].
    intros _ Hn. apply Hn3 in Hn as (N1 & _). cbn [replaced puts]. by rewrite (bool_decide_false _ N1).
  - constructor; [apply Hl, Hp| |by split; [|intros [? _]]|].
    + intros p text. cbn [take final_steps]. set_solver.
    + intros Hr Hn. apply Hn3 in Hn as (N1 & N2 & N3). cbn [replaced puts take final_steps].
      by rewrite (bool_decide_false _ N1), (bool_decide_false _ N2), (bool_decide_false _ N3).
  - constructor; [by left| | |].
    + intros p text. unfold final_steps. set_solver.
    + cbn [take final_steps] in H3. cbn [worked works final_steps]. rewrite <- !app_assoc. cbn [app]. rewrite H3, andb_true_r. cbn [andb take final_steps].
      destruct (e_rename E _ ".tmpconfig" _); split; intros H; [done|done|done|by destruct H].
    + intros Hr Hn. apply Hn3 in Hn as (N1 & N2 & N3). cbn [replaced puts final_steps].
      rewrite (bool_decide_false _ N1), (bool_decide_false _ N2), (bool_decide_false _ N3).
      rewrite <- !app_assoc. cbn [app]. revert Hr. cbn [take final_steps]. destruct (e_rename E _ ".tmpconfig" _); [done|]. intros _. cbn [orb andb].
      by rewrite andb_false_r.
Qed.
Lemma end_ok c : kinv stb rank [] (c_k c) →
  wp autoconf_end (λ r c', ∃ l, c_io c' = c_io c ++ l ∧ end_log (c_io c) r l) c.
Proof using HF.
  intros HK. unfold autoconf_end. apply wp_bind, wp_cget. destruct (e_writable _ _ ".tmpconfig") eqn:O1; cbn [negb].
  2: { apply wp_ret. exists []. rewrite app_nil_r. split; [done|]. apply end_cases. by left. }
  destruct (e_writable _ _ ".tmpconfig.h") eqn:O2; cbn [negb].
  2: { apply wp_bind, wp_cupd, wp_ret. eexists. split; [done|]. apply end_cases. right. split; [done|by left]. }
  apply wp_bind. eapply (kernel_version_new stb rank (cf_computable HF) (cf_cleared HF) tbl (cf_table HF) n (cf_steps HF) kv (cf_version HF)); [done|].
  intros st HK1. apply wp_bind, wp_cget, wp_bind. cbn [c_k set_k]. rewrite (sd_hash _ _ _ (ki_started _ _ _ _ HK1)).
  eapply wp_mono; [apply (auto_symbols_ok stb rank (cf_computable HF) (cf_cleared HF) n (cf_steps HF)); done|].
  intros r c1 (-> & _ & Hio). fold auto_text head_text. apply wp_bind, wp_cupd, wp_bind, wp_cupd.
  unfold rename_to. apply wp_bind, wp_cget, wp_bind, wp_cupd. cbn [c_io]. cbn [c_io set_k] in Hio. rewrite Hio, <- !app_assoc.
  destruct (e_rename _ _ ".tmpconfig.h" _) eqn:R1.
  2: { apply wp_ret. eexists. split; [reflexivity|]. apply end_cases. right. split; [done|]. right. split; [done|by left]. }
  apply wp_bind, wp_cget, wp_bind, wp_cupd. cbn [c_io]. rewrite <- !app_assoc. destruct (e_rename _ _ ".tmpconfig" _) eqn:R2; apply wp_ret;
    (eexists; split; [reflexivity|]); apply end_cases; right; (split; [done|]); right; (split; [done|]); right; (split; [done|]); (split; [exact R1|]);
    cbn [take final_steps]; cbn [app] in R2; by rewrite R2.
Qed.
End build.

Lemma write_autoconf_parts E n files junk c r0 c1 : before_split E n files junk c = Ok (r0, c1) →
  conf_write_autoconf E n files junk c = (r <- split_rest E n;; if bool_decide (r ≠ 0) then ret 1 else autoconf_end E n) c1.
Proof.
  unfold before_split, conf_write_autoconf, conf_split_config, read_auto, bind. intros H.
  destruct (onk (sym_clear_all_valid n) c) as [[[] c2]|]; [|done].
  destruct (file_write_dep E files (Some "include/config/auto.conf.cmd"%string) c2) as [[z c3]|]; [|done].
  by rewrite H.
Qed.

(** A run that succeeds. *)
Lemma autoconf_zero E stb rank tbl n kv files junk c r0 c1 c2 :
  configured stb rank tbl n kv → before_split E n files junk c = Ok (r0, c1) → kinv stb rank [] (c_k c1) →
  Forall (splittable stb rank) (concat (k_hash stb)) → conf_write_autoconf E n files junk c = Ok (0, c2) →
  ∃ m, c_io c2 = c_io c1 ++ inside m ++ final_steps E stb rank kv ∧ touches m = stale_files stb rank.
Proof.
  intros HF Hb HK HS. rewrite (write_autoconf_parts _ _ _ _ _ _ _ Hb).
  destruct (split_ok E stb rank tbl n kv HF c1 HK HS) as (r & c' & E1 & HK1 & l1 & m & [I1 _ _ _ A1]).
  rewrite (bind_ok _ _ _ r c') by done. destruct (decide (r = 0)) as [->|Hr]; [|by rewrite bool_decide_true].
  rewrite bool_decide_false by auto. destruct (end_ok E stb rank tbl n kv HF c' HK1) as (r3 & c3 & -> & l2 & I2 & [_ _ H3 _]).
  intros [= -> ->]. destruct (A1 eq_refl) as (-> & Hm & _). exists m. split; [|done]. by rewrite I2, I1, (proj1 (proj1 H3 eq_refl)), <- app_assoc.
Qed.

(** C25: conf_write_autoconf, from the state in which it has read the last
    auto.conf, first touches the files of the symbols whose values are not
    those of that file, in the order of the table, and only when this worked
    for all of them does it write, into files that it could open: the new
    auto.conf and autoconf.h hold one line for each symbol that is saved, with
    the value of the reference equations, and auto.conf is replaced last.  It
    returns 0 exactly if everything was done and worked, the renames included;
    otherwise nothing has taken the place of the old auto.conf (whose name is
    not that of another file of the build). *)
Theorem conf_write_autoconf_reference E stb rank tbl n kv files junk c r0 c1 :
  configured stb rank tbl n kv → before_split E n files junk c = Ok (r0, c1) → kinv stb rank [] (c_k c1) →
  Forall (splittable stb rank) (concat (k_hash stb)) →
  ∃ r c2 l1 l2 m, conf_write_autoconf E n files junk c = Ok (r, c2) ∧ c_io c2 = c_io c1 ++ l1 ++ l2 ∧
    (l1 = [IChdir "include/config"%string] ∨ l1 = inside m) ∧ forallb prepares m = true ∧ touches m `prefix_of` stale_files stb rank ∧
    (l2 ≠ [] → l1 = inside m ∧ touches m = stale_files stb rank ∧ worked E (c_io c1) l1 = true) ∧
    (l2 `prefix_of` final_steps E stb rank kv ∨ l2 = [IWrite ".tmpconfig" ""%string]) ∧
    (∀ p text, IWrite p text ∈ l2 → e_writable E (c_io c1 ++ l1) p = true) ∧
    (r = 0 ↔ l2 = final_steps E stb rank kv ∧ worked E (c_io c1) (l1 ++ l2) = true) ∧
    (r ≠ 0 → autoconf_name E ∉ [".tmpconfig"; ".tmpconfig.h"; autoheader_name E]%string →
      replaced E (autoconf_name E) (c_io c1) (l1 ++ l2) = false).
Proof.
  intros HF Hb HK HS. rewrite (write_autoconf_parts _ _ _ _ _ _ _ Hb).
  destruct (split_ok E stb rank tbl n kv HF c1 HK HS) as (r & c2 & E2 & HK2 & l1 & m & [I1 W1 F1 P1 A1]).
  assert (∀ p h, replaced E p h l1 = false) as Hold.
  { intros p h. destruct W1 as [->| ->]; [done|]. unfold inside. cbn [replaced puts orb]. rewrite replaced_app, replaced_prepares; done. }
  rewrite (bind_ok _ _ _ r c2) by done. case_bool_decide as Hz.
  - exists 1, c2, l1, [], m. rewrite app_nil_r. do 6 (split; [done|]). split; [left; apply prefix_nil|].
    split; [by intros ? ? ?%elem_of_nil|]. split; [by split; [|intros [? _]]|auto].
  - assert (r = 0) as -> by (by destruct (decide (r = 0))). destruct (A1 eq_refl) as (H1 & Ht & Hw).
    destruct (end_ok E stb rank tbl n kv HF c2 HK2) as (r3 & c3 & E3 & l2 & I2 & [H2 Ho H3 H4]). rewrite I1 in *. exists r3, c3, l1, l2, m.
    split; [done|]. split; [by rewrite I2, app_assoc|]. do 3 (split; [done|]). split; [done|]. split; [done|]. split; [done|].
    rewrite worked_app, Hw. split; [done|]. intros Hr Hn. rewrite replaced_app, Hold. by apply H4.
Qed.

(** ** An example *)

(** FOO and BAR have other values than in the last auto.conf, and NAME is not in it. *)
Definition old_auto : string := join ["#"; "CONFIG_MODULES=y"; "CONFIG_FOO=y"; "CONFIG_NUM=10"; "CONFIG_KERNELVERSION=" +:+ quoted "2.6.19"]%string.
Definition build_env : env := Env (λ _, None)
  (λ _ p, if bool_decide (p = "include/config/auto.conf"%string) then Some old_auto else None)
  (λ _ _, false) (λ _ _, false) (λ _ _, true) (λ _ _ _, true)
  (λ _ _, true) (λ _ _, true) (λ _ _, OpenOk) "1" ("Wed Nov 29 21:57:37 2006" +:+ newline).
Definition after {A} (m : C A) (c : conf) : conf := match m c with Ok (_, c') => c' | Err _ => c end.
(** The symbols after the lines of auto.conf. *)
Definition built_demo : kst := Eval vm_compute in c_k (after (onk (sym_clear_all_valid 30);;; file_write_dep build_env [] None;;;
  onk (for_all_symbols (λ s, mod_sym s (clear_def DefAuto)));;; read_lines DefAuto (lines_of old_auto) "") saved_conf).

Lemma built_configured : ∃ tbl, configured built_demo saved_rank tbl 30 VERSION.
Proof.
  destruct saved_indexes as (tbl & HI & Hv). exists tbl. constructor.
  - apply computable_decided; [decided|reflexivity..].
  - apply cleared_decided; decided.
  - intros m Em. vm_compute in Em. injection Em as <-. split; [decided|vm_compute; reflexivity].
  - apply (indexes_same saved_demo); [exact HI|vm_compute; reflexivity|].
    assert (key_of <$> k_syms built_demo = key_of <$> k_syms saved_demo) as H by (vm_compute; reflexivity).
    intros x. apply (f_equal (.!! x)) in H. by rewrite !lookup_fmap in H.
  - exact Hv.
  - vm_compute. lia.
Qed.
Definition splittable_b (stb : kst) (rank : symbol → nat) (x : symbol) : bool :=
  bool_decide (x ∈ concat (k_hash stb)) &&
  match k_syms stb !! x with
  | Some y => negb (has SYMBOL_DEF_AUTO y) || is_bool_type (y_type y) || is_str (v_val (y_auto y))
  | None => true
  end &&
  match stale_path stb rank x with Some p => bool_decide (String.length p < PATH_SIZE)%nat | None => true end.
Lemma splittable_decided stb rank x : splittable_b stb rank x = true → splittable stb rank x.
Proof.
  intros [[H1 H2]%andb_true_iff H3]%andb_true_iff. apply bool_decide_eq_true in H1. constructor; [done|..].
  - intros y Ey Ha Hb. rewrite Ey, Ha, Hb in H2. done.
  - intros p Hp. rewrite Hp in H3. by apply bool_decide_eq_true in H3.
Qed.
Lemma built_splittable : Forall (splittable built_demo saved_rank) (concat (k_hash built_demo)).
Proof.
  assert (forallb (splittable_b built_demo saved_rank) (concat (k_hash built_demo)) = true) as H by (vm_compute; reflexivity).
  apply Forall_forall. intros x Hx. rewrite forallb_forall in H. apply splittable_decided, H. by apply list_elem_of_In.
Qed.
Definition built_conf : conf := Eval vm_compute in after (before_split build_env 30 [] "") saved_conf.
Lemma built_kinv : kinv built_demo saved_rank [] (c_k built_conf).
Proof.
  destruct built_configured as (tbl & HF). destruct (start_kinv built_demo saved_rank (cf_computable HF) (cf_cleared HF) (cf_agrees HF) 30) as ([] & st & Es & HK).
  { vm_compute. lia. }
  assert (c_k built_conf = left_by (start 30) built_demo) as -> by (vm_compute; reflexivity). unfold left_by. by rewrite Es.
Qed.
Lemma conf_write_autoconf_reference_witness :
  ∃ r c2 l1 l2 m, conf_write_autoconf build_env 30 [] "" saved_conf = Ok (r, c2) ∧ c_io c2 = c_io built_conf ++ l1 ++ l2 ∧
    touches m `prefix_of` ["name.h"; "bar.h"; "foo.h"]%string ∧
    (r = 0 ↔ l2 = [IWrite ".tmpconfig" (auto_text build_env built_demo saved_rank VERSION);
       IWrite ".tmpconfig.h" (head_text build_env built_demo saved_rank VERSION);
       IRename ".tmpconfig.h" "include/linux/autoconf.h"; IRename ".tmpconfig" "include/config/auto.conf"] ∧ worked build_env (c_io built_conf) (l1 ++ l2) = true).
Proof.
  destruct built_configured as (tbl & HF).
  destruct (conf_write_autoconf_reference build_env built_demo saved_rank tbl 30 VERSION [] "" saved_conf 0 built_conf HF)
    as (r & c2 & l1 & l2 & m & Ec & Hio & _ & _ & Ht & _ & _ & _ & Hr & _).
  - vm_compute. reflexivity.
  - exact built_kinv.
  - exact built_splittable.
  - exists r, c2, l1, l2, m. split; [exact Ec|]. split; [exact Hio|]. split; [|exact Hr].
    assert (stale_files built_demo saved_rank = ["name.h"; "bar.h"; "foo.h"]%string) as Hs by (vm_compute; reflexivity). rewrite <- Hs. exact Ht.
Defined.
