(* ===== verification/Rebuild.v ===== *)
(** * Changed symbols and the objects that use them

    fixdep (scripts/basic/fixdep.c) makes an object depend on the files of the
    symbols that its sources use, and conf_write_autoconf
    (scripts/kconfig/confdata.c) touches the files of the symbols whose values
    changed: the two programs have only the names of the files in common. *)

From stdpp Require Import base numbers list option strings gmap.
From Stdlib Require Import Ascii.
From S2P Require Import Prelude CString Sumversion Fixdep FixdepInv FixdepThm.
From S2P Require Import KExpr KSymbol KSymbolEnds KSymbolCheck KSymbolTable KSymbolRef KSymbolCalc KSymbolSet KSymbolThm.
From S2P Require Import KConf KConfWrite KConfSave KConfThm KConfSplit KConfBuild.
Local Open Scope Z_scope.

(** ** The names of the files *)

(** Both programs derive the same name from that of a symbol. *)
Lemma path_same nm : config_path (bytes nm) ++ bytes ".h" = bytes (symbol_path nm).
Proof.
  unfold symbol_path. rewrite bytes_app. f_equal. induction nm as [|a nm IH]; [done|].
  change (config_path (bytes (String a nm))) with
    ((if bool_decide (Z.of_nat (nat_of_ascii a) = 95) then 47 else tolower (Z.of_nat (nat_of_ascii a))) :: config_path (bytes nm)).
  cbn [path_chars]. rewrite IH. unfold bytes. cbn [String.list_ascii_of_string fmap list_fmap]. f_equal.
  by destruct a as [[] [] [] [] [] [] [] []].
Qed.

Lemma touched_in p l : p ∈ touches l → ITouch p ∈ l.
Proof. intros (e & He & Hp)%list_elem_of_omap. destruct e; try done. by injection Hp as ->. Qed.

(** C24: An object is built again when a symbol that it uses changes: if
    conf_write_autoconf succeeds and the value of a symbol is not the one of the
    last auto.conf, it touches a file in include/config, before it replaces
    auto.conf; and for every object one of whose sources uses the symbol, fixdep
    has printed a dependency on just that file. *)
Theorem changed_symbol_rebuilds E stb rank tbl n kv files junk c r0 c1 c2 x y nm realloc_ok fs prog depfile target cmdline text ds d :
  configured stb rank tbl n kv → before_split E n files junk c = Ok (r0, c1) → kinv stb rank [] (c_k c1) →
  Forall (splittable stb rank) (concat (k_hash stb)) → conf_write_autoconf E n files junk c = Ok (0, c2) →
  x ∈ concat (k_hash stb) → k_syms stb !! x = Some y → has SYMBOL_AUTO y = false → y_name y = Some nm → out_of_date stb rank x y = true →
  (∀ z, realloc_ok z = true) → fs depfile = Text text → dep_list fs text ds →
  d ∈ ds → excluded d = false → bytes nm ∈ file_names (fs d) →
  ∃ p m s a b,
    c_io c2 = c_io c1 ++ (IChdir "include/config" :: m ++ [IChdir "../.."]) ++ final_steps E stb rank kv ∧ ITouch p ∈ m ∧
    main realloc_ok fs [prog; depfile; target; cmdline] (Fix [] 0 []) = FOk 0 s ∧
    f_out s = a ++ bytes ("    $(wildcard include/config/" +:+ p +:+ ") \") ++ nl ++ b.
Proof.
  intros HF Hb HK HS Ha Hx Ey Hau Hnm Hout Hre Hdf HL Hd Hex Huse. exists (symbol_path nm).
  destruct (autoconf_zero _ _ _ _ _ _ _ _ _ _ _ _ HF Hb HK HS Ha) as (m & Hio & Hm). exists m.
  destruct (main_ok realloc_ok fs Hre prog depfile target cmdline text ds Hdf HL) as (s & Es & _ & Ho). exists s.
  destruct (wildcard_printed fs ds [] (bytes nm)) as (a & b & Hw).
  { apply deps_names_in. right. by exists d. } { apply not_elem_of_nil. }
  rewrite Ho, Hw. unfold target_out, wildcard. rewrite !bytes_app, <- path_same.
  eexists (cmd_out target cmdline ++ bytes "deps_" ++ target ++ bytes " := \" ++ nl ++ a), _. split; [done|]. split.
  - apply touched_in. rewrite Hm. apply list_elem_of_omap. exists x. split; [done|]. unfold stale_path. by rewrite Ey, Hau, Hnm, Hout.
  - split; [done|]. rewrite <- !app_assoc. repeat f_equal.
Qed.

(** The source a.c of the example uses FOO, whose value is not the one of auto.conf. *)
Definition foo_source : list Z := bytes "#ifdef CONFIG_FOO" ++ nl.
Definition built_end : conf := Eval vm_compute in after (conf_write_autoconf build_env 30 [] "") saved_conf.
Lemma changed_symbol_rebuilds_witness : ∃ p m s a b,
  c_io built_end = c_io built_conf ++ (IChdir "include/config" :: m ++ [IChdir "../.."]) ++ final_steps build_env built_demo saved_rank VERSION ∧
  ITouch p ∈ m ∧
  main (λ _, true) (demo_files foo_source) [bytes "fixdep"; bytes "a.d"; bytes "a.o"; bytes "gcc"] (Fix [] 0 []) = FOk 0 s ∧
  f_out s = a ++ bytes ("    $(wildcard include/config/" +:+ p +:+ ") \") ++ nl ++ b.
Proof.
  destruct built_configured as (tbl & HF).
  refine (changed_symbol_rebuilds build_env built_demo saved_rank tbl 30 VERSION [] "" saved_conf 0 built_conf built_end FOO _ "FOO"
    (λ _, true) (demo_files foo_source) (bytes "fixdep") (bytes "a.d") (bytes "a.o") (bytes "gcc") demo_list demo_deps (bytes "a.c") HF
    _ built_kinv built_splittable _ _ _ _ _ _ _ _ _ _ _ _).
  - vm_compute. reflexivity.
  - vm_compute. reflexivity.
  - decided.
  - vm_compute. reflexivity.
  - vm_compute. reflexivity.
  - vm_compute. reflexivity.
  - vm_compute. reflexivity.
  - reflexivity.
  - reflexivity.
  - apply demo_listed; [vm_compute; reflexivity|]. unfold fits. vm_compute. intros H. discriminate H.
  - decided.
  - vm_compute. reflexivity.
  - decided.
Defined.
